(* ===== verification/_CoqProject ===== *)
-Q . S2P
Prelude.v
KvsSpec.v
KvsArray.v
KvsHash.v
RbTree.v
RbInv.v
RbProof.v
RbDelete.v
RbEngine.v
SkipList.v
SkipProof.v
CText.v
CacheModel.v
CacheSpec.v
CacheList.v
CacheLru.v
CacheLfu.v
CacheArc.v
CachePolicies.v
CacheStats.v
StatsProof.v
Rdb.v
RdbProof.v
Vector.v
VectorProof.v
VectorSearch.v
Protocol.v
Requests.v
Dispatch.v
Engines.v
Session.v
Background.v
Limits.v
Netio.v
Reactor.v
ReactorProof.v
ReactorLive.v
NetTypes.v
Clients.v
Isolation.v
ReactorLimits.v
Proactor.v
ProactorProof.v
NtySched.v
NtyRules.v
Ntyco.v
NtycoProof.v
NtyClients.v
NtySocket.v
TestProgram.v
TestProof.v
TestRuns.v
