(* ===== verification/Prelude.v ===== *)
(** LiteMultiKV: a verification development.

    * The program

    LiteMultiKV is a key-value server in C.  A network loop hands each received
    buffer to [kvs_protocol] (src/src/common/kvstore.c), which splits it into
    tokens, puts the connection's namespace in front of the key, and runs one
    command on one of five engines: an array (kvs_array.c), a chained hash table
    (kvs_hash.c), a red-black tree (kvs_rbtree.c), a skip list
    (kvs_skiptable.c) and a store of vectors with nearest-neighbour search
    (kvs_vector.c).  GET goes through an eviction cache with the policies LRU,
    LFU and ARC (cache/kvs_cache.c); SAVE and BGSAVE write the four maps to a
    dump file, the start of the process reads it (persist/kvs_rdb.c).

    * How the code is modelled

    C code is a function of the monad [M S] below, over the state [S] of its
    component and an environment [env] of what comes from outside: which
    allocations fail, the numbers of rand, the readings of the clocks; the
    environment also counts the blocks in use.  A run returns, reaches undefined
    behaviour ([UB]: null, dangling, uninitialised or out-of-range access, double
    free, overflow of an int, overrun of a buffer) or runs out of fuel.  The
    assertions [wp m e s Q] are total: they exclude both.  A pointer to a string
    is a [cptr]; linked structures live in heaps ([gmap] from locations to
    nodes) and are changed by the same loads and stores as in the code.  An int
    is a [Z] with its range checked, unsigned long wraps around, char is signed,
    float is binary32.  Global variables are fields of the component's state.

    * The files

    - Prelude: the monad, its rules and tactics, the C library, strings, heaps
      as lists of cells, sorted lists.
    - KvsSpec: the contract of an engine (class [KVEngine]), the finite map that
      specifies it, and what follows for whole lives of an engine.
    - KvsArray, KvsHash: array and hash engine, model and proofs.
    - RbTree (model of kvs_rbtree.c), RbInv (pure trees, contexts, colours),
      RbProof (rotations, insertion), RbDelete (deletion), RbEngine (the engine).
    - SkipList (model of kvs_skiptable.c), SkipProof.
    - CText: floating point, number formats, atoi, atof, strtok.
    - CacheModel (model of kvs_cache.c: lists, heap, policies), CacheSpec (the
      contract of a policy, class [CacheContract]), CacheList (doubly linked
      lists), CacheLru, CacheLfu, CacheArc (the three policies), CachePolicies
      (the policies as data; a new cache is ready for each).
    - CacheStats (model of the statistics and the advice), StatsProof.
    - Rdb (model of kvs_rdb.c on a disk whose calls may fail), RdbProof.
    - Vector (model of kvs_vector.c), VectorProof, VectorSearch.
    - Protocol (model of kvstore.c: tokens, namespaces, all commands, start and
      end of the process), Requests (tokens and keys), Dispatch (the commands of
      an engine behind the cache, against the two contracts), Engines (requests
      as text to the four engines, which share the cache: a map from keys to values
      and the engines that hold them), Session (sessions from the start of the process), Background (BGSAVE),
      Limits (where the composition falls short).
    - Netio: byte arrays, the message handler as the network loops see it, and
      [kvs_protocol] as that handler, with the tokenizer that works in place.
    - Reactor (model of reactor.c and of [struct conn] in server.h),
      ReactorProof (an abstract server of connections with a namespace and a
      reply owed, and the proof that the loop implements it for any handler),
      ReactorLive (endless executions), NetTypes (sizes of the arrays, class
      [TypedHandler]), Clients ([main]; many clients on one map), Isolation (a
      client among others), ReactorLimits (what the loop does not cover).
    - Proactor (model of proactor.c), ProactorProof.
    - NtySched (model of the coroutine library in NtyCo/core: coroutines,
      scheduler, waiting for descriptors, hooks of the socket calls), NtyRules (the
      invariant of the scheduler and the rules of its operations), NtySocket (the
      other calls of nty_socket.c, and what every call does in a coroutine), Ntyco
      (model of ntyco.c as coroutines), NtycoProof (the abstract server it implements),
      NtyClients (from [main] on; what breaks it).
    - TestProgram (model of the test program, tests/testcase.c: a client that may
      exit), TestProof (it passes against every server that meets the interface
      [TestServer]), TestRuns (the three builds as the other end of its connection).

    * What the theorems show

    - Engines: over creation, any operations and destruction each engine returns,
      without undefined behaviour, answers as a finite map, and gives back every
      block ([array_lifecycle_refines], [hash_lifecycle_refines],
      [rbtree_lifecycle_refines], [skip_lifecycle_refines],
      [vector_lifecycle_refines]).  The tree stays a red-black tree of
      logarithmic height ([rbtree_balanced]) and is traversed in order
      ([rbtree_traversal_sorted]).  The vector search is exact for up to 128
      vectors of the full dimension ([vector_search_exact]); the greedy search that nothing calls stops where
      it should ([greedy_search_stops]).
    - Cache: LRU, LFU and ARC refine their policies on lists, maps with counters
      and four lists ([lru_cache_refines], [lfu_cache_refines],
      [arc_cache_refines]), and all three meet the contract the dispatcher relies
      on.  The contract counts the calls a cache can still take, since under ARC
      only their number bounds the lists: 2^31 less the slots that are in use;
      the other two take any number.  The statistics stay in their arrays and ranges
      ([record_access_safe], [shift_window_spec], [thresholds_in_range]).
    - Persistence: on any disk a save leaves the old file intact or replaces it at once,
      and changes nothing else; the code does not notice that bytes of an integer or the
      end mark were not written, so the new file may lack those, and only those
      ([rdb_save_atomic]).  A load restores what a save wrote on a disk that does not
      fail, for keys and values that are not empty, no longer than a megabyte and without
      NUL ([rdb_roundtrip]).
    - Server: requests as text to the four engines are answered as one finite map
      of the namespace's keys, under each policy, as long as no key is asked of an
      engine while another holds it ([server_session_refines]), also after SAVE and a restart
      ([restart_restores]); a BGSAVE saves the moment at which it was asked for
      ([background_save_restores]), both when what is saved can be loaded; the tokenizer inverts the printing of
      requests ([split_token_roundtrip]), values stay in their buffers
      ([join_tokens_spec]), namespaces do not share keys ([namespaces_isolated]).
    - Network: the event loop implements the abstract server for any handler and
      any behaviour of the kernel ([reactor_refines]), answers every request
      ([every_request_is_answered]); choosing a namespace stays inside its array
      ([namespace_request_fits]), and no run that does not fail changes the size of an array
      ([server_arrays_typed]); from [main] on, any number of clients in any order
      get what one finite map with a namespace per connection gives
      ([clients_served]), and a client in its own namespace does not notice others whose
      full keys do not begin with its name and a colon ([clients_isolated]).  The coroutine server does the same under its
      scheduler, with replies that leave in pieces, as long as a client is accepted
      by the last event of a batch ([ntyco_refines], [ntyco_clients_served]), and every
      call of nty_socket.c returns what a call that blocks would
      ([coroutine_calls_return]), or aborts on errors recvfrom and sendto do not know
      ([other_errors_abort]); the
      io_uring server does for one client whose requests do not get shorter
      ([proactor_session_refines]).  The repository's own test program passes against
      the first two ([test_program_passes], [ntyco_passes_tests]); it is the case of
      one client, with loops of 10000 rounds.  The tokenizer
      that writes NULs into the request is the one on texts
      ([tokenizer_in_place]).
    - Where the code falls short, as theorems on the same definitions:
      [cache_crosses_engines], [policy_switch_stale], [lfu_delete_loses_order],
      [arc_exceeds_capacity], [short_vectors_undefined], [rdb_load_truncated],
      [rdb_empty_value_lost], [advice_refused], [policy_name_overflows],
      [missing_key_formats_null], [namespaces_overlap], [long_reply_overreads],
      [pipelined_requests_merge], [reactor_overruns], [proactor_mixes_requests],
      [io_uring_fails_tests], [ntyco_breaks], [woken_sleeper_stays].

    * The kernel

    The system calls of the loops are functions on a state of the kernel: open
    descriptors, the interest list of epoll, the queues of the ring, the bytes
    handed to send.  Coroutines run from one wait to the next: a state of the
    scheduler, a program for every coroutine, and turns of nty_schedule_run with the
    events they handle.  What the kernel decides (which events it reports, the
    descriptors, bytes and counts it returns) comes with each event and is
    arbitrary; the theorems name what they need of it: epoll_wait reports what is
    in the interest list and every descriptor once per batch ([legal]), accept
    returns descriptors that are not in use, and, where replies must arrive
    whole, send takes them whole.  The bytes of a receive and the completions of
    the ring may be anything.

    * Fuel and bounds

    Loops over a counter use [for_up] or structural recursion.  Loops that follow
    pointers get the number of nodes in the heap plus one (or the text's length
    plus one, the size of the LFU heap, the number of layers): the structure
    invariants make every step visit another node, and the [wp] rules of the
    loops prove that the fuel is enough.  The first two loops of the coroutine
    scheduler get one unit more than there are sleeping, respectively ready,
    coroutines at their start.  Hypotheses on sizes in the theorems
    are those of the code's own types and arrays: 12000 items of the array
    engine, int counters, 100000 vectors, 1024 bytes of a response.

    * What is assumed

    x86-64 (signed char, 32-bit int, 64-bit long, binary32 floats without excess
    precision); a read of a regular file returns the bytes there are; a response
    buffer of [RESPONSE_MAX_LEN] bytes, as all the network loops have; the
    float values of exp at the 16 levels of the vector index are a table
    ([Vector.thresholds]).  The theorems on the engines and the server say for
    which keys they hold ([hash_key_ok]: the byte sum stays a valid index) and
    that memory does not run out ([no_oom]) where the code does not survive it.
    In the coroutine server: the compiler keeps the variable cli_fd in one place of
    the frame of server, and server_reader reads it before it writes there; fcntl
    on a new socket and the reallocation of a saved stack succeed; gettimeofday
    reads one time per turn of the scheduler; its epoll_wait does not fail (an interrupted
    one is repeated, any other failure ends the process).

    * What is not modelled

    Of the NtyCo library: the switch of contexts itself (the stack the coroutines
    share is known by the coroutine whose frames it holds), the macros of its trees
    and queues (finite maps by the key of the comparison, and lists), the pages of the
    stacks (madvise, the rounding of sizes), what a hook does when there is no scheduler
    (the system call), the samples.
    Signals (send to a closed connection raises SIGPIPE).  The kernel completes operations of the ring between two turns of the
    io_uring loop, not in the middle of one.  The test program is run as the only
    client; what it sends arrives whole, and it waits for one reply at a time.  The
    tests, clients and benchmarks in other languages are not modelled.  BGSAVE is modelled as a copy of the state that a child saves;
    what a child writes to the disk at the same time as its parent is not
    interleaved. *)
From stdpp Require Export gmap strings sorting prelude.

#[export] Set Warnings "-clear-no-such-hyp".

(** * Outcomes, the environment and the effect monad *)

(** The result of running a piece of C code: it returns, it reaches undefined
    behaviour (a null, dangling or out-of-range access, a signed overflow), or
    the fuel given to one of its loops runs out. *)
Inductive outcome (A : Type) : Type :=
  | Ret (a : A)
  | UB
  | OutOfFuel.
Arguments Ret {A} _.
Arguments UB {A}.
Arguments OutOfFuel {A}.

(** What the program receives from outside: the verdicts of the coming
    [malloc] calls ([true] means failure, an exhausted list means success), the
    coming results of [rand], the coming readings of the monotonic clock
    ([tv_sec], [tv_nsec]) and of [time(NULL)].  [live] counts the blocks that
    are allocated and not yet freed. *)
Record env := Env {
  mallocs : list bool;
  rands : list Z;
  clocks : list (Z * Z);
  walls : list Z;
  live : Z
}.

Definition set_mallocs (l : list bool) (e : env) : env :=
  Env l (rands e) (clocks e) (walls e) (live e).
Definition set_rands (l : list Z) (e : env) : env :=
  Env (mallocs e) l (clocks e) (walls e) (live e).
Definition set_clocks (l : list (Z * Z)) (e : env) : env :=
  Env (mallocs e) (rands e) l (walls e) (live e).
Definition set_walls (l : list Z) (e : env) : env :=
  Env (mallocs e) (rands e) (clocks e) l (live e).
Definition set_live (z : Z) (e : env) : env :=
  Env (mallocs e) (rands e) (clocks e) (walls e) z.
Definition add_live (d : Z) (e : env) : env := set_live (live e + d) e.

(** Stateful code over a state [S]. *)
Definition M (S A : Type) : Type := env → S → outcome (A * env * S).

Global Instance M_ret S : MRet (M S) := λ A a e s, Ret (a, e, s).
Global Instance M_bind S : MBind (M S) := λ A B k m e s,
  match m e s with
  | Ret (a, e', s') => k a e' s'
  | UB => UB
  | OutOfFuel => OutOfFuel
  end.

Definition ub {S A} : M S A := λ _ _, UB.
Definition out_of_fuel {S A} : M S A := λ _ _, OutOfFuel.
Definition get_st {S} : M S S := λ e s, Ret (s, e, s).
Definition gets {S A} (f : S → A) : M S A := λ e s, Ret (f s, e, s).
Definition put_st {S} (s' : S) : M S unit := λ e _, Ret (tt, e, s').
Definition modify {S} (f : S → S) : M S unit := λ e s, Ret (tt, e, f s).
Definition some_or_ub {S A} (o : option A) : M S A :=
  match o with Some a => mret a | None => ub end.

(** Running code of one component on the state of the whole program. *)
Definition zoom {S T A} (get : T → S) (set : S → T → T) (m : M S A) : M T A :=
  λ e t, match m e (get t) with
         | Ret (a, e', s') => Ret (a, e', set s' t)
         | UB => UB
         | OutOfFuel => OutOfFuel
         end.

(** [for (int i = lo; i < lo + n; i++) body]: the body answers [Some r] to leave
    the loop early (a [return] or a [break] inside it). *)
Fixpoint for_up {S R} (n : nat) (i : Z) (body : Z → M S (option R)) : M S (option R) :=
  match n with
  | O => mret None
  | S n' =>
      r ← body i;
      match r with
      | Some x => mret (Some x)
      | None => for_up n' (i + 1)%Z body
      end
  end.

(** * Pointers *)

(** A [char *] (or [void *] holding a string): null, the owner of a valid
    NUL-terminated string, or a pointer to a freed block. *)
Inductive cptr : Type :=
  | PNull
  | PStr (s : string)
  | PFreed.

Global Instance cptr_eq_dec : EqDecision cptr.
Proof. solve_decision. Defined.

Definition is_null (p : cptr) : bool :=
  match p with PNull => true | _ => false end.

(** A pointer to the single instance of a component: [NULL] or [&global]. *)
Inductive instance : Type :=
  | INull
  | IGlobal.

Definition inst_null (i : instance) : bool :=
  match i with INull => true | IGlobal => false end.

(** A pointer to a heap node: [NULL] is [None]. *)
Abbreviation loc := positive.
Abbreviation nptr := (option positive).

(** * The C library *)

(** [strcmp] on the contents of two strings.  Only the sign of the result is
    specified by C; bytes compare as [unsigned char]. *)
Definition strcmp (s t : string) : Z :=
  match String.compare s t with Eq => 0 | Lt => -1 | Gt => 1 end.

(** Reading the string behind a pointer; null and dangling pointers are
    undefined behaviour. *)
Definition deref {S} (p : cptr) : M S string :=
  match p with PStr s => mret s | _ => ub end.

(** [malloc], [calloc]: whether the call succeeds. *)
Definition malloc_fails (e : env) : bool :=
  match mallocs e with true :: _ => true | _ => false end.
Definition after_malloc (e : env) : env :=
  let e' := set_mallocs (tail (mallocs e)) e in
  if malloc_fails e then e' else add_live 1 e'.
Definition malloc_ok {S} : M S bool := λ e s,
  Ret (negb (malloc_fails e), after_malloc e, s).

(** [free] of a block that is known to be live. *)
Definition free_block {S} : M S unit := λ e s, Ret (tt, add_live (-1) e, s).

(** [kvs_free] of a string pointer: null is ignored, a second free is
    undefined behaviour. *)
Definition kvs_free {S} (p : cptr) : M S unit :=
  match p with
  | PNull => mret tt
  | PStr _ => free_block
  | PFreed => ub
  end.

(** [kvs_strdup]: kvstore.c, [kvs_strdup]. *)
Definition kvs_strdup {S} (p : cptr) : M S cptr :=
  match p with
  | PNull => mret PNull
  | PFreed => ub
  | PStr s =>
      ok ← malloc_ok;
      mret (if ok : bool then PStr s else PNull)
  end.

(** [kvs_malloc(strlen(s) + 1)] filled with a copy of [s]. *)
Definition malloc_copy {S} (p : cptr) : M S cptr :=
  s ← deref p;
  ok ← malloc_ok;
  mret (if ok : bool then PStr s else PNull).

(** [rand()] in [0 .. RAND_MAX]. *)
Definition RAND_MAX : Z := 2147483647.
Definition rand {S} : M S Z := λ e s,
  match rands e with
  | r :: rs => Ret (r `mod` (RAND_MAX + 1), set_rands rs e, s)%Z
  | [] => Ret (0%Z, e, s)
  end.

(** [clock_gettime(CLOCK_MONOTONIC)]. *)
Definition clock_gettime {S} : M S (Z * Z) := λ e s,
  match clocks e with
  | t :: ts => Ret (t, set_clocks ts e, s)
  | [] => Ret ((0, 0)%Z, e, s)
  end.

(** [time(NULL)]. *)
Definition wall_time {S} : M S Z := λ e s,
  match walls e with
  | t :: ts => Ret (t, set_walls ts e, s)
  | [] => Ret (0%Z, e, s)
  end.

(** Signed 32-bit arithmetic: a result out of range is undefined behaviour. *)
Definition INT_MAX : Z := 2147483647.
Definition INT_MIN : Z := -2147483648.
Definition ck_int {S} (z : Z) : M S Z :=
  if decide (INT_MIN ≤ z ≤ INT_MAX)%Z then mret z else ub.

(** The conversion of a wider or unsigned integer to [int]. *)
Definition to_int (z : Z) : Z := ((z + 2 ^ 31) mod 2 ^ 32 - 2 ^ 31)%Z.

(** * Total-correctness assertions *)

(** [wp m e s Q]: run from [e] and [s], [m] returns (it neither reaches
    undefined behaviour nor runs out of fuel) with a result in [Q]. *)
Definition wp {S A} (m : M S A) (e : env) (s : S) (Q : A → env → S → Prop) : Prop :=
  match m e s with
  | Ret (a, e', s') => Q a e' s'
  | _ => False
  end.

(** No [malloc] fails from here on. *)
Definition no_oom (e : env) : Prop := Forall (λ b, b = false) (mallocs e).

(** ** Rules of the calculus *)

Section wp_rules.
Context {S : Type}.
Implicit Types (e : env) (s : S).

Lemma wp_ret {A} (a : A) e s Q : Q a e s → wp (mret a : M S A) e s Q.
Proof. done. Qed.

Lemma wp_bind {A B} (m : M S A) (k : A → M S B) e s Q :
  wp m e s (λ a e' s', wp (k a) e' s' Q) → wp (m ≫= k) e s Q.
Proof.
  unfold wp, mbind, M_bind. destruct (m e s) as [[[a e'] s']| |]; done.
Qed.

Lemma wp_bind_inv {A B} (m : M S A) (k : A → M S B) e s Q :
  wp (m ≫= k) e s Q → wp m e s (λ a e' s', wp (k a) e' s' Q).
Proof. unfold wp, mbind, M_bind. by destruct (m e s) as [[[a e'] s']| |]. Qed.

Lemma wp_mono {A} (m : M S A) e s (P Q : A → env → S → Prop) :
  wp m e s P → (∀ a e' s', P a e' s' → Q a e' s') → wp m e s Q.
Proof.
  unfold wp. destruct (m e s) as [[[a e'] s']| |]; auto.
Qed.

Lemma wp_and {A} (m : M S A) e s (P Q : A → env → S → Prop) :
  wp m e s P → wp m e s Q → wp m e s (λ a e' s', P a e' s' ∧ Q a e' s').
Proof.
  unfold wp. destruct (m e s) as [[[a e'] s']| |]; auto.
Qed.

Lemma wp_run {A} (m : M S A) e s Q :
  wp m e s Q ↔ ∃ a e' s', m e s = Ret (a, e', s') ∧ Q a e' s'.
Proof.
  unfold wp. split.
  - destruct (m e s) as [[[a e'] s']| |]; naive_solver.
  - intros (a & e' & s' & -> & ?). done.
Qed.

Lemma wp_gets {A} (f : S → A) e s Q : Q (f s) e s → wp (gets f) e s Q.
Proof. done. Qed.
Lemma wp_get e s Q : Q s e s → wp get_st e s Q.
Proof. done. Qed.
Lemma wp_put s' e s Q : Q tt e s' → wp (put_st s') e s Q.
Proof. done. Qed.
Lemma wp_modify (f : S → S) e s Q : Q tt e (f s) → wp (modify f) e s Q.
Proof. done. Qed.
Lemma wp_some {A} (o : option A) a e s Q :
  o = Some a → Q a e s → wp (some_or_ub o) e s Q.
Proof. by intros ->. Qed.
Lemma wp_deref t e s Q : Q t e s → wp (deref (PStr t)) e s Q.
Proof. done. Qed.
Lemma wp_malloc_ok e s Q :
  Q (negb (malloc_fails e)) (after_malloc e) s → wp malloc_ok e s Q.
Proof. done. Qed.
Lemma wp_free_block e s Q : Q tt (add_live (-1) e) s → wp free_block e s Q.
Proof. done. Qed.
Lemma wp_kvs_free t e s Q :
  Q tt (add_live (-1) e) s → wp (kvs_free (PStr t)) e s Q.
Proof. done. Qed.
Lemma wp_strdup t e s Q :
  Q (if malloc_fails e then PNull else PStr t) (after_malloc e) s →
  wp (kvs_strdup (PStr t)) e s Q.
Proof. unfold wp; simpl. by destruct (malloc_fails e). Qed.
Lemma wp_malloc_copy t e s Q :
  Q (if malloc_fails e then PNull else PStr t) (after_malloc e) s →
  wp (malloc_copy (PStr t)) e s Q.
Proof. unfold wp; simpl. by destruct (malloc_fails e). Qed.
Lemma wp_ck_int z e s Q :
  (INT_MIN ≤ z ≤ INT_MAX)%Z → Q z e s → wp (ck_int z) e s Q.
Proof. unfold ck_int. intros. by rewrite decide_True. Qed.

(** The loop rule: an invariant indexed by the loop counter. *)
Lemma wp_for_up {R} (I : Z → env → S → Prop) n i (body : Z → M S (option R)) e s Q :
  I i e s →
  (∀ j e s, (i ≤ j < i + Z.of_nat n)%Z → I j e s →
    wp (body j) e s (λ r e' s',
      match r with Some x => Q (Some x) e' s' | None => I (j + 1)%Z e' s' end)) →
  (∀ e s, I (i + Z.of_nat n)%Z e s → Q None e s) →
  wp (for_up n i body) e s Q.
Proof.
  revert i e s. induction n as [|n IH]; intros i e s HI Hb HQ; simpl.
  - apply HQ. by rewrite Z.add_0_r.
  - apply wp_bind. eapply wp_mono; [apply Hb; [lia|done]|].
    intros [x|] e' s' Hr; [done|]. apply IH; [done| |].
    + intros j e0 s0 ??. apply Hb; [lia|done].
    + intros e0 s0 ?. apply HQ. by replace (i + Z.of_nat (Datatypes.S n))%Z with (i + 1 + Z.of_nat n)%Z by lia.
Qed.

End wp_rules.

Lemma wp_zoom {S T A} (get : T → S) (set : S → T → T) (m : M S A) e t Q :
  wp m e (get t) (λ a e' s', Q a e' (set s' t)) → wp (zoom get set m) e t Q.
Proof.
  unfold wp, zoom. destruct (m e (get t)) as [[[a e'] s']| |]; done.
Qed.

Lemma wp_bind_assoc {S A B C} (m : M S A) (f : A → M S B) (g : B → M S C) e s Q :
  wp (y ← (x ← m; f x); g y) e s Q → wp (x ← m; y ← f x; g y) e s Q.
Proof. unfold wp, mbind, M_bind. by destruct (m e s) as [[[a e'] s']| |]. Qed.

(** Undefined behaviour, or a failing assertion, at once or after the steps that
    precede it. *)
Lemma ub_bind {S A B} (m : M S A) (k : A → M S B) e s : m e s = UB → (m ≫= k) e s = UB.
Proof. unfold mbind, M_bind. by intros ->. Qed.
Lemma ub_after {S A B} (m : M S A) (k : A → M S B) e s :
  wp m e s (λ a e' s', k a e' s' = UB) → (m ≫= k) e s = UB.
Proof. unfold wp, mbind, M_bind. by destruct (m e s) as [[[a e'] s']| |]. Qed.

Lemma no_oom_fails e : no_oom e → malloc_fails e = false.
Proof. unfold no_oom, malloc_fails. destruct 1 as [|b ? ->]; done. Qed.
Lemma no_oom_after e : no_oom e → no_oom (after_malloc e).
Proof.
  intros H. pose proof (no_oom_fails _ H) as Hf. unfold no_oom, after_malloc in *.
  rewrite Hf. simpl. by destruct H.
Qed.
Lemma no_oom_live d e : no_oom e → no_oom (add_live d e).
Proof. done. Qed.
Lemma live_after_malloc e :
  live (after_malloc e) = (live e + if malloc_fails e then 0 else 1)%Z.
Proof. unfold after_malloc. destruct (malloc_fails e); simpl; lia. Qed.

(** * Strings *)

Definition str_lt (s t : string) : Prop := String.compare s t = Lt.

Lemma str_compare_refl s : String.compare s s = Eq.
Proof.
  induction s as [|a s IH]; simpl; [done|].
  unfold Ascii.compare. by rewrite N.compare_refl.
Qed.
Lemma strcmp_eq s t : strcmp s t = 0%Z ↔ s = t.
Proof.
  unfold strcmp. destruct (String.compare s t) eqn:E; split; try done.
  - intros _. by apply String.compare_eq_iff.
  - intros ->. by rewrite str_compare_refl in E.
  - intros ->. by rewrite str_compare_refl in E.
Qed.
Lemma strcmp_refl s : strcmp s s = 0%Z.
Proof. by apply strcmp_eq. Qed.
Lemma strcmp_eqb s t : (strcmp s t =? 0)%Z = String.eqb s t.
Proof.
  destruct (String.eqb_spec s t) as [->|Hne]; [by rewrite strcmp_refl|].
  apply Z.eqb_neq. by rewrite strcmp_eq.
Qed.
Lemma strcmp_lt s t : (strcmp s t < 0)%Z ↔ str_lt s t.
Proof. unfold strcmp, str_lt. by destruct (String.compare s t). Qed.
Lemma strcmp_gt s t : (strcmp s t > 0)%Z ↔ str_lt t s.
Proof.
  unfold strcmp, str_lt. rewrite (String.compare_antisym t s).
  by destruct (String.compare s t).
Qed.

Lemma str_lt_irrefl s : ¬ str_lt s s.
Proof. unfold str_lt. by rewrite str_compare_refl. Qed.
Lemma str_lt_trans s t u : str_lt s t → str_lt t u → str_lt s u.
Proof.
  unfold str_lt. revert t u.
  induction s as [|a s IH]; intros [|b t] [|c u]; simpl; try done.
  destruct (Ascii.compare a b) eqn:Eab; [|intros _|done].
  - apply Ascii.compare_eq_iff in Eab as ->.
    destruct (Ascii.compare b c); [apply IH|done|done].
  - destruct (Ascii.compare b c) eqn:Ebc; [|intros _|done].
    + apply Ascii.compare_eq_iff in Ebc as ->. by rewrite Eab.
    + assert (Ascii.compare a c = Lt) as ->; [|done].
      apply N.compare_lt_iff. by etrans; apply N.compare_lt_iff.
Qed.
Lemma str_lt_total s t : str_lt s t ∨ s = t ∨ str_lt t s.
Proof.
  unfold str_lt. destruct (String.compare s t) eqn:E; [right; left|left|right; right].
  - by apply String.compare_eq_iff.
  - done.
  - rewrite String.compare_antisym. by rewrite E.
Qed.

Global Instance str_lt_strict : StrictOrder str_lt.
Proof.
  split; [intros s; apply str_lt_irrefl|intros s t u; apply str_lt_trans].
Qed.
Global Instance str_lt_dec : RelDecision str_lt.
Proof. intros s t. unfold str_lt. apply _. Defined.

(** * Lists of lists *)

(** Replacing one of the lists that are joined. *)
Lemma mjoin_insert {A} (bs : list (list A)) i b :
  bs !! i = Some b →
  ∃ rest, mjoin bs ≡ₚ b ++ rest ∧ (∀ b', mjoin (<[i := b']> bs) ≡ₚ b' ++ rest) ∧
    ∀ x, x ∈ rest ↔ ∃ j c, j ≠ i ∧ bs !! j = Some c ∧ x ∈ c.
Proof.
  intros Hi. exists (mjoin (<[i := []]> bs)).
  assert (Hsplit : ∀ c, mjoin (<[i := c]> bs) ≡ₚ c ++ mjoin (<[i := []]> bs)).
  { intros c. rewrite !insert_take_drop by eauto using lookup_lt_Some.
    rewrite !join_app. simpl. by rewrite !(assoc_L (++)), (comm (++) c). }
  split_and!; [|done|].
  - rewrite <-(list_insert_id bs i b) at 1 by done. apply Hsplit.
  - intros x. rewrite list_elem_of_join. split.
    + intros (c & Hx & Hc). apply list_elem_of_lookup in Hc as [j Hj].
      destruct (decide (j = i)) as [->|Hne].
      * rewrite list_lookup_insert_eq in Hj by eauto using lookup_lt_Some. simplify_eq. set_solver.
      * rewrite list_lookup_insert_ne in Hj by done. eauto.
    + intros (j & c & Hne & Hj & Hx). exists c. split; [done|].
      apply list_elem_of_lookup. exists j. by rewrite list_lookup_insert_ne.
Qed.

(** * Heaps as lists of cells *)

(** [heap_is h l]: the heap consists of exactly the cells of [l].  The list is
    read up to permutation; [Front] finds a sub-list and what remains, so that a
    proof can name the cell an instruction touches. *)
Definition heap_is {V} (h : gmap loc V) (l : list (loc * V)) : Prop :=
  NoDup l.*1 ∧ h = list_to_map l.

Class Front {A} (a l rest : list A) : Prop := front : l ≡ₚ a ++ rest.
Global Hint Mode Front ! ! ! - : typeclass_instances.

Section front.
Context {A : Type}.
Implicit Types (a b l r : list A) (x y : A).
Global Instance front_here_cons x l : Front [x] (x :: l) l.
Proof. unfold Front. reflexivity. Qed.
Global Instance front_here_app a l : Front a (a ++ l) l.
Proof. unfold Front. reflexivity. Qed.
Global Instance front_here a : Front a a [] | 1.
Proof. unfold Front. by rewrite app_nil_r. Qed.
Global Instance front_cons x a l r : Front a l r → Front a (x :: l) (x :: r) | 5.
Proof. unfold Front. intros ->. by rewrite Permutation_middle. Qed.
Global Instance front_app_l b a l r : Front a b r → Front a (b ++ l) (r ++ l) | 5.
Proof. unfold Front. intros ->. by rewrite (assoc_L (++)). Qed.
Global Instance front_app_r b a l r : Front a l r → Front a (b ++ l) (b ++ r) | 6.
Proof. unfold Front. intros ->. by rewrite !(assoc_L (++)), (comm (++) b a). Qed.

Lemma perm_cons_front x l r rest : Front [x] r rest → l ≡ₚ rest → x :: l ≡ₚ r.
Proof. unfold Front. by intros -> ->. Qed.
Lemma perm_app_front a l r rest : Front a r rest → l ≡ₚ rest → a ++ l ≡ₚ r.
Proof. unfold Front. by intros -> ->. Qed.
Lemma perm_atom_front a r : Front a r [] → a ≡ₚ r.
Proof. unfold Front. intros ->. by rewrite app_nil_r. Qed.
End front.

(** Solves [l1 ≡ₚ l2] for lists built from the same cells and sub-lists. *)
Ltac perm_step :=
  lazymatch goal with
  | |- (_ :: _) ≡ₚ _ => eapply perm_cons_front; [typeclasses eauto|]
  | |- ((_ ++ _) ++ _) ≡ₚ _ => rewrite <-app_assoc
  | |- ((_ :: _) ++ _) ≡ₚ _ => rewrite <-app_comm_cons
  | |- ([] ++ _) ≡ₚ _ => rewrite app_nil_l
  | |- (_ ++ _) ≡ₚ _ => eapply perm_app_front; [typeclasses eauto|]
  | |- [] ≡ₚ [] => reflexivity
  | |- ?l ≡ₚ _ => apply perm_atom_front; typeclasses eauto
  end.
Ltac perm_solve :=
  simpl; rewrite ?app_nil_r; repeat perm_step.

Section cells.
Context {V : Type}.
Implicit Types (h : gmap loc V) (l r : list (loc * V)).

Lemma heap_is_perm h l r : heap_is h l → r ≡ₚ l → heap_is h r.
Proof.
  intros [Hnd ->] Hp. split; [by rewrite Hp|].
  by apply list_to_map_proper.
Qed.
Lemma heap_is_lookup h l x n r : heap_is h l → Front [(x, n)] l r → h !! x = Some n.
Proof.
  intros Hh Hf. destruct (heap_is_perm _ _ ((x, n) :: r) Hh) as [_ ->]; [by symmetry; exact Hf|].
  apply lookup_insert_eq.
Qed.
Lemma heap_is_store h l x n n' r :
  heap_is h l → Front [(x, n)] l r → heap_is (<[x := n']> h) ((x, n') :: r).
Proof.
  intros Hh Hf. destruct (heap_is_perm _ _ ((x, n) :: r) Hh) as [Hnd ->]; [by symmetry; exact Hf|].
  split; [done|]. simpl. by rewrite insert_insert_eq.
Qed.
Lemma heap_is_alloc h l x n : heap_is h l → x ∉ dom h → heap_is (<[x := n]> h) ((x, n) :: l).
Proof.
  intros [Hnd ->] Hx. split; [|reflexivity]. rewrite fmap_cons. apply NoDup_cons. split; [|done].
  rewrite dom_list_to_map in Hx. by rewrite elem_of_list_to_set in Hx.
Qed.
Lemma heap_is_free h l x n r : heap_is h l → Front [(x, n)] l r → heap_is (delete x h) r.
Proof.
  intros Hh Hf. destruct (heap_is_perm _ _ ((x, n) :: r) Hh) as [Hnd ->]; [by symmetry; exact Hf|].
  apply NoDup_cons in Hnd as [Hx Hnd]. split; [done|]. simpl.
  rewrite delete_insert_id; [done|]. by apply not_elem_of_list_to_map_1.
Qed.
Lemma heap_is_ne h l x n y m r r' :
  heap_is h l → Front [(x, n)] l r → Front [(y, m)] r r' → x ≠ y.
Proof.
  unfold Front. intros [Hnd _] Hf Hf' ->. rewrite Hf, Hf' in Hnd.
  apply NoDup_cons in Hnd as [Hx _]. apply Hx. by left.
Qed.
Lemma heap_is_size h l : heap_is h l → size h = length l.
Proof. intros [Hnd ->]. by apply map_size_list_to_map. Qed.
Lemma heap_is_nodup h l : heap_is h l → NoDup l.*1.
Proof. by intros []. Qed.
End cells.

(** * Sorted association lists *)

(** The contents of the ordered engines: pairs in increasing order of keys. *)
Definition sorted_pairs (l : list (string * string)) : Prop := StronglySorted str_lt l.*1.

Definition keys_below (l : list (string * string)) (k : string) : Prop :=
  ∀ p, p ∈ l → str_lt p.1 k.
Definition keys_above (k : string) (l : list (string * string)) : Prop :=
  ∀ p, p ∈ l → str_lt k p.1.

Section sorted.
Implicit Types (l : list (string * string)) (k v : string).

Lemma sorted_nodup l : sorted_pairs l → NoDup l.*1.
Proof.
  unfold sorted_pairs. induction 1 as [|k ks _ IH Hk]; constructor; [|done].
  intros Hin. rewrite Forall_forall in Hk. exact (str_lt_irrefl _ (Hk _ Hin)).
Qed.
Lemma sorted_pairs_app l1 l2 :
  sorted_pairs (l1 ++ l2) ↔
  sorted_pairs l1 ∧ sorted_pairs l2 ∧ ∀ p q, p ∈ l1 → q ∈ l2 → str_lt p.1 q.1.
Proof.
  unfold sorted_pairs. rewrite fmap_app, StronglySorted_app. split.
  - intros (Happ & ? & ?). split_and!; [done..|]. intros p q ??. apply Happ; by apply list_elem_of_fmap_2.
  - intros (? & ? & Happ). split_and!; [|done..]. intros x y Hx Hy.
    apply list_elem_of_fmap in Hx as (p & -> & ?). apply list_elem_of_fmap in Hy as (q & -> & ?). auto.
Qed.
Lemma sorted_pairs_cons k v l :
  sorted_pairs ((k, v) :: l) ↔ keys_above k l ∧ sorted_pairs l.
Proof.
  unfold sorted_pairs, keys_above. rewrite fmap_cons, StronglySorted_cons, Forall_fmap, Forall_forall.
  done.
Qed.
Lemma sorted_pairs_mid l1 k v l2 :
  sorted_pairs (l1 ++ (k, v) :: l2) ↔
  sorted_pairs (l1 ++ l2) ∧ keys_below l1 k ∧ keys_above k l2.
Proof.
  rewrite !sorted_pairs_app, sorted_pairs_cons. unfold keys_below, keys_above. split.
  - intros (? & [? ?] & Happ). split_and!; [done|done| | |done].
    + intros p q Hp Hq. apply Happ; [done|by right].
    + intros p Hp. apply (Happ p (k, v)); [done|by left].
  - intros ((? & ? & Happ) & Hb & Ha). split_and!; [done|done|done|].
    intros p q ? [->|?]%elem_of_cons; auto.
Qed.
(** The value of a key plays no role. *)
Lemma sorted_pairs_value l1 k v v' l2 :
  sorted_pairs (l1 ++ (k, v) :: l2) → sorted_pairs (l1 ++ (k, v') :: l2).
Proof. by rewrite !sorted_pairs_mid. Qed.

Lemma alist_none l1 k l2 :
  keys_below l1 k → keys_above k l2 → (list_to_map (l1 ++ l2) : gmap string string) !! k = None.
Proof.
  intros Hb Ha. apply not_elem_of_list_to_map_1. rewrite fmap_app, elem_of_app.
  intros [Hin|Hin]; apply list_elem_of_fmap in Hin as (p & -> & Hp).
  - exact (str_lt_irrefl _ (Hb p Hp)).
  - exact (str_lt_irrefl _ (Ha p Hp)).
Qed.
Lemma alist_mid l1 k v l2 :
  sorted_pairs (l1 ++ (k, v) :: l2) →
  (list_to_map (l1 ++ (k, v) :: l2) : gmap string string) = <[k := v]> (list_to_map (l1 ++ l2)).
Proof.
  intros Hs. rewrite (list_to_map_proper _ ((k, v) :: l1 ++ l2)); [done|by apply sorted_nodup|].
  by rewrite Permutation_middle.
Qed.
Lemma alist_lookup l1 k v l2 :
  sorted_pairs (l1 ++ (k, v) :: l2) →
  (list_to_map (l1 ++ (k, v) :: l2) : gmap string string) !! k = Some v.
Proof. intros Hs. rewrite alist_mid by done. apply lookup_insert_eq. Qed.
Lemma alist_delete l1 k v l2 :
  sorted_pairs (l1 ++ (k, v) :: l2) →
  (list_to_map (l1 ++ l2) : gmap string string) = delete k (list_to_map (l1 ++ (k, v) :: l2)).
Proof.
  intros Hs. rewrite alist_mid by done. rewrite delete_insert_id; [done|].
  apply sorted_pairs_mid in Hs as (_ & ? & ?). by apply alist_none.
Qed.
Lemma alist_update l1 k v v' l2 :
  sorted_pairs (l1 ++ (k, v) :: l2) →
  (list_to_map (l1 ++ (k, v') :: l2) : gmap string string) =
  <[k := v']> (list_to_map (l1 ++ (k, v) :: l2)).
Proof.
  intros Hs. rewrite !alist_mid by eauto using sorted_pairs_value. by rewrite insert_insert_eq.
Qed.
Lemma alist_size l :
  sorted_pairs l → size (list_to_map l : gmap string string) = length l.
Proof. intros ?. apply map_size_list_to_map. by apply sorted_nodup. Qed.
End sorted.

Create HintDb kvs discriminated.
#[export] Hint Resolve no_oom_fails no_oom_after no_oom_live : kvs.
#[export] Hint Resolve str_lt_irrefl str_lt_trans : kvs.

(** ** Symbolic execution *)

(** One step of a program whose head is a known primitive. *)
Ltac wp_step :=
  lazymatch goal with
  | |- wp (_ ≫= _) _ _ _ => apply wp_bind
  | |- wp (mret _) _ _ _ => apply wp_ret
  | |- wp (gets _) _ _ _ => apply wp_gets
  | |- wp get_st _ _ _ => apply wp_get
  | |- wp (put_st _) _ _ _ => apply wp_put
  | |- wp (modify _) _ _ _ => apply wp_modify
  | |- wp (deref (PStr _)) _ _ _ => apply wp_deref
  | |- wp (kvs_free (PStr _)) _ _ _ => apply wp_kvs_free
  | |- wp free_block _ _ _ => apply wp_free_block
  | |- wp malloc_ok _ _ _ => apply wp_malloc_ok
  | |- wp (kvs_strdup (PStr _)) _ _ _ => apply wp_strdup
  | |- wp (malloc_copy (PStr _)) _ _ _ => apply wp_malloc_copy
  | |- wp (some_or_ub (Some _)) _ _ _ => apply wp_ret
  | |- wp (some_or_ub _) _ _ _ => eapply wp_some; [eassumption|]
  end.
Ltac wp_steps := simpl; repeat (wp_step; simpl).

(** Case analysis on the order of two keys, in the form the code tests it. *)
Ltac cmp_cases s t :=
  let H := fresh "Hcmp" in
  destruct (str_lt_total s t) as [H|[H|H]];
  [ | subst | ].
