(* ===== verification/KvsSpec.v ===== *)
(** The contract every key-value engine offers to its clients (the command
    dispatcher of src/common/kvstore.c and the persistence layer of
    src/persist/kvs_rdb.c): the five operations as a record, and the laws they
    satisfy with respect to an abstract finite map as a type class.  The client
    files prove their theorems against [KVEngine]; each engine file discharges
    it with an instance. *)
From S2P Require Import Prelude.

(** The five operations of an engine, on C strings that may be null. *)
Record kv_ops (S : Type) := KvOps {
  kv_set : cptr → cptr → M S Z;
  kv_get : cptr → M S cptr;
  kv_del : cptr → M S Z;
  kv_mod : cptr → cptr → M S Z;
  kv_exist : cptr → M S Z
}.
Arguments KvOps {S} _ _ _ _ _.
Arguments kv_set {S} _ _ _.
Arguments kv_get {S} _ _.
Arguments kv_del {S} _ _.
Arguments kv_mod {S} _ _ _.
Arguments kv_exist {S} _ _.

(** The pointer that answers a lookup. *)
Definition ptr_of (o : option string) : cptr :=
  match o with Some v => PStr v | None => PNull end.

(** What a call of each operation may answer, and the map it leaves. *)
Definition set_post (m : gmap string string) (k v : string) (r : Z)
    (m' : gmap string string) : Prop :=
  (r = 1%Z ∧ is_Some (m !! k) ∧ m' = m) ∨
  (r = 0%Z ∧ m !! k = None ∧ m' = <[k := v]> m) ∨
  ((r < 0)%Z ∧ m' = m).

Definition mod_post (m : gmap string string) (k v : string) (r : Z)
    (m' : gmap string string) : Prop :=
  (r = 0%Z ∧ is_Some (m !! k) ∧ m' = <[k := v]> m) ∨
  (r = 1%Z ∧ m !! k = None ∧ m' = m).

Definition del_post (m : gmap string string) (k : string) (r : Z)
    (m' : gmap string string) : Prop :=
  (r = 0%Z ∧ is_Some (m !! k) ∧ m' = delete k m) ∨
  (r = 1%Z ∧ m !! k = None ∧ m' = m).

Definition exist_post (m : gmap string string) (k : string) (r : Z) : Prop :=
  r = match m !! k with Some _ => 0%Z | None => 1%Z end.

(** The laws.  [kv_rep s m]: the state [s] is well formed and holds exactly the
    pairs of [m].  [kv_key_ok]: the keys the engine can hash or compare without
    undefined behaviour.  [kv_cap]: the number of pairs it can hold, if there is
    a limit.  [kv_set_pre]: what [set] needs of the environment not to reach
    undefined behaviour; memory and room are enough ([kv_set_pre_law]).
    [kv_blocks]: the blocks of memory a pair takes; no operation leaks. *)
Definition has_room (cap : option Z) (m : gmap string string) : Prop :=
  match cap with
  | Some c => (Z.of_nat (size m) < c)%Z
  | None => True
  end.

(** [b] blocks of memory per pair: what a call allocates and frees in total. *)
Definition pair_blocks (b : Z) (e : env) (m : gmap string string) (e' : env)
    (m' : gmap string string) : Prop :=
  (live e' - live e = b * (Z.of_nat (size m') - Z.of_nat (size m)))%Z.

Class KVEngine {S : Type} (ops : kv_ops S) := {
  kv_rep : S → gmap string string → Prop;
  kv_key_ok : string → Prop;
  kv_cap : option Z;
  kv_set_pre : env → S → Prop;
  kv_blocks : Z;
  kv_set_pre_law e s m :
    kv_rep s m → no_oom e → has_room kv_cap m → kv_set_pre e s;
  kv_get_law e s m k :
    kv_rep s m → kv_key_ok k →
    wp (kv_get ops (PStr k)) e s (λ r e' s', r = ptr_of (m !! k) ∧ e' = e ∧ s' = s);
  kv_exist_law e s m k :
    kv_rep s m → kv_key_ok k →
    wp (kv_exist ops (PStr k)) e s (λ r e' s', exist_post m k r ∧ e' = e ∧ s' = s);
  kv_set_law e s m k v :
    kv_rep s m → kv_key_ok k → kv_set_pre e s →
    wp (kv_set ops (PStr k) (PStr v)) e s (λ r e' s',
      (no_oom e → no_oom e') ∧ (no_oom e → has_room kv_cap m → (0 ≤ r)%Z) ∧
      ∃ m', set_post m k v r m' ∧ pair_blocks kv_blocks e m e' m' ∧ kv_rep s' m');
  kv_mod_law e s m k v :
    kv_rep s m → kv_key_ok k → malloc_fails e = false →
    wp (kv_mod ops (PStr k) (PStr v)) e s (λ r e' s',
      (no_oom e → no_oom e') ∧ ∃ m',
        mod_post m k v r m' ∧ pair_blocks kv_blocks e m e' m' ∧ kv_rep s' m');
  kv_del_law e s m k :
    kv_rep s m → kv_key_ok k →
    wp (kv_del ops (PStr k)) e s (λ r e' s',
      (no_oom e → no_oom e') ∧ ∃ m',
        del_post m k r m' ∧ pair_blocks kv_blocks e m e' m' ∧ kv_rep s' m')
}.

(** An operation of an engine, as data, and the answer a client sees. *)
Inductive kv_op : Type :=
  | OpSet (k v : string)
  | OpGet (k : string)
  | OpDel (k : string)
  | OpMod (k v : string)
  | OpExist (k : string).

Inductive kv_answer : Type :=
  | ACode (r : Z)
  | AValue (p : cptr).

Definition kv_run {S} (ops : kv_ops S) (o : kv_op) : M S kv_answer :=
  match o with
  | OpSet k v => r ← kv_set ops (PStr k) (PStr v); mret (ACode r)
  | OpGet k => r ← kv_get ops (PStr k); mret (AValue r)
  | OpDel k => r ← kv_del ops (PStr k); mret (ACode r)
  | OpMod k v => r ← kv_mod ops (PStr k) (PStr v); mret (ACode r)
  | OpExist k => r ← kv_exist ops (PStr k); mret (ACode r)
  end.

Fixpoint kv_run_all {S} (ops : kv_ops S) (os : list kv_op) : M S (list kv_answer) :=
  match os with
  | [] => mret []
  | o :: os' =>
      a ← kv_run ops o;
      rest ← kv_run_all ops os';
      mret (a :: rest)
  end.

(** The abstract specification: the same operation on a finite map. *)
Definition spec_step (o : kv_op) (m : gmap string string) : kv_answer * gmap string string :=
  match o with
  | OpSet k v => match m !! k with
                 | Some _ => (ACode 1, m)
                 | None => (ACode 0, <[k := v]> m)
                 end
  | OpGet k => (AValue (ptr_of (m !! k)), m)
  | OpDel k => match m !! k with
               | Some _ => (ACode 0, delete k m)
               | None => (ACode 1, m)
               end
  | OpMod k v => match m !! k with
                 | Some _ => (ACode 0, <[k := v]> m)
                 | None => (ACode 1, m)
                 end
  | OpExist k => (ACode (match m !! k with Some _ => 0 | None => 1 end), m)
  end.

Fixpoint spec_steps (os : list kv_op) (m : gmap string string)
    : list kv_answer * gmap string string :=
  match os with
  | [] => ([], m)
  | o :: os' =>
      let '(a, m') := spec_step o m in
      let '(rest, m'') := spec_steps os' m' in
      (a :: rest, m'')
  end.

Definition op_key (o : kv_op) : string :=
  match o with
  | OpSet k _ | OpGet k | OpDel k | OpMod k _ | OpExist k => k
  end.

(** ** Consequences of the laws *)

Section engine.
Context {S : Type} (ops : kv_ops S) `{!KVEngine ops}.

(** One operation of an engine with room refines the step of the abstract map. *)
Lemma kv_run_refines e s m o :
  kv_rep s m → kv_key_ok (op_key o) → no_oom e → has_room kv_cap m →
  wp (kv_run ops o) e s (λ a e' s',
    no_oom e' ∧ a = (spec_step o m).1 ∧ kv_rep s' (spec_step o m).2 ∧
    pair_blocks kv_blocks e m e' (spec_step o m).2).
Proof.
  intros Hr Hk He Hroom. pose proof (no_oom_fails _ He) as Hf.
  destruct o as [k v|k|k|k v|k]; simpl in *; apply wp_bind.
  - eapply wp_mono; [eapply kv_set_law; eauto using kv_set_pre_law|].
    intros r e' s' (He' & Hpos & m' & Hpost & Hb & Hr'). apply wp_ret.
    specialize (He' He). specialize (Hpos He Hroom).
    destruct Hpost as [(-> & [x Hx] & ->)|[(-> & Hn & ->)|[Hneg _]]]; [| |lia].
    + by rewrite Hx.
    + by rewrite Hn.
  - eapply wp_mono; [by eapply kv_get_law|].
    intros r e' s' (-> & -> & ->). apply wp_ret. split_and!; [done..|]. by unfold pair_blocks; lia.
  - eapply wp_mono; [by eapply kv_del_law|].
    intros r e' s' (He' & m' & Hpost & Hb & Hr'). apply wp_ret. specialize (He' He).
    destruct Hpost as [(-> & [x Hx] & ->)|(-> & Hn & ->)]; [by rewrite Hx|by rewrite Hn].
  - eapply wp_mono; [by eapply kv_mod_law|].
    intros r e' s' (He' & m' & Hpost & Hb & Hr'). apply wp_ret. specialize (He' He).
    destruct Hpost as [(-> & [x Hx] & ->)|(-> & Hn & ->)]; [by rewrite Hx|by rewrite Hn].
  - eapply wp_mono; [by eapply kv_exist_law|].
    intros r e' s' (-> & -> & ->). apply wp_ret. split_and!; [done..|]. by unfold pair_blocks; lia.
Qed.

(** A step adds at most one pair. *)
Lemma spec_step_size o m : size (spec_step o m).2 ≤ 1 + size m.
Proof.
  destruct o as [k v|k|k|k v|k]; simpl; destruct (m !! k) eqn:Hk; simpl; try lia.
  - by rewrite map_size_insert_None.
  - rewrite map_size_delete_Some by eauto. lia.
  - rewrite map_size_insert_Some by eauto. lia.
Qed.

(** A sequence of operations that fits in the engine refines the sequence of
    abstract steps: same answers, same final map. *)
Lemma kv_run_all_refines os e s m :
  kv_rep s m → Forall (λ o, kv_key_ok (op_key o)) os → no_oom e →
  (∀ c, kv_cap = Some c → (Z.of_nat (size m + length os) ≤ c)%Z) →
  wp (kv_run_all ops os) e s (λ a e' s',
    no_oom e' ∧ a = (spec_steps os m).1 ∧ kv_rep s' (spec_steps os m).2 ∧
    pair_blocks kv_blocks e m e' (spec_steps os m).2).
Proof.
  revert e s m. induction os as [|o os IH]; intros e s m Hr Hks He Hcap; simpl.
  - apply wp_ret. split_and!; [done..|]. unfold pair_blocks; lia.
  - apply Forall_cons in Hks as [Hk Hks]. apply wp_bind.
    eapply wp_mono; [eapply kv_run_refines; eauto|].
    { unfold has_room. destruct kv_cap as [c|]; [|done].
      specialize (Hcap c eq_refl). simpl in Hcap. lia. }
    intros a e' s' (He' & -> & Hr' & Hb'). apply wp_bind.
    eapply wp_mono; [eapply IH; eauto|].
    { intros c Hc. specialize (Hcap c Hc). simpl in Hcap.
      pose proof (spec_step_size o m). lia. }
    intros rest e2 s2 (He2 & -> & Hr2 & Hb2). apply wp_ret.
    destruct (spec_step o m) as [a m1]; simpl in *.
    destruct (spec_steps os m1); simpl in *. unfold pair_blocks in *.
    split_and!; [done..|lia].
Qed.

(** The whole life of an engine: it is created, serves the operations, and is
    destroyed.  The clients see the answers of the abstract map that starts
    empty, and every block is given back. *)
Definition lifecycle (create : M S Z) (destroy : M S unit) (os : list kv_op)
    : M S (list kv_answer) :=
  create;;
  a ← kv_run_all ops os;
  destroy;;
  mret a.

Lemma lifecycle_refines (create : M S Z) (destroy : M S unit) s0 e os own (done_ : S → Prop) :
  Forall (λ o, kv_key_ok (op_key o)) os → no_oom e →
  (∀ c, kv_cap = Some c → (Z.of_nat (length os) ≤ c)%Z) →
  wp create e s0 (λ _ e' s', no_oom e' ∧ live e' = (live e + own)%Z ∧ kv_rep s' ∅) →
  (∀ e s m, kv_rep s m → wp destroy e s (λ _ e' s',
    done_ s' ∧ live e' = (live e - own - kv_blocks * Z.of_nat (size m))%Z)) →
  wp (lifecycle create destroy os) e s0 (λ a e' s',
    a = (spec_steps os ∅).1 ∧ live e' = live e ∧ done_ s').
Proof.
  intros Hks He Hcap Hcreate Hdestroy. unfold lifecycle. apply wp_bind.
  eapply wp_mono; [exact Hcreate|]. intros r e1 s1 (He1 & Hl1 & Hr1). apply wp_bind.
  eapply wp_mono; [by apply (kv_run_all_refines os e1 s1 ∅)|].
  intros a e2 s2 (_ & -> & Hr2 & Hb). apply wp_bind.
  eapply wp_mono; [by apply Hdestroy|]. intros _ e3 s3 (Hd & Hl3).
  apply wp_ret. unfold pair_blocks in Hb. rewrite map_size_empty in Hb.
  split_and!; [done| |done]. lia.
Qed.

End engine.
