(* ===== verification/KvsArray.v ===== *)
(** The array engine: src/engine/kvs_array.c.

    The table is a list of [KVS_ARRAY_SIZE] items; a deleted item is a hole (a
    null key) that a later insertion reuses, [idx] is the high-water mark and
    [total] the number of live items. *)
From S2P Require Import Prelude KvsSpec.

Local Open Scope Z_scope.

(** * Data *)

Definition KVS_ARRAY_SIZE : Z := 12000.

(** [kvs_array_item_t]. *)
Record kvs_array_item := Item { ai_key : cptr; ai_value : cptr }.

(** [kvs_array_t]: the table pointer is null until [kvs_array_create]. *)
Record kvs_array := Arr {
  table : option (list kvs_array_item);
  idx : Z;
  total : Z
}.

Definition null_item : kvs_array_item := Item PNull PNull.
Definition set_key (p : cptr) (it : kvs_array_item) : kvs_array_item := Item p (ai_value it).
Definition set_value (p : cptr) (it : kvs_array_item) : kvs_array_item := Item (ai_key it) p.

(** The table as [kvs_calloc] returns it. *)
Definition fresh_table : list kvs_array_item :=
  replicate (Z.to_nat KVS_ARRAY_SIZE) null_item.
Arguments fresh_table : simpl never.

(** The global instance before [init_kvengine] ([memset] to zero). *)
Definition global_array : kvs_array := Arr None 0 0.

(** * Access to the table *)

Definition item_at (i : Z) : M kvs_array kvs_array_item :=
  t ← gets table;
  t ← some_or_ub t;
  if decide (0 ≤ i) then some_or_ub (t !! Z.to_nat i) else ub.

Definition upd_item (i : Z) (f : kvs_array_item → kvs_array_item) : M kvs_array unit :=
  it ← item_at i;
  modify (λ a, Arr ((λ t, <[Z.to_nat i := f it]> t) <$> table a) (idx a) (total a)).

Definition set_idx (z : Z) : M kvs_array unit := modify (λ a, Arr (table a) z (total a)).
Definition set_total (z : Z) : M kvs_array unit := modify (λ a, Arr (table a) (idx a) z).

(** * Operations *)

Definition kvs_array_create (inst : instance) : M kvs_array Z :=
  if inst_null inst then mret (-1) else
  t ← gets table;
  match t with
  | Some _ => mret (-1)
  | None =>
      ok ← malloc_ok;
      if ok : bool then
        modify (λ a, Arr (Some fresh_table) (idx a) (total a));;
        set_idx 0;;
        set_total 0;;
        mret 0
      else mret (-1)
  end.

Definition kvs_array_destroy (inst : instance) : M kvs_array unit :=
  if inst_null inst then mret tt else
  t ← gets table;
  (match t with
   | Some _ =>
       n ← gets idx;
       for_up (Z.to_nat n) 0 (λ i,
         it ← item_at i;
         kvs_free (ai_key it);;
         kvs_free (ai_value it);;
         mret (None : option unit));;
       free_block;;
       modify (λ a, Arr None (idx a) (total a))
   | None => mret tt
   end);;
  set_idx 0;;
  set_total 0.

Definition kvs_array_get (inst : instance) (key : cptr) : M kvs_array cptr :=
  if inst_null inst || is_null key then mret PNull else
  n ← gets idx;
  r ← for_up (Z.to_nat n) 0 (λ i,
    it ← item_at i;
    if is_null (ai_key it) then mret None else
    kk ← deref (ai_key it);
    k ← deref key;
    if strcmp kk k =? 0 then mret (Some (ai_value it)) else mret None);
  mret (default PNull r).

Definition kvs_array_set (inst : instance) (key value : cptr) : M kvs_array Z :=
  if inst_null inst || is_null key || is_null value then mret (-1) else
  n ← gets total;
  if KVS_ARRAY_SIZE <=? n then mret (-1) else
  str ← kvs_array_get inst key;
  if negb (is_null str) then mret 1 else
  kcopy ← kvs_strdup key;
  if is_null kcopy then mret (-2) else
  kvalue ← kvs_strdup value;
  if is_null kvalue then kvs_free kcopy;; mret (-2) else
  hw ← gets idx;
  r ← for_up (Z.to_nat hw) 0 (λ i,
    it ← item_at i;
    if is_null (ai_key it) then
      upd_item i (set_key kcopy);;
      upd_item i (set_value kvalue);;
      tot ← gets total;
      set_total (tot + 1);;
      mret (Some 0)
    else mret None);
  match r with
  | Some c => mret c
  | None =>
      hw ← gets idx;
      if hw <? KVS_ARRAY_SIZE then
        upd_item hw (set_key kcopy);;
        upd_item hw (set_value kvalue);;
        set_idx (hw + 1);;
        tot ← gets total;
        set_total (tot + 1);;
        mret 0
      else
        kvs_free kcopy;;
        kvs_free kvalue;;
        mret (-1)
  end.

(** [while (inst->idx > 0 && inst->table[inst->idx - 1].key == NULL) inst->idx--]. *)
Fixpoint shrink_idx (fuel : nat) : M kvs_array unit :=
  match fuel with
  | O => out_of_fuel
  | S fuel' =>
      hw ← gets idx;
      if 0 <? hw then
        it ← item_at (hw - 1);
        if is_null (ai_key it) then set_idx (hw - 1);; shrink_idx fuel' else mret tt
      else mret tt
  end.

Definition kvs_array_del (inst : instance) (key : cptr) : M kvs_array Z :=
  if inst_null inst || is_null key then mret (-1) else
  n ← gets idx;
  r ← for_up (Z.to_nat n) 0 (λ i,
    it ← item_at i;
    if is_null (ai_key it) then mret None else
    kk ← deref (ai_key it);
    k ← deref key;
    if strcmp kk k =? 0 then
      kvs_free (ai_key it);;
      upd_item i (set_key PNull);;
      kvs_free (ai_value it);;
      upd_item i (set_value PNull);;
      tot ← gets total;
      set_total (tot - 1);;
      hw ← gets idx;
      shrink_idx (S (Z.to_nat hw));;
      mret (Some 0)
    else mret None);
  mret (default 1 r).

Definition kvs_array_mod (inst : instance) (key value : cptr) : M kvs_array Z :=
  if inst_null inst || is_null key || is_null value then mret (-1) else
  n ← gets idx;
  r ← for_up (Z.to_nat n) 0 (λ i,
    it ← item_at i;
    if is_null (ai_key it) then mret None else
    kk ← deref (ai_key it);
    k ← deref key;
    if strcmp kk k =? 0 then
      kvs_free (ai_value it);;
      v ← kvs_strdup value;
      upd_item i (set_value v);;
      if is_null v then mret (Some (-2)) else mret (Some 0)
    else mret None);
  mret (default 1 r).

Definition kvs_array_exist (inst : instance) (key : cptr) : M kvs_array Z :=
  if inst_null inst || is_null key then mret (-1) else
  str ← kvs_array_get inst key;
  if is_null str then mret 1 else mret 0.

(** The engine as its clients call it, with the global instance. *)
Definition array_ops : kv_ops kvs_array :=
  KvOps (kvs_array_set IGlobal) (kvs_array_get IGlobal) (kvs_array_del IGlobal)
        (kvs_array_mod IGlobal) (kvs_array_exist IGlobal).

(** * The invariant *)

(** A live item holds a key and a value, a hole holds neither. *)
Definition item_kv (it : kvs_array_item) : option (string * string) :=
  match ai_key it, ai_value it with
  | PStr k, PStr v => Some (k, v)
  | _, _ => None
  end.
Definition item_ok (it : kvs_array_item) : Prop :=
  it = null_item ∨ ∃ k v, it = Item (PStr k) (PStr v).

(** The live pairs, in table order. *)
Definition entries (t : list kvs_array_item) : list (string * string) := omap item_kv t.

Record table_ok (t : list kvs_array_item) (hw : Z) : Prop := {
  tab_len : Z.of_nat (length t) = KVS_ARRAY_SIZE;
  tab_hw : 0 ≤ hw ≤ KVS_ARRAY_SIZE;
  tab_items : Forall item_ok t;
  tab_keys : NoDup (entries t).*1;
  tab_above : ∀ i it, hw ≤ Z.of_nat i → t !! i = Some it → it = null_item;
  tab_tight : 0 < hw → ∃ it, t !! Z.to_nat (hw - 1) = Some it ∧ it ≠ null_item
}.

(** The state [a] is well formed and holds exactly the pairs of [m]. *)
Definition array_rep (a : kvs_array) (m : gmap string string) : Prop :=
  ∃ t, table a = Some t ∧ table_ok t (idx a) ∧
       total a = Z.of_nat (length (entries t)) ∧ m = list_to_map (entries t).

(** Room for one more pair. *)
Definition array_room (a : kvs_array) : Prop := total a < KVS_ARRAY_SIZE.

(** * Lemmas on the table *)

Lemma entries_insert t i it :
  t !! i = Some it →
  ∃ rest, entries t ≡ₚ omap item_kv [it] ++ rest ∧
          ∀ it', entries (<[i := it']> t) ≡ₚ omap item_kv [it'] ++ rest.
Proof.
  intros Hi. exists (omap item_kv (take i t ++ drop (S i) t)).
  assert (Hsplit : ∀ x, entries (take i t ++ x :: drop (S i) t) ≡ₚ
    omap item_kv [x] ++ omap item_kv (take i t ++ drop (S i) t)).
  { intros x. unfold entries. rewrite !omap_app. simpl.
    destruct (item_kv x); simpl; [|done]. by rewrite <-Permutation_middle. }
  split.
  - rewrite <-(take_drop_middle t i it) at 1 by done. apply Hsplit.
  - intros it'. rewrite insert_take_drop by eauto using lookup_lt_Some. apply Hsplit.
Qed.

Lemma elem_of_entries t k v :
  (k, v) ∈ entries t ↔ ∃ i, t !! i = Some (Item (PStr k) (PStr v)).
Proof.
  unfold entries. rewrite list_elem_of_omap. split.
  - intros ([[| |] [| |]] & Hin & Hkv); simplify_eq/=.
    injection Hkv as -> ->. by apply list_elem_of_lookup.
  - intros [i Hi]. exists (Item (PStr k) (PStr v)). split; [|done].
    by eapply list_elem_of_lookup_2.
Qed.

Lemma entries_lookup_Some t hw k v i :
  table_ok t hw → t !! i = Some (Item (PStr k) (PStr v)) →
  (list_to_map (entries t) : gmap string string) !! k = Some v.
Proof.
  intros Hok Hi. apply elem_of_list_to_map; [apply Hok|]. apply elem_of_entries. eauto.
Qed.

Lemma entries_lookup_None t hw k :
  table_ok t hw → (∀ i v, t !! i ≠ Some (Item (PStr k) (PStr v))) →
  (list_to_map (entries t) : gmap string string) !! k = None.
Proof.
  intros Hok Hi. apply not_elem_of_list_to_map. rewrite list_elem_of_fmap.
  intros ([k' v] & -> & Hin). apply elem_of_entries in Hin as [i ?]. by eapply Hi.
Qed.

Lemma live_below_hw t hw i k v :
  table_ok t hw → t !! i = Some (Item (PStr k) (PStr v)) → Z.of_nat i < hw.
Proof.
  intros Hok Hi. destruct (decide (Z.of_nat i < hw)) as [|Hge]; [done|].
  exfalso. assert (Item (PStr k) (PStr v) = null_item); [|done].
  eapply tab_above; eauto. lia.
Qed.

Lemma table_full t hw :
  table_ok t hw → (∀ i it, t !! i = Some it → is_null (ai_key it) = false) →
  Z.of_nat (length (entries t)) = KVS_ARRAY_SIZE.
Proof.
  intros Hok Hall. rewrite <-(tab_len _ _ Hok). f_equal.
  assert (Hf : Forall (λ it, is_Some (item_kv it)) t).
  { apply Forall_lookup. intros i it Hi. pose proof (Hall _ _ Hi).
    destruct (Forall_lookup_1 _ _ _ _ (tab_items _ _ Hok) Hi) as [->|(k & v & ->)]; [done|by eexists]. }
  unfold entries. clear -Hf. induction Hf as [|it t [x Hx] _ IH]; simpl; [done|].
  rewrite Hx. simpl. f_equal. exact IH.
Qed.

(** Writing a fresh pair into a hole. *)
Lemma table_ok_fill t hw hw' i k v :
  table_ok t hw → t !! i = Some null_item →
  (∀ j v', t !! j ≠ Some (Item (PStr k) (PStr v'))) →
  Z.of_nat i < hw' → hw ≤ hw' ≤ KVS_ARRAY_SIZE →
  (hw < hw' → hw' = Z.of_nat i + 1) →
  let t' := <[i := Item (PStr k) (PStr v)]> t in
  table_ok t' hw' ∧ entries t' ≡ₚ (k, v) :: entries t.
Proof.
  intros Hok Hi Hfresh Hlt Hhw Hlast t'.
  assert (Hperm : entries t' ≡ₚ (k, v) :: entries t).
  { destruct (entries_insert t i null_item Hi) as (rest & -> & Hins). exact (Hins (Item (PStr k) (PStr v))). }
  pose proof (lookup_lt_Some _ _ _ Hi) as Hlen.
  split; [split|done].
  - subst t'. rewrite length_insert. apply Hok.
  - pose proof (tab_hw _ _ Hok). lia.
  - apply Forall_insert; [apply Hok|right; eauto].
  - rewrite Hperm. simpl. apply NoDup_cons_2; [|apply Hok].
    rewrite list_elem_of_fmap. intros ([k' v'] & -> & Hin).
    apply elem_of_entries in Hin as [j ?]. by eapply Hfresh.
  - intros j it Hj. subst t'. rewrite list_lookup_insert_ne by lia.
    apply (tab_above _ _ Hok). lia.
  - intros Hpos. destruct (decide (hw < hw')) as [Hnew|Hold].
    + exists (Item (PStr k) (PStr v)). split; [|done].
      replace (Z.to_nat (hw' - 1)) with i by lia. by apply list_lookup_insert_eq.
    + replace hw' with hw in * by lia. destruct (tab_tight _ _ Hok Hpos) as (it & Hit & Hne).
      exists it. split; [|done]. subst t'. rewrite list_lookup_insert_ne; [done|].
      intros ->. congruence.
Qed.

(** Replacing the value of a live item. *)
Lemma table_ok_update t hw i k v v' :
  table_ok t hw → t !! i = Some (Item (PStr k) (PStr v)) →
  let t' := <[i := Item (PStr k) (PStr v')]> t in
  table_ok t' hw ∧ length (entries t') = length (entries t) ∧
  (list_to_map (entries t') : gmap string string) = <[k := v']> (list_to_map (entries t)).
Proof.
  intros Hok Hi t'. destruct (entries_insert t i _ Hi) as (rest & Hp & Hp').
  specialize (Hp' (Item (PStr k) (PStr v'))). fold t' in Hp'. simpl in Hp, Hp'.
  pose proof (tab_keys _ _ Hok) as Hnd.
  assert (Hnd' : NoDup (entries t').*1) by (rewrite Hp'; rewrite Hp in Hnd; done).
  split; [split; try apply Hok|split].
  - subst t'. rewrite length_insert. apply Hok.
  - apply Forall_insert; [apply Hok|right; eauto].
  - done.
  - intros j it Hj. subst t'. pose proof (live_below_hw _ _ _ _ _ Hok Hi).
    rewrite list_lookup_insert_ne by lia. apply (tab_above _ _ Hok). lia.
  - intros Hpos. destruct (tab_tight _ _ Hok Hpos) as (it & Hit & Hne). subst t'.
    destruct (decide (i = Z.to_nat (hw - 1))) as [->|].
    + eexists. rewrite list_lookup_insert_eq by eauto using lookup_lt_Some. by split.
    + exists it. by rewrite list_lookup_insert_ne.
  - by rewrite Hp, Hp'.
  - rewrite (list_to_map_proper _ _ Hnd' Hp'), (list_to_map_proper _ _ Hnd Hp). simpl.
    by rewrite insert_insert_eq.
Qed.

(** The well-formedness of a table whose high-water mark may not be tight. *)
Record table_pre (t : list kvs_array_item) (hw : Z) : Prop := {
  pre_len : Z.of_nat (length t) = KVS_ARRAY_SIZE;
  pre_hw : 0 ≤ hw ≤ KVS_ARRAY_SIZE;
  pre_items : Forall item_ok t;
  pre_keys : NoDup (entries t).*1;
  pre_above : ∀ i it, hw ≤ Z.of_nat i → t !! i = Some it → it = null_item
}.

(** Punching a hole. *)
Lemma table_pre_clear t hw i k v :
  table_ok t hw → t !! i = Some (Item (PStr k) (PStr v)) →
  let t' := <[i := null_item]> t in
  table_pre t' hw ∧ length (entries t) = S (length (entries t')) ∧
  (list_to_map (entries t') : gmap string string) = delete k (list_to_map (entries t)).
Proof.
  intros Hok Hi t'. destruct (entries_insert t i _ Hi) as (rest & Hp & Hp').
  specialize (Hp' null_item). fold t' in Hp'. simpl in Hp, Hp'.
  pose proof (tab_keys _ _ Hok) as Hnd.
  assert (Hnd2 : NoDup (k :: rest.*1)) by (rewrite Hp in Hnd; done).
  inversion_clear Hnd2 as [|? ? Hk Hrest].
  assert (Hnd' : NoDup (entries t').*1) by (rewrite Hp'; done).
  split; [split; try apply Hok|split].
  - subst t'. rewrite length_insert. apply Hok.
  - apply Forall_insert; [apply Hok|by left].
  - done.
  - intros j it Hj. subst t'. pose proof (live_below_hw _ _ _ _ _ Hok Hi).
    rewrite list_lookup_insert_ne by lia. apply (tab_above _ _ Hok). lia.
  - by rewrite Hp, Hp'.
  - rewrite (list_to_map_proper _ _ Hnd' Hp'), (list_to_map_proper _ _ Hnd Hp). simpl.
    rewrite delete_insert_id; [done|]. by apply not_elem_of_list_to_map.
Qed.

Lemma array_rep_total a m : array_rep a m → total a = Z.of_nat (size m).
Proof.
  intros (t & _ & Hok & Htot & ->). by rewrite map_size_list_to_map by apply Hok.
Qed.
Lemma array_room_size a m :
  array_rep a m → Z.of_nat (size m) < KVS_ARRAY_SIZE → array_room a.
Proof. unfold array_room. by intros ->%array_rep_total. Qed.

(** * Running the operations *)

Section run.
Implicit Types (a : kvs_array) (e : env).

Lemma wp_item_at t i it e a Q :
  table a = Some t → t !! i = Some it → Q it e a →
  wp (item_at (Z.of_nat i)) e a Q.
Proof.
  intros Ht Hi HQ. unfold item_at. wp_steps.
  rewrite decide_True by lia. rewrite Nat2Z.id. by wp_step.
Qed.

Lemma wp_upd_item t i it f e a Q :
  table a = Some t → t !! i = Some it →
  Q tt e (Arr (Some (<[i := f it]> t)) (idx a) (total a)) →
  wp (upd_item (Z.of_nat i) f) e a Q.
Proof.
  intros Ht Hi HQ. unfold upd_item. wp_step. eapply wp_item_at; [done..|].
  wp_steps. by rewrite Ht, Nat2Z.id.
Qed.

(** The loop of [get], [del] and [mod]: it reaches the item of the key, if
    there is one, and leaves the state alone otherwise. *)
Lemma wp_scan {R} t k (K : Z → kvs_array_item → M kvs_array (option R)) e a Q :
  table a = Some t → table_ok t (idx a) →
  (∀ i v, t !! i = Some (Item (PStr k) (PStr v)) →
    wp (K (Z.of_nat i) (Item (PStr k) (PStr v))) e a (λ r e' a', is_Some r ∧ Q r e' a')) →
  ((∀ i v, t !! i ≠ Some (Item (PStr k) (PStr v))) → Q None e a) →
  wp (for_up (Z.to_nat (idx a)) 0 (λ i,
    it ← item_at i;
    if is_null (ai_key it) then mret None else
    kk ← deref (ai_key it);
    k' ← deref (PStr k);
    if strcmp kk k' =? 0 then K i it else mret None)) e a Q.
Proof.
  intros Ht Hok Hhit Hmiss. pose proof (tab_hw _ _ Hok). pose proof (tab_len _ _ Hok).
  apply (wp_for_up (λ j e' a', e' = e ∧ a' = a ∧
    ∀ i v, Z.of_nat i < j → t !! i ≠ Some (Item (PStr k) (PStr v)))).
  - split_and!; [done|done|lia].
  - intros j e' a' Hj (-> & -> & Hprev).
    destruct (lookup_lt_is_Some_2 t (Z.to_nat j)) as [it Hit]; [lia|].
    replace j with (Z.of_nat (Z.to_nat j)) by lia.
    wp_step. eapply wp_item_at; [done..|].
    assert (Hnext : ∀ i v, it ≠ Item (PStr k) (PStr v) → Z.of_nat i < Z.of_nat (Z.to_nat j) + 1 →
      t !! i ≠ Some (Item (PStr k) (PStr v))).
    { intros i v Hne Hi. destruct (decide (i = Z.to_nat j)) as [->|].
      - by rewrite Hit; intros [= ->].
      - apply Hprev. lia. }
    destruct (Forall_lookup_1 _ _ _ _ (tab_items _ _ Hok) Hit) as [->|(kk & v & ->)]; simpl.
    + apply wp_ret. split_and!; [done|done|]. intros; by eapply Hnext.
    + wp_steps. destruct (Z.eqb_spec (strcmp kk k) 0) as [Heq|Hne].
      * apply strcmp_eq in Heq as ->. eapply wp_mono; [by apply Hhit|].
        by intros r e' a' [[x ->] HQ].
      * apply wp_ret. split_and!; [done|done|]. intros i v'. apply Hnext.
        intros [= -> _]. by rewrite strcmp_refl in Hne.
  - intros e' a' (-> & -> & Hall). apply Hmiss. intros i v Hi.
    pose proof (live_below_hw _ _ _ _ _ Hok Hi). apply (Hall i v); [lia|done].
Qed.

Lemma wp_array_get e a m k :
  array_rep a m →
  wp (kvs_array_get IGlobal (PStr k)) e a (λ r e' a', r = ptr_of (m !! k) ∧ e' = e ∧ a' = a).
Proof.
  intros (t & Ht & Hok & _ & ->). unfold kvs_array_get. simpl. wp_steps.
  apply (wp_scan t); [done|done| |].
  - intros i v Hi. wp_steps. split; [done|]. split_and!; [|done..].
    by rewrite (entries_lookup_Some _ _ _ _ _ Hok Hi).
  - intros Hno. wp_steps. split_and!; [|done..].
    by rewrite (entries_lookup_None _ _ _ Hok Hno).
Qed.

Lemma wp_array_exist e a m k :
  array_rep a m →
  wp (kvs_array_exist IGlobal (PStr k)) e a (λ r e' a', exist_post m k r ∧ e' = e ∧ a' = a).
Proof.
  intros Hr. unfold kvs_array_exist. simpl. wp_step.
  eapply wp_mono; [by apply wp_array_get|]. intros r e' a' (-> & -> & ->).
  unfold exist_post. destruct (m !! k); simpl; by wp_steps.
Qed.

(** The search for a hole, and the append when there is none. *)
Lemma wp_find_hole {R} t (K : Z → M kvs_array (option R)) e a Q :
  table a = Some t → table_ok t (idx a) →
  (∀ i, t !! i = Some null_item → Z.of_nat i < idx a →
    wp (K (Z.of_nat i)) e a (λ r e' a', is_Some r ∧ Q r e' a')) →
  ((∀ i it, Z.of_nat i < idx a → t !! i = Some it → is_null (ai_key it) = false) → Q None e a) →
  wp (for_up (Z.to_nat (idx a)) 0 (λ i,
    it ← item_at i;
    if is_null (ai_key it) then K i else mret None)) e a Q.
Proof.
  intros Ht Hok Hhit Hmiss. pose proof (tab_hw _ _ Hok). pose proof (tab_len _ _ Hok).
  apply (wp_for_up (λ j e' a', e' = e ∧ a' = a ∧
    ∀ i it, Z.of_nat i < j → t !! i = Some it → is_null (ai_key it) = false)).
  - split_and!; [done|done|lia].
  - intros j e' a' Hj (-> & -> & Hprev).
    destruct (lookup_lt_is_Some_2 t (Z.to_nat j)) as [it Hit]; [lia|].
    replace j with (Z.of_nat (Z.to_nat j)) by lia.
    wp_step. eapply wp_item_at; [done..|].
    destruct (Forall_lookup_1 _ _ _ _ (tab_items _ _ Hok) Hit) as [->|(kk & v & ->)]; simpl.
    + eapply wp_mono; [apply Hhit; [done|lia]|]. by intros r e' a' [[x ->] HQ].
    + apply wp_ret. split_and!; [done|done|]. intros i it Hi Hti.
      destruct (decide (i = Z.to_nat j)) as [->|]; [|apply (Hprev i); [lia|done]].
      by rewrite Hit in Hti; simplify_eq.
  - intros e' a' (-> & -> & Hall). apply Hmiss. intros i it Hi. apply Hall. lia.
Qed.

(** Storing a fresh pair at a hole keeps the representation. *)
Lemma array_rep_fill a m t i hw' k v :
  table a = Some t → table_ok t (idx a) → total a = Z.of_nat (length (entries t)) →
  m = list_to_map (entries t) → m !! k = None →
  t !! i = Some null_item → Z.of_nat i < hw' → idx a ≤ hw' ≤ KVS_ARRAY_SIZE →
  (idx a < hw' → hw' = Z.of_nat i + 1) →
  array_rep (Arr (Some (<[i := Item (PStr k) (PStr v)]> t)) hw' (total a + 1)) (<[k := v]> m).
Proof.
  intros Ht Hok Htot -> Hnone Hi Hlt Hhw Hlast.
  destruct (table_ok_fill t (idx a) hw' i k v) as [Hok' Hperm]; try done.
  { intros j v' Hj. by rewrite (entries_lookup_Some _ _ _ _ _ Hok Hj) in Hnone. }
  eexists. split_and!; simpl; [done|done| |].
  - rewrite Hperm. simpl. rewrite Htot. lia.
  - by rewrite (list_to_map_proper _ _ (tab_keys _ _ Hok') Hperm).
Qed.

End run.

Section ops.
Implicit Types (a : kvs_array) (e : env).

(** Every operation keeps two live blocks per live item. *)
Definition balanced e a e' a' : Prop := live e' - live e = 2 * (total a' - total a).

Lemma wp_array_set e a m k v :
  array_rep a m →
  wp (kvs_array_set IGlobal (PStr k) (PStr v)) e a (λ r e' a',
    (no_oom e → no_oom e') ∧ (no_oom e → array_room a → 0 ≤ r) ∧
    balanced e a e' a' ∧ ∃ m', set_post m k v r m' ∧ array_rep a' m').
Proof.
  intros Hr. unfold kvs_array_set, set_total, set_idx, balanced. simpl. wp_steps.
  destruct (Z.leb_spec KVS_ARRAY_SIZE (total a)) as [Hfull|Hroom].
  { wp_steps. split_and!; [done|unfold array_room; lia|lia|].
    exists m. split; [right; right; by split|done]. }
  wp_step. eapply wp_mono; [by apply wp_array_get|]. intros r e0 a0 (-> & -> & ->).
  destruct (m !! k) as [v0|] eqn:Hk; simpl.
  { wp_steps. split_and!; [done|lia|lia|]. exists m. split; [left; eauto|done]. }
  wp_steps. destruct (malloc_fails e) eqn:Hf1; simpl.
  { wp_steps. split_and!; [by auto with kvs|by intros ?%no_oom_fails; congruence| |].
    - rewrite live_after_malloc, Hf1. lia.
    - exists m. split; [right; right; by split|done]. }
  wp_steps. destruct (malloc_fails (after_malloc e)) eqn:Hf2; simpl.
  { wp_steps. split_and!; [by auto with kvs| | |].
    - intros ?%no_oom_after%no_oom_fails; congruence.
    - rewrite !live_after_malloc, Hf1, Hf2. lia.
    - exists m. split; [right; right; by split|done]. }
  destruct Hr as (t & Ht & Hok & Htot & ->). wp_steps.
  pose proof (tab_hw _ _ Hok) as Hhw. pose proof (tab_len _ _ Hok) as Hlen.
  assert (Hlive : live (after_malloc (after_malloc e)) - live e = 2).
  { rewrite !live_after_malloc, Hf1, Hf2. lia. }
  apply (wp_find_hole t); [done|done| |].
  - intros i Hi Hlt. wp_step. eapply wp_upd_item; [done..|]. wp_step.
    eapply wp_upd_item; [done|by apply list_lookup_insert_eq; eauto using lookup_lt_Some|].
    wp_steps. split; [done|]. rewrite list_insert_insert_eq. simpl.
    split_and!; [by auto with kvs|intros; lia|simpl; lia|].
    eexists. split; [right; left; by split_and!|].
    simpl. apply (array_rep_fill a); eauto; lia.
  - intros Hno. wp_steps. destruct (Z.ltb_spec (idx a) KVS_ARRAY_SIZE) as [Hlt|Hge].
    + destruct (lookup_lt_is_Some_2 t (Z.to_nat (idx a))) as [it Hit]; [lia|].
      assert (it = null_item) as -> by (apply (tab_above _ _ Hok) in Hit; [done|lia]).
      replace (idx a) with (Z.of_nat (Z.to_nat (idx a))) by lia.
      wp_step. eapply wp_upd_item; [done..|]. wp_step.
      eapply wp_upd_item; [done|by apply list_lookup_insert_eq; eauto using lookup_lt_Some|].
      wp_steps. rewrite list_insert_insert_eq. simpl.
      split_and!; [by auto with kvs|intros; lia|simpl; lia|].
      eexists. split; [right; left; by split_and!|].
      simpl. apply (array_rep_fill a); eauto; lia.
    + exfalso. assert (Z.of_nat (length (entries t)) = KVS_ARRAY_SIZE); [|lia].
      eapply table_full; [done|]. intros i it Hi. apply (Hno i); [|done].
      apply lookup_lt_Some in Hi. lia.
Qed.

Lemma wp_array_mod e a m k v :
  array_rep a m → malloc_fails e = false →
  wp (kvs_array_mod IGlobal (PStr k) (PStr v)) e a (λ r e' a',
    (no_oom e → no_oom e') ∧ balanced e a e' a' ∧
    ∃ m', mod_post m k v r m' ∧ array_rep a' m').
Proof.
  intros (t & Ht & Hok & Htot & ->) Hf. unfold kvs_array_mod, balanced. simpl. wp_steps.
  apply (wp_scan t); [done|done| |].
  - intros i v0 Hi. wp_steps.
    assert (Hf' : malloc_fails (add_live (-1) e) = false) by done. rewrite Hf'.
    eapply wp_upd_item; [done..|]. simpl. wp_steps. split; [done|].
    destruct (table_ok_update t (idx a) i k v0 v Hok Hi) as (Hok' & Hlen & Hmap).
    split_and!; [by auto with kvs| |].
    + rewrite live_after_malloc, Hf'. simpl. lia.
    + eexists. split; [left; split_and!; [done| |done]|].
      * rewrite (entries_lookup_Some _ _ _ _ _ Hok Hi). eauto.
      * eexists. split_and!; simpl; [done|exact Hok'|rewrite Htot; f_equal; symmetry; exact Hlen|done].
  - intros Hno. wp_steps. split_and!; [done|lia|].
    eexists. split; [right; split_and!; [done|by eapply entries_lookup_None|done]|].
    eexists. by split_and!.
Qed.

(** The high-water mark slides down to the last live item. *)
Lemma wp_shrink n e a t Q :
  table a = Some t → table_pre t (idx a) → idx a < Z.of_nat n →
  (∀ hw, table_ok t hw → Q tt e (Arr (table a) hw (total a))) →
  wp (shrink_idx n) e a Q.
Proof.
  revert a. induction n as [|n IH]; intros a Ht Hpre Hn HQ; pose proof (pre_hw _ _ Hpre) as Hhw.
  { lia. }
  pose proof (pre_len _ _ Hpre) as Hlen. simpl. wp_steps.
  destruct (Z.ltb_spec 0 (idx a)) as [Hpos|Hz].
  - destruct (lookup_lt_is_Some_2 t (Z.to_nat (idx a - 1))) as [it Hit]; [lia|].
    replace (idx a - 1) with (Z.of_nat (Z.to_nat (idx a - 1))) by lia.
    wp_step. eapply wp_item_at; [done..|].
    destruct (Forall_lookup_1 _ _ _ _ (pre_items _ _ Hpre) Hit) as [->|(k & v & ->)]; simpl.
    + wp_steps. apply IH; simpl; [done| |lia|].
      * destruct Hpre. split; [done|lia|done|done|].
        intros i it Hi Hti. destruct (decide (i = Z.to_nat (idx a - 1))) as [->|]; [congruence|].
        apply (pre_above0 i); [lia|done].
      * intros hw. apply HQ.
    + wp_steps. destruct a as [ta ia tot]. apply HQ. destruct Hpre. split; try done.
      intros _. eauto.
  - wp_steps. destruct a as [ta ia tot]. apply HQ. destruct Hpre. split; try done. simpl in *. lia.
Qed.

#[local] Arguments shrink_idx : simpl never.

Lemma wp_array_del e a m k :
  array_rep a m →
  wp (kvs_array_del IGlobal (PStr k)) e a (λ r e' a',
    (no_oom e → no_oom e') ∧ balanced e a e' a' ∧
    ∃ m', del_post m k r m' ∧ array_rep a' m').
Proof.
  intros (t & Ht & Hok & Htot & ->). unfold kvs_array_del, set_total, balanced. simpl. wp_steps.
  pose proof (tab_hw _ _ Hok) as Hhw.
  apply (wp_scan t); [done|done| |].
  - intros i v Hi. wp_steps. eapply wp_upd_item; [done..|]. wp_steps.
    eapply wp_upd_item; [done|by apply list_lookup_insert_eq; eauto using lookup_lt_Some|].
    wp_steps. rewrite list_insert_insert_eq. simpl. change (set_value PNull (set_key PNull _)) with null_item.
    destruct (table_pre_clear t (idx a) i k v Hok Hi) as (Hpre & Hlen & Hmap).
    apply (wp_shrink _ _ _ (<[i := null_item]> t)); [done|done|simpl; lia|].
    intros hw Hok'. wp_steps. split; [done|]. split_and!; [done|simpl; lia|].
    eexists. split; [left; split_and!; [done| |done]|].
    + rewrite (entries_lookup_Some _ _ _ _ _ Hok Hi). eauto.
    + eexists. split_and!; simpl; [done|done|lia|done].
  - intros Hno. wp_steps. split_and!; [done|lia|].
    eexists. split; [right; split_and!; [done|by eapply entries_lookup_None|done]|].
    eexists. by split_and!.
Qed.

End ops.

(** * The engine meets its contract *)

Lemma array_pair_blocks e a m e' a' m' :
  array_rep a m → array_rep a' m' → balanced e a e' a' → pair_blocks 2 e m e' m'.
Proof.
  unfold balanced, pair_blocks. by intros ->%array_rep_total ->%array_rep_total.
Qed.

#[export] Instance array_engine : KVEngine array_ops.
Proof.
  unshelve econstructor;
    [exact array_rep|exact (λ _, True)|exact (Some KVS_ARRAY_SIZE)|exact (λ _ _, True)
    |exact 2|..].
  - done.
  - intros e s m k Hr _. by apply wp_array_get.
  - intros e s m k Hr _. by apply wp_array_exist.
  - intros e s m k v Hr _ _. eapply wp_mono; [by apply wp_array_set|].
    intros r e' s' (? & Hpos & ? & m' & ? & ?). split_and!; [done| |].
    + intros He Hcap. apply Hpos; [done|]. by apply (array_room_size _ m).
    + eauto 6 using array_pair_blocks.
  - intros e s m k v Hr _ Hf. eapply wp_mono; [by apply wp_array_mod|].
    intros r e' s' (? & ? & m' & ? & ?). eauto 6 using array_pair_blocks.
  - intros e s m k Hr _. eapply wp_mono; [by apply wp_array_del|].
    intros r e' s' (? & ? & m' & ? & ?). eauto 6 using array_pair_blocks.
Defined.

(** * Creation and destruction *)

Lemma entries_replicate n : entries (replicate n null_item) = [].
Proof. unfold entries. by induction n. Qed.

Lemma table_ok_fresh : table_ok fresh_table 0.
Proof.
  unfold fresh_table. split.
  - by rewrite length_replicate.
  - by unfold KVS_ARRAY_SIZE.
  - apply Forall_replicate. by left.
  - rewrite entries_replicate. constructor.
  - intros i it _ Hi. by apply lookup_replicate in Hi as [-> _].
  - done.
Qed.

Lemma wp_array_create e a :
  table a = None →
  wp (kvs_array_create IGlobal) e a (λ r e' a',
    (no_oom e → no_oom e') ∧ live e' - live e = (if malloc_fails e then 0 else 1) ∧
    if malloc_fails e then r = -1 ∧ a' = a else r = 0 ∧ array_rep a' ∅).
Proof.
  intros Ht. unfold kvs_array_create, set_idx, set_total. simpl. wp_steps. rewrite Ht.
  wp_steps. pose proof (live_after_malloc e) as Hl.
  destruct (malloc_fails e); simpl; wp_steps; (split_and!; [by auto with kvs|lia|..]);
    [done..|]. eexists. split_and!; [done|exact table_ok_fresh|..];
    unfold fresh_table; by rewrite entries_replicate.
Qed.

(** The number of items the destruction loop has freed before it reaches [j]. *)
Definition freed_below (t : list kvs_array_item) (j : Z) : Z :=
  Z.of_nat (length (entries (take (Z.to_nat j) t))).

Lemma freed_below_step t i it :
  t !! i = Some it → item_ok it →
  2 * freed_below t (Z.of_nat i + 1) =
  2 * freed_below t (Z.of_nat i) + (if is_null (ai_key it) then 0 else 2).
Proof.
  intros Hi Hit. unfold freed_below.
  replace (Z.to_nat (Z.of_nat i + 1)) with (S i) by lia. rewrite Nat2Z.id.
  rewrite (take_S_r _ _ _ Hi). unfold entries. rewrite omap_app, length_app. simpl.
  destruct Hit as [->|(k & v & ->)]; simpl; lia.
Qed.

Lemma entries_take_hw t hw : table_ok t hw → entries (take (Z.to_nat hw) t) = entries t.
Proof.
  intros Hok. rewrite <-(take_drop (Z.to_nat hw) t) at 2. unfold entries.
  rewrite omap_app. assert (omap item_kv (drop (Z.to_nat hw) t) = []) as ->; [|by rewrite app_nil_r].
  assert (Hall : Forall (λ it, it = null_item) (drop (Z.to_nat hw) t)).
  { apply Forall_lookup. intros i it Hi. rewrite lookup_drop in Hi.
    pose proof (tab_hw _ _ Hok). eapply (tab_above _ _ Hok); [|done]. lia. }
  by induction Hall as [|it l -> _ IH].
Qed.

(** Destroying the engine frees every block it owns: the table and the two
    strings of each live item. *)
Lemma wp_array_destroy e a m :
  array_rep a m →
  wp (kvs_array_destroy IGlobal) e a (λ _ e' a',
    a' = global_array ∧ live e' = live e - 1 - 2 * Z.of_nat (size m)).
Proof.
  intros (t & Ht & Hok & Htot & ->). unfold kvs_array_destroy, set_idx, set_total. simpl.
  assert (size (list_to_map (entries t) : gmap string string) = length (entries t)) as ->.
  { rewrite map_size_list_to_map; [done|apply Hok]. }
  wp_steps. rewrite Ht. wp_steps.
  pose proof (tab_hw _ _ Hok). pose proof (tab_len _ _ Hok).
  apply (wp_for_up (λ j e' a', a' = a ∧ live e' = live e - 2 * freed_below t j)).
  - split; [done|]. unfold freed_below. simpl. lia.
  - intros j e' a' Hj (-> & Hl).
    destruct (lookup_lt_is_Some_2 t (Z.to_nat j)) as [it Hit]; [lia|].
    assert (Hj' : j = Z.of_nat (Z.to_nat j)) by lia. rewrite Hj' in Hl |- *.
    pose proof (Forall_lookup_1 _ _ _ _ (tab_items _ _ Hok) Hit) as Hok1.
    pose proof (freed_below_step _ _ _ Hit Hok1) as Hstep.
    wp_step. eapply wp_item_at; [done..|].
    destruct Hok1 as [->|(k & v & ->)]; simpl in *; wp_steps; (split; [done|]); simpl; lia.
  - intros e' a' (-> & Hl). unfold freed_below in Hl. wp_steps. split; [done|].
    simpl. rewrite Z.add_0_l, Z2Nat.id, (entries_take_hw _ _ Hok) in Hl by lia. lia.
Qed.

(** * The theorems *)

(** C11: over its whole life (create, any sequence of at most 12000 operations,
    destroy) with memory available, the array engine answers exactly as a finite
    map that starts empty, reaches no undefined behaviour, gives back every block
    it allocated and leaves the global instance as it was before. *)
Theorem array_lifecycle_refines os e :
  no_oom e → Z.of_nat (length os) ≤ KVS_ARRAY_SIZE →
  wp (lifecycle array_ops (kvs_array_create IGlobal) (kvs_array_destroy IGlobal) os)
    e global_array (λ a e' s',
      a = (spec_steps os ∅).1 ∧ live e' = live e ∧ s' = global_array).
Proof.
  intros He Hlen.
  apply (lifecycle_refines array_ops _ _ _ _ _ 1 (λ s', s' = global_array)).
  - by apply Forall_true.
  - done.
  - intros c [= <-]. done.
  - eapply wp_mono; [by apply wp_array_create|].
    rewrite no_oom_fails by done. intros r e' s' (? & Hl & _ & ?).
    split_and!; [auto|lia|done].
  - intros e' s m Hr. by apply wp_array_destroy.
Qed.

Lemma array_lifecycle_refines_witness :
  wp (lifecycle array_ops (kvs_array_create IGlobal) (kvs_array_destroy IGlobal)
        [OpSet "a" "1"; OpMod "a" "2"; OpDel "b"; OpGet "a"])
    (Env [] [] [] [] 0) global_array (λ a e' s',
      a = [ACode 0; ACode 0; ACode 1; AValue (PStr "2")] ∧ live e' = 0 ∧ s' = global_array).
Proof.
  apply (array_lifecycle_refines [OpSet "a" "1"; OpMod "a" "2"; OpDel "b"; OpGet "a"]
    (Env [] [] [] [] 0)); [constructor|simpl; unfold KVS_ARRAY_SIZE; lia].
Defined.
