(* ===== verification/KvsHash.v ===== *)
(** The hash engine: src/engine/kvs_hash.c.

    A table of [MAX_TABLE_SIZE] chains of nodes.  The nodes live in a heap of
    their own, chains are followed through their [next] pointers.  The index of
    a key is the sum of its bytes modulo the table size; the bytes are [char],
    which is signed on the platforms the Makefile targets. *)
From S2P Require Import Prelude KvsSpec.

Local Open Scope Z_scope.

(** * Data *)

Definition MAX_TABLE_SIZE : Z := 1024.

(** [hashnode_t], with [ENABLE_KEY_POINTER = 1]. *)
Record hashnode := HNode {
  hn_key : cptr;
  hn_value : cptr;
  hn_next : nptr
}.

(** [hashtable_t] and the heap of its nodes; the bucket array is null (or
    dangling) outside of the engine's life time. *)
Record hashtable := HTab {
  nodes : option (list nptr);
  max_slots : Z;
  count : Z;
  hheap : gmap loc hashnode
}.

Definition hn_set_key (p : cptr) (n : hashnode) : hashnode := HNode p (hn_value n) (hn_next n).
Definition hn_set_value (p : cptr) (n : hashnode) : hashnode := HNode (hn_key n) p (hn_next n).
Definition hn_set_next (p : nptr) (n : hashnode) : hashnode := HNode (hn_key n) (hn_value n) p.
Definition ht_set_nodes (l : option (list nptr)) (t : hashtable) : hashtable :=
  HTab l (max_slots t) (count t) (hheap t).
Definition ht_set_max (z : Z) (t : hashtable) : hashtable :=
  HTab (nodes t) z (count t) (hheap t).
Definition ht_set_count (z : Z) (t : hashtable) : hashtable :=
  HTab (nodes t) (max_slots t) z (hheap t).
Definition ht_set_heap (h : gmap loc hashnode) (t : hashtable) : hashtable :=
  HTab (nodes t) (max_slots t) (count t) h.

(** The global instance before [kvs_hash_create]. *)
Definition global_hash : hashtable := HTab None 0 0 ∅.

(** The bucket array as [kvs_calloc] returns it. *)
Definition fresh_nodes : list nptr := replicate (Z.to_nat MAX_TABLE_SIZE) None.
Arguments fresh_nodes : simpl never.

(** * Access to the nodes and the bucket array *)

Definition hload (p : nptr) : M hashtable hashnode :=
  x ← some_or_ub p;
  h ← gets hheap;
  some_or_ub (h !! x).

Definition hstore (p : nptr) (f : hashnode → hashnode) : M hashtable unit :=
  x ← some_or_ub p;
  n ← hload p;
  modify (λ t, ht_set_heap (<[x := f n]> (hheap t)) t).

(** [kvs_malloc(sizeof(hashnode_t))]: the fields are not initialised. *)
Definition halloc : M hashtable nptr :=
  ok ← malloc_ok;
  if ok : bool then
    h ← gets hheap;
    let x := fresh (dom h) in
    modify (λ t, ht_set_heap (<[x := HNode PFreed PFreed None]> (hheap t)) t);;
    mret (Some x)
  else mret None.

(** [kvs_free] of a node. *)
Definition hfree (p : nptr) : M hashtable unit :=
  match p with
  | None => mret tt
  | Some x =>
      hload p;;
      modify (λ t, ht_set_heap (delete x (hheap t)) t);;
      free_block
  end.

Definition bucket_at (i : Z) : M hashtable nptr :=
  l ← gets nodes;
  l ← some_or_ub l;
  if decide (0 ≤ i) then some_or_ub (l !! Z.to_nat i) else ub.

Definition set_bucket (i : Z) (p : nptr) : M hashtable unit :=
  bucket_at i;;
  modify (λ t, ht_set_nodes ((λ l, <[Z.to_nat i := p]> l) <$> nodes t) t).

(** * Operations *)

(** [key[i]] as the signed [char] that is added to the [int] sum. *)
Definition schar (c : Ascii.ascii) : Z :=
  let n := Z.of_N (Ascii.N_of_ascii c) in if n <? 128 then n else n - 256.

(** [while (key[i] != 0) { sum += key[i]; i++; }]. *)
Fixpoint hash_loop {S} (s : string) (sum : Z) : M S Z :=
  match s with
  | EmptyString => mret sum
  | String c s' => sum' ← ck_int (sum + schar c); hash_loop s' sum'
  end.

Definition _hash {S} (key : cptr) (size : Z) : M S Z :=
  if is_null key then mret (-1) else
  s ← deref key;
  sum ← hash_loop s 0;
  mret (Z.rem sum size).

Definition _create_node (key value : cptr) : M hashtable nptr :=
  node ← halloc;
  match node with
  | None => mret None
  | Some _ =>
      kcopy ← malloc_copy key;
      if is_null kcopy then hfree node;; mret None else
      hstore node (hn_set_key kcopy);;
      kvalue ← malloc_copy value;
      if is_null kvalue then kvs_free kcopy;; hfree node;; mret None else
      hstore node (hn_set_value kvalue);;
      hstore node (hn_set_next None);;
      mret node
  end.

Definition kvs_hash_create (hash : instance) : M hashtable Z :=
  if inst_null hash then mret (-1) else
  ok ← malloc_ok;
  if ok : bool then
    modify (ht_set_nodes (Some fresh_nodes));;
    modify (ht_set_max MAX_TABLE_SIZE);;
    modify (ht_set_count 0);;
    mret 0
  else
    modify (ht_set_nodes None);;
    mret (-1).

(** The inner loop of [kvs_hash_destroy]: free one chain. *)
Fixpoint free_chain (fuel : nat) (i : Z) (node : nptr) : M hashtable unit :=
  match fuel with
  | O => out_of_fuel
  | S fuel' =>
      match node with
      | None => mret tt
      | Some _ =>
          n ← hload node;
          set_bucket i (hn_next n);;
          kvs_free (hn_key n);;
          kvs_free (hn_value n);;
          hfree node;;
          free_chain fuel' i (hn_next n)
      end
  end.

(** The fuel of the chain loops: no chain is longer than the heap is large. *)
Definition chain_fuel : M hashtable nat :=
  h ← gets hheap;
  mret (S (size h)).

Definition kvs_hash_destroy (hash : instance) : M hashtable unit :=
  if inst_null hash then mret tt else
  n ← gets max_slots;
  for_up (Z.to_nat n) 0 (λ i,
    node ← bucket_at i;
    fuel ← chain_fuel;
    free_chain fuel i node;;
    mret (None : option unit));;
  l ← gets nodes;
  match l with
  | Some _ => free_block;; modify (ht_set_nodes None)
  | None => mret tt
  end.

(** The search loop of [set], [get] and [mod]: the first node of the chain
    that holds the key, or null. *)
Fixpoint chain_search (fuel : nat) (key : cptr) (node : nptr) : M hashtable nptr :=
  match fuel with
  | O => out_of_fuel
  | S fuel' =>
      match node with
      | None => mret None
      | Some _ =>
          n ← hload node;
          nk ← deref (hn_key n);
          k ← deref key;
          if strcmp nk k =? 0 then mret node else chain_search fuel' key (hn_next n)
      end
  end.

Definition kvs_hash_set (hash : instance) (key value : cptr) : M hashtable Z :=
  if inst_null hash || is_null key || is_null value then mret (-1) else
  i ← _hash key MAX_TABLE_SIZE;
  node ← bucket_at i;
  fuel ← chain_fuel;
  found ← chain_search fuel key node;
  match found with
  | Some _ => mret 1
  | None =>
      new_node ← _create_node key value;
      head ← bucket_at i;
      hstore new_node (hn_set_next head);;
      set_bucket i new_node;;
      c ← gets count;
      c ← ck_int (c + 1);
      modify (ht_set_count c);;
      mret 0
  end.

Definition kvs_hash_get (hash : instance) (key : cptr) : M hashtable cptr :=
  if inst_null hash || is_null key then mret PNull else
  i ← _hash key MAX_TABLE_SIZE;
  node ← bucket_at i;
  fuel ← chain_fuel;
  found ← chain_search fuel key node;
  match found with
  | Some _ => n ← hload found; mret (hn_value n)
  | None => mret PNull
  end.

Definition kvs_hash_mod (hash : instance) (key value : cptr) : M hashtable Z :=
  if inst_null hash || is_null key then mret (-1) else
  i ← _hash key MAX_TABLE_SIZE;
  node ← bucket_at i;
  fuel ← chain_fuel;
  node ← chain_search fuel key node;
  match node with
  | None => mret 1
  | Some _ =>
      n ← hload node;
      kvs_free (hn_value n);;
      hstore node (hn_set_value PFreed);;
      kvalue ← malloc_copy value;
      if is_null kvalue then mret (-2) else
      hstore node (hn_set_value kvalue);;
      mret 0
  end.

Definition kvs_hash_count (hash : instance) : M hashtable Z :=
  if inst_null hash then ub else gets count.

(** [while (cur->next != NULL) { if (match) break; cur = cur->next; }]: the
    last node reached. *)
Fixpoint find_prev (fuel : nat) (key : cptr) (cur : nptr) : M hashtable nptr :=
  match fuel with
  | O => out_of_fuel
  | S fuel' =>
      n ← hload cur;
      match hn_next n with
      | None => mret cur
      | Some _ =>
          nn ← hload (hn_next n);
          nk ← deref (hn_key nn);
          k ← deref key;
          if strcmp nk k =? 0 then mret cur else find_prev fuel' key (hn_next n)
      end
  end.

(** Free a node that has been unlinked. *)
Definition free_hashnode (p : nptr) : M hashtable unit :=
  n ← hload p;
  kvs_free (hn_key n);;
  kvs_free (hn_value n);;
  hfree p;;
  c ← gets count;
  c ← ck_int (c - 1);
  modify (ht_set_count c).

Definition kvs_hash_del (hash : instance) (key : cptr) : M hashtable Z :=
  if inst_null hash || is_null key then mret (-2) else
  i ← _hash key MAX_TABLE_SIZE;
  head ← bucket_at i;
  match head with
  | None => mret 1
  | Some _ =>
      hn ← hload head;
      hk ← deref (hn_key hn);
      k ← deref key;
      if strcmp hk k =? 0 then
        set_bucket i (hn_next hn);;
        free_hashnode head;;
        mret 0
      else
        fuel ← chain_fuel;
        cur ← find_prev fuel key head;
        cn ← hload cur;
        match hn_next cn with
        | None => mret 1
        | Some _ =>
            tmp ← hload (hn_next cn);
            hstore cur (hn_set_next (hn_next tmp));;
            free_hashnode (hn_next cn);;
            mret 0
        end
  end.

Definition kvs_hash_exist (hash : instance) (key : cptr) : M hashtable Z :=
  value ← kvs_hash_get hash key;
  if is_null value then mret 1 else mret 0.

Definition hash_ops : kv_ops hashtable :=
  KvOps (kvs_hash_set IGlobal) (kvs_hash_get IGlobal) (kvs_hash_del IGlobal)
        (kvs_hash_mod IGlobal) (kvs_hash_exist IGlobal).

(** * The invariant *)

(** The sum the hash function computes when it does not overflow. *)
Fixpoint hash_sum (s : string) : Z :=
  match s with
  | EmptyString => 0
  | String c s' => schar c + hash_sum s'
  end.
Definition hash_index (s : string) : Z := Z.rem (hash_sum s) MAX_TABLE_SIZE.

(** The keys the engine can index: the sum neither overflows nor is negative
    modulo the table size. *)
Definition hash_key_ok (s : string) : Prop :=
  0 ≤ hash_index s ∧ Z.of_nat (String.length s) ≤ 16777215.

(** A node of a chain: its address and its pair. *)
Abbreviation hentry := (loc * (string * string))%type.

(** The chain that starts at [p] holds the nodes of [l], in order. *)
Fixpoint chain (h : gmap loc hashnode) (p : nptr) (l : list hentry) : Prop :=
  match l with
  | [] => p = None
  | (x, (k, v)) :: l' =>
      p = Some x ∧ ∃ nx, h !! x = Some (HNode (PStr k) (PStr v) nx) ∧ chain h nx l'
  end.

Record hash_wf (t : hashtable) (ns : list nptr) (bs : list (list hentry)) : Prop := {
  hw_nodes : nodes t = Some ns;
  hw_slots : max_slots t = MAX_TABLE_SIZE;
  hw_len : length ns = Z.to_nat MAX_TABLE_SIZE;
  hw_blen : length bs = Z.to_nat MAX_TABLE_SIZE;
  hw_chain : ∀ i p b, ns !! i = Some p → bs !! i = Some b → chain (hheap t) p b;
  hw_index : ∀ i b en, bs !! i = Some b → en ∈ b → hash_index en.2.1 = Z.of_nat i;
  hw_locs : NoDup (mjoin bs).*1;
  hw_dom : dom (hheap t) = list_to_set (mjoin bs).*1;
  hw_keys : NoDup (mjoin bs).*2.*1;
  hw_count : count t = Z.of_nat (length (mjoin bs))
}.

Definition hash_rep (t : hashtable) (m : gmap string string) : Prop :=
  ∃ ns bs, hash_wf t ns bs ∧ m = list_to_map (mjoin bs).*2.

(** The node counter is an [int]. *)
Definition hash_room (t : hashtable) : Prop := count t < INT_MAX.

(** * Lemmas on chains *)

Section chains.
Implicit Types (h : gmap loc hashnode) (l b : list hentry) (p : nptr).

Lemma chain_ext h h' p l :
  (∀ x, x ∈ l.*1 → h' !! x = h !! x) → chain h p l → chain h' p l.
Proof.
  revert p. induction l as [|[x [k v]] l IH]; intros p Heq; simpl; [done|].
  intros (-> & nx & Hx & Hc). split; [done|]. exists nx. split.
  - by rewrite Heq by left.
  - apply IH; [|done]. intros y Hy. apply Heq. by right.
Qed.

Lemma chain_app h p l1 x k v l2 :
  chain h p (l1 ++ (x, (k, v)) :: l2) →
  ∃ nx, h !! x = Some (HNode (PStr k) (PStr v) nx) ∧ chain h nx l2.
Proof.
  revert p. induction l1 as [|[y [k' v']] l1 IH]; simpl; intros p.
  - by intros (_ & nx & ? & ?); eauto.
  - intros (_ & nx & _ & Hc). by eapply IH.
Qed.

(** Changing the last link of the first part of a chain. *)
Lemma chain_relink h p l1 y k v l2 l2' nx' :
  NoDup (l1 ++ (y, (k, v)) :: l2).*1 → NoDup (l1 ++ (y, (k, v)) :: l2').*1 →
  chain h p (l1 ++ (y, (k, v)) :: l2) → chain h nx' l2' →
  chain (<[y := HNode (PStr k) (PStr v) nx']> h) p (l1 ++ (y, (k, v)) :: l2').
Proof.
  revert p. induction l1 as [|[z [k' v']] l1 IH]; simpl; intros p Hnd Hnd' Hc Hc'.
  - destruct Hc as (-> & nx & _ & _). split; [done|]. exists nx'.
    rewrite lookup_insert_eq. split; [done|]. eapply chain_ext; [|done].
    apply NoDup_cons in Hnd' as [Hy _].
    intros x Hx. rewrite lookup_insert_ne; [done|]. by intros ->.
  - destruct Hc as (-> & nx & Hz & Hc). split; [done|]. exists nx.
    apply NoDup_cons in Hnd as [Hz1 Hnd]. apply NoDup_cons in Hnd' as [_ Hnd'].
    split; [|by eapply IH]. rewrite lookup_insert_ne; [done|].
    rewrite fmap_app in Hz1. set_solver.
Qed.

Lemma wp_hload x n e t Q : hheap t !! x = Some n → Q n e t → wp (hload (Some x)) e t Q.
Proof. intros Hx HQ. unfold hload. by wp_steps. Qed.

Lemma wp_hstore x n f e t Q :
  hheap t !! x = Some n → Q tt e (ht_set_heap (<[x := f n]> (hheap t)) t) →
  wp (hstore (Some x) f) e t Q.
Proof. intros Hx HQ. unfold hstore. wp_steps. eapply wp_hload; [done|]. by wp_steps. Qed.

(** The search loop. *)
Lemma wp_chain_search h p l k fuel e t Q :
  hheap t = h → chain h p l → (length l < fuel)%nat →
  (∀ l1 x v l2, l = l1 ++ (x, (k, v)) :: l2 → Q (Some x) e t) →
  (k ∉ l.*2.*1 → Q None e t) →
  wp (chain_search fuel (PStr k) p) e t Q.
Proof.
  intros Hh. revert p l Q. induction fuel as [|fuel IH]; intros p l Q Hc Hlen Hhit Hmiss; [lia|].
  destruct l as [|[x [k' v]] l]; simpl in Hc.
  { subst p. simpl. wp_steps. apply Hmiss. set_solver. }
  destruct Hc as (-> & nx & Hx & Hc). simpl. subst h. wp_steps.
  eapply wp_hload; [done|]. wp_steps.
  destruct (Z.eqb_spec (strcmp k' k) 0) as [Heq|Hne].
  - apply strcmp_eq in Heq as ->. wp_steps. by apply (Hhit [] x v l).
  - apply (IH _ l); [done|simpl in Hlen; lia| |].
    + intros l1 y v' l2 ->. by apply (Hhit ((x, (k', v)) :: l1) y v' l2).
    + intros Hni. apply Hmiss. simpl. intros [->|?]%elem_of_cons; [|done].
      by rewrite strcmp_refl in Hne.
Qed.

(** The loop of [del] that looks for the predecessor of the key. *)
Lemma wp_find_prev h x k0 v0 l k fuel e t Q :
  hheap t = h → chain h (Some x) ((x, (k0, v0)) :: l) → (length l < fuel)%nat →
  (∀ l1 y ky vy z v l2, (x, (k0, v0)) :: l = l1 ++ (y, (ky, vy)) :: (z, (k, v)) :: l2 →
    Q (Some y) e t) →
  (k ∉ l.*2.*1 → ∀ l1 y ky vy, (x, (k0, v0)) :: l = l1 ++ [(y, (ky, vy))] → Q (Some y) e t) →
  wp (find_prev fuel (PStr k) (Some x)) e t Q.
Proof.
  intros Hh. revert x k0 v0 l Q.
  induction fuel as [|fuel IH]; intros x k0 v0 l Q Hc Hlen Hhit Hmiss; [lia|].
  destruct Hc as (_ & nx & Hx & Hc). simpl. subst h. wp_steps.
  eapply wp_hload; [done|]. wp_steps. destruct l as [|[y [k1 v1]] l]; simpl in Hc.
  { subst nx. wp_steps. apply (Hmiss ltac:(set_solver) [] x k0 v0). done. }
  destruct Hc as (-> & ny & Hy & Hc). wp_steps.
  eapply wp_hload; [done|]. wp_steps.
  destruct (Z.eqb_spec (strcmp k1 k) 0) as [Heq|Hne].
  - apply strcmp_eq in Heq as ->. wp_steps. by apply (Hhit [] x k0 v0 y v1 l).
  - apply (IH y k1 v1 l); [by split; [|eauto]|simpl in Hlen; lia| |].
    + intros l1 y' ky vy z v l2 Hl. rewrite Hl in Hhit.
      by apply (Hhit ((x, (k0, v0)) :: l1) y' ky vy z v l2).
    + intros Hni l1 y' ky vy Hl.
      assert (Hni' : k ∉ ((y, (k1, v1)) :: l).*2.*1).
      { simpl. intros [->|?]%elem_of_cons; [|done]. by rewrite strcmp_refl in Hne. }
      rewrite Hl in Hmiss, Hni'. by apply (Hmiss Hni' ((x, (k0, v0)) :: l1) y' ky vy).
Qed.

End chains.

(** * Lemmas on the representation *)

Section wf.
Implicit Types (t : hashtable) (ns : list nptr) (bs : list (list hentry)).

(** Two buckets share no node. *)
Lemma bucket_disjoint t ns bs i j b c x :
  hash_wf t ns bs → bs !! i = Some b → bs !! j = Some c → i ≠ j →
  x ∈ b.*1 → x ∈ c.*1 → False.
Proof.
  intros Hwf Hi Hj Hne Hb Hc.
  destruct (mjoin_insert bs i b Hi) as (rest & Hp & _ & Hrest).
  pose proof (hw_locs _ _ _ Hwf) as Hnd. rewrite Hp, fmap_app in Hnd.
  apply NoDup_app in Hnd as (_ & Hdis & _). apply (Hdis x Hb).
  apply list_elem_of_fmap in Hc as (en & -> & Hen). apply list_elem_of_fmap_2.
  apply Hrest. exists j, c. by split_and!.
Qed.

(** Replacing one bucket. *)
Lemma hash_wf_update t ns bs i p b p' b' h' c' :
  hash_wf t ns bs → ns !! i = Some p → bs !! i = Some b →
  chain h' p' b' →
  (∀ x, x ∉ b.*1 → x ∉ b'.*1 → h' !! x = hheap t !! x) →
  (∀ x, x ∈ b'.*1 → x ∈ b.*1 ∨ hheap t !! x = None) →
  dom h' = (dom (hheap t) ∖ list_to_set b.*1) ∪ list_to_set b'.*1 →
  NoDup b'.*1 → NoDup b'.*2.*1 →
  (∀ en, en ∈ b' → hash_index en.2.1 = Z.of_nat i) →
  c' = count t + Z.of_nat (length b') - Z.of_nat (length b) →
  hash_wf (HTab (Some (<[i := p']> ns)) (max_slots t) c' h') (<[i := p']> ns) (<[i := b']> bs).
Proof.
  intros Hwf Hp Hb Hc Hsame Hnew Hdom Hnd Hndk Hidx ->.
  destruct (mjoin_insert bs i b Hb) as (rest & Hperm & Hperm' & Hrest). specialize (Hperm' b').
  pose proof (hw_locs _ _ _ Hwf) as Hl. rewrite Hperm, fmap_app in Hl.
  apply NoDup_app in Hl as (Hlb & Hld & Hlr).
  pose proof (hw_keys _ _ _ Hwf) as Hk. rewrite Hperm, !fmap_app in Hk.
  apply NoDup_app in Hk as (_ & _ & Hkr).
  assert (Hrestdom : ∀ x, x ∈ rest.*1 → hheap t !! x ≠ None).
  { intros x Hx. apply not_eq_None_Some, elem_of_dom. rewrite (hw_dom _ _ _ Hwf), Hperm, fmap_app. set_solver. }
  assert (Hld' : ∀ x, x ∈ b'.*1 → x ∉ rest.*1).
  { intros x Hx Hr. destruct (Hnew x Hx) as [?|?]; [by eapply Hld|by eapply Hrestdom]. }
  split; simpl.
  - done.
  - apply Hwf.
  - rewrite length_insert. apply Hwf.
  - rewrite length_insert. apply Hwf.
  - intros j q d Hj Hd. destruct (decide (j = i)) as [->|Hne].
    + rewrite list_lookup_insert_eq in Hj by eauto using lookup_lt_Some.
      rewrite list_lookup_insert_eq in Hd by eauto using lookup_lt_Some. by simplify_eq.
    + rewrite list_lookup_insert_ne in Hj by done. rewrite list_lookup_insert_ne in Hd by done.
      eapply chain_ext; [|by eapply (hw_chain _ _ _ Hwf)].
      intros x Hx. apply Hsame.
      * intros Hxb. by eapply (bucket_disjoint _ _ _ i j).
      * intros Hxb'. apply (Hld' x Hxb').
        apply list_elem_of_fmap in Hx as (en & -> & Hen). apply list_elem_of_fmap_2.
        apply Hrest. exists j, d. by split_and!.
  - intros j d en Hd Hen. destruct (decide (j = i)) as [->|Hne].
    + rewrite list_lookup_insert_eq in Hd by eauto using lookup_lt_Some. simplify_eq. by apply Hidx.
    + rewrite list_lookup_insert_ne in Hd by done. by eapply (hw_index _ _ _ Hwf).
  - rewrite Hperm', fmap_app. by apply NoDup_app.
  - rewrite Hdom, (hw_dom _ _ _ Hwf), Hperm, Hperm', !fmap_app, !list_to_set_app_L.
    set_solver.
  - rewrite Hperm', !fmap_app. apply NoDup_app. split_and!; [done| |done].
    intros k (en & -> & Hen)%list_elem_of_fmap (en' & Heq & Hen')%list_elem_of_fmap.
    apply list_elem_of_fmap in Hen as (x & -> & Hx). apply list_elem_of_fmap in Hen' as (y & -> & Hy).
    apply Hrest in Hy as (j & c & Hne & Hj & Hyc).
    pose proof (Hidx x Hx). pose proof (hw_index _ _ _ Hwf _ _ _ Hj Hyc). apply Hne.
    rewrite Heq in *. lia.
  - rewrite (hw_count _ _ _ Hwf), Hperm, Hperm', !length_app. lia.
Qed.

(** The map, seen from the bucket of a key. *)
Lemma hash_lookup_Some t ns bs i b x k v :
  hash_wf t ns bs → bs !! i = Some b → (x, (k, v)) ∈ b →
  (list_to_map (mjoin bs).*2 : gmap string string) !! k = Some v.
Proof.
  intros Hwf Hb Hin. apply elem_of_list_to_map; [apply Hwf|].
  apply list_elem_of_fmap. exists (x, (k, v)). split; [done|].
  apply list_elem_of_join. exists b. split; [done|]. by eapply list_elem_of_lookup_2.
Qed.

Lemma hash_lookup_None t ns bs i b k :
  hash_wf t ns bs → bs !! i = Some b → hash_index k = Z.of_nat i → k ∉ b.*2.*1 →
  (list_to_map (mjoin bs).*2 : gmap string string) !! k = None.
Proof.
  intros Hwf Hb Hi Hni. apply not_elem_of_list_to_map. intros Hin.
  apply list_elem_of_fmap in Hin as (kv & -> & Hin).
  apply list_elem_of_fmap in Hin as (en & -> & Hin).
  apply list_elem_of_join in Hin as (c & Hin & Hc). apply list_elem_of_lookup in Hc as [j Hj].
  pose proof (hw_index _ _ _ Hwf _ _ _ Hj Hin). assert (j = i) as -> by lia. simplify_eq.
  apply Hni. by do 2 apply list_elem_of_fmap_2.
Qed.

(** A chain, which no loop can outrun. *)
Lemma bucket_chain t ns bs i :
  hash_wf t ns bs → Z.of_nat i < MAX_TABLE_SIZE →
  ∃ p b, ns !! i = Some p ∧ bs !! i = Some b ∧
    chain (hheap t) p b ∧ (length b < S (size (hheap t)))%nat.
Proof.
  intros Hwf Hi.
  destruct (lookup_lt_is_Some_2 ns i) as [p Hp]; [rewrite (hw_len _ _ _ Hwf); lia|].
  destruct (lookup_lt_is_Some_2 bs i) as [b Hb]; [rewrite (hw_blen _ _ _ Hwf); lia|].
  exists p, b. split_and!; [done|done|by eapply hw_chain|].
  destruct (mjoin_insert bs _ b Hb) as (rest & Hp' & _ & _).
  rewrite <-size_dom, (hw_dom _ _ _ Hwf), size_list_to_set by apply Hwf.
  rewrite length_fmap, Hp', length_app. lia.
Qed.
(** The chain of a key. *)
Lemma hash_bucket t ns bs k :
  hash_wf t ns bs → hash_key_ok k →
  ∃ i p b, hash_index k = Z.of_nat i ∧ ns !! i = Some p ∧ bs !! i = Some b ∧
    chain (hheap t) p b ∧ (length b < S (size (hheap t)))%nat.
Proof.
  intros Hwf [Hpos _].
  assert (Hlt : hash_index k < MAX_TABLE_SIZE).
  { unfold hash_index, MAX_TABLE_SIZE in *. pose proof (Z.rem_bound_abs (hash_sum k) 1024). lia. }
  exists (Z.to_nat (hash_index k)).
  destruct (bucket_chain t ns bs (Z.to_nat (hash_index k)) Hwf) as (p & b & Hpb); [lia|].
  exists p, b. split; [lia|exact Hpb].
Qed.

End wf.

#[local] Arguments chain_search : simpl never.
#[local] Arguments find_prev : simpl never.

(** * Running the operations *)

Section ops.
Implicit Types (t : hashtable) (e : env).

(** Three live blocks per node: the node and its two strings. *)
Definition hash_balanced e t e' t' : Prop := live e' - live e = 3 * (count t' - count t).

Lemma schar_range c : -128 ≤ schar c < 128.
Proof.
  unfold schar. assert (0 ≤ Z.of_N (Ascii.N_of_ascii c) < 256).
  { pose proof (Ascii.N_ascii_bounded c). lia. }
  destruct (Z.ltb_spec (Z.of_N (Ascii.N_of_ascii c)) 128); lia.
Qed.

Lemma wp_hash_loop {S} s sum e (t : S) Q :
  Z.abs sum + 128 * Z.of_nat (String.length s) ≤ INT_MAX →
  Q (sum + hash_sum s) e t → wp (hash_loop s sum) e t Q.
Proof.
  revert sum. induction s as [|c s IH]; intros sum Hb HQ; simpl.
  - apply wp_ret. by rewrite Z.add_0_r in HQ.
  - pose proof (schar_range c). simpl in Hb. unfold INT_MAX in *. wp_step.
    apply wp_ck_int; [unfold INT_MIN, INT_MAX; lia|].
    apply IH; [lia|]. simpl in HQ. by rewrite <-Z.add_assoc.
Qed.

Lemma wp_hash k e t Q :
  hash_key_ok k → Q (hash_index k) e t → wp (_hash (PStr k) MAX_TABLE_SIZE) e t Q.
Proof.
  intros [_ Hlen] HQ. unfold _hash. simpl. wp_steps.
  apply wp_hash_loop; [unfold INT_MAX; lia|]. by wp_steps.
Qed.

Lemma wp_bucket_at ns i p e t Q :
  nodes t = Some ns → ns !! i = Some p → Q p e t → wp (bucket_at (Z.of_nat i)) e t Q.
Proof.
  intros Hn Hi HQ. unfold bucket_at. wp_steps. rewrite decide_True by lia.
  rewrite Nat2Z.id. by wp_step.
Qed.

Lemma wp_set_bucket ns i p q e t Q :
  nodes t = Some ns → ns !! i = Some p →
  Q tt e (ht_set_nodes (Some (<[i := q]> ns)) t) →
  wp (set_bucket (Z.of_nat i) q) e t Q.
Proof.
  intros Hn Hi HQ. unfold set_bucket. wp_step. eapply wp_bucket_at; [done..|].
  wp_steps. by rewrite Hn, Nat2Z.id.
Qed.

Lemma wp_create_node k v e t Q :
  no_oom e →
  let x := fresh (dom (hheap t)) in
  (∀ e', no_oom e' → live e' = live e + 3 →
    Q (Some x) e' (ht_set_heap (<[x := HNode (PStr k) (PStr v) None]> (hheap t)) t)) →
  wp (_create_node (PStr k) (PStr v)) e t Q.
Proof.
  intros He x HQ. unfold _create_node, halloc.
  pose proof (no_oom_fails _ He) as Hf.
  pose proof (no_oom_after _ He) as He1. pose proof (no_oom_fails _ He1) as Hf1.
  pose proof (no_oom_after _ He1) as He2. pose proof (no_oom_fails _ He2) as Hf2.
  wp_steps. rewrite Hf. wp_steps. fold x. rewrite Hf1. wp_steps.
  eapply wp_hstore; [by simpl; rewrite lookup_insert_eq|]. wp_steps. rewrite Hf2. wp_steps.
  eapply wp_hstore; [by simpl; rewrite lookup_insert_eq|]. wp_steps.
  eapply wp_hstore; [by simpl; rewrite lookup_insert_eq|]. wp_steps.
  unfold ht_set_heap; simpl. rewrite !insert_insert_eq. apply HQ; [by auto with kvs|].
  rewrite !live_after_malloc, Hf, Hf1, Hf2. lia.
Qed.

(** The three ways a bucket changes, and the map that results. *)
Lemma hash_map_add t ns bs i b b' x k v :
  bs !! i = Some b → hash_wf t ns (<[i := b']> bs) → b' ≡ₚ (x, (k, v)) :: b →
  (list_to_map (mjoin (<[i := b']> bs)).*2 : gmap string string) =
  <[k := v]> (list_to_map (mjoin bs).*2).
Proof.
  intros Hb Hwf Hp. destruct (mjoin_insert bs i b Hb) as (rest & Hq & Hq' & _).
  specialize (Hq' b').
  assert (Heq : (mjoin (<[i := b']> bs)).*2 ≡ₚ (k, v) :: (mjoin bs).*2).
  { rewrite Hq', Hq, Hp. done. }
  by rewrite (list_to_map_proper _ _ (hw_keys _ _ _ Hwf) Heq).
Qed.

Lemma hash_map_del t ns bs i b b' x k v :
  bs !! i = Some b → hash_wf t ns bs → b ≡ₚ (x, (k, v)) :: b' →
  (list_to_map (mjoin (<[i := b']> bs)).*2 : gmap string string) =
  delete k (list_to_map (mjoin bs).*2).
Proof.
  intros Hb Hwf Hp. destruct (mjoin_insert bs i b Hb) as (rest & Hq & Hq' & _).
  specialize (Hq' b').
  assert (Heq : (mjoin bs).*2 ≡ₚ (k, v) :: (mjoin (<[i := b']> bs)).*2).
  { rewrite Hq', Hq, Hp. done. }
  pose proof (hw_keys _ _ _ Hwf) as Hnd.
  rewrite (list_to_map_proper _ _ Hnd Heq). simpl.
  rewrite Heq in Hnd. simpl in Hnd. apply NoDup_cons in Hnd as [Hk _].
  rewrite delete_insert_id; [done|]. by apply not_elem_of_list_to_map.
Qed.

Lemma hash_map_mod t ns t' ns' bs i b b' x x' k v v' rest :
  bs !! i = Some b → hash_wf t ns bs → hash_wf t' ns' (<[i := b']> bs) →
  b ≡ₚ (x, (k, v)) :: rest → b' ≡ₚ (x', (k, v')) :: rest →
  (list_to_map (mjoin (<[i := b']> bs)).*2 : gmap string string) =
  <[k := v']> (list_to_map (mjoin bs).*2).
Proof.
  intros Hb Hwf Hwf' Hp Hp'. destruct (mjoin_insert bs i b Hb) as (r & Hq & Hq' & _).
  specialize (Hq' b').
  assert (Heq : (mjoin bs).*2 ≡ₚ (k, v) :: rest.*2 ++ r.*2).
  { rewrite Hq, Hp. simpl. by rewrite fmap_app. }
  assert (Heq' : (mjoin (<[i := b']> bs)).*2 ≡ₚ (k, v') :: rest.*2 ++ r.*2).
  { rewrite Hq', Hp'. simpl. by rewrite fmap_app. }
  rewrite (list_to_map_proper _ _ (hw_keys _ _ _ Hwf) Heq).
  rewrite (list_to_map_proper _ _ (hw_keys _ _ _ Hwf') Heq'). simpl.
  by rewrite insert_insert_eq.
Qed.

(** The common beginning of every operation: index, bucket, search. *)
Lemma wp_lookup_chain {A} (K : Z → nptr → M hashtable A) ns bs k e t Q :
  hash_wf t ns bs → hash_key_ok k →
  (∀ i p b l1 x v l2, hash_index k = Z.of_nat i → ns !! i = Some p → bs !! i = Some b →
    b = l1 ++ (x, (k, v)) :: l2 → chain (hheap t) p b → wp (K (Z.of_nat i) (Some x)) e t Q) →
  (∀ i p b, hash_index k = Z.of_nat i → ns !! i = Some p → bs !! i = Some b →
    chain (hheap t) p b → k ∉ b.*2.*1 → wp (K (Z.of_nat i) None) e t Q) →
  wp (i ← _hash (PStr k) MAX_TABLE_SIZE;
      node ← bucket_at i;
      fuel ← chain_fuel;
      found ← chain_search fuel (PStr k) node;
      K i found) e t Q.
Proof.
  intros Hwf Hk Hhit Hmiss.
  destruct (hash_bucket t ns bs k Hwf Hk) as (i & p & b & Hi & Hp & Hb & Hc & Hlen).
  wp_step. apply wp_hash; [done|]. rewrite Hi. wp_step.
  eapply wp_bucket_at; [apply Hwf|done|]. unfold chain_fuel. wp_steps.
  eapply (wp_chain_search _ p b k); [done|done|lia| |].
  - intros l1 x v l2 Heq. by eapply Hhit.
  - intros Hni. by eapply Hmiss.
Qed.

Lemma wp_hash_get e t m k :
  hash_rep t m → hash_key_ok k →
  wp (kvs_hash_get IGlobal (PStr k)) e t (λ r e' t', r = ptr_of (m !! k) ∧ e' = e ∧ t' = t).
Proof.
  intros (ns & bs & Hwf & ->) Hk. unfold kvs_hash_get. simpl.
  eapply (wp_lookup_chain (λ _ found, _)); [done|done| |].
  - intros i p b l1 x v l2 Hi Hp Hb -> Hc. destruct (chain_app _ _ _ _ _ _ _ Hc) as (nx & Hx & _).
    wp_step. eapply wp_hload; [done|]. wp_steps. split_and!; [|done..].
    rewrite (hash_lookup_Some _ _ _ _ _ x k v Hwf Hb); [done|set_solver].
  - intros i p b Hi Hp Hb Hc Hni. wp_steps. split_and!; [|done..].
    by rewrite (hash_lookup_None t ns bs i b).
Qed.

Lemma wp_hash_exist e t m k :
  hash_rep t m → hash_key_ok k →
  wp (kvs_hash_exist IGlobal (PStr k)) e t (λ r e' t', exist_post m k r ∧ e' = e ∧ t' = t).
Proof.
  intros Hr Hk. unfold kvs_hash_exist. wp_step. eapply wp_mono; [by apply wp_hash_get|].
  intros r e' t' (-> & -> & ->). unfold exist_post. destruct (m !! k); simpl; by wp_steps.
Qed.

(** The node a search has found is not moved by a store to its fields. *)
Lemma chain_set_value h p l1 x k v v' l2 :
  NoDup (l1 ++ (x, (k, v)) :: l2).*1 → chain h p (l1 ++ (x, (k, v)) :: l2) →
  ∃ nx, h !! x = Some (HNode (PStr k) (PStr v) nx) ∧
    chain (<[x := HNode (PStr k) (PStr v') nx]> h) p (l1 ++ (x, (k, v')) :: l2).
Proof.
  revert p. induction l1 as [|[y [k' v0]] l1 IH]; simpl; intros p Hnd Hc.
  - destruct Hc as (-> & nx & Hx & Hc). exists nx. split; [done|]. split; [done|].
    exists nx. rewrite lookup_insert_eq. split; [done|]. eapply chain_ext; [|done].
    apply NoDup_cons in Hnd as [Hni _]. intros y Hy. rewrite lookup_insert_ne; [done|]. by intros ->.
  - destruct Hc as (-> & ny & Hy & Hc). apply NoDup_cons in Hnd as [Hni Hnd].
    destruct (IH ny Hnd Hc) as (nx & Hx & Hc'). exists nx. split; [done|]. split; [done|].
    exists ny. split; [|done]. rewrite lookup_insert_ne; [done|].
    intros ->. apply Hni. rewrite fmap_app. set_solver.
Qed.

Lemma bucket_nodup t ns bs i b :
  hash_wf t ns bs → bs !! i = Some b →
  NoDup b.*1 ∧ NoDup b.*2.*1 ∧ list_to_set b.*1 ⊆ dom (hheap t) ∧
  ∀ en, en ∈ b → hash_index en.2.1 = Z.of_nat i.
Proof.
  intros Hwf Hb. destruct (mjoin_insert bs i b Hb) as (rest & Hp & _ & _).
  pose proof (hw_locs _ _ _ Hwf) as Hl. pose proof (hw_keys _ _ _ Hwf) as Hk.
  rewrite Hp, fmap_app in Hl. rewrite Hp, !fmap_app in Hk.
  apply NoDup_app in Hl as (? & _ & _). apply NoDup_app in Hk as (? & _ & _).
  split_and!; [done|done| |].
  - rewrite (hw_dom _ _ _ Hwf), Hp, fmap_app, list_to_set_app_L. set_solver.
  - intros en Hen. by eapply hw_index.
Qed.

Lemma dom_replace (x : loc) (D X : gset loc) :
  X ⊆ D → {[x]} ∪ D = D ∖ X ∪ ({[x]} ∪ X).
Proof.
  intros HX. apply set_eq. intros y. destruct (decide (y ∈ X)); set_solver.
Qed.

Lemma dom_remove (x : loc) (D X : gset loc) :
  x ∉ X → {[x]} ∪ X ⊆ D → D ∖ {[x]} = D ∖ ({[x]} ∪ X) ∪ X.
Proof.
  intros Hx HX. apply set_eq. intros y. destruct (decide (y ∈ X)); set_solver.
Qed.

Lemma wp_hash_set e t m k v :
  hash_rep t m → hash_key_ok k → no_oom e → hash_room t →
  wp (kvs_hash_set IGlobal (PStr k) (PStr v)) e t (λ r e' t',
    no_oom e' ∧ 0 ≤ r ∧ hash_balanced e t e' t' ∧
    ∃ m', set_post m k v r m' ∧ hash_rep t' m').
Proof.
  intros (ns & bs & Hwf & ->) Hk He Hroom. unfold kvs_hash_set, hash_balanced. simpl.
  eapply (wp_lookup_chain (λ i found, _)); [done|done| |].
  - intros i p b l1 x v0 l2 Hi Hp Hb -> Hc. wp_steps. split_and!; [done|lia|lia|].
    eexists. split; [left; split_and!; [done| |done]|eexists _, _; by split].
    rewrite (hash_lookup_Some _ _ _ _ _ x k v0 Hwf Hb); [eauto|set_solver].
  - intros i p b Hi Hp Hb Hc Hni.
    destruct (bucket_nodup t ns bs i b Hwf Hb) as (Hnd & Hndk & Hdom & Hidx).
    wp_step. apply wp_create_node; [done|]. intros e' He' Hlive.
    set (x := fresh (dom (hheap t))).
    assert (Hx : hheap t !! x = None) by apply not_elem_of_dom, is_fresh.
    assert (Hxb : x ∉ b.*1).
    { intros Hin. apply (is_fresh (dom (hheap t))). apply Hdom. by apply elem_of_list_to_set. }
    wp_step. eapply wp_bucket_at; [apply Hwf|done|]. wp_step.
    eapply wp_hstore; [by simpl; rewrite lookup_insert_eq|]. wp_step.
    eapply wp_set_bucket; [apply Hwf|done|]. wp_steps.
    pose proof (hw_count _ _ _ Hwf) as Hcnt. unfold hash_room in Hroom.
    apply wp_ck_int; [unfold INT_MIN; lia|]. wp_steps.
    unfold ht_set_heap, ht_set_nodes, ht_set_count; simpl. rewrite insert_insert_eq.
    unfold hn_set_next; simpl.
    assert (Hwf' : hash_wf (HTab (Some (<[i := Some x]> ns)) (max_slots t) (count t + 1)
      (<[x := HNode (PStr k) (PStr v) p]> (hheap t)))
      (<[i := Some x]> ns) (<[i := (x, (k, v)) :: b]> bs)).
    { eapply hash_wf_update; [done..| | | | | | | |].
      - split; [done|]. exists p. rewrite lookup_insert_eq. split; [done|].
        eapply chain_ext; [|done]. intros y Hy. rewrite lookup_insert_ne; [done|]. by intros ->.
      - intros y _ Hy. rewrite lookup_insert_ne; [done|]. set_solver.
      - intros y. rewrite fmap_cons, elem_of_cons. intros [->|?]; auto.
      - rewrite dom_insert_L, fmap_cons, list_to_set_cons. by apply dom_replace.
      - rewrite fmap_cons. by apply NoDup_cons.
      - rewrite !fmap_cons. by apply NoDup_cons.
      - intros en [->|?]%elem_of_cons; auto.
      - simpl. lia. }
    split_and!; [done|lia|simpl; lia|]. eexists. split; [right; left; split_and!; [done| |done]|].
    + by rewrite (hash_lookup_None t ns bs i b).
    + eexists _, _. split; [exact Hwf'|]. symmetry. by eapply hash_map_add.
Qed.

Lemma wp_hash_mod e t m k v :
  hash_rep t m → hash_key_ok k → malloc_fails e = false →
  wp (kvs_hash_mod IGlobal (PStr k) (PStr v)) e t (λ r e' t',
    (no_oom e → no_oom e') ∧ hash_balanced e t e' t' ∧
    ∃ m', mod_post m k v r m' ∧ hash_rep t' m').
Proof.
  intros (ns & bs & Hwf & ->) Hk Hf. unfold kvs_hash_mod, hash_balanced. simpl.
  eapply (wp_lookup_chain (λ i found, _)); [done|done| |].
  - intros i p b l1 x v0 l2 Hi Hp Hb Heq Hc.
    destruct (bucket_nodup t ns bs i b Hwf Hb) as (Hnd & Hndk & Hdom & Hidx).
    rewrite Heq in Hc, Hnd.
    destruct (chain_set_value _ _ _ _ _ _ v _ Hnd Hc) as (nx & Hx & Hc').
    wp_step. eapply wp_hload; [done|]. wp_steps.
    eapply wp_hstore; [done|]. wp_steps.
    assert (Hf' : malloc_fails (add_live (-1) e) = false) by done. rewrite Hf'. wp_steps.
    eapply wp_hstore; [by simpl; rewrite lookup_insert_eq|]. wp_steps.
    unfold ht_set_heap; simpl. rewrite insert_insert_eq. unfold hn_set_value; simpl.
    set (b' := l1 ++ (x, (k, v)) :: l2).
    assert (Hlocs : b'.*1 = b.*1) by (subst b b'; by rewrite !fmap_app).
    assert (Hkeys : b'.*2.*1 = b.*2.*1) by (subst b b'; by rewrite !fmap_app).
    assert (Hwf' : hash_wf (HTab (Some (<[i := p]> ns)) (max_slots t) (count t)
      (<[x := HNode (PStr k) (PStr v) nx]> (hheap t))) (<[i := p]> ns) (<[i := b']> bs)).
    { assert (Hxb : x ∈ b.*1) by (subst b; rewrite fmap_app; set_solver).
      eapply hash_wf_update; [done..| | | | | | | |].
      - done.
      - intros y Hy _. rewrite lookup_insert_ne; [done|]. by intros ->.
      - rewrite Hlocs. auto.
      - rewrite Hlocs, dom_insert_L, (dom_replace x _ _ Hdom).
        assert (x ∈ (list_to_set b.*1 : gset loc)) by by apply elem_of_list_to_set. set_solver.
      - rewrite Hlocs. by rewrite Heq.
      - by rewrite Hkeys.
      - intros en Hen. subst b b'. apply elem_of_app in Hen as [?|[->|?]%elem_of_cons];
          [apply Hidx; set_solver|done|apply Hidx; set_solver].
      - rewrite <-(length_fmap fst b'), Hlocs, length_fmap. lia. }
    rewrite list_insert_id in Hwf' by done.
    split_and!; [by auto with kvs|rewrite live_after_malloc, Hf'; simpl; lia|].
    eexists. split; [left; split_and!; [done| |done]|].
    + rewrite (hash_lookup_Some _ _ _ _ _ x k v0 Hwf Hb); [eauto|subst b; set_solver].
    + eexists _, _. rewrite (hw_nodes _ _ _ Hwf). split; [exact Hwf'|]. symmetry.
      eapply (hash_map_mod t ns _ _ bs i b b' x x k v0 v (l1 ++ l2));
        [done|done|exact Hwf'| |]; subst b b'; by rewrite <-Permutation_middle.
  - intros i p b Hi Hp Hb Hc Hni. wp_steps. split_and!; [done|lia|].
    eexists. split; [right; split_and!; [done|by rewrite (hash_lookup_None t ns bs i b)|done]|].
    eexists _, _. by split.
Qed.

Lemma wp_free_hashnode x k v nx e t Q :
  hheap t !! x = Some (HNode (PStr k) (PStr v) nx) → 0 < count t ≤ INT_MAX →
  Q tt (add_live (-3) e) (HTab (nodes t) (max_slots t) (count t - 1) (delete x (hheap t))) →
  wp (free_hashnode (Some x)) e t Q.
Proof.
  intros Hx Hc HQ. unfold free_hashnode, hfree. wp_step. eapply wp_hload; [done|]. wp_steps.
  eapply wp_hload; [done|]. wp_steps. apply wp_ck_int; [unfold INT_MIN; lia|]. wp_steps.
  unfold ht_set_count, ht_set_heap; simpl.
  replace (add_live (-1) (add_live (-1) (add_live (-1) e))) with (add_live (-3) e); [done|].
  unfold add_live, set_live; simpl. f_equal. lia.
Qed.

(** Unlinking a node from its bucket. *)
Lemma hash_wf_remove t ns bs i p b p' b' x k v h' :
  hash_wf t ns bs → ns !! i = Some p → bs !! i = Some b → b ≡ₚ (x, (k, v)) :: b' →
  chain h' p' b' →
  (∀ y, y ∉ b.*1 → h' !! y = hheap t !! y) → dom h' = dom (hheap t) ∖ {[x]} →
  hash_wf (HTab (Some (<[i := p']> ns)) (max_slots t) (count t - 1) h')
    (<[i := p']> ns) (<[i := b']> bs).
Proof.
  intros Hwf Hp Hb Hperm Hc Hsame Hdom.
  destruct (bucket_nodup t ns bs i b Hwf Hb) as (Hnd & Hndk & Hsub & Hidx).
  rewrite Hperm in Hnd, Hndk. rewrite fmap_cons in Hnd. rewrite !fmap_cons in Hndk.
  apply NoDup_cons in Hnd as [Hx Hnd]. apply NoDup_cons in Hndk as [_ Hndk].
  eapply hash_wf_update; [done..| | | | | | | |].
  - done.
  - auto.
  - intros y Hy. left. rewrite Hperm. by right.
  - rewrite Hperm in Hsub |- *. rewrite fmap_cons, list_to_set_cons in Hsub |- *.
    rewrite Hdom. apply dom_remove; [by rewrite elem_of_list_to_set|done].
  - done.
  - done.
  - intros en Hen. apply Hidx. rewrite Hperm. by right.
  - rewrite Hperm. simpl. lia.
Qed.

Lemma wp_hash_del e t m k :
  hash_rep t m → hash_key_ok k → count t ≤ INT_MAX →
  wp (kvs_hash_del IGlobal (PStr k)) e t (λ r e' t',
    (no_oom e → no_oom e') ∧ hash_balanced e t e' t' ∧
    ∃ m', del_post m k r m' ∧ hash_rep t' m').
Proof.
  intros (ns & bs & Hwf & ->) Hk Hmax. unfold kvs_hash_del, hash_balanced. simpl.
  destruct (hash_bucket t ns bs k Hwf Hk) as (i & p & b & Hi & Hp & Hb & Hc & Hlen).
  destruct (bucket_nodup t ns bs i b Hwf Hb) as (Hnd & Hndk & Hsub & Hidx).
  assert (Hcnt : b ≠ [] → 0 < count t).
  { intros Hne. rewrite (hw_count _ _ _ Hwf).
    destruct (mjoin_insert bs i b Hb) as (rest & -> & _). destruct b; simpl; [done|lia]. }
  assert (Hmiss : k ∉ b.*2.*1 → (list_to_map (mjoin bs).*2 : gmap string string) !! k = None).
  { intros. by eapply hash_lookup_None. }
  assert (Hhit : ∀ x v, (x, (k, v)) ∈ b →
    is_Some ((list_to_map (mjoin bs).*2 : gmap string string) !! k)).
  { intros x v Hin. exists v. by eapply hash_lookup_Some. }
  wp_step. apply wp_hash; [done|]. rewrite Hi. wp_step.
  eapply wp_bucket_at; [apply Hwf|done|].
  destruct b as [|[x [k0 v0]] l]; simpl in Hc.
  { subst p. wp_steps. split_and!; [done|lia|]. eexists.
    split; [right; split_and!; [done|apply Hmiss; set_solver|done]|]. eexists _, _. by split. }
  destruct Hc as (-> & nx & Hx & Hc). simpl in Hnd, Hndk.
  specialize (Hcnt ltac:(done)).
  wp_step. eapply wp_hload; [done|]. wp_steps.
  destruct (Z.eqb_spec (strcmp k0 k) 0) as [Heq|Hne].
  - apply strcmp_eq in Heq as ->. wp_step. eapply wp_set_bucket; [apply Hwf|done|]. wp_step.
    eapply wp_free_hashnode; [done|simpl; lia|]. wp_steps.
    apply NoDup_cons in Hnd as [Hxl _].
    assert (Hwf' := hash_wf_remove t ns bs i (Some x) _ nx l x k v0 (delete x (hheap t))
      Hwf Hp Hb ltac:(done)).
    split_and!; [done|lia|]. eexists. split; [left; split_and!; [done|by eapply Hhit; left|done]|].
    eexists _, _. split; [apply Hwf'|].
    + eapply chain_ext; [|done]. intros y Hy. rewrite lookup_delete_ne; [done|]. by intros ->.
    + intros y Hy. rewrite lookup_delete_ne; [done|]. intros ->. apply Hy. by left.
    + by rewrite dom_delete_L.
    + symmetry. by eapply hash_map_del.
  - unfold chain_fuel. wp_steps. simpl in Hlen.
    assert (Hne' : k ∉ l.*2.*1 → k ∉ k0 :: l.*2.*1).
    { intros ? [->|?]%elem_of_cons; [|done]. by rewrite strcmp_refl in Hne. }
    assert (Hcx : chain (hheap t) (Some x) ((x, (k0, v0)) :: l)) by (split; eauto).
    eapply (wp_find_prev _ x k0 v0 l k); [done|done|lia| |].
    + intros l1 y ky vy z v l2 Hl. rewrite Hl in Hcx.
      pose proof Hcx as Hcy. apply chain_app in Hcy as (ny & Hy & Hcz).
      destruct Hcz as (-> & nz & Hz & Hc2).
      wp_step. eapply wp_hload; [done|]. wp_steps. eapply wp_hload; [done|]. wp_steps.
      eapply wp_hstore; [done|]. wp_steps. unfold hn_set_next; simpl.
      set (b' := l1 ++ (y, (ky, vy)) :: l2).
      assert (Hperm : (x, (k0, v0)) :: l ≡ₚ (z, (k, v)) :: b').
      { rewrite Hl. subst b'. by rewrite (perm_swap (z, _)), <-Permutation_middle. }
      assert (Hndx : NoDup ((x, (k0, v0)) :: l).*1) by done.
      assert (Hndz : NoDup (z :: b'.*1)) by by rewrite Hperm in Hndx.
      apply NoDup_cons in Hndz as [Hzb Hndb]. rewrite Hl in Hndx.
      assert (Hyb : y ∈ b'.*1) by (subst b'; rewrite fmap_app; set_solver).
      assert (Hyz : y ≠ z) by by intros ->.
      eapply wp_free_hashnode; [by simpl; rewrite lookup_insert_ne|simpl; lia|]. wp_steps.
      assert (Hwf' := hash_wf_remove t ns bs i (Some x) _ (Some x) b' z k v
        (delete z (<[y := HNode (PStr ky) (PStr vy) nz]> (hheap t))) Hwf Hp Hb Hperm).
      rewrite list_insert_id in Hwf' by done.
      split_and!; [done|lia|]. eexists. split.
      { left. split_and!; [done|eapply (Hhit z v); rewrite Hl; set_solver|done]. }
      eexists _, _. rewrite (hw_nodes _ _ _ Hwf). split; [apply Hwf'|].
      * eapply chain_ext; [|by eapply (chain_relink _ _ l1 y ky vy ((z, (k, v)) :: l2) l2 nz)].
        intros w Hw. rewrite lookup_delete_ne; [done|]. by intros ->.
      * intros w Hw. rewrite Hperm in Hw. rewrite lookup_delete_ne, lookup_insert_ne; [done| |].
        -- intros ->. apply Hw. by right.
        -- intros ->. apply Hw. by left.
      * rewrite dom_delete_L, dom_insert_lookup_L by eauto. done.
      * symmetry. by eapply hash_map_del.
    + intros Hni l1 y ky vy Hl. rewrite Hl in Hcx. apply chain_app in Hcx as (ny & Hy & Hc2).
      simpl in Hc2. subst ny. wp_step. eapply wp_hload; [done|]. wp_steps.
      split_and!; [done|lia|]. eexists.
      split; [right; split_and!; [done|by apply Hmiss, Hne'|done]|]. eexists _, _. by split.
Qed.

End ops.

(** * The engine meets its contract *)

Lemma hash_rep_count t m : hash_rep t m → count t = Z.of_nat (size m).
Proof.
  intros (ns & bs & Hwf & ->). rewrite map_size_list_to_map by apply Hwf.
  rewrite length_fmap. apply Hwf.
Qed.

(** The states of the engine: the node counter fits an [int]. *)
Definition hash_state (t : hashtable) (m : gmap string string) : Prop :=
  hash_rep t m ∧ Z.of_nat (size m) ≤ INT_MAX.

Lemma hash_state_count t m : hash_state t m → count t ≤ INT_MAX.
Proof. intros [Hr Hm]. by rewrite (hash_rep_count _ _ Hr). Qed.

Lemma hash_pair_blocks e t m e' t' m' :
  hash_rep t m → hash_rep t' m' → hash_balanced e t e' t' → pair_blocks 3 e m e' m'.
Proof.
  unfold hash_balanced, pair_blocks. by intros ->%hash_rep_count ->%hash_rep_count.
Qed.

#[export] Instance hash_engine : KVEngine hash_ops.
Proof.
  unshelve econstructor;
    [exact hash_state|exact hash_key_ok|exact (Some INT_MAX)
    |exact (λ e t, no_oom e ∧ hash_room t)|exact 3|..].
  - intros e t m [Hr _] He Hroom. split; [done|]. unfold hash_room.
    by rewrite (hash_rep_count _ _ Hr).
  - intros e t m k [Hr _] Hk. by apply wp_hash_get.
  - intros e t m k [Hr _] Hk. by apply wp_hash_exist.
  - intros e t m k v [Hr Hm] Hk [He Hroom]. eapply wp_mono; [by apply wp_hash_set|].
    intros r e' t' (? & ? & Hbal & m' & Hpost & Hr'). split_and!; [done..|].
    exists m'. split; [done|]. split; [by eapply hash_pair_blocks|]. split; [done|].
    unfold hash_room in Hroom. rewrite (hash_rep_count _ _ Hr) in Hroom.
    destruct Hpost as [(_ & _ & ->)|[(_ & Hn & ->)|(_ & ->)]]; [done| |done].
    rewrite map_size_insert_None by done. lia.
  - intros e t m k v [Hr Hm] Hk Hf. eapply wp_mono; [by apply wp_hash_mod|].
    intros r e' t' (? & Hbal & m' & Hpost & Hr'). split; [done|].
    exists m'. split; [done|]. split; [by eapply hash_pair_blocks|]. split; [done|].
    destruct Hpost as [(_ & ? & ->)|(_ & _ & ->)]; [|done].
    by rewrite map_size_insert_Some.
  - intros e t m k [Hr Hm] Hk. eapply wp_mono.
    { apply wp_hash_del; [done|done|]. by apply (hash_state_count t m). }
    intros r e' t' (? & Hbal & m' & Hpost & Hr'). split; [done|].
    exists m'. split; [done|]. split; [by eapply hash_pair_blocks|]. split; [done|].
    destruct Hpost as [(_ & ? & ->)|(_ & _ & ->)]; [|done].
    rewrite map_size_delete_Some by done. lia.
Defined.

(** * Creation and destruction *)

Lemma hash_wf_fresh t :
  nodes t = Some fresh_nodes → max_slots t = MAX_TABLE_SIZE → count t = 0 → hheap t = ∅ →
  hash_wf t fresh_nodes (replicate (Z.to_nat MAX_TABLE_SIZE) []).
Proof.
  intros Hn Hs Hc Hh.
  assert (Hj : ∀ n, mjoin (replicate n ([] : list hentry)) = []) by by intros n; induction n.
  split; rewrite ?Hj; try done; try apply NoDup_nil_2.
  - intros i p b Hp Hb. apply lookup_replicate in Hp as [-> _].
    by apply lookup_replicate in Hb as [-> _].
  - intros i b en Hb Hen. apply lookup_replicate in Hb as [-> _]. set_solver.
  - by rewrite Hh, dom_empty_L.
Qed.

Lemma wp_hash_create e :
  wp (kvs_hash_create IGlobal) e global_hash (λ r e' t',
    (no_oom e → no_oom e') ∧ live e' - live e = (if malloc_fails e then 0 else 1) ∧
    if malloc_fails e then r = -1 ∧ nodes t' = None else r = 0 ∧ hash_state t' ∅).
Proof.
  unfold kvs_hash_create. simpl. wp_steps. pose proof (live_after_malloc e) as Hl.
  destruct (malloc_fails e); wp_steps; (split_and!; [by auto with kvs|lia|..]);
    [done..|]. split; [|by rewrite map_size_empty].
  eexists _, _. split; [by apply hash_wf_fresh|].
  by assert (mjoin (replicate (Z.to_nat MAX_TABLE_SIZE) ([] : list hentry)) = []) as ->
    by (generalize (Z.to_nat MAX_TABLE_SIZE) as n; intros n; by induction n).
Qed.

Lemma wp_free_chain ns i p l fuel e t Q :
  nodes t = Some ns → (i < length ns)%nat → chain (hheap t) p l → NoDup l.*1 →
  (length l < fuel)%nat →
  (∀ e' t' q, live e' = live e - 3 * Z.of_nat (length l) →
    nodes t' = Some (<[i := q]> ns) → max_slots t' = max_slots t → count t' = count t →
    (∀ x, x ∉ l.*1 → hheap t' !! x = hheap t !! x) →
    dom (hheap t') = dom (hheap t) ∖ list_to_set l.*1 → Q tt e' t') →
  wp (free_chain fuel (Z.of_nat i) p) e t Q.
Proof.
  revert ns p l e t. induction fuel as [|fuel IH]; intros ns p l e t Hn Hi Hc Hnd Hlen HQ; [lia|].
  destruct (lookup_lt_is_Some_2 ns i Hi) as [q Hq].
  destruct l as [|[x [k v]] l]; simpl in Hc.
  { subst p. simpl. wp_steps. apply (HQ _ _ q); try done.
    - simpl. lia.
    - by rewrite list_insert_id.
    - simpl. by rewrite difference_empty_L. }
  destruct Hc as (-> & nx & Hx & Hc). apply NoDup_cons in Hnd as [Hxl Hnd].
  cbn [free_chain]. wp_step. eapply wp_hload; [done|]. wp_steps.
  eapply wp_set_bucket; [done..|]. wp_steps. unfold hfree. wp_steps.
  eapply wp_hload; [done|]. wp_steps.
  apply (IH (<[i := nx]> ns) _ l); [done|by rewrite length_insert| |done|simpl in Hlen; lia|].
  { simpl. eapply chain_ext; [|done]. intros y Hy. rewrite lookup_delete_ne; [done|]. by intros ->. }
  intros e' t' q' Hl Hn' Hs Hcnt Hsame Hdom. apply (HQ _ _ q').
  - simpl in *. lia.
  - by rewrite Hn', list_insert_insert_eq.
  - done.
  - done.
  - intros y Hy. rewrite fmap_cons, not_elem_of_cons in Hy. destruct Hy as [? ?].
    rewrite Hsame by done. simpl. by rewrite lookup_delete_ne.
  - rewrite Hdom, fmap_cons, list_to_set_cons. simpl. rewrite dom_delete_L. set_solver.
Qed.

#[local] Arguments free_chain : simpl never.

(** Destroying the engine frees every block it owns: the bucket array, the
    nodes and their strings. *)
Lemma wp_hash_destroy e t m :
  hash_rep t m →
  wp (kvs_hash_destroy IGlobal) e t (λ _ e' t',
    hheap t' = ∅ ∧ nodes t' = None ∧ live e' = live e - 1 - 3 * Z.of_nat (size m)).
Proof.
  intros (ns & bs & Hwf & ->). rewrite map_size_list_to_map, length_fmap by apply Hwf.
  unfold kvs_hash_destroy. simpl. wp_steps. rewrite (hw_slots _ _ _ Hwf).
  set (left := λ j, mjoin (drop (Z.to_nat j) bs)).
  assert (Hstep : ∀ j b, 0 ≤ j → bs !! Z.to_nat j = Some b → left j = b ++ left (j + 1)).
  { intros j b Hj Hb. unfold left. rewrite (drop_S _ _ _ Hb).
    by replace (Z.to_nat (j + 1)) with (S (Z.to_nat j)) by lia. }
  apply (wp_for_up (λ j e' t', ∃ ns', nodes t' = Some ns' ∧ length ns' = length ns ∧
    (∀ i, j ≤ Z.of_nat i → ns' !! i = ns !! i) ∧ NoDup (left j).*1 ∧
    (∀ x, x ∈ (left j).*1 → hheap t' !! x = hheap t !! x) ∧
    dom (hheap t') = list_to_set (left j).*1 ∧
    live e' = live e - 3 * (Z.of_nat (length (mjoin bs)) - Z.of_nat (length (left j))))).
  - exists ns. change (left 0) with (mjoin bs).
    split_and!; [apply Hwf|done|done|apply Hwf|done|apply Hwf|lia].
  - intros j e' t' Hj (ns' & Hn' & Hlen' & Hns & Hnd & Hsame & Hdom & Hlive).
    destruct (lookup_lt_is_Some_2 ns (Z.to_nat j)) as [p Hp].
    { rewrite (hw_len _ _ _ Hwf). lia. }
    destruct (lookup_lt_is_Some_2 bs (Z.to_nat j)) as [b Hb].
    { rewrite (hw_blen _ _ _ Hwf). lia. }
    rewrite (Hstep j b) in * by (done || lia). rewrite fmap_app in *.
    apply NoDup_app in Hnd as (Hndb & Hdisj & Hndr).
    assert (Hj' : j = Z.of_nat (Z.to_nat j)) by lia. rewrite Hj'. wp_step.
    eapply wp_bucket_at; [done|by rewrite Hns; [|lia]|]. unfold chain_fuel. wp_steps.
    eapply (wp_free_chain ns' (Z.to_nat j) p b); [done| | |done| |].
    + rewrite Hlen', (hw_len _ _ _ Hwf). lia.
    + eapply chain_ext; [|by eapply (hw_chain _ _ _ Hwf)]. intros x Hx. apply Hsame. set_solver.
    + rewrite <-size_dom, Hdom, size_list_to_set by by apply NoDup_app.
      rewrite length_app, length_fmap. lia.
    + intros e2 t2 q Hl2 Hn2 _ _ Hsame2 Hdom2. wp_steps. rewrite <-Hj'.
      exists (<[Z.to_nat j := q]> ns'). split_and!.
      * done.
      * by rewrite length_insert.
      * intros i Hi. rewrite list_lookup_insert_ne by lia. apply Hns. lia.
      * done.
      * intros x Hx. rewrite Hsame2 by (intros ?; by eapply Hdisj). apply Hsame. set_solver.
      * rewrite Hdom2, Hdom, list_to_set_app_L. set_solver.
      * rewrite Hl2, Hlive, length_app. lia.
  - intros e' t' (ns' & Hn' & _ & _ & _ & _ & Hdom & Hlive).
    assert (Hend : left (0 + Z.of_nat (Z.to_nat MAX_TABLE_SIZE)) = []).
    { unfold left. rewrite drop_ge; [done|]. rewrite (hw_blen _ _ _ Hwf). lia. }
    rewrite Hend in Hdom, Hlive. wp_steps. rewrite Hn'. wp_steps. split_and!.
    + by apply dom_empty_inv_L.
    + done.
    + simpl in Hlive. lia.
Qed.

(** * The theorems *)

(** C10: over its whole life (create, any sequence of operations on keys that
    hash to a bucket, destroy) with memory available, the hash engine answers
    exactly as a finite map that starts empty, reaches no undefined behaviour,
    frees every node and gives back every block it allocated. *)
Theorem hash_lifecycle_refines os e :
  no_oom e → Forall (λ o, hash_key_ok (op_key o)) os → Z.of_nat (length os) ≤ INT_MAX →
  wp (lifecycle hash_ops (kvs_hash_create IGlobal) (kvs_hash_destroy IGlobal) os)
    e global_hash (λ a e' t',
      a = (spec_steps os ∅).1 ∧ live e' = live e ∧ hheap t' = ∅ ∧ nodes t' = None).
Proof.
  intros He Hks Hlen.
  apply (lifecycle_refines hash_ops _ _ _ _ _ 1 (λ t', hheap t' = ∅ ∧ nodes t' = None)).
  - done.
  - done.
  - intros c [= <-]. done.
  - eapply wp_mono; [by apply wp_hash_create|].
    rewrite no_oom_fails by done. intros r e' s' (? & Hl & _ & ?).
    split_and!; [auto|lia|done].
  - intros e' t m [Hr _]. eapply wp_mono; [by apply wp_hash_destroy|]. simpl. tauto.
Qed.

Lemma hash_lifecycle_refines_witness :
  wp (lifecycle hash_ops (kvs_hash_create IGlobal) (kvs_hash_destroy IGlobal)
        [OpSet "a" "1"; OpMod "a" "2"; OpDel "b"; OpGet "a"])
    (Env [] [] [] [] 0) global_hash (λ a e' t',
      a = [ACode 0; ACode 0; ACode 1; AValue (PStr "2")] ∧ live e' = 0 ∧
      hheap t' = ∅ ∧ nodes t' = None).
Proof.
  apply (hash_lifecycle_refines [OpSet "a" "1"; OpMod "a" "2"; OpDel "b"; OpGet "a"]
    (Env [] [] [] [] 0)); [constructor| |simpl; unfold INT_MAX; lia].
  repeat constructor; unfold hash_key_ok; vm_compute; repeat split; intros; discriminate.
Defined.
