(* ===== verification/RbTree.v ===== *)
(** The red-black tree engine, as the code has it: src/engine/kvs_rbtree.c.

    The nodes live in a heap and are linked by [left], [right] and [parent]
    pointers; a sentinel node [nil] stands for every leaf and for the parent of
    the root.  [malloc] does not initialise the fields of a node, so pointers
    read before they are written are undefined behaviour.  This file holds the
    model; RbInv.v the pure trees and their invariants, RbProof.v the proofs. *)
From S2P Require Import Prelude KvsSpec.

(** * Data *)

Inductive color : Type := RED | BLACK.
Global Instance color_eq_dec : EqDecision color.
Proof. solve_decision. Defined.

(** A node pointer: null, the address of a node, or not initialised. *)
Inductive rptr : Type :=
  | RNull
  | Ptr (x : loc)
  | RUndef.
Global Instance rptr_eq_dec : EqDecision rptr.
Proof. solve_decision. Defined.

(** [rbtree_node]. *)
Record rbnode := RbNode {
  n_color : color;
  n_right : rptr;
  n_left : rptr;
  n_parent : rptr;
  n_key : cptr;
  n_value : cptr
}.

(** [rbtree], with the heap of its nodes. *)
Record rbtree := RB {
  rb_root : rptr;
  rb_nil : rptr;
  rb_heap : gmap loc rbnode
}.

(** The global instance before [kvs_rbtree_create]. *)
Definition global_rbtree : rbtree := RB RNull RNull ∅.

Definition n_set_color (c : color) (n : rbnode) : rbnode :=
  RbNode c (n_right n) (n_left n) (n_parent n) (n_key n) (n_value n).
Definition n_set_right (p : rptr) (n : rbnode) : rbnode :=
  RbNode (n_color n) p (n_left n) (n_parent n) (n_key n) (n_value n).
Definition n_set_left (p : rptr) (n : rbnode) : rbnode :=
  RbNode (n_color n) (n_right n) p (n_parent n) (n_key n) (n_value n).
Definition n_set_parent (p : rptr) (n : rbnode) : rbnode :=
  RbNode (n_color n) (n_right n) (n_left n) p (n_key n) (n_value n).
Definition n_set_key (p : cptr) (n : rbnode) : rbnode :=
  RbNode (n_color n) (n_right n) (n_left n) (n_parent n) p (n_value n).
Definition n_set_value (p : cptr) (n : rbnode) : rbnode :=
  RbNode (n_color n) (n_right n) (n_left n) (n_parent n) (n_key n) p.

(** * Access to the nodes *)

(** Dereferencing a pointer. *)
Definition rload (p : rptr) : M rbtree rbnode :=
  match p with
  | Ptr x => h ← gets rb_heap; some_or_ub (h !! x)
  | _ => ub
  end.
Definition rstore (p : rptr) (f : rbnode → rbnode) : M rbtree unit :=
  match p with
  | Ptr x =>
      h ← gets rb_heap;
      n ← some_or_ub (h !! x);
      modify (λ T, RB (rb_root T) (rb_nil T) (<[x := f n]> (rb_heap T)))
  | _ => ub
  end.

(** Reading a pointer field. *)
Definition ck_ptr (p : rptr) : M rbtree rptr :=
  match p with RUndef => ub | _ => mret p end.
Definition get_left (p : rptr) : M rbtree rptr := n ← rload p; ck_ptr (n_left n).
Definition get_right (p : rptr) : M rbtree rptr := n ← rload p; ck_ptr (n_right n).
Definition get_parent (p : rptr) : M rbtree rptr := n ← rload p; ck_ptr (n_parent n).
Definition get_color (p : rptr) : M rbtree color := n ← rload p; mret (n_color n).
Definition get_key (p : rptr) : M rbtree cptr := n ← rload p; mret (n_key n).
Definition get_value (p : rptr) : M rbtree cptr := n ← rload p; mret (n_value n).
Definition put_left (p q : rptr) : M rbtree unit := rstore p (n_set_left q).
Definition put_right (p q : rptr) : M rbtree unit := rstore p (n_set_right q).
Definition put_parent (p q : rptr) : M rbtree unit := rstore p (n_set_parent q).
Definition put_color (p : rptr) (c : color) : M rbtree unit := rstore p (n_set_color c).
Definition put_key (p : rptr) (q : cptr) : M rbtree unit := rstore p (n_set_key q).
Definition put_value (p : rptr) (q : cptr) : M rbtree unit := rstore p (n_set_value q).
Definition get_root : M rbtree rptr := gets rb_root.
Definition get_nil : M rbtree rptr := gets rb_nil.
Definition put_root (p : rptr) : M rbtree unit :=
  modify (λ T, RB p (rb_nil T) (rb_heap T)).

Definition ptr_eqb (p q : rptr) : bool := bool_decide (p = q).
Definition is_red (c : color) : bool := match c with RED => true | BLACK => false end.
Definition is_black (c : color) : bool := match c with RED => false | BLACK => true end.

(** [kvs_malloc(sizeof(rbtree_node))] and [kvs_free] of a node. *)
Definition undef_node : rbnode := RbNode BLACK RUndef RUndef RUndef PFreed PFreed.
Definition ralloc : M rbtree rptr :=
  ok ← malloc_ok;
  if ok : bool then
    h ← gets rb_heap;
    let x := fresh (dom h) in
    modify (λ T, RB (rb_root T) (rb_nil T) (<[x := undef_node]> (rb_heap T)));;
    mret (Ptr x)
  else mret RNull.
Definition rfree (p : rptr) : M rbtree unit :=
  match p with
  | RNull => mret tt
  | Ptr x =>
      rload p;;
      modify (λ T, RB (rb_root T) (rb_nil T) (delete x (rb_heap T)));;
      free_block
  | RUndef => ub
  end.

(** The fuel of the loops that walk up or down the tree: one more than the
    number of nodes. *)
Definition rb_fuel : M rbtree nat := h ← gets rb_heap; mret (S (size h)).

(** * The tree operations *)

Fixpoint rbtree_mini_loop (fuel : nat) (x : rptr) : M rbtree rptr :=
  match fuel with
  | O => out_of_fuel
  | S fuel' =>
      l ← get_left x;
      nil ← get_nil;
      if ptr_eqb l nil then mret x else rbtree_mini_loop fuel' l
  end.
Definition rbtree_mini (x : rptr) : M rbtree rptr :=
  fuel ← rb_fuel;
  rbtree_mini_loop fuel x.

Fixpoint rbtree_maxi_loop (fuel : nat) (x : rptr) : M rbtree rptr :=
  match fuel with
  | O => out_of_fuel
  | S fuel' =>
      r ← get_right x;
      nil ← get_nil;
      if ptr_eqb r nil then mret x else rbtree_maxi_loop fuel' r
  end.
Definition rbtree_maxi (x : rptr) : M rbtree rptr :=
  fuel ← rb_fuel;
  rbtree_maxi_loop fuel x.

(** [while ((y != T->nil) && (x == y->right)) { x = y; y = y->parent; }]. *)
Fixpoint successor_loop (fuel : nat) (x y : rptr) : M rbtree rptr :=
  match fuel with
  | O => out_of_fuel
  | S fuel' =>
      nil ← get_nil;
      if ptr_eqb y nil then mret y else
      yr ← get_right y;
      if ptr_eqb x yr then
        yp ← get_parent y;
        successor_loop fuel' y yp
      else mret y
  end.
Definition rbtree_successor (x : rptr) : M rbtree rptr :=
  y ← get_parent x;
  r ← get_right x;
  nil ← get_nil;
  if negb (ptr_eqb r nil) then rbtree_mini r else
  fuel ← rb_fuel;
  successor_loop fuel x y.

Definition rbtree_left_rotate (x : rptr) : M rbtree unit :=
  y ← get_right x;
  yl ← get_left y;
  put_right x yl;;
  yl ← get_left y;
  nil ← get_nil;
  (if negb (ptr_eqb yl nil) then put_parent yl x else mret tt);;
  xp ← get_parent x;
  put_parent y xp;;
  (if ptr_eqb xp nil then put_root y else
   xpl ← get_left xp;
   if ptr_eqb x xpl then put_left xp y else put_right xp y);;
  put_left y x;;
  put_parent x y.

Definition rbtree_right_rotate (y : rptr) : M rbtree unit :=
  x ← get_left y;
  xr ← get_right x;
  put_left y xr;;
  xr ← get_right x;
  nil ← get_nil;
  (if negb (ptr_eqb xr nil) then put_parent xr y else mret tt);;
  yp ← get_parent y;
  put_parent x yp;;
  (if ptr_eqb yp nil then put_root x else
   ypr ← get_right yp;
   if ptr_eqb y ypr then put_right yp x else put_left yp x);;
  put_right x y;;
  put_parent y x.

(** One iteration of the loop of [rbtree_insert_fixup]: the new [z]. *)
Definition insert_fixup_step (z : rptr) : M rbtree rptr :=
  zp ← get_parent z;
  zpp ← get_parent zp;
  zppl ← get_left zpp;
  if ptr_eqb zp zppl then
    y ← get_right zpp;
    yc ← get_color y;
    if is_red yc then
      put_color zp BLACK;;
      put_color y BLACK;;
      put_color zpp RED;;
      mret zpp
    else
      zpr ← get_right zp;
      z' ← (if ptr_eqb z zpr then rbtree_left_rotate zp;; mret zp else mret z);
      zp' ← get_parent z';
      put_color zp' BLACK;;
      zpp' ← get_parent zp';
      put_color zpp' RED;;
      rbtree_right_rotate zpp';;
      mret z'
  else
    y ← get_left zpp;
    yc ← get_color y;
    if is_red yc then
      put_color zp BLACK;;
      put_color y BLACK;;
      put_color zpp RED;;
      mret zpp
    else
      zpl ← get_left zp;
      z' ← (if ptr_eqb z zpl then rbtree_right_rotate zp;; mret zp else mret z);
      zp' ← get_parent z';
      put_color zp' BLACK;;
      zpp' ← get_parent zp';
      put_color zpp' RED;;
      rbtree_left_rotate zpp';;
      mret z'.

Fixpoint insert_fixup_loop (fuel : nat) (z : rptr) : M rbtree unit :=
  match fuel with
  | O => out_of_fuel
  | S fuel' =>
      zp ← get_parent z;
      c ← get_color zp;
      if is_red c then z' ← insert_fixup_step z; insert_fixup_loop fuel' z' else mret tt
  end.

Definition rbtree_insert_fixup (z : rptr) : M rbtree unit :=
  fuel ← rb_fuel;
  insert_fixup_loop fuel z;;
  root ← get_root;
  put_color root BLACK.

(** The descent of [rbtree_insert]: the last node reached, or [None] when the
    key is found on the way. *)
Fixpoint insert_descend (fuel : nat) (z y x : rptr) : M rbtree (option rptr) :=
  match fuel with
  | O => out_of_fuel
  | S fuel' =>
      nil ← get_nil;
      if ptr_eqb x nil then mret (Some y) else
      zk ← get_key z; zk ← deref zk;
      xk ← get_key x; xk ← deref xk;
      if (strcmp zk xk <? 0)%Z then l ← get_left x; insert_descend fuel' z x l
      else if (strcmp zk xk >? 0)%Z then r ← get_right x; insert_descend fuel' z x r
      else mret None
  end.

Definition rbtree_insert (z : rptr) : M rbtree unit :=
  nil ← get_nil;
  root ← get_root;
  fuel ← rb_fuel;
  found ← insert_descend fuel z nil root;
  match found with
  | None => mret tt
  | Some y =>
      put_parent z y;;
      (if ptr_eqb y nil then put_root z else
       zk ← get_key z; zk ← deref zk;
       yk ← get_key y; yk ← deref yk;
       if (strcmp zk yk <? 0)%Z then put_left y z else put_right y z);;
      put_left z nil;;
      put_right z nil;;
      put_color z RED;;
      rbtree_insert_fixup z
  end.

(** One iteration of the loop of [rbtree_delete_fixup]: the new [x]. *)
Definition delete_fixup_step (x : rptr) : M rbtree rptr :=
  xp ← get_parent x;
  xpl ← get_left xp;
  if ptr_eqb x xpl then
    w ← get_right xp;
    wc ← get_color w;
    w ← (if is_red wc then
           put_color w BLACK;;
           put_color xp RED;;
           rbtree_left_rotate xp;;
           xp ← get_parent x;
           get_right xp
         else mret w);
    wl ← get_left w; wlc ← get_color wl;
    wr ← get_right w; wrc ← get_color wr;
    if is_black wlc && is_black wrc then
      put_color w RED;;
      get_parent x
    else
      wr ← get_right w; wrc ← get_color wr;
      w ← (if is_black wrc then
             wl ← get_left w;
             put_color wl BLACK;;
             put_color w RED;;
             rbtree_right_rotate w;;
             xp ← get_parent x;
             get_right xp
           else mret w);
      xp ← get_parent x;
      xpc ← get_color xp;
      put_color w xpc;;
      put_color xp BLACK;;
      wr ← get_right w;
      put_color wr BLACK;;
      rbtree_left_rotate xp;;
      get_root
  else
    w ← get_left xp;
    wc ← get_color w;
    w ← (if is_red wc then
           put_color w BLACK;;
           put_color xp RED;;
           rbtree_right_rotate xp;;
           xp ← get_parent x;
           get_left xp
         else mret w);
    wl ← get_left w; wlc ← get_color wl;
    wr ← get_right w; wrc ← get_color wr;
    if is_black wlc && is_black wrc then
      put_color w RED;;
      get_parent x
    else
      wl ← get_left w; wlc ← get_color wl;
      w ← (if is_black wlc then
             wr ← get_right w;
             put_color wr BLACK;;
             put_color w RED;;
             rbtree_left_rotate w;;
             xp ← get_parent x;
             get_left xp
           else mret w);
      xp ← get_parent x;
      xpc ← get_color xp;
      put_color w xpc;;
      put_color xp BLACK;;
      wl ← get_left w;
      put_color wl BLACK;;
      rbtree_right_rotate xp;;
      get_root.

(** The loop, with [x->color = BLACK] after it. *)
Fixpoint delete_fixup_loop (fuel : nat) (x : rptr) : M rbtree unit :=
  match fuel with
  | O => out_of_fuel
  | S fuel' =>
      root ← get_root;
      if ptr_eqb x root then put_color x BLACK else
      c ← get_color x;
      if is_black c then x' ← delete_fixup_step x; delete_fixup_loop fuel' x'
      else put_color x BLACK
  end.
Definition rbtree_delete_fixup (x : rptr) : M rbtree unit :=
  fuel ← rb_fuel;
  delete_fixup_loop fuel x.

Definition rbtree_delete (z : rptr) : M rbtree rptr :=
  nil ← get_nil;
  zl ← get_left z;
  zr ← get_right z;
  y ← (if ptr_eqb zl nil || ptr_eqb zr nil then mret z else rbtree_successor z);
  yl ← get_left y;
  yr ← get_right y;
  let x := if negb (ptr_eqb yl nil) then yl
           else if negb (ptr_eqb yr nil) then yr else nil in
  yp ← get_parent y;
  put_parent x yp;;
  yp ← get_parent y;
  (if ptr_eqb yp nil then put_root x else
   ypl ← get_left yp;
   if ptr_eqb y ypl then put_left yp x else put_right yp x);;
  (if negb (ptr_eqb y z) then
     tmp ← get_key z; yk ← get_key y;
     put_key z yk;; put_key y tmp;;
     tmp ← get_value z; yv ← get_value y;
     put_value z yv;; put_value y tmp
   else mret tt);;
  yc ← get_color y;
  (if is_black yc then rbtree_delete_fixup x else mret tt);;
  mret y.

Fixpoint search_loop (fuel : nat) (key : cptr) (node : rptr) : M rbtree rptr :=
  match fuel with
  | O => out_of_fuel
  | S fuel' =>
      nil ← get_nil;
      if ptr_eqb node nil then mret nil else
      k ← deref key;
      nk ← get_key node; nk ← deref nk;
      if (strcmp k nk <? 0)%Z then l ← get_left node; search_loop fuel' key l
      else if (strcmp k nk >? 0)%Z then r ← get_right node; search_loop fuel' key r
      else mret node
  end.
Definition rbtree_search (key : cptr) : M rbtree rptr :=
  node ← get_root;
  fuel ← rb_fuel;
  search_loop fuel key node.

(** [rbtree_traversal]: the pairs it prints, in order. *)
Fixpoint traversal_loop (fuel : nat) (node : rptr) : M rbtree (list (string * string)) :=
  match fuel with
  | O => out_of_fuel
  | S fuel' =>
      nil ← get_nil;
      if ptr_eqb node nil then mret [] else
      l ← get_left node;
      ls ← traversal_loop fuel' l;
      k ← get_key node; k ← deref k;
      v ← get_value node; v ← deref v;
      r ← get_right node;
      rs ← traversal_loop fuel' r;
      mret (ls ++ (k, v) :: rs)
  end.
Definition rbtree_traversal (node : rptr) : M rbtree (list (string * string)) :=
  fuel ← rb_fuel;
  traversal_loop fuel node.

(** * The engine operations *)

Definition kvs_rbtree_create (inst : instance) : M rbtree Z :=
  if inst_null inst then mret 1%Z else
  nil ← ralloc;
  modify (λ T, RB (rb_root T) nil (rb_heap T));;
  nil ← get_nil;
  put_color nil BLACK;;
  put_root nil;;
  mret 0%Z.

(** Freeing a node that [rbtree_delete] has unlinked. *)
Definition free_rbnode (cur : rptr) : M rbtree unit :=
  k ← get_key cur;
  kvs_free k;;
  v ← get_value cur;
  kvs_free v;;
  rfree cur.

(** [while (inst->root != inst->nil)] remove the smallest node. *)
Fixpoint destroy_loop (fuel : nat) : M rbtree unit :=
  match fuel with
  | O => out_of_fuel
  | S fuel' =>
      root ← get_root;
      nil ← get_nil;
      if ptr_eqb root nil then mret tt else
      mini ← rbtree_mini root;
      cur ← rbtree_delete mini;
      free_rbnode cur;;
      destroy_loop fuel'
  end.

Definition kvs_rbtree_destroy (inst : instance) : M rbtree unit :=
  if inst_null inst then mret tt else
  fuel ← rb_fuel;
  destroy_loop fuel;;
  nil ← get_nil;
  rfree nil;;
  modify (λ T, RB (rb_root T) RNull (rb_heap T));;
  put_root RNull.

Definition kvs_rbtree_set (inst : instance) (key value : cptr) : M rbtree Z :=
  if inst_null inst || is_null key || is_null value then mret (-1)%Z else
  existing ← rbtree_search key;
  nil ← get_nil;
  if negb (ptr_eqb existing RNull) && negb (ptr_eqb existing nil) then mret 1%Z else
  node ← ralloc;
  if ptr_eqb node RNull then mret (-2)%Z else
  k ← kvs_strdup key;
  put_key node k;;
  if is_null k then rfree node;; mret (-2)%Z else
  v ← kvs_strdup value;
  put_value node v;;
  if is_null v then
    k ← get_key node;
    kvs_free k;;
    rfree node;;
    mret (-2)%Z
  else
  rbtree_insert node;;
  mret 0%Z.

Definition kvs_rbtree_get (inst : instance) (key : cptr) : M rbtree cptr :=
  if inst_null inst || is_null key then mret PNull else
  node ← rbtree_search key;
  if ptr_eqb node RNull then mret PNull else
  nil ← get_nil;
  if ptr_eqb node nil then mret PNull else
  get_value node.

Definition kvs_rbtree_del (inst : instance) (key : cptr) : M rbtree Z :=
  if inst_null inst || is_null key then mret (-1)%Z else
  node ← rbtree_search key;
  nil ← get_nil;
  if ptr_eqb node RNull || ptr_eqb node nil then mret 1%Z else
  cur ← rbtree_delete node;
  free_rbnode cur;;
  mret 0%Z.

Definition kvs_rbtree_mod (inst : instance) (key value : cptr) : M rbtree Z :=
  if inst_null inst || is_null key || is_null value then mret (-1)%Z else
  node ← rbtree_search key;
  if ptr_eqb node RNull then mret 1%Z else
  nil ← get_nil;
  if ptr_eqb node nil then mret 1%Z else
  old ← get_value node;
  kvs_free old;;
  v ← malloc_copy value;
  put_value node v;;
  if is_null v then mret (-2)%Z else mret 0%Z.

Definition kvs_rbtree_exist (inst : instance) (key : cptr) : M rbtree Z :=
  if inst_null inst || is_null key then mret (-1)%Z else
  node ← rbtree_search key;
  if ptr_eqb node RNull then mret 1%Z else
  nil ← get_nil;
  if ptr_eqb node nil then mret 1%Z else mret 0%Z.

Definition rbtree_ops : kv_ops rbtree :=
  KvOps (kvs_rbtree_set IGlobal) (kvs_rbtree_get IGlobal) (kvs_rbtree_del IGlobal)
        (kvs_rbtree_mod IGlobal) (kvs_rbtree_exist IGlobal).
