(* ===== verification/RbInv.v ===== *)
(** Pure red-black trees, the contexts that lead to one of their sub-trees, the
    red-black invariants on both, and the cells a tree and a context occupy in
    the heap of RbTree.v. *)
From S2P Require Import Prelude KvsSpec RbTree.

(** * Directions *)

(** The two mirror images of every routine of kvs_rbtree.c. *)
Inductive dir : Type := L | R.
Global Instance dir_eq_dec : EqDecision dir.
Proof. solve_decision. Defined.
Definition opp (d : dir) : dir := match d with L => R | R => L end.

Definition get_child (d : dir) (p : rptr) : M rbtree rptr :=
  match d with L => get_left p | R => get_right p end.
Definition put_child (d : dir) (p q : rptr) : M rbtree unit :=
  match d with L => put_left p q | R => put_right p q end.

(** * Trees and contexts *)

(** A tree whose nodes carry their address. *)
Inductive tree : Type :=
  | E
  | T (x : loc) (c : color) (k v : string) (l r : tree).

(** The node whose child on side [d] is [a]. *)
Definition node (d : dir) (x : loc) (c : color) (k v : string) (a b : tree) : tree :=
  match d with L => T x c k v a b | R => T x c k v b a end.

(** One step up from a sub-tree: it is the child on side [f_dir] of the node
    [f_loc], whose other child is [f_sib]. *)
Record frame := Fr {
  f_dir : dir; f_loc : loc; f_color : color; f_key : string; f_val : string; f_sib : tree
}.

Definition fill (f : frame) (t : tree) : tree :=
  node (f_dir f) (f_loc f) (f_color f) (f_key f) (f_val f) t (f_sib f).
Fixpoint plug (ctx : list frame) (t : tree) : tree :=
  match ctx with
  | [] => t
  | f :: ctx' => plug ctx' (fill f t)
  end.

Definition tcolor (t : tree) : color := match t with E => BLACK | T _ c _ _ _ _ => c end.
Definition makeblack (t : tree) : tree :=
  match t with E => E | T x _ k v l r => T x BLACK k v l r end.
Fixpoint inorder (t : tree) : list (string * string) :=
  match t with
  | E => []
  | T _ _ k v l r => inorder l ++ (k, v) :: inorder r
  end.
Fixpoint tsize (t : tree) : nat :=
  match t with E => 0 | T _ _ _ _ l r => S (tsize l + tsize r) end.

(** The pairs to the left and to the right of the hole of a context. *)
Definition fpre (f : frame) : list (string * string) :=
  match f_dir f with L => [] | R => inorder (f_sib f) ++ [(f_key f, f_val f)] end.
Definition fpost (f : frame) : list (string * string) :=
  match f_dir f with L => (f_key f, f_val f) :: inorder (f_sib f) | R => [] end.
Fixpoint cpre (ctx : list frame) : list (string * string) :=
  match ctx with [] => [] | f :: ctx' => cpre ctx' ++ fpre f end.
Fixpoint cpost (ctx : list frame) : list (string * string) :=
  match ctx with [] => [] | f :: ctx' => fpost f ++ cpost ctx' end.

Lemma inorder_node d x c k v a b :
  inorder (node d x c k v a b) =
  match d with L => inorder a ++ (k, v) :: inorder b | R => inorder b ++ (k, v) :: inorder a end.
Proof. by destruct d. Qed.
Lemma inorder_plug ctx t : inorder (plug ctx t) = cpre ctx ++ inorder t ++ cpost ctx.
Proof.
  revert t. induction ctx as [|f ctx IH]; intros t; simpl; [by rewrite app_nil_r|].
  rewrite IH. unfold fill, fpre, fpost. rewrite inorder_node.
  destruct (f_dir f); simpl; by rewrite <-?(assoc_L (++)).
Qed.
Lemma inorder_plug_eq ctx t t' :
  inorder t = inorder t' → inorder (plug ctx t) = inorder (plug ctx t').
Proof. intros H. by rewrite !inorder_plug, H. Qed.
Lemma inorder_makeblack t : inorder (makeblack t) = inorder t.
Proof. by destruct t. Qed.
Lemma length_inorder t : length (inorder t) = tsize t.
Proof.
  induction t as [|x c k v l IHl r IHr]; simpl; [done|].
  rewrite length_app. simpl. rewrite IHl, IHr. lia.
Qed.

(** * The red-black invariants *)

(** [is_rb t c n]: [t] may stand below a node of colour [c]: no red node has a
    red child, and every path to a leaf goes through [n] black nodes. *)
Inductive is_rb : tree → color → nat → Prop :=
  | rb_leaf c : is_rb E c 0
  | rb_red x k v l r n :
      is_rb l RED n → is_rb r RED n → is_rb (T x RED k v l r) BLACK n
  | rb_black x k v l r c n :
      is_rb l BLACK n → is_rb r BLACK n → is_rb (T x BLACK k v l r) c (S n).

(** The colour above the hole; the sentinel counts as red, so that the root is
    black. *)
Definition ccolor (ctx : list frame) : color :=
  match ctx with [] => RED | f :: _ => f_color f end.

(** [cok ctx n]: the context is well formed around a tree of black height [n]. *)
Fixpoint cok (ctx : list frame) (n : nat) : Prop :=
  match ctx with
  | [] => True
  | f :: ctx' =>
      is_rb (f_sib f) (f_color f) n ∧
      match f_color f with
      | RED => ccolor ctx' = BLACK ∧ cok ctx' n
      | BLACK => cok ctx' (S n)
      end
  end.

Lemma is_rb_weaken t c n : is_rb t RED n → is_rb t c n.
Proof. inversion 1; by constructor. Qed.
Lemma is_rb_any t n c : is_rb t c n → is_rb t BLACK n.
Proof. inversion 1; by constructor. Qed.
Lemma is_rb_black t n c : is_rb t BLACK n → tcolor t = BLACK → is_rb t c n.
Proof. inversion 1; try done; by constructor. Qed.
Lemma is_rb_node_red d x k v a b n :
  is_rb a RED n → is_rb b RED n → is_rb (node d x RED k v a b) BLACK n.
Proof. destruct d; by constructor. Qed.
Lemma is_rb_node_black d x k v a b c n :
  is_rb a BLACK n → is_rb b BLACK n → is_rb (node d x BLACK k v a b) c (S n).
Proof. destruct d; by constructor. Qed.
Lemma is_rb_red_inv d x k v a b c n :
  is_rb (node d x RED k v a b) c n → c = BLACK ∧ is_rb a RED n ∧ is_rb b RED n.
Proof. destruct d; by inversion 1. Qed.
Lemma is_rb_black_inv d x k v a b c n :
  is_rb (node d x BLACK k v a b) c n →
  ∃ n', n = S n' ∧ is_rb a BLACK n' ∧ is_rb b BLACK n'.
Proof. destruct d; inversion 1; eauto. Qed.

Lemma makeblack_id t c n : is_rb t c n → tcolor t = BLACK → makeblack t = t.
Proof. by inversion 1. Qed.
Lemma is_rb_root_black t n : is_rb t RED n → tcolor t = BLACK.
Proof. by inversion 1. Qed.
Lemma makeblack_rb t c n : is_rb t c n → ∃ m, is_rb (makeblack t) RED m.
Proof. inversion 1; simpl; eexists; econstructor; eauto using is_rb_weaken. Qed.
Lemma makeblack_red t c c' n : is_rb t c n → tcolor t = RED → is_rb (makeblack t) c' (S n).
Proof. inversion 1; try done. intros _. constructor; by apply is_rb_weaken. Qed.
Lemma plug_not_leaf ctx t : t ≠ E → plug ctx t ≠ E.
Proof.
  revert t. induction ctx as [|f ctx IH]; intros t Ht; simpl; [done|].
  apply IH. unfold fill. by destruct (f_dir f).
Qed.

Create HintDb rb discriminated.
#[export] Hint Resolve is_rb_weaken is_rb_any is_rb_black is_rb_node_red is_rb_node_black
  rb_leaf : rb.

(** A tree that fits the hole makes the whole a red-black tree. *)
Lemma plug_rb ctx t n :
  cok ctx n → is_rb t (ccolor ctx) n → ∃ m, is_rb (plug ctx t) RED m.
Proof.
  revert t n. induction ctx as [|f ctx IH]; intros t n Hc Ht; [by exists n|].
  simpl in *. destruct Hc as [Hs Hc], f as [d x c k v s]; simpl in *. unfold fill; simpl.
  destruct c.
  - destruct Hc as [Hcc Hc]. eapply IH; [done|]. rewrite Hcc. auto with rb.
  - eapply IH; [done|]. eauto with rb.
Qed.

(** What is needed of a context whose top node changes colour. *)
Lemma cok_step f ctx n t :
  cok (f :: ctx) n → is_rb t (f_color f) n →
  ∃ n', cok ctx n' ∧ is_rb (fill f t) (ccolor ctx) n'.
Proof.
  destruct f as [d x c k v s]; simpl. unfold fill; simpl. intros [Hs Hc] Ht. destruct c.
  - destruct Hc as [Hcc Hc]. exists n. rewrite Hcc. auto with rb.
  - exists (S n). split; [done|]. eauto with rb.
Qed.

(** The black height bounds the number of nodes: the tree is balanced. *)
Lemma is_rb_size t c n : is_rb t c n → 2 ^ n ≤ S (tsize t).
Proof.
  induction 1 as [c|x k v l r n _ IHl _ IHr|x k v l r c n _ IHl _ IHr]; simpl; lia.
Qed.
Fixpoint depth (t : tree) : nat :=
  match t with E => 0 | T _ _ _ _ l r => S (depth l `max` depth r) end.
Lemma is_rb_depth t c n :
  is_rb t c n → depth t ≤ 2 * n + match c with RED => 0 | BLACK => 1 end.
Proof.
  induction 1 as [c|x k v l r n _ IHl _ IHr|x k v l r c n _ IHl _ IHr]; simpl in *; try destruct c; lia.
Qed.

(** * Cells *)

Section cells.
Variable nil : loc.

(** The pointer to a sub-tree. *)
Definition tptr (t : tree) : rptr :=
  match t with E => Ptr nil | T x _ _ _ _ _ => Ptr x end.
(** The parent pointer of the tree in the hole. *)
Definition cpar (ctx : list frame) : rptr :=
  match ctx with [] => Ptr nil | f :: _ => Ptr (f_loc f) end.
(** The root pointer when the hole holds a tree at [p]. *)
Fixpoint croot (p : rptr) (ctx : list frame) : rptr :=
  match ctx with [] => p | f :: ctx' => croot (Ptr (f_loc f)) ctx' end.

(** A node of the heap, its child on side [d] first. *)
Definition cell (d : dir) (c : color) (k v : string) (par a b : rptr) : rbnode :=
  match d with
  | L => RbNode c b a par (PStr k) (PStr v)
  | R => RbNode c a b par (PStr k) (PStr v)
  end.

Fixpoint tnodes (par : rptr) (t : tree) : list (loc * rbnode) :=
  match t with
  | E => []
  | T x c k v l r =>
      (x, cell L c k v par (tptr l) (tptr r)) :: tnodes (Ptr x) l ++ tnodes (Ptr x) r
  end.
Fixpoint cnodes (hole : rptr) (ctx : list frame) : list (loc * rbnode) :=
  match ctx with
  | [] => []
  | f :: ctx' =>
      (f_loc f, cell (f_dir f) (f_color f) (f_key f) (f_val f) (cpar ctx') hole (tptr (f_sib f)))
      :: tnodes (Ptr (f_loc f)) (f_sib f) ++ cnodes (Ptr (f_loc f)) ctx'
  end.

Lemma tptr_node d x c k v a b : tptr (node d x c k v a b) = Ptr x.
Proof. by destruct d. Qed.
Lemma tptr_plug ctx t : tptr (plug ctx t) = croot (tptr t) ctx.
Proof.
  revert t. induction ctx as [|f ctx IH]; intros t; simpl; [done|].
  rewrite IH. unfold fill. by rewrite tptr_node.
Qed.
Lemma tnodes_node par d x c k v a b :
  tnodes par (node d x c k v a b) ≡ₚ
  (x, cell d c k v par (tptr a) (tptr b)) :: tnodes (Ptr x) a ++ tnodes (Ptr x) b.
Proof. destruct d; simpl; perm_solve. Qed.
Lemma tnodes_plug par ctx t :
  par = Ptr nil →
  tnodes par (plug ctx t) ≡ₚ tnodes (cpar ctx) t ++ cnodes (tptr t) ctx.
Proof.
  intros ->. revert t. induction ctx as [|f ctx IH]; intros t; simpl; [by rewrite app_nil_r|].
  rewrite IH. unfold fill. rewrite tnodes_node, tptr_node. perm_solve.
Qed.
Lemma length_tnodes par t : length (tnodes par t) = tsize t.
Proof.
  revert par. induction t as [|x c k v l IHl r IHr]; intros par; simpl; [done|].
  by rewrite length_app, IHl, IHr.
Qed.
Lemma length_cnodes p ctx : length ctx ≤ length (cnodes p ctx).
Proof.
  revert p. induction ctx as [|f ctx IH]; intros p; simpl; [done|].
  rewrite length_app. specialize (IH (Ptr (f_loc f))). lia.
Qed.

(** The state [s] holds the tree [plug ctx t], the sentinel [nn] and the cells
    [ex] that are not part of the tree. *)
Record foc (nn : rbnode) (ex : list (loc * rbnode)) (s : rbtree) (ctx : list frame) (t : tree)
    : Prop := {
  fo_nil : rb_nil s = Ptr nil;
  fo_root : rb_root s = croot (tptr t) ctx;
  fo_heap : heap_is (rb_heap s)
              ((nil, nn) :: ex ++ tnodes (cpar ctx) t ++ cnodes (tptr t) ctx);
  fo_black : n_color nn = BLACK
}.

(** Moving the focus: the same state, seen from another node. *)
Lemma foc_plug nn ex s ctx t : foc nn ex s ctx t ↔ foc nn ex s [] (plug ctx t).
Proof.
  assert (Hp : (nil, nn) :: ex ++ tnodes (Ptr nil) (plug ctx t) ++ [] ≡ₚ
    (nil, nn) :: ex ++ tnodes (cpar ctx) t ++ cnodes (tptr t) ctx).
  { by rewrite app_nil_r, tnodes_plug. }
  split; intros [Hn Hr Hh Hb]; simpl in *.
  - split; simpl; [done|by rewrite tptr_plug|by eapply heap_is_perm|done].
  - split; [done|by rewrite <-tptr_plug|by eapply heap_is_perm|done].
Qed.
Lemma foc_move nn ex s ctx t ctx' t' :
  foc nn ex s ctx t → plug ctx t = plug ctx' t' → foc nn ex s ctx' t'.
Proof.
  rewrite (foc_plug _ _ _ ctx t), (foc_plug _ _ _ ctx' t'). by intros ? <-.
Qed.
Lemma foc_up nn ex s d x c k v b ctx a :
  foc nn ex s (Fr d x c k v b :: ctx) a → foc nn ex s ctx (node d x c k v a b).
Proof. intros H. eapply foc_move; [exact H|reflexivity]. Qed.
Lemma foc_down nn ex s d x c k v b ctx a :
  foc nn ex s ctx (node d x c k v a b) → foc nn ex s (Fr d x c k v b :: ctx) a.
Proof. intros H. eapply foc_move; [exact H|reflexivity]. Qed.
Lemma node_opp d x c k v a b : node d x c k v a b = node (opp d) x c k v b a.
Proof. by destruct d. Qed.
End cells.
