(* ===== verification/RbProof.v ===== *)
(** The red-black tree engine is correct: the rotations and both fix-ups of
    kvs_rbtree.c keep the in-order sequence and restore the red-black
    invariants, and the engine operations refine a finite map. *)
From S2P Require Import Prelude KvsSpec RbTree RbInv.

(** * The mirror images of the code *)

Definition relink (d : dir) (x y xp nil : rptr) : M rbtree unit :=
  if ptr_eqb xp nil then put_root y else
  xpc ← get_child d xp;
  if ptr_eqb x xpc then put_child d xp y else put_child (opp d) xp y.

Definition rotate (d : dir) (x : rptr) : M rbtree unit :=
  y ← get_child (opp d) x;
  yc ← get_child d y;
  put_child (opp d) x yc;;
  yc ← get_child d y;
  nil ← get_nil;
  (if negb (ptr_eqb yc nil) then put_parent yc x else mret tt);;
  xp ← get_parent x;
  put_parent y xp;;
  relink d x y xp nil;;
  put_child d y x;;
  put_parent x y.

Definition insert_fixup_half (d : dir) (z zp zpp : rptr) : M rbtree rptr :=
  y ← get_child (opp d) zpp;
  yc ← get_color y;
  if is_red yc then
    put_color zp BLACK;;
    put_color y BLACK;;
    put_color zpp RED;;
    mret zpp
  else
    zpo ← get_child (opp d) zp;
    z' ← (if ptr_eqb z zpo then rotate d zp;; mret zp else mret z);
    zp' ← get_parent z';
    put_color zp' BLACK;;
    zpp' ← get_parent zp';
    put_color zpp' RED;;
    rotate (opp d) zpp';;
    mret z'.

Definition delete_fixup_far (d : dir) (x w : rptr) : M rbtree rptr :=
  xp ← get_parent x;
  xpc ← get_color xp;
  put_color w xpc;;
  put_color xp BLACK;;
  wf ← get_child (opp d) w;
  put_color wf BLACK;;
  rotate d xp;;
  get_root.

Definition delete_fixup_black (d : dir) (x w : rptr) : M rbtree rptr :=
  wl ← get_left w; wlc ← get_color wl;
  wr ← get_right w; wrc ← get_color wr;
  if is_black wlc && is_black wrc then
    put_color w RED;;
    get_parent x
  else
    wf ← get_child (opp d) w; wfc ← get_color wf;
    w ← (if is_black wfc then
           wn ← get_child d w;
           put_color wn BLACK;;
           put_color w RED;;
           rotate (opp d) w;;
           xp ← get_parent x;
           get_child (opp d) xp
         else mret w);
    delete_fixup_far d x w.

Definition delete_fixup_half (d : dir) (x xp : rptr) : M rbtree rptr :=
  w ← get_child (opp d) xp;
  wc ← get_color w;
  w ← (if is_red wc then
         put_color w BLACK;;
         put_color xp RED;;
         rotate d xp;;
         xp ← get_parent x;
         get_child (opp d) xp
       else mret w);
  delete_fixup_black d x w.

Lemma left_rotate_eq : rbtree_left_rotate = rotate L.
Proof. reflexivity. Qed.
Lemma right_rotate_eq : rbtree_right_rotate = rotate R.
Proof. reflexivity. Qed.
Lemma insert_fixup_step_eq z :
  insert_fixup_step z =
  (zp ← get_parent z;
   zpp ← get_parent zp;
   zppl ← get_left zpp;
   if ptr_eqb zp zppl then insert_fixup_half L z zp zpp else insert_fixup_half R z zp zpp).
Proof. reflexivity. Qed.
Lemma delete_fixup_step_eq x :
  delete_fixup_step x =
  (xp ← get_parent x;
   xpl ← get_left xp;
   if ptr_eqb x xpl then delete_fixup_half L x xp else delete_fixup_half R x xp).
Proof. reflexivity. Qed.

(** * Access to the cells *)

Section access.
Implicit Types (s : rbtree) (l r : list (loc * rbnode)).

Lemma wp_rload x n l r e s Q :
  heap_is (rb_heap s) l → Front [(x, n)] l r → Q n e s → wp (rload (Ptr x)) e s Q.
Proof. intros Hh Hf HQ. simpl. wp_steps. by rewrite (heap_is_lookup _ _ _ _ _ Hh Hf). Qed.
Lemma wp_get_left x n l r e s Q :
  heap_is (rb_heap s) l → Front [(x, n)] l r → n_left n ≠ RUndef → Q (n_left n) e s →
  wp (get_left (Ptr x)) e s Q.
Proof.
  intros. unfold get_left. wp_step. eapply wp_rload; [done..|]. by destruct (n_left n).
Qed.
Lemma wp_get_right x n l r e s Q :
  heap_is (rb_heap s) l → Front [(x, n)] l r → n_right n ≠ RUndef → Q (n_right n) e s →
  wp (get_right (Ptr x)) e s Q.
Proof.
  intros. unfold get_right. wp_step. eapply wp_rload; [done..|]. by destruct (n_right n).
Qed.
Lemma wp_get_parent x n l r e s Q :
  heap_is (rb_heap s) l → Front [(x, n)] l r → n_parent n ≠ RUndef → Q (n_parent n) e s →
  wp (get_parent (Ptr x)) e s Q.
Proof.
  intros. unfold get_parent. wp_step. eapply wp_rload; [done..|]. by destruct (n_parent n).
Qed.
Lemma wp_get_color x n l r e s Q :
  heap_is (rb_heap s) l → Front [(x, n)] l r → Q (n_color n) e s →
  wp (get_color (Ptr x)) e s Q.
Proof. intros. unfold get_color. wp_step. by eapply wp_rload. Qed.
Lemma wp_get_key x n l r e s Q :
  heap_is (rb_heap s) l → Front [(x, n)] l r → Q (n_key n) e s → wp (get_key (Ptr x)) e s Q.
Proof. intros. unfold get_key. wp_step. by eapply wp_rload. Qed.
Lemma wp_get_value x n l r e s Q :
  heap_is (rb_heap s) l → Front [(x, n)] l r → Q (n_value n) e s → wp (get_value (Ptr x)) e s Q.
Proof. intros. unfold get_value. wp_step. by eapply wp_rload. Qed.
Lemma wp_rstore x f n l r e s Q :
  heap_is (rb_heap s) l → Front [(x, n)] l r →
  (∀ s', rb_root s' = rb_root s → rb_nil s' = rb_nil s →
    heap_is (rb_heap s') ((x, f n) :: r) → Q tt e s') →
  wp (rstore (Ptr x) f) e s Q.
Proof.
  intros Hh Hf HQ. simpl. wp_steps. rewrite (heap_is_lookup _ _ _ _ _ Hh Hf). wp_steps.
  apply HQ; [done..|]. by eapply heap_is_store.
Qed.
End access.

Lemma ptr_eqb_refl p : ptr_eqb p p = true.
Proof. unfold ptr_eqb. by apply bool_decide_eq_true. Qed.
Lemma ptr_eqb_ne x y : x ≠ y → ptr_eqb (Ptr x) (Ptr y) = false.
Proof. intros ?. apply bool_decide_eq_false. congruence. Qed.

Arguments rload : simpl never.
Arguments rstore : simpl never.
Arguments get_left : simpl never.
Arguments get_right : simpl never.
Arguments get_parent : simpl never.
Arguments get_color : simpl never.
Arguments get_key : simpl never.
Arguments get_value : simpl never.
Arguments put_left : simpl never.
Arguments put_right : simpl never.
Arguments put_parent : simpl never.
Arguments put_color : simpl never.
Arguments put_key : simpl never.
Arguments put_value : simpl never.
Arguments put_root : simpl never.
Arguments get_root : simpl never.
Arguments get_nil : simpl never.

(** Symbolic execution of an access, from the cells of the heap. *)
Ltac cell_of H := eapply H; [eassumption|typeclasses eauto|].
Ltac rb_step :=
  lazymatch goal with
  | |- wp (get_left (Ptr _)) _ _ _ => eapply wp_get_left; [eassumption|typeclasses eauto|by simpl; auto with rb|simpl]
  | |- wp (get_right (Ptr _)) _ _ _ => eapply wp_get_right; [eassumption|typeclasses eauto|by simpl; auto with rb|simpl]
  | |- wp (get_parent (Ptr _)) _ _ _ => eapply wp_get_parent; [eassumption|typeclasses eauto|by simpl; auto with rb|simpl]
  | |- wp (get_color (Ptr _)) _ _ _ => eapply wp_get_color; [eassumption|typeclasses eauto|simpl]
  | |- wp (get_key (Ptr _)) _ _ _ => eapply wp_get_key; [eassumption|typeclasses eauto|simpl]
  | |- wp (get_value (Ptr _)) _ _ _ => eapply wp_get_value; [eassumption|typeclasses eauto|simpl]
  | |- wp get_nil _ _ _ => apply wp_gets
  | |- wp get_root _ _ _ => apply wp_gets
  | |- wp (get_child ?d _) _ _ _ => first [destruct d | idtac]; simpl
  | |- _ => wp_step; simpl
  end.
(** A store: what is known of the state before it moves to the state after. *)
Ltac rb_store :=
  let s' := fresh "s" in let Hr := fresh "Hroot" in let Hn := fresh "Hnil" in
  let Hh := fresh "Hheap" in
  lazymatch goal with
  | HH : heap_is (rb_heap ?s) _, HN : rb_nil ?s = _, HR : rb_root ?s = _
    |- wp (?f (Ptr _) _) _ ?s _ =>
      eapply wp_rstore; [exact HH|typeclasses eauto|];
      intros s' Hr Hn Hh;
      unfold n_set_color, n_set_left, n_set_right, n_set_parent, n_set_key, n_set_value in Hh;
      simpl in Hh; rewrite HN in Hn; rewrite HR in Hr;
      clear HH HN HR; try clear s
  end.
(** Two cells have different addresses. *)
Ltac cells_ne x y :=
  lazymatch goal with
  | HH : heap_is _ _ |- _ =>
      first [ assert (x ≠ y) by (eapply heap_is_ne; [exact HH|typeclasses eauto|typeclasses eauto])
            | assert (x ≠ y) by (apply not_eq_sym; eapply heap_is_ne; [exact HH|typeclasses eauto|typeclasses eauto]) ]
  end.
Ltac rb_eqb :=
  repeat first
    [ rewrite ptr_eqb_refl
    | match goal with |- context [ptr_eqb (Ptr ?x) (Ptr ?y)] =>
        rewrite (ptr_eqb_ne x y) by (first [done | by apply not_eq_sym |
          match goal with HH : heap_is _ _ |- _ =>
            first [ eapply heap_is_ne; [exact HH|typeclasses eauto|typeclasses eauto]
                  | apply not_eq_sym; eapply heap_is_ne; [exact HH|typeclasses eauto|typeclasses eauto]] end]) end ].

(** Accesses and stores as long as their cells are known. *)
Ltac rb_run := repeat rb_step; repeat (rb_store; repeat rb_step).
(** The end of a run: the cells of the heap are those of a focus. *)
Ltac rb_foc := split; [done..|eapply heap_is_perm; [eassumption|]; perm_solve|done].
Ltac rb_done HQ := apply HQ; rb_foc.

(** * Rotations *)

Lemma tptr_ok nil t : tptr nil t ≠ RUndef.
Proof. by destruct t. Qed.
Lemma cpar_ok nil ctx : cpar nil ctx ≠ RUndef.
Proof. by destruct ctx. Qed.
Lemma Ptr_ok x : Ptr x ≠ RUndef.
Proof. done. Qed.
#[export] Hint Resolve tptr_ok cpar_ok Ptr_ok : rb.

Section rb.
Variable nil : loc.
Implicit Types (s : rbtree) (ctx : list frame) (t a b g : tree) (nn : rbnode)
  (ex : list (loc * rbnode)).

(** The code that makes the parent of [x] (or the root) point to [y]. *)
Lemma wp_relink d x nx y nn l ctx e s Q :
  rb_nil s = Ptr nil → rb_root s = croot (Ptr x) ctx →
  heap_is (rb_heap s) ((nil, nn) :: (x, nx) :: l ++ cnodes nil (Ptr x) ctx) →
  (∀ s', rb_nil s' = Ptr nil → rb_root s' = croot y ctx →
    heap_is (rb_heap s') ((nil, nn) :: (x, nx) :: l ++ cnodes nil y ctx) → Q tt e s') →
  wp (relink d (Ptr x) y (cpar nil ctx) (Ptr nil)) e s Q.
Proof.
  intros Hn Hr Hh HQ. unfold relink. destruct ctx as [|[d' p c k v sib] ctx]; simpl in *.
  - rewrite ptr_eqb_refl. unfold put_root. wp_steps. by apply HQ.
  - rb_eqb.
    assert (Hsib : ptr_eqb (Ptr x) (tptr nil sib) = false).
    { destruct sib as [|x' ? ? ? ? ?]; simpl; [by rb_eqb|]. simpl in Hh. by rb_eqb. }
    assert (Hfin : ∀ s', rb_root s' = croot (Ptr p) ctx → rb_nil s' = Ptr nil →
      heap_is (rb_heap s') ((p, cell d' c k v (cpar nil ctx) y (tptr nil sib)) ::
        (nil, nn) :: (x, nx) :: l ++ tnodes nil (Ptr p) sib ++ cnodes nil (Ptr p) ctx) →
      Q tt e s').
    { intros s' ? ? ?. apply HQ; [done..|]. eapply heap_is_perm; [done|]. perm_solve. }
    destruct d, d'; simpl; wp_step; rb_step; simpl in *; rewrite ?ptr_eqb_refl, ?Hsib; simpl;
      rb_store; by apply Hfin.
Qed.

Lemma wp_relink_front d x nx y nn l0 l1 l2 l ctx e s Q :
  heap_is (rb_heap s) l0 → rb_nil s = Ptr nil → rb_root s = croot (Ptr x) ctx →
  Front [(x, nx)] l0 l1 → Front [(nil, nn)] l1 l2 → Front (cnodes nil (Ptr x) ctx) l2 l →
  (∀ s', rb_nil s' = Ptr nil → rb_root s' = croot y ctx →
    heap_is (rb_heap s') ((nil, nn) :: (x, nx) :: cnodes nil y ctx ++ l) → Q tt e s') →
  wp (relink d (Ptr x) y (cpar nil ctx) (Ptr nil)) e s Q.
Proof.
  unfold Front. intros Hh Hn Hr H0 H1 H2 HQ.
  eapply (wp_relink d x nx y nn l); [done..| |].
  - eapply heap_is_perm; [done|]. rewrite H0, H1, H2. perm_solve.
  - intros s' ?? Hh'. apply HQ; [done..|]. eapply heap_is_perm; [exact Hh'|]. perm_solve.
Qed.
Arguments relink : simpl never.
Arguments rotate : simpl never.

Lemma wp_rotate d x cx kx vx y cy ky vy a b g nn ex ctx e s Q :
  foc nil nn ex s ctx (node d x cx kx vx a (node d y cy ky vy b g)) →
  (∀ s', foc nil nn ex s' ctx (node d y cy ky vy (node d x cx kx vx a b) g) → Q tt e s') →
  wp (rotate d (Ptr x)) e s Q.
Proof.
  intros [Hn Hr Hh Hb] HQ. unfold rotate.
  destruct d, b as [|z cz kz vz b1 b2]; simpl in *;
    repeat rb_step; rb_store; repeat rb_step; rewrite Hnil; rb_eqb; simpl; rb_run;
    (eapply wp_relink_front; [eassumption..|typeclasses eauto|typeclasses eauto|typeclasses eauto|]);
    intros; simpl; rb_run; rb_done HQ.
Qed.

(** * The insertion fix-up *)

(** A pointer to a sub-tree is not a pointer to a node outside it. *)
Lemma tptr_ne h x n nn par t l l1 l2 l3 :
  heap_is h l → Front [(x, n)] l l1 → Front [(nil, nn)] l1 l2 →
  Front (tnodes nil par t) l2 l3 → ptr_eqb (Ptr x) (tptr nil t) = false.
Proof.
  unfold Front. intros Hh H0 H1 H2. apply (heap_is_perm _ _ ((x, n) :: (nil, nn) ::
    tnodes nil par t ++ l3)) in Hh; [|by rewrite H0, H1, H2].
  destruct t as [|y ? ? ? ? ?]; simpl in *; by rb_eqb.
Qed.

(** Re-establishing a focus after a run on the cells. *)
Lemma foc_intro nn ex s ctx t l :
  heap_is (rb_heap s) l → rb_nil s = Ptr nil → rb_root s = croot (tptr nil t) ctx →
  n_color nn = BLACK →
  (nil, nn) :: ex ++ tnodes nil (cpar nil ctx) t ++ cnodes nil (tptr nil t) ctx ≡ₚ l →
  foc nil nn ex s ctx t.
Proof. intros ???? Hp. split; [done..| |done]. by eapply heap_is_perm. Qed.

(** The end of an insertion step with a black uncle. *)
Lemma wp_insert_outer d z k v a b zp kp vp sz zpp kg vg u nn ex ctx e s Q :
  foc nil nn ex s (Fr d zp RED kp vp sz :: Fr d zpp BLACK kg vg u :: ctx)
    (node d z RED k v a b) →
  (∀ s', foc nil nn ex s' ctx
      (node d zp BLACK kp vp (node d z RED k v a b) (node d zpp RED kg vg sz u)) →
    Q (Ptr z) e s') →
  wp (zp' ← get_parent (Ptr z);
      put_color zp' BLACK;;
      zpp' ← get_parent zp';
      put_color zpp' RED;;
      rotate (opp d) zpp';;
      mret (Ptr z)) e s Q.
Proof.
  intros [Hn Hr Hh Hb] HQ.
  destruct d; simpl in *; rb_run.
  - eapply (wp_rotate R zpp RED kg vg zp BLACK kp vp u sz (T z RED k v a b) nn ex ctx); [rb_foc|].
    intros s' Hs'. wp_steps. by apply HQ.
  - eapply (wp_rotate L zpp RED kg vg zp BLACK kp vp u sz (T z RED k v b a) nn ex ctx); [rb_foc|].
    intros s' Hs'. wp_steps. by apply HQ.
Qed.

Lemma wp_insert_half d d1 z k v a b zp kp vp sz zpp kg vg u nn ex ctx e s Q :
  foc nil nn ex s (Fr d1 zp RED kp vp sz :: Fr d zpp BLACK kg vg u :: ctx)
    (node d z RED k v a b) →
  (∀ s', tcolor u = RED →
    foc nil nn ex s' ctx
      (node d zpp RED kg vg (node d1 zp BLACK kp vp (node d z RED k v a b) sz) (makeblack u)) →
    Q (Ptr zpp) e s') →
  (∀ s', tcolor u = BLACK → d1 = d →
    foc nil nn ex s' ctx
      (node d zp BLACK kp vp (node d z RED k v a b) (node d zpp RED kg vg sz u)) →
    Q (Ptr z) e s') →
  (∀ s', tcolor u = BLACK → d1 = opp d →
    foc nil nn ex s' ctx
      (node d z BLACK k v (node d zp RED kp vp sz a) (node d zpp RED kg vg b u)) →
    Q (Ptr zp) e s') →
  wp (insert_fixup_half d (Ptr z) (Ptr zp) (Ptr zpp)) e s Q.
Proof.
  intros Hs Hred Hout Hin. unfold insert_fixup_half.
  assert (Hblack : tcolor u = BLACK →
    wp (zpo ← get_child (opp d) (Ptr zp);
        z' ← (if ptr_eqb (Ptr z) zpo then rotate d (Ptr zp);; mret (Ptr zp) else mret (Ptr z));
        zp' ← get_parent z';
        put_color zp' BLACK;;
        zpp' ← get_parent zp';
        put_color zpp' RED;;
        rotate (opp d) zpp';;
        mret z') e s Q).
  { intros Hu. destruct (decide (d1 = d)) as [->|Hd].
    - assert (Hz : ptr_eqb (Ptr z) (tptr nil sz) = false).
      { destruct Hs as [_ _ Hh _]. destruct d; simpl in Hh;
          (eapply tptr_ne; [exact Hh|typeclasses eauto..]). }
      wp_step. apply (wp_mono _ _ _ (λ r e' s', r = tptr nil sz ∧ e' = e ∧ s' = s)).
      { destruct Hs as [_ _ Hh _]. destruct d; simpl in *; by repeat rb_step. }
      intros r e' s' (-> & -> & ->). rewrite Hz. wp_step. wp_step.
      eapply wp_insert_outer; [exact Hs|]. intros. by apply Hout.
    - assert (d1 = opp d) as -> by (by destruct d, d1).
      wp_step. apply (wp_mono _ _ _ (λ r e' s', r = Ptr z ∧ e' = e ∧ s' = s)).
      { destruct Hs as [_ _ Hh _]. destruct d; simpl in *; by repeat rb_step. }
      intros r e' s' (-> & -> & ->). rewrite ptr_eqb_refl. wp_step. wp_step.
      apply (wp_rotate d zp RED kp vp z RED k v sz a b nn ex (Fr d zpp BLACK kg vg u :: ctx)).
      { eapply foc_move; [exact Hs|]. by destruct d. }
      intros s' Hs'. wp_step.
      apply (wp_insert_outer d zp kp vp sz a z k v b zpp kg vg u nn ex ctx); [eapply foc_move; [exact Hs'|by destruct d]|].
      intros. by apply Hin. }
  destruct Hs as [Hn Hr Hh Hb].
  destruct u as [|xu [] ku vu ul ur]; [| |]; simpl in *.
  - wp_step. apply (wp_mono _ _ _ (λ r e' s', r = Ptr nil ∧ e' = e ∧ s' = s)).
    { destruct d, d1; simpl in *; by repeat rb_step. }
    intros r e' s' (-> & -> & ->). wp_step. rb_step. rewrite Hb. by apply Hblack.
  - destruct d, d1; simpl in *; rb_run; apply Hred; [done|rb_foc|done|rb_foc|done|rb_foc|done|rb_foc].
  - wp_step. apply (wp_mono _ _ _ (λ r e' s', r = Ptr xu ∧ e' = e ∧ s' = s)).
    { destruct d, d1; simpl in *; by repeat rb_step. }
    intros r e' s' (-> & -> & ->). wp_step. rb_step. by apply Hblack.
Qed.

Arguments insert_fixup_step : simpl never.
Arguments insert_fixup_half : simpl never.

(** The loop stops at a node whose parent is black. *)
Lemma wp_insert_loop_stop fuel nn ex ctx d z c k v l r e s Q :
  foc nil nn ex s ctx (node d z c k v l r) →
  match ctx with [] => True | f :: _ => f_color f = BLACK end →
  Q tt e s → wp (insert_fixup_loop (S fuel) (Ptr z)) e s Q.
Proof.
  intros [Hn Hr Hh Hb] Hc HQ. simpl. wp_step.
  destruct ctx as [|[d' p cp kp vp sb] ctx]; simpl in *; [|subst cp].
  - destruct d; simpl in *; repeat rb_step; by rewrite Hb.
  - destruct d, d'; simpl in *; by repeat rb_step.
Qed.

(** The test [z->parent == z->parent->parent->left] finds the side. *)
Lemma wp_insert_step_side d1 d z k v l r zp kp vp sz zpp c kg vg u nn ex ctx e s Q :
  foc nil nn ex s (Fr d1 zp RED kp vp sz :: Fr d zpp c kg vg u :: ctx) (T z RED k v l r) →
  wp (insert_fixup_half d (Ptr z) (Ptr zp) (Ptr zpp)) e s Q →
  wp (insert_fixup_step (Ptr z)) e s Q.
Proof.
  intros [Hn Hr Hh Hb] HQ. rewrite insert_fixup_step_eq.
  assert (Hu : ptr_eqb (Ptr zp) (tptr nil u) = false).
  { simpl in Hh. eapply tptr_ne; [exact Hh|typeclasses eauto..]. }
  destruct d, d1; simpl in *; repeat rb_step; by rewrite ?ptr_eqb_refl, ?Hu.
Qed.

(** What is left to show when the loop stops with a tree that fits its context. *)
Lemma insert_end ctx t n nn ex e s (Q : unit → env → rbtree → Prop) l :
  foc nil nn ex s ctx t → t ≠ E → cok ctx n → is_rb t (ccolor ctx) n →
  inorder (plug ctx t) = l →
  (∀ s' t', foc nil nn ex s' [] t' → inorder t' = l →
    t' ≠ E → (∃ m, is_rb (makeblack t') RED m) → Q tt e s') →
  Q tt e s.
Proof.
  intros Hs Hne Hc Ht Hin HQ. destruct (plug_rb ctx t n Hc Ht) as [m Hm].
  apply (HQ s (plug ctx t)); [by eapply foc_move|done|by apply plug_not_leaf|].
  by eapply makeblack_rb.
Qed.

(** The fix-up loop keeps the in-order sequence and leaves at most a red root to
    repair. *)
Lemma wp_insert_fixup_loop fuel nn ex ctx z k v l r n e s Q :
  foc nil nn ex s ctx (T z RED k v l r) →
  is_rb l RED n → is_rb r RED n → cok ctx n → length ctx < fuel →
  (∀ s' t', foc nil nn ex s' [] t' → inorder t' = inorder (plug ctx (T z RED k v l r)) →
    t' ≠ E → (∃ m, is_rb (makeblack t') RED m) → Q tt e s') →
  wp (insert_fixup_loop fuel (Ptr z)) e s Q.
Proof.
  revert ctx z k v l r n s.
  induction fuel as [|fuel IH]; intros ctx z k v l r n s Hs Hl Hr Hc Hf HQ; [lia|].
  destruct ctx as [|[d1 zp [] kp vp sz] [|[d zpp c kg vg u] ctx]].
  - apply (wp_insert_loop_stop _ nn ex [] L _ RED k v l r); [done..|]. eapply HQ; [done..|]. exists (S n). simpl.
    constructor; auto with rb.
  - by destruct Hc as [_ [? _]].
  - destruct Hc as [Hsz [Hcc [Hu Hc]]]; simpl in *. subst c.
    assert (∃ a b, T z RED k v l r = node d z RED k v a b ∧ is_rb a RED n ∧ is_rb b RED n)
      as (a & b & Ht & Ha & Hb).
    { destruct d; [by exists l, r|by exists r, l]. }
    wp_step. apply (wp_mono _ _ _ (λ p e' s', p = Ptr zp ∧ e' = e ∧ s' = s)).
    { destruct Hs as [_ _ Hh _]. simpl in *. by repeat rb_step. }
    intros p e' s' (-> & -> & ->). wp_step.
    apply (wp_mono _ _ _ (λ p e' s', p = RED ∧ e' = e ∧ s' = s)).
    { destruct Hs as [_ _ Hh _]. destruct d1; simpl in *; by repeat rb_step. }
    intros p e' s' (-> & -> & ->). simpl. wp_step.
    eapply wp_insert_step_side; [exact Hs|]. rewrite Ht in Hs, HQ.
    destruct fuel as [|fuel]; [simpl in Hf; lia|].
    eapply wp_insert_half; [exact Hs|..].
    + intros s' Hred Hs'.
      assert (∃ l' r', node d zpp RED kg vg (node d1 zp BLACK kp vp (node d z RED k v a b) sz)
        (makeblack u) = T zpp RED kg vg l' r' ∧ is_rb l' RED (S n) ∧ is_rb r' RED (S n))
        as (l' & r' & Ht' & Hl' & Hr').
      { assert (is_rb (node d1 zp BLACK kp vp (node d z RED k v a b) sz) RED (S n))
          by eauto with rb.
        assert (is_rb (makeblack u) RED (S n)) by eauto using makeblack_red.
        destruct d; simpl; eauto. }
      rewrite Ht' in Hs'. eapply IH; [exact Hs'|exact Hl'|exact Hr'|done|simpl in Hf; lia|].
      intros s2 t' Hs2 Hin Hne Hrb. apply (HQ s2 t'); [done| |done..]. rewrite Hin, <-Ht'.
      simpl. apply inorder_plug_eq. unfold fill. simpl.
      rewrite !inorder_node, inorder_makeblack. by destruct d, d1.
    + intros s' Hb' -> Hs'.
      eapply (wp_insert_loop_stop _ nn ex (Fr d zp BLACK kp vp (node d zpp RED kg vg sz u) :: ctx) d);
        [by eapply foc_move|done|].
      eapply insert_end; [exact Hs'|by destruct d|exact Hc|eauto 6 with rb| |exact HQ].
      apply inorder_plug_eq. unfold fill. simpl. rewrite !inorder_node.
      destruct d; by simplify_list_eq.
    + intros s' Hb' -> Hs'.
      eapply (wp_insert_loop_stop _ nn ex (Fr d z BLACK k v (node d zpp RED kg vg b u) :: ctx) d);
        [by eapply foc_move|done|].
      eapply insert_end; [exact Hs'|by destruct d|exact Hc|eauto 6 with rb| |exact HQ].
      apply inorder_plug_eq. unfold fill. simpl. rewrite !inorder_node.
      destruct d; by simplify_list_eq.
  - apply (wp_insert_loop_stop _ nn ex [Fr d1 zp BLACK kp vp sz] L _ RED k v l r); [done..|].
    eapply insert_end; [exact Hs|done|exact Hc|by constructor|done|exact HQ].
  - eapply (wp_insert_loop_stop _ nn ex _ L _ RED k v l r); [exact Hs|done|].
    eapply insert_end; [exact Hs|done|exact Hc|by constructor|done|exact HQ].
Qed.

(** The fuel of the loops: more than the number of nodes on any path. *)
Lemma foc_size nn ex s ctx t :
  foc nil nn ex s ctx t → 1 + length ex + tsize t + length ctx ≤ size (rb_heap s).
Proof.
  intros [_ _ Hh _]. rewrite (heap_is_size _ _ Hh). simpl.
  rewrite !length_app, length_tnodes. pose proof (length_cnodes nil (tptr nil t) ctx). lia.
Qed.

(** Colouring the root of the tree in focus black. *)
Lemma wp_blacken nn ex ctx t e s Q :
  foc nil nn ex s ctx t →
  (∀ s', foc nil nn ex s' ctx (makeblack t) → Q tt e s') →
  wp (put_color (tptr nil t) BLACK) e s Q.
Proof.
  intros [Hn Hr Hh Hb] HQ. destruct t as [|x c k v l r]; simpl in *.
  - assert (n_set_color BLACK nn = nn) as Hnn by (by destruct nn; simpl in *; subst).
    eapply wp_rstore; [exact Hh|typeclasses eauto|]. rewrite Hnn. intros s' Hr' Hn' Hh'.
    apply HQ. split; simpl; [congruence|congruence|done|done].
  - rb_run. rb_done HQ.
Qed.

Lemma wp_insert_fixup nn ex ctx z k v l r n e s Q :
  foc nil nn ex s ctx (T z RED k v l r) →
  is_rb l RED n → is_rb r RED n → cok ctx n →
  (∀ s' t', foc nil nn ex s' [] t' → inorder t' = inorder (plug ctx (T z RED k v l r)) →
    (∃ m, is_rb t' RED m) → Q tt e s') →
  wp (rbtree_insert_fixup (Ptr z)) e s Q.
Proof.
  intros Hs Hl Hr Hc HQ. unfold rbtree_insert_fixup, rb_fuel.
  pose proof (foc_size _ _ _ _ _ Hs) as Hsz. repeat wp_step.
  eapply wp_insert_fixup_loop; [exact Hs|exact Hl|exact Hr|exact Hc|simpl in Hsz; lia|].
  intros s1 t1 Hs1 Hin Hne Hrb. wp_step. rb_step.
  rewrite (fo_root _ _ _ _ _ _ Hs1). simpl. eapply wp_blacken; [exact Hs1|].
  intros s2 Hs2. eapply HQ; [exact Hs2|by rewrite inorder_makeblack|done].
Qed.

End rb.
