(* ===== verification/RbDelete.v ===== *)
(** Deletion in the red-black tree: the fix-up loop of kvs_rbtree.c restores the
    black height, and [rbtree_delete] removes exactly one pair. *)
From S2P Require Import Prelude KvsSpec RbTree RbInv RbProof.

(** The same state seen from another node. *)
Ltac view H :=
  eapply foc_move; [exact H|];
  first [ reflexivity
        | repeat match goal with d : dir |- _ => destruct d end; reflexivity ].

Section rb.
Variable nil : loc.
Implicit Types (s : rbtree) (ctx : list frame) (t a b g : tree) (nn : rbnode)
  (ex : list (loc * rbnode)).

(** * Reading and colouring through a focus *)

(** The parent of the tree in focus; for an empty one it is the parent pointer
    of the sentinel. *)
Definition xpar nn ctx t : Prop := t = E → n_parent nn = cpar nil ctx.

Lemma wp_foc_parent nn ex ctx t e s Q :
  foc nil nn ex s ctx t → xpar nn ctx t → Q (cpar nil ctx) e s →
  wp (get_parent (tptr nil t)) e s Q.
Proof.
  intros [_ _ Hh _] Hx HQ. destruct t as [|x c k v l r]; simpl in *.
  - rewrite <-(Hx eq_refl) in HQ. eapply wp_get_parent; [exact Hh|typeclasses eauto| |done].
    rewrite (Hx eq_refl). auto with rb.
  - by rb_step.
Qed.
Lemma wp_foc_child d x c k v a b nn ex ctx e s Q :
  foc nil nn ex s ctx (node d x c k v a b) → Q (tptr nil a) e s →
  wp (get_child d (Ptr x)) e s Q.
Proof. intros [_ _ Hh _] HQ. destruct d; simpl in *; by rb_step. Qed.
Lemma wp_foc_color nn ex ctx t e s Q :
  foc nil nn ex s ctx t → Q (tcolor t) e s → wp (get_color (tptr nil t)) e s Q.
Proof.
  intros [_ _ Hh Hb] HQ. destruct t as [|x c k v l r]; simpl in *; rb_step; [by rewrite Hb|done].
Qed.
Lemma wp_node_color d x c k v a b nn ex ctx e s Q :
  foc nil nn ex s ctx (node d x c k v a b) → Q c e s → wp (get_color (Ptr x)) e s Q.
Proof. intros [_ _ Hh _] HQ. destruct d; simpl in *; by rb_step. Qed.
Lemma wp_foc_recolor d x c c' k v a b nn ex ctx e s Q :
  foc nil nn ex s ctx (node d x c k v a b) →
  (∀ s', foc nil nn ex s' ctx (node d x c' k v a b) → Q tt e s') →
  wp (put_color (Ptr x) c') e s Q.
Proof. intros [Hn Hr Hh Hb] HQ. destruct d; simpl in *; rb_run; rb_done HQ. Qed.

(** * The deletion fix-up *)

(** The last case: the far child of the sibling is red. *)
Lemma wp_delete_far d xp c kp vp w cw kw vw a b nn ex ctx t e s Q :
  foc nil nn ex s (Fr d xp c kp vp (node d w cw kw vw a b) :: ctx) t →
  xpar nn (Fr d xp c kp vp (node d w cw kw vw a b) :: ctx) t → 
  (∀ s', foc nil nn ex s' ctx
      (node d w c kw vw (node d xp BLACK kp vp t a) (makeblack b)) → Q (rb_root s') e s') →
  wp (delete_fixup_far d (tptr nil t) (Ptr w)) e s Q.
Proof.
  intros Hs Hx HQ. unfold delete_fixup_far. wp_step.
  eapply wp_foc_parent; [exact Hs|done|]. simpl. wp_step.
  eapply (wp_node_color d xp c kp vp t (node d w cw kw vw a b) _ _ ctx); [view Hs|].
  wp_step. eapply (wp_foc_recolor d w cw c kw vw a b _ _
    (Fr (opp d) xp c kp vp t :: ctx)); [view Hs|]. intros s1 Hs1.
  wp_step. eapply (wp_foc_recolor d xp c BLACK kp vp t (node d w c kw vw a b) _ _ ctx); [view Hs1|].
  intros s2 Hs2. wp_step.
  eapply (wp_foc_child (opp d) w c kw vw b a _ _ (Fr (opp d) xp BLACK kp vp t :: ctx)); [view Hs2|].
  wp_step. eapply (wp_blacken nil _ _ (Fr (opp d) w c kw vw a :: Fr (opp d) xp BLACK kp vp t :: ctx) b);
    [view Hs2|].
  intros s3 Hs3. wp_step.
  eapply (wp_rotate nil d xp BLACK kp vp w c kw vw t a (makeblack b) _ _ ctx); [view Hs3|].
  intros s4 Hs4. rb_step. by apply HQ.
Qed.

Arguments delete_fixup_far : simpl never.
Arguments delete_fixup_black : simpl never.
Arguments delete_fixup_half : simpl never.
Arguments delete_fixup_step : simpl never.

(** Reading the colours of both children of the sibling, left one first. *)
Lemma wp_child_colors {A} d w c k v a b nn ex ctx (K : color → color → M rbtree A) e s Q :
  foc nil nn ex s ctx (node d w c k v a b) →
  wp (match d with L => K (tcolor a) (tcolor b) | R => K (tcolor b) (tcolor a) end) e s Q →
  wp (wl ← get_left (Ptr w); wlc ← get_color wl;
      wr ← get_right (Ptr w); wrc ← get_color wr; K wlc wrc) e s Q.
Proof.
  intros Hs HQ. assert (∃ l r, node d w c k v a b = node L w c k v l r ∧
    match d with L => K (tcolor a) (tcolor b) | R => K (tcolor b) (tcolor a) end =
    K (tcolor l) (tcolor r)) as (l & r & Ht & HK) by (destruct d; eauto).
  rewrite HK in HQ. rewrite Ht in Hs. wp_step.
  eapply (wp_foc_child L); [exact Hs|]. wp_step.
  eapply (wp_foc_color _ _ (Fr L w c k v r :: ctx) l); [view Hs|]. wp_step.
  eapply (wp_foc_child R w c k v r l); [exact Hs|]. wp_step.
  by eapply (wp_foc_color _ _ (Fr R w c k v l :: ctx) r); [view Hs|].
Qed.

(** The cases of a black sibling. *)
Lemma wp_delete_black d xp c kp vp w kw vw a b nn ex ctx t e s Q :
  foc nil nn ex s (Fr d xp c kp vp (node d w BLACK kw vw a b) :: ctx) t →
  xpar nn (Fr d xp c kp vp (node d w BLACK kw vw a b) :: ctx) t →
  (tcolor a = BLACK → tcolor b = BLACK → ∀ s',
    foc nil nn ex s' ctx (node d xp c kp vp t (node d w RED kw vw a b)) → Q (Ptr xp) e s') →
  (tcolor b = RED → ∀ s',
    foc nil nn ex s' ctx (node d w c kw vw (node d xp BLACK kp vp t a) (makeblack b)) →
    Q (rb_root s') e s') →
  (∀ wn kn vn a1 a2, a = node d wn RED kn vn a1 a2 → tcolor b = BLACK → ∀ s',
    foc nil nn ex s' ctx
      (node d wn c kn vn (node d xp BLACK kp vp t a1) (node d w BLACK kw vw a2 b)) →
    Q (rb_root s') e s') →
  wp (delete_fixup_black d (tptr nil t) (Ptr w)) e s Q.
Proof.
  intros Hs Hx Hbb Hfar Hnear. unfold delete_fixup_black.
  eapply (wp_child_colors d w BLACK kw vw a b _ _ (Fr (opp d) xp c kp vp t :: ctx)); [view Hs|].
  assert (Hcases : tcolor a = BLACK ∧ tcolor b = BLACK ∨ tcolor b = RED ∨
    tcolor a = RED ∧ tcolor b = BLACK) by (destruct (tcolor a), (tcolor b); auto).
  assert (Hgo : ∀ (A : Type) (m1 m2 : M rbtree A),
    match d with L => if is_black (tcolor a) && is_black (tcolor b) then m1 else m2
               | R => if is_black (tcolor b) && is_black (tcolor a) then m1 else m2 end =
    if is_black (tcolor a) && is_black (tcolor b) then m1 else m2)
    by (intros; by destruct d, (tcolor a), (tcolor b)).
  rewrite Hgo. clear Hgo.
  destruct Hcases as [[Ha Hb]|[Hb|[Ha Hb]]].
  - rewrite Ha, Hb. simpl. wp_step.
    eapply (wp_foc_recolor d w BLACK RED kw vw a b _ _ (Fr (opp d) xp c kp vp t :: ctx)); [view Hs|].
    intros s' Hs'. eapply (wp_foc_parent _ _ (Fr d xp c kp vp (node d w RED kw vw a b) :: ctx) t);
      [view Hs'|done|]. apply Hbb; [done..|view Hs'].
  - rewrite Hb, andb_false_r. wp_step.
    eapply (wp_foc_child (opp d) w BLACK kw vw b a _ _ (Fr (opp d) xp c kp vp t :: ctx)); [view Hs|].
    wp_step. eapply (wp_foc_color _ _ (Fr (opp d) w BLACK kw vw a :: Fr (opp d) xp c kp vp t :: ctx) b);
      [view Hs|]. rewrite Hb. simpl. wp_step. wp_step.
    eapply wp_delete_far; [exact Hs|done|]. by apply Hfar.
  - assert (∃ wn kn vn a1 a2, a = node d wn RED kn vn a1 a2) as (wn & kn & vn & a1 & a2 & ->).
    { destruct a as [|x cx k v l r]; simpl in Ha; [done|subst]. destruct d; eauto 10. }
    rewrite Ha. simpl. wp_step.
    eapply (wp_foc_child (opp d) w BLACK kw vw b (node d wn RED kn vn a1 a2) _ _ (Fr (opp d) xp c kp vp t :: ctx)); [view Hs|].
    wp_step. eapply (wp_foc_color _ _ (Fr (opp d) w BLACK kw vw (node d wn RED kn vn a1 a2) :: Fr (opp d) xp c kp vp t :: ctx) b);
      [view Hs|]. rewrite Hb. simpl. wp_step. wp_step.
    eapply (wp_foc_child d w BLACK kw vw (node d wn RED kn vn a1 a2) b _ _ (Fr (opp d) xp c kp vp t :: ctx)); [view Hs|].
    rewrite tptr_node. wp_step.
    eapply (wp_foc_recolor d wn RED BLACK kn vn a1 a2 _ _
      (Fr d w BLACK kw vw b :: Fr (opp d) xp c kp vp t :: ctx)); [view Hs|].
    intros s1 Hs1. wp_step.
    eapply (wp_foc_recolor d w BLACK RED kw vw (node d wn BLACK kn vn a1 a2) b _ _ (Fr (opp d) xp c kp vp t :: ctx)); [view Hs1|].
    intros s2 Hs2. wp_step.
    eapply (wp_rotate nil (opp d) w RED kw vw wn BLACK kn vn b a2 a1 _ _
      (Fr (opp d) xp c kp vp t :: ctx)); [view Hs2|].
    intros s3 Hs3. wp_step.
    eapply (wp_foc_parent _ _ (Fr d xp c kp vp (node d wn BLACK kn vn a1 (node d w RED kw vw a2 b)) :: ctx) t);
      [view Hs3|done|]. simpl.
    eapply (wp_foc_child (opp d) xp c kp vp (node d wn BLACK kn vn a1 (node d w RED kw vw a2 b)) t);
      [view Hs3|]. rewrite tptr_node.
    eapply (wp_delete_far d xp c kp vp wn BLACK kn vn a1 (node d w RED kw vw a2 b)); [view Hs3|done|].
    intros s4 Hs4. eapply Hnear; [done|done|]. view Hs4.
Qed.

(** The tree in focus lacks one black node: its proper black height is [S n]. *)
Definition short t (n : nat) : Prop :=
  match tcolor t with
  | RED => is_rb (makeblack t) RED (S n)
  | BLACK => is_rb t RED n
  end.

Lemma short_makeblack t n : short t n → ∃ m, is_rb (makeblack t) RED m.
Proof.
  unfold short. destruct (tcolor t) eqn:Ht; [eauto|]. intros Hrb.
  rewrite (makeblack_id _ _ _ Hrb Ht). eauto.
Qed.

(** Replacing the top of a context by a node of its colour with black children. *)
Lemma cok_replace d' x' k' v' f ctx m a b :
  cok (f :: ctx) m → is_rb a RED m → is_rb b RED m →
  ∃ n', cok ctx n' ∧ is_rb (node d' x' (f_color f) k' v' a b) (ccolor ctx) n'.
Proof.
  simpl. intros [_ Hc] Ha Hb. destruct (f_color f).
  - destruct Hc as [-> Hc]. eauto with rb.
  - exists (S m). split; [done|]. auto with rb.
Qed.

(** The root is the node in focus exactly at the top. *)
Lemma croot_in x ctx : ∃ y, croot (Ptr x) ctx = Ptr y ∧ (y = x ∨ y ∈ (cnodes nil (Ptr x) ctx).*1).
Proof.
  revert x. induction ctx as [|f ctx IH]; intros x; simpl; [by eauto|].
  destruct (IH (f_loc f)) as (y & Hy & Hin). exists y. split; [done|]. right.
  rewrite fmap_app. set_solver.
Qed.
Lemma focus_not_root nn ex s f ctx t :
  foc nil nn ex s (f :: ctx) t → ptr_eqb (tptr nil t) (rb_root s) = false.
Proof.
  intros [_ Hr Hh _]. rewrite Hr. simpl.
  destruct (croot_in (f_loc f) ctx) as (y & -> & Hy). apply heap_is_nodup in Hh.
  assert (Hin : y ∈ (cnodes nil (tptr nil t) (f :: ctx)).*1).
  { simpl. rewrite fmap_app. set_solver. }
  revert Hh Hin. generalize (cnodes nil (tptr nil t) (f :: ctx)) as cs. intros cs Hh Hin.
  destruct t as [|x ? ? ? l r]; simpl in *; apply ptr_eqb_ne; intros ->.
  - apply NoDup_cons in Hh as [Hh _]. apply Hh. rewrite fmap_app. set_solver.
  - apply NoDup_cons in Hh as [_ Hh]. rewrite fmap_app in Hh. apply NoDup_app in Hh as (_ & _ & Hh).
    simpl in Hh. apply NoDup_cons in Hh as [Hh _]. apply Hh. rewrite fmap_app. set_solver.
Qed.

(** The loop stops at the root and at a red node, which it colours black. *)
Lemma wp_delete_loop_stop fuel nn ex ctx t e s Q :
  foc nil nn ex s ctx t → (ctx = [] ∨ tcolor t = RED) →
  (∀ s', foc nil nn ex s' ctx (makeblack t) → Q tt e s') →
  wp (delete_fixup_loop (S fuel) (tptr nil t)) e s Q.
Proof.
  intros Hs Hstop HQ. simpl. wp_step. rb_step. destruct ctx as [|f ctx].
  - rewrite (fo_root _ _ _ _ _ _ Hs). simpl. rewrite ptr_eqb_refl. by eapply wp_blacken.
  - destruct Hstop as [|Hred]; [done|]. rewrite (focus_not_root _ _ _ _ _ _ Hs). wp_step.
    eapply wp_foc_color; [exact Hs|]. rewrite Hred. simpl. by eapply wp_blacken.
Qed.
Lemma wp_delete_loop_root fuel nn ex ctx t n e s (Q : unit → env → rbtree → Prop) l :
  foc nil nn ex s ctx t → cok ctx n → is_rb t (ccolor ctx) n → inorder (plug ctx t) = l →
  (∀ s' t', foc nil nn ex s' [] t' → inorder t' = l → (∃ m, is_rb t' RED m) → Q tt e s') →
  wp (delete_fixup_loop (S fuel) (rb_root s)) e s Q.
Proof.
  intros Hs Hc Hrb Hin HQ.
  assert (Hs' : foc nil nn ex s [] (plug ctx t)) by (by eapply foc_move).
  rewrite (fo_root _ _ _ _ _ _ Hs'). simpl. eapply wp_delete_loop_stop; [exact Hs'|by left|].
  intros s' Hs2. destruct (plug_rb ctx t n Hc Hrb) as [m Hm].
  eapply HQ; [exact Hs2|by rewrite inorder_makeblack|by eapply makeblack_rb].
Qed.

(** One iteration from a black sibling on. *)
Lemma wp_delete_tail fuel d xp c kp vp w kw vw a b n nn ex ctx t e s Q :
  let t0 := node d xp c kp vp t (node d w BLACK kw vw a b) in
  foc nil nn ex s (Fr d xp c kp vp (node d w BLACK kw vw a b) :: ctx) t →
  xpar nn (Fr d xp c kp vp (node d w BLACK kw vw a b) :: ctx) t →
  is_rb t RED n → cok (Fr d xp c kp vp (node d w BLACK kw vw a b) :: ctx) (S n) →
  (∀ s' t' n', foc nil nn ex s' ctx t' → t' ≠ E → short t' n' → cok ctx (S n') →
    tcolor t' = c → inorder (plug ctx t') = inorder (plug ctx t0) →
    wp (delete_fixup_loop (S fuel) (tptr nil t')) e s' Q) →
  (∀ s' t', foc nil nn ex s' [] t' → inorder t' = inorder (plug ctx t0) →
    (∃ m, is_rb t' RED m) → Q tt e s') →
  wp (delete_fixup_black d (tptr nil t) (Ptr w)) e s
    (λ x' e' s', wp (delete_fixup_loop (S fuel) x') e' s' Q).
Proof.
  intros t0 Hs Hx Ht Hcok Hup HQ.
  pose proof Hcok as [Hsib Hc]. simpl in Hsib, Hc.
  apply is_rb_black_inv in Hsib as (n' & [= <-] & Ha & Hb).
  eapply wp_delete_black; [exact Hs|exact Hx|..].
  - intros Ha' Hb' s' Hs'.
    assert (Hw : is_rb (node d w RED kw vw a b) BLACK n) by auto with rb.
    rewrite <-(tptr_node nil d xp c kp vp t (node d w RED kw vw a b)).
    eapply (Hup _ _ (match c with RED => n | BLACK => S n end)); [exact Hs'|by destruct d|..].
    + unfold short. destruct c, d; simpl; auto with rb; constructor; auto with rb.
    + destruct c; [by destruct Hc|done].
    + by destruct d.
    + apply inorder_plug_eq. unfold t0. rewrite !inorder_node. by destruct d.
  - intros Hb' s' Hs'.
    destruct (cok_replace d w kw vw _ _ _ (node d xp BLACK kp vp t a) (makeblack b) Hcok)
      as (n' & Hn' & Hrb); [auto with rb|by eapply makeblack_red|].
    eapply wp_delete_loop_root; [exact Hs'|exact Hn'|exact Hrb| |exact HQ].
    apply inorder_plug_eq. unfold t0. rewrite !inorder_node, inorder_makeblack.
    destruct d; by simplify_list_eq.
  - intros wn kn vn a1 a2 -> Hb' s' Hs'.
    apply is_rb_red_inv in Ha as (_ & Ha1 & Ha2).
    destruct (cok_replace d wn kn vn _ _ _ (node d xp BLACK kp vp t a1)
      (node d w BLACK kw vw a2 b) Hcok) as (n' & Hn' & Hrb); [auto with rb..|].
    eapply wp_delete_loop_root; [exact Hs'|exact Hn'|exact Hrb| |exact HQ].
    apply inorder_plug_eq. unfold t0. rewrite !inorder_node.
    destruct d; by simplify_list_eq.
Qed.

(** The test [x == x->parent->left] finds the side. *)
Lemma wp_delete_step_side d xp c kp vp sib nn ex ctx t e s Q :
  foc nil nn ex s (Fr d xp c kp vp sib :: ctx) t →
  xpar nn (Fr d xp c kp vp sib :: ctx) t → sib ≠ E →
  wp (delete_fixup_half d (tptr nil t) (Ptr xp)) e s Q →
  wp (delete_fixup_step (tptr nil t)) e s Q.
Proof.
  intros Hs Hx Hsib HQ. rewrite delete_fixup_step_eq. wp_step.
  eapply wp_foc_parent; [exact Hs|done|]. simpl. wp_step. destruct d.
  - eapply (wp_foc_child L xp c kp vp t sib); [view Hs|]. by rewrite ptr_eqb_refl.
  - eapply (wp_foc_child L xp c kp vp sib t); [view Hs|].
    assert (ptr_eqb (tptr nil t) (tptr nil sib) = false) as ->; [|done].
    destruct Hs as [_ _ Hh _], sib as [|w ? ? ? ? ?]; [done|]. simpl in *.
    assert (ptr_eqb (Ptr w) (tptr nil t) = false) as Hne.
    { eapply tptr_ne; [exact Hh|typeclasses eauto..]. }
    unfold ptr_eqb in *. apply bool_decide_eq_false in Hne. by apply bool_decide_eq_false.
Qed.

(** The fix-up loop keeps the in-order sequence and restores the invariants. *)
Lemma wp_delete_fixup_loop fuel nn ex ctx t n e s Q :
  foc nil nn ex s ctx t → xpar nn ctx t → short t n → cok ctx (S n) →
  match tcolor t with RED => 0 < fuel | BLACK => length ctx + 1 < fuel end →
  (∀ s' t', foc nil nn ex s' [] t' → inorder t' = inorder (plug ctx t) →
    (∃ m, is_rb t' RED m) → Q tt e s') →
  wp (delete_fixup_loop fuel (tptr nil t)) e s Q.
Proof.
  revert ctx t n s. induction fuel as [|fuel IH]; intros ctx t n s Hs Hx Ht Hc Hf HQ.
  { destruct (tcolor t); lia. }
  destruct (decide (ctx = [] ∨ tcolor t = RED)) as [Hstop|Hgo].
  { eapply wp_delete_loop_stop; [exact Hs|done|]. intros s' Hs'.
    assert (∃ m, is_rb (plug ctx (makeblack t)) RED m) as Hrb.
    { destruct ctx as [|f ctx]; [by eapply short_makeblack|]. destruct Hstop as [|Hred]; [done|].
      eapply plug_rb; [exact Hc|]. unfold short in Ht. rewrite Hred in Ht. auto with rb. }
    eapply HQ; [by eapply foc_move| |exact Hrb].
    apply inorder_plug_eq, inorder_makeblack. }
  destruct ctx as [|[d xp c kp vp sib] ctx]; [naive_solver|].
  assert (Hblack : tcolor t = BLACK) by (destruct (tcolor t); naive_solver).
  unfold short in Ht. rewrite Hblack in Ht, Hf. simpl in Hf.
  pose proof Hc as [Hsib Hc']. simpl in Hsib, Hc'.
  assert (∃ w cw kw vw a b, sib = node d w cw kw vw a b) as (w & cw & kw & vw & a & b & ->).
  { destruct sib as [|w cw kw vw l r]; [by inversion Hsib|]. destruct d; eauto 10. }
  simpl. wp_step. rb_step. rewrite (focus_not_root _ _ _ _ _ _ Hs). wp_step.
  eapply wp_foc_color; [exact Hs|]. rewrite Hblack. simpl. wp_step.
  destruct fuel as [|fuel]; [lia|].
  eapply wp_delete_step_side; [exact Hs|exact Hx|by destruct d|].
  unfold delete_fixup_half. wp_step.
  eapply (wp_foc_child (opp d) xp c kp vp (node d w cw kw vw a b) t _ _ ctx); [view Hs|].
  rewrite tptr_node. wp_step.
  eapply (wp_node_color d w cw kw vw a b _ _ (Fr (opp d) xp c kp vp t :: ctx)); [view Hs|].
  destruct cw; simpl.
  - apply is_rb_red_inv in Hsib as (-> & Ha & Hb). wp_step. wp_step.
    eapply (wp_foc_recolor d w RED BLACK kw vw a b _ _ (Fr (opp d) xp BLACK kp vp t :: ctx)); [view Hs|].
    intros s1 Hs1. wp_step.
    eapply (wp_foc_recolor d xp BLACK RED kp vp t (node d w BLACK kw vw a b) _ _ ctx); [view Hs1|].
    intros s2 Hs2. wp_step.
    eapply (wp_rotate nil d xp RED kp vp w BLACK kw vw t a b _ _ ctx); [view Hs2|].
    intros s3 Hs3. wp_step.
    eapply (wp_foc_parent _ _ (Fr d xp RED kp vp a :: Fr d w BLACK kw vw b :: ctx) t); [view Hs3|done|].
    simpl. eapply (wp_foc_child (opp d) xp RED kp vp a t _ _ (Fr d w BLACK kw vw b :: ctx)); [view Hs3|].
    assert (∃ w' kw' vw' a' b', a = node d w' BLACK kw' vw' a' b') as (w' & kw' & vw' & a' & b' & ->).
    { destruct a as [|x cx k v l r]; [by inversion Ha|]. inversion Ha; subst. destruct d; eauto 10. }
    rewrite tptr_node. pose proof Hc' as Hc2.
    assert (Hin : inorder (plug (Fr d w BLACK kw vw b :: ctx)
        (node d xp RED kp vp t (node d w' BLACK kw' vw' a' b'))) =
      inorder (plug (Fr d xp BLACK kp vp (node d w RED kw vw (node d w' BLACK kw' vw' a' b') b)
        :: ctx) t)).
    { simpl. apply inorder_plug_eq. unfold fill. simpl. rewrite !inorder_node.
      destruct d; by simplify_list_eq. }
    eapply (wp_delete_tail _ d xp RED kp vp w' kw' vw' a' b' n nn ex (Fr d w BLACK kw vw b :: ctx));
      [view Hs3|done|done| | |].
    + simpl. split_and!; [done|done|auto with rb|done].
    + intros s' t' n' Hs' Hne Ht' Hcx Hcol Hin'.
      eapply IH; [exact Hs'|by intros ->|exact Ht'|done|rewrite Hcol; lia|].
      intros s5 t5 Hs5 Hin5 Hrb5. eapply HQ; [exact Hs5| |done]. by rewrite Hin5, Hin', Hin.
    + intros s5 t5 Hs5 Hin5 Hrb5. eapply HQ; [exact Hs5| |done]. by rewrite Hin5, Hin.
  - wp_step. wp_step.
    eapply (wp_delete_tail _ d xp c kp vp w kw vw a b n nn ex ctx); [exact Hs|exact Hx|done|exact Hc|..].
    + intros s' t' n' Hs' Hne Ht' Hcx Hcol Hin'.
      eapply IH; [exact Hs'|by intros ->|exact Ht'|done|destruct (tcolor t'); lia|].
      intros s5 t5 Hs5 Hin5 Hrb5. eapply HQ; [exact Hs5| |done]. by rewrite Hin5, Hin'.
    + intros s5 t5 Hs5 Hin5 Hrb5. by eapply HQ.
Qed.

Lemma wp_delete_fixup nn ex ctx t n e s Q :
  foc nil nn ex s ctx t → xpar nn ctx t → short t n → cok ctx (S n) → ex ≠ [] →
  (∀ s' t', foc nil nn ex s' [] t' → inorder t' = inorder (plug ctx t) →
    (∃ m, is_rb t' RED m) → Q tt e s') →
  wp (rbtree_delete_fixup (tptr nil t)) e s Q.
Proof.
  intros Hs Hx Ht Hc Hex HQ. unfold rbtree_delete_fixup, rb_fuel. repeat wp_step.
  pose proof (foc_size _ _ _ _ _ _ Hs) as Hsz. destruct ex; [done|]. simpl in Hsz.
  eapply wp_delete_fixup_loop; [exact Hs|exact Hx|exact Ht|exact Hc| |exact HQ].
  destruct (tcolor t); lia.
Qed.

(** * Unlinking a node *)

(** The red-black invariant of the whole, split at a sub-tree. *)
Lemma plug_rb_inv ctx t m :
  is_rb (plug ctx t) RED m → ∃ n, cok ctx n ∧ is_rb t (ccolor ctx) n.
Proof.
  revert t. induction ctx as [|f ctx IH]; intros t Hrb; simpl in *; [by eauto|].
  destruct (IH _ Hrb) as (n & Hc & Hf). unfold fill in Hf. destruct (f_color f).
  - apply is_rb_red_inv in Hf as (? & ? & ?). eauto 10.
  - apply is_rb_black_inv in Hf as (n' & -> & ? & ?). eauto.
Qed.
(** Keys and values play no role in it. *)
Lemma cok_rekey cs d x c k v k' v' sib ctx n :
  cok (cs ++ Fr d x c k v sib :: ctx) n → cok (cs ++ Fr d x c k' v' sib :: ctx) n.
Proof.
  assert (Hcc : ∀ cs, ccolor (cs ++ Fr d x c k v sib :: ctx) = ccolor (cs ++ Fr d x c k' v' sib :: ctx))
    by (by intros []).
  revert n. induction cs as [|f cs IH]; intros n; simpl; [done|].
  intros [Hs Hc]. split; [done|]. destruct (f_color f); [|by apply IH].
  rewrite <-Hcc. naive_solver.
Qed.
Lemma ccolor_rekey cs d x c k v k' v' sib ctx :
  ccolor (cs ++ Fr d x c k v sib :: ctx) = ccolor (cs ++ Fr d x c k' v' sib :: ctx).
Proof. by destruct cs. Qed.

Lemma plug_app cs ctx t : plug (cs ++ ctx) t = plug ctx (plug cs t).
Proof. revert t. by induction cs as [|f cs IH]; intros t; simpl. Qed.
Lemma cpre_app cs ctx : cpre (cs ++ ctx) = cpre ctx ++ cpre cs.
Proof.
  induction cs as [|f cs IH]; simpl; [by rewrite app_nil_r|]. by rewrite IH, (assoc_L (++)).
Qed.
Lemma cpost_app cs ctx : cpost (cs ++ ctx) = cpost cs ++ cpost ctx.
Proof. induction cs as [|f cs IH]; simpl; [done|]. by rewrite IH, (assoc_L (++)). Qed.

(** [rbtree_mini] finds the leftmost node. *)
Lemma wp_mini_loop fuel x c k v l r nn ex ctx e s Q :
  foc nil nn ex s ctx (T x c k v l r) → tsize l < fuel →
  (∀ cs y cy ky vy ry, T x c k v l r = plug cs (T y cy ky vy E ry) → cpre cs = [] →
    Q (Ptr y) e s) →
  wp (rbtree_mini_loop fuel (Ptr x)) e s Q.
Proof.
  revert fuel x c k v r ctx Q.
  induction l as [|x' c' k' v' l' IH r' _]; intros fuel x c k v r ctx Q Hs Hf HQ;
    (destruct fuel as [|fuel]; [simpl in Hf; lia|]).
  - destruct Hs as [Hn Hr Hh Hb]. simpl in *. repeat rb_step. rewrite Hn, ptr_eqb_refl.
    wp_steps. by apply (HQ [] x c k v r).
  - simpl. wp_step. eapply (wp_foc_child L); [exact Hs|]. wp_step. rb_step.
    rewrite (fo_nil _ _ _ _ _ _ Hs). simpl.
    assert (ptr_eqb (Ptr x') (Ptr nil) = false) as ->.
    { destruct Hs as [_ _ Hh _]. simpl in Hh. by rb_eqb. }
    eapply (IH _ _ _ _ _ _ (Fr L x c k v r :: ctx)); [view Hs|simpl in Hf; lia|].
    intros cs y cy ky vy ry Heq Hpre.
    apply (HQ (cs ++ [Fr L x c k v r]) y cy ky vy ry).
    + by rewrite plug_app, <-Heq.
    + by rewrite cpre_app, Hpre.
Qed.
Lemma wp_mini x c k v l r nn ex ctx e s Q :
  foc nil nn ex s ctx (T x c k v l r) →
  (∀ cs y cy ky vy ry, T x c k v l r = plug cs (T y cy ky vy E ry) → cpre cs = [] →
    Q (Ptr y) e s) →
  wp (rbtree_mini (Ptr x)) e s Q.
Proof.
  intros Hs HQ. unfold rbtree_mini, rb_fuel. repeat wp_step.
  pose proof (foc_size _ _ _ _ _ _ Hs) as Hsz. simpl in Hsz.
  eapply wp_mini_loop; [exact Hs|lia|exact HQ].
Qed.
Lemma wp_successor x c k v l y0 c0 k0 v0 l0 r0 nn ex ctx e s Q :
  let r := T y0 c0 k0 v0 l0 r0 in
  foc nil nn ex s ctx (T x c k v l r) →
  (∀ cs y cy ky vy ry, r = plug cs (T y cy ky vy E ry) → cpre cs = [] → Q (Ptr y) e s) →
  wp (rbtree_successor (Ptr x)) e s Q.
Proof.
  intros r Hs HQ. unfold rbtree_successor. wp_step.
  eapply (wp_foc_parent _ _ ctx (T x c k v l r)); [exact Hs|done|]. wp_step.
  eapply (wp_foc_child R x c k v r l); [exact Hs|]. wp_step. rb_step.
  rewrite (fo_nil _ _ _ _ _ _ Hs). simpl.
  assert (ptr_eqb (Ptr y0) (Ptr nil) = false) as ->.
  { destruct Hs as [_ _ Hh _]. simpl in Hh. by rb_eqb. }
  simpl. by eapply (wp_mini _ _ _ _ _ _ _ _ (Fr R x c k v l :: ctx)); [view Hs|].
Qed.
Arguments rbtree_successor : simpl never.
Arguments rbtree_mini : simpl never.

(** The child that takes the place of a node with at most one child. *)
Definition only_child l r : tree := match l with E => r | _ => l end.

(** The part of [rbtree_delete] that takes [y] out of the tree, then [K]. *)
Definition unlink {A} (y nl : rptr) (K : rptr → M rbtree A) : M rbtree A :=
  yl ← get_left y;
  yr ← get_right y;
  let x := if negb (ptr_eqb yl nl) then yl
           else if negb (ptr_eqb yr nl) then yr else nl in
  yp ← get_parent y;
  put_parent x yp;;
  yp ← get_parent y;
  relink L y x yp nl;;
  K x.

Lemma wp_unlink {A} y c k v l r nn ex ctx (K : rptr → M rbtree A) e s Q :
  foc nil nn ex s ctx (T y c k v l r) → l = E ∨ r = E →
  (∀ s' nn', xpar nn' ctx (only_child l r) →
    foc nil nn' ((y, cell L c k v (cpar nil ctx) (tptr nil l) (tptr nil r)) :: ex) s' ctx
      (only_child l r) → wp (K (tptr nil (only_child l r))) e s' Q) →
  wp (unlink (Ptr y) (Ptr nil) K) e s Q.
Proof.
  intros [Hn Hr Hh Hb] Hone HQ. unfold unlink.
  destruct l as [|xl cl kl vl ll rl].
  - destruct r as [|xr cr kr vr lr rr]; simpl in *; repeat rb_step; rb_eqb; simpl;
      repeat rb_step; rb_store; repeat rb_step;
      (eapply wp_relink_front; [eassumption..|typeclasses eauto|typeclasses eauto|typeclasses eauto|]);
      intros; eapply HQ; [|rb_foc| |rb_foc]; done.
  - destruct Hone as [?| ->]; [done|]. simpl in *. repeat rb_step; rb_eqb; simpl;
      repeat rb_step; rb_store; repeat rb_step;
      (eapply wp_relink_front; [eassumption..|typeclasses eauto|typeclasses eauto|typeclasses eauto|]);
      intros; eapply HQ; [|rb_foc]; done.
Qed.

(** The exchange of the pairs of [z] and of the unlinked [y]. *)
Definition swap_pairs (z y : rptr) : M rbtree unit :=
  tmp ← get_key z; yk ← get_key y;
  put_key z yk;; put_key y tmp;;
  tmp ← get_value z; yv ← get_value y;
  put_value z yv;; put_value y tmp.

Definition delete_tail (z y x : rptr) : M rbtree rptr :=
  (if negb (ptr_eqb y z) then swap_pairs z y else mret tt);;
  yc ← get_color y;
  (if is_black yc then rbtree_delete_fixup x else mret tt);;
  mret y.

Lemma rbtree_delete_eq z :
  rbtree_delete z =
  (nl ← get_nil;
   zl ← get_left z;
   zr ← get_right z;
   y ← (if ptr_eqb zl nl || ptr_eqb zr nl then mret z else rbtree_successor z);
   unlink y nl (delete_tail z y)).
Proof. reflexivity. Qed.

Lemma wp_swap_pairs y ny ky vy d z c k v a b nn ex ctx e s Q :
  n_key ny = PStr ky → n_value ny = PStr vy →
  foc nil nn ((y, ny) :: ex) s ctx (node d z c k v a b) →
  (∀ s' ny', n_key ny' = PStr k → n_value ny' = PStr v → n_color ny' = n_color ny →
    foc nil nn ((y, ny') :: ex) s' ctx (node d z c ky vy a b) → Q tt e s') →
  wp (swap_pairs (Ptr z) (Ptr y)) e s Q.
Proof.
  destruct ny as [cy ry ly py ? ?]. simpl. intros -> -> [Hn Hr Hh Hb] HQ. unfold swap_pairs.
  destruct d; simpl in *; rb_run; (eapply HQ; [| | |rb_foc]; done).
Qed.

(** The colour of an unlinked node decides whether a black node is missing. *)
Lemma wp_delete_end y ny nn ex ctx t n e s Q :
  foc nil nn ((y, ny) :: ex) s ctx t → xpar nn ctx t →
  match n_color ny with
  | RED => cok ctx n ∧ is_rb t (ccolor ctx) n
  | BLACK => cok ctx (S n) ∧ short t n
  end →
  (∀ s' t', foc nil nn ((y, ny) :: ex) s' [] t' → inorder t' = inorder (plug ctx t) →
    (∃ m, is_rb t' RED m) → Q (Ptr y) e s') →
  wp (yc ← get_color (Ptr y);
      (if is_black yc then rbtree_delete_fixup (tptr nil t) else mret tt);;
      mret (Ptr y)) e s Q.
Proof.
  intros Hs Hx Hcol HQ. wp_step. pose proof Hs as [_ _ Hh _]. simpl in Hh. rb_step. wp_step.
  destruct (n_color ny), Hcol as [Hc Ht]; simpl.
  - wp_steps. eapply HQ; [by eapply foc_move|done|by eapply plug_rb].
  - eapply wp_delete_fixup; [exact Hs|exact Hx|exact Ht|exact Hc|done|].
    intros s' t' Hs' Hin Hrb. wp_steps. by eapply HQ.
Qed.

(** What the invariant says of the node that is unlinked. *)
Lemma only_child_rb x c k v l r cc n :
  is_rb (T x c k v l r) cc n → l = E ∨ r = E →
  match c with
  | RED => is_rb (only_child l r) cc n
  | BLACK => ∃ n', n = S n' ∧ short (only_child l r) n'
  end.
Proof.
  intros Hrb Hone. destruct c.
  - apply (is_rb_red_inv L) in Hrb as (-> & Hl & Hr).
    destruct Hone as [->| ->]; [inversion Hl|inversion Hr]; subst;
      [inversion Hr|inversion Hl]; subst; constructor.
  - apply (is_rb_black_inv L) in Hrb as (n' & -> & Hl & Hr). exists n'. split; [done|].
    assert (Ht : is_rb (only_child l r) BLACK n').
    { by destruct Hone as [->| ->]; [|destruct l]. }
    unfold short. destruct (tcolor (only_child l r)) eqn:Hc; [by eapply makeblack_red|].
    auto with rb.
Qed.

Arguments unlink : simpl never.
Arguments swap_pairs : simpl never.
Arguments rbtree_delete_fixup : simpl never.

Lemma inorder_only_child l r : l = E ∨ r = E → inorder (only_child l r) = inorder l ++ inorder r.
Proof. intros [->| ->]; [done|]. by destruct l; simpl; rewrite ?app_nil_r. Qed.

Lemma is_leaf_eqb nn ex s ctx d x c k v a b :
  foc nil nn ex s ctx (node d x c k v a b) →
  ptr_eqb (tptr nil a) (Ptr nil) = match a with E => true | _ => false end.
Proof.
  intros Hs. destruct a as [|y ? ? ? ? ?]; simpl; [apply ptr_eqb_refl|].
  destruct Hs as [_ _ Hh _]. destruct d; simpl in Hh; by rb_eqb.
Qed.

(** A node with at most one child is itself unlinked. *)
Lemma wp_delete_one z c k v l r m nn ex ctx e s Q :
  foc nil nn ex s ctx (T z c k v l r) → is_rb (plug ctx (T z c k v l r)) RED m → l = E ∨ r = E →
  (∀ s' t' nn' y' ny, n_key ny = PStr k → n_value ny = PStr v →
    foc nil nn' ((y', ny) :: ex) s' [] t' →
    inorder t' = cpre ctx ++ (inorder l ++ inorder r) ++ cpost ctx →
    (∃ m, is_rb t' RED m) → Q (Ptr y') e s') →
  wp (unlink (Ptr z) (Ptr nil) (delete_tail (Ptr z) (Ptr z))) e s Q.
Proof.
  intros Hs Hrb Hone HQ. destruct (plug_rb_inv _ _ _ Hrb) as (n & Hc & Ht).
  apply only_child_rb in Ht; [|done]. eapply wp_unlink; [exact Hs|exact Hone|].
  intros s1 nn1 Hx Hs1. unfold delete_tail. rewrite ptr_eqb_refl. simpl. wp_step. wp_step.
  eapply (wp_delete_end _ _ _ _ _ _ (match c with RED => n | BLACK => pred n end)); [exact Hs1|exact Hx| |].
  - destruct c; simpl; [done|]. destruct Ht as (n' & -> & Ht). done.
  - intros s2 t2 Hs2 Hin Hrb2. eapply (HQ s2 t2 nn1); [| |exact Hs2| |done]; [done..|].
    by rewrite Hin, inorder_plug, inorder_only_child.
Qed.

(** A node with two children takes the pair of its successor, which is unlinked. *)
Lemma wp_delete_two z c k v l cs y cy ky vy ry m nn ex ctx e s Q :
  foc nil nn ex s (cs ++ Fr R z c k v l :: ctx) (T y cy ky vy E ry) →
  is_rb (plug (cs ++ Fr R z c k v l :: ctx) (T y cy ky vy E ry)) RED m → cpre cs = [] →
  (∀ s' t' nn' y' ny, n_key ny = PStr k → n_value ny = PStr v →
    foc nil nn' ((y', ny) :: ex) s' [] t' →
    inorder t' = cpre ctx ++ (inorder l ++ inorder (plug cs (T y cy ky vy E ry))) ++ cpost ctx →
    (∃ m, is_rb t' RED m) → Q (Ptr y') e s') →
  wp (unlink (Ptr y) (Ptr nil) (delete_tail (Ptr z) (Ptr y))) e s Q.
Proof.
  intros Hs Hrb Hpre HQ. destruct (plug_rb_inv _ _ _ Hrb) as (n & Hc & Ht).
  apply only_child_rb in Ht; [|by left]. simpl in Ht.
  eapply wp_unlink; [exact Hs|by left|]. intros s1 nn1 Hx Hs1. simpl in Hx, Hs1. unfold delete_tail.
  assert (Hs1' : foc nil nn1 ((y, cell L cy ky vy (cpar nil (cs ++ Fr R z c k v l :: ctx))
      (Ptr nil) (tptr nil ry)) :: ex) s1 ctx (node R z c k v (plug cs ry) l)).
  { eapply foc_move; [exact Hs1|]. by rewrite plug_app. }
  assert (ptr_eqb (Ptr y) (Ptr z) = false) as ->.
  { destruct Hs1' as [_ _ Hh _]. simpl in Hh. by rb_eqb. }
  simpl. wp_step. eapply wp_swap_pairs; [| |exact Hs1'|]; [reflexivity..|].
  intros s2 ny Hk Hv Hcol Hs2. simpl in Hcol.
  eapply (wp_delete_end _ _ _ _ (cs ++ Fr R z c ky vy l :: ctx) ry
    (match cy with RED => n | BLACK => pred n end)).
  - eapply foc_move; [exact Hs2|]. by rewrite plug_app.
  - intros Hry. rewrite (Hx Hry). by destruct cs.
  - rewrite Hcol, <-(ccolor_rekey cs R z c k v). apply (cok_rekey _ _ _ _ _ _ ky vy) in Hc.
    destruct cy; simpl; [done|]. destruct Ht as (n' & -> & Ht). done.
  - intros s3 t3 Hs3 Hin Hrb3. eapply (HQ s3 t3 nn1); [exact Hk|exact Hv|exact Hs3| |done].
    rewrite Hin, plug_app, !inorder_plug. simpl.
    unfold fpre, fpost. simpl. rewrite Hpre. by simplify_list_eq.
Qed.

Lemma wp_rbtree_delete z c k v l r m nn ex ctx e s Q :
  foc nil nn ex s ctx (T z c k v l r) → is_rb (plug ctx (T z c k v l r)) RED m →
  (∀ s' t' nn' y' ny, n_key ny = PStr k → n_value ny = PStr v →
    foc nil nn' ((y', ny) :: ex) s' [] t' →
    inorder t' = cpre ctx ++ (inorder l ++ inorder r) ++ cpost ctx →
    (∃ m, is_rb t' RED m) → Q (Ptr y') e s') →
  wp (rbtree_delete (Ptr z)) e s Q.
Proof.
  intros Hs Hrb HQ. rewrite rbtree_delete_eq. wp_step. rb_step.
  rewrite (fo_nil _ _ _ _ _ _ Hs). wp_step.
  eapply (wp_foc_child L z c k v l r); [exact Hs|]. wp_step.
  eapply (wp_foc_child R z c k v r l); [exact Hs|]. wp_step.
  rewrite (is_leaf_eqb _ _ _ _ L _ _ _ _ _ _ Hs), (is_leaf_eqb _ _ _ _ R _ _ _ _ r l Hs).
  destruct l as [|xl cl kl vl ll rl] eqn:Hl; [|destruct r as [|xr cr kr vr lr rr] eqn:Hr].
  - simpl. wp_step. eapply wp_delete_one; [exact Hs|exact Hrb|by left|exact HQ].
  - simpl. wp_step. eapply wp_delete_one; [exact Hs|exact Hrb|by right|exact HQ].
  - rewrite <-Hl in *. simpl. eapply wp_successor; [exact Hs|].
    intros cs y cy ky vy ry Heq Hpre. rewrite Heq in Hs, Hrb.
    assert (Hpl : plug ctx (T z c k v l (plug cs (T y cy ky vy E ry))) =
      plug (cs ++ Fr R z c k v l :: ctx) (T y cy ky vy E ry)) by (by rewrite plug_app).
    rewrite Hpl in Hrb. eapply wp_delete_two; [eapply foc_move; [exact Hs|exact Hpl]|exact Hrb|done|].
    rewrite <-Heq. exact HQ.
Qed.

End rb.
