(* ===== verification/RbEngine.v ===== *)
(** The operations of the red-black tree engine refine a finite map. *)
From S2P Require Import Prelude KvsSpec RbTree RbInv RbProof RbDelete.

(** * Search paths *)

(** Every turn of the path was taken as a comparison with [k] tells. *)
Definition turn_ok (k : string) (f : frame) : Prop :=
  match f_dir f with L => str_lt k (f_key f) | R => str_lt (f_key f) k end.
Definition path_ok (k : string) (ctx : list frame) : Prop := Forall (turn_ok k) ctx.

Lemma path_sides k ctx :
  sorted_pairs (cpre ctx ++ cpost ctx) → path_ok k ctx →
  keys_below (cpre ctx) k ∧ keys_above k (cpost ctx).
Proof.
  induction ctx as [|f ctx IH]; simpl; intros Hs Hp; [by split; intros p Hp'%elem_of_nil|].
  apply Forall_cons in Hp as [Hf Hp]. unfold turn_ok, fpre, fpost in *.
  destruct (f_dir f); simpl in *.
  - rewrite app_nil_r in *. pose proof Hs as Hmid. apply sorted_pairs_mid in Hmid as (Hs' & _ & Ha).
    assert (sorted_pairs (cpre ctx ++ cpost ctx)) as Hs2.
    { apply sorted_pairs_app in Hs' as (? & Hr & Happ). apply sorted_pairs_app in Hr as (? & ? & ?).
      apply sorted_pairs_app. split_and!; [done..|]. intros. apply Happ; set_solver. }
    destruct (IH Hs2 Hp) as [Hb Ha']. split; [done|].
    intros p [->|[Hp'|Hp']%elem_of_app]%elem_of_cons; [done| |by apply Ha'].
    apply (str_lt_trans _ (f_key f)); [done|]. apply Ha. set_solver.
  - assert (Hmid : sorted_pairs ((cpre ctx ++ inorder (f_sib f)) ++ (f_key f, f_val f) :: cpost ctx)).
    { revert Hs. by rewrite <-!(assoc_L (++)). }
    apply sorted_pairs_mid in Hmid as (Hs' & Hb & _).
    assert (sorted_pairs (cpre ctx ++ cpost ctx)) as Hs2.
    { rewrite <-(assoc_L (++)) in Hs'. apply sorted_pairs_app in Hs' as (? & Hr & Happ).
      apply sorted_pairs_app in Hr as (? & ? & ?).
      apply sorted_pairs_app. split_and!; [done..|]. intros. apply Happ; set_solver. }
    destruct (IH Hs2 Hp) as [Hb' Ha]. split; [|done].
    intros p [Hp'|[Hp'|Hp'%list_elem_of_singleton]%elem_of_app]%elem_of_app;
      [by apply Hb'| |by subst].
    apply (str_lt_trans _ (f_key f)); [|done]. apply Hb. set_solver.
Qed.

Section rb.
Variable nil : loc.
Implicit Types (s : rbtree) (ctx : list frame) (t a b g : tree) (nn : rbnode)
  (ex : list (loc * rbnode)).

Lemma wp_node_key d x c k v a b nn ex ctx e s Q :
  foc nil nn ex s ctx (node d x c k v a b) → Q (PStr k) e s → wp (get_key (Ptr x)) e s Q.
Proof. intros [_ _ Hh _] HQ. destruct d; simpl in *; by rb_step. Qed.
Lemma wp_node_value d x c k v a b nn ex ctx e s Q :
  foc nil nn ex s ctx (node d x c k v a b) → Q (PStr v) e s → wp (get_value (Ptr x)) e s Q.
Proof. intros [_ _ Hh _] HQ. destruct d; simpl in *; by rb_step. Qed.
Lemma node_not_nil d x c k v a b nn ex ctx s :
  foc nil nn ex s ctx (node d x c k v a b) → ptr_eqb (Ptr x) (Ptr nil) = false.
Proof. intros [_ _ Hh _]. destruct d; simpl in Hh; by rb_eqb. Qed.

(** Where a descent from the root ends: at a leaf or at the key. *)
Definition found k t : Prop := t = E ∨ ∃ x c v l r, t = T x c k v l r.

(** The three-way comparison of the descents. *)
Lemma cmp_tests {A} k k' (a b c : A) :
  (if (strcmp k k' <? 0)%Z then a else if (strcmp k k' >? 0)%Z then b else c) =
  match String.compare k k' with Lt => a | Gt => b | Eq => c end.
Proof. unfold strcmp. by destruct (String.compare k k'). Qed.

Lemma wp_search_loop fuel k nn ex ctx t e s Q :
  foc nil nn ex s ctx t → path_ok k ctx → tsize t < fuel →
  (∀ ctx' t', plug ctx' t' = plug ctx t → path_ok k ctx' → found k t' →
    Q (tptr nil t') e s) →
  wp (search_loop fuel (PStr k) (tptr nil t)) e s Q.
Proof.
  revert ctx t. induction fuel as [|fuel IH]; intros ctx t Hs Hp Hf HQ; [lia|].
  simpl. wp_step. rb_step. rewrite (fo_nil _ _ _ _ _ _ Hs).
  destruct t as [|x c k' v l r]; simpl in *.
  - rewrite ptr_eqb_refl. wp_steps. by apply (HQ ctx E); [|..|left].
  - rewrite (node_not_nil L _ _ _ _ _ _ _ _ _ _ Hs). wp_step. wp_step. wp_step.
    eapply (wp_node_key L); [exact Hs|]. wp_step. wp_step. rewrite cmp_tests.
    destruct (String.compare k k') eqn:Hcmp.
    + apply String.compare_eq_iff in Hcmp as ->. wp_steps.
      apply (HQ ctx (T x c k' v l r)); [done..|]. right. eauto 10.
    + wp_step. eapply (wp_foc_child nil L); [exact Hs|].
      eapply (IH (Fr L x c k' v r :: ctx)); [view Hs|by constructor|lia|exact HQ].
    + wp_step. eapply (wp_foc_child nil R x c k' v r l); [exact Hs|].
      eapply (IH (Fr R x c k' v l :: ctx)); [view Hs|constructor; [|done]|lia|exact HQ].
      unfold turn_ok, str_lt. simpl. by rewrite String.compare_antisym, Hcmp.
Qed.
Arguments search_loop : simpl never.
Lemma wp_search k nn ex t e s Q :
  foc nil nn ex s [] t →
  (∀ ctx' t', plug ctx' t' = t → path_ok k ctx' → found k t' → Q (tptr nil t') e s) →
  wp (rbtree_search (PStr k)) e s Q.
Proof.
  intros Hs HQ. unfold rbtree_search, rb_fuel. wp_step. rb_step. repeat wp_step.
  rewrite (fo_root _ _ _ _ _ _ Hs). simpl. pose proof (foc_size _ _ _ _ _ _ Hs) as Hsz.
  eapply (wp_search_loop _ _ _ _ []); [exact Hs|by constructor|simpl in Hsz; lia|exact HQ].
Qed.

(** * Insertion *)

Lemma wp_insert_descend fuel z nz k nn ex ctx t e s Q :
  foc nil nn ((z, nz) :: ex) s ctx t → n_key nz = PStr k → path_ok k ctx → tsize t < fuel →
  (∀ ctx', plug ctx' E = plug ctx t → path_ok k ctx' → Q (Some (cpar nil ctx')) e s) →
  (∀ x c v l r ctx', plug ctx' (T x c k v l r) = plug ctx t → Q None e s) →
  wp (insert_descend fuel (Ptr z) (cpar nil ctx) (tptr nil t)) e s Q.
Proof.
  intros Hs Hz. revert ctx t Hs. induction fuel as [|fuel IH]; intros ctx t Hs Hp Hf HQ HQ'; [lia|].
  simpl. wp_step. rb_step. rewrite (fo_nil _ _ _ _ _ _ Hs).
  destruct t as [|x c k' v l r]; simpl in *.
  - rewrite ptr_eqb_refl. wp_steps. by apply (HQ ctx).
  - rewrite (node_not_nil L _ _ _ _ _ _ _ _ _ _ Hs). wp_step.
    pose proof (fo_heap _ _ _ _ _ _ Hs) as Hh. simpl in Hh. rb_step. rewrite Hz. wp_step. wp_step. wp_step.
    eapply (wp_node_key L); [exact Hs|]. wp_step. wp_step. rewrite cmp_tests.
    destruct (String.compare k k') eqn:Hcmp.
    + apply String.compare_eq_iff in Hcmp as ->. wp_steps. by eapply HQ'.
    + wp_step. eapply (wp_foc_child nil L); [exact Hs|].
      eapply (IH (Fr L x c k' v r :: ctx)); [view Hs|by constructor|lia|exact HQ|exact HQ'].
    + wp_step. eapply (wp_foc_child nil R x c k' v r l); [exact Hs|].
      eapply (IH (Fr R x c k' v l :: ctx)); [view Hs|constructor; [|done]|lia|exact HQ|exact HQ'].
      unfold turn_ok, str_lt. simpl. by rewrite String.compare_antisym, Hcmp.
Qed.

Arguments insert_descend : simpl never.
Arguments rbtree_insert_fixup : simpl never.

Lemma wp_put_root p l e s Q :
  rb_nil s = Ptr nil → heap_is (rb_heap s) l →
  (∀ s', rb_root s' = p → rb_nil s' = Ptr nil → heap_is (rb_heap s') l → Q tt e s') →
  wp (put_root p) e s Q.
Proof. intros. unfold put_root. wp_step. auto. Qed.

(** The new node is attached below the last node of the descent. *)
Lemma wp_attach z nz k v nn ex ctx e s Q :
  foc nil nn ((z, nz) :: ex) s ctx E → path_ok k ctx →
  n_key nz = PStr k → n_value nz = PStr v →
  (∀ s', foc nil nn ex s' ctx (T z RED k v E E) → wp (rbtree_insert_fixup (Ptr z)) e s' Q) →
  wp (put_parent (Ptr z) (cpar nil ctx);;
      (if ptr_eqb (cpar nil ctx) (Ptr nil) then put_root (Ptr z) else
       zk ← get_key (Ptr z); zk ← deref zk;
       yk ← get_key (cpar nil ctx); yk ← deref yk;
       if (strcmp zk yk <? 0)%Z then put_left (cpar nil ctx) (Ptr z)
       else put_right (cpar nil ctx) (Ptr z));;
      put_left (Ptr z) (Ptr nil);;
      put_right (Ptr z) (Ptr nil);;
      put_color (Ptr z) RED;;
      rbtree_insert_fixup (Ptr z)) e s Q.
Proof.
  destruct nz as [cz rz lz pz ? ?]. simpl. intros [Hn Hr Hh Hb] Hp -> -> HQ.
  destruct ctx as [|[d p c kp vp sib] ctx]; simpl in *.
  - repeat rb_step. rb_store. rewrite ptr_eqb_refl. wp_step.
    eapply wp_put_root; [exact Hnil|exact Hheap|]. clear Hroot Hnil Hheap s0. intros. rb_run.
    apply HQ. rb_foc.
  - apply Forall_cons in Hp as [Ht _]. unfold turn_ok in Ht. simpl in Ht.
    repeat rb_step. rb_store.
    assert (ptr_eqb (Ptr p) (Ptr nil) = false) as -> by (by rb_eqb).
    destruct d; simpl in *; repeat rb_step;
      [apply strcmp_lt, Z.ltb_lt in Ht as ->
      |apply strcmp_gt in Ht; assert ((strcmp k kp <? 0)%Z = false) as -> by (apply Z.ltb_ge; lia)];
      rb_run; apply HQ; rb_foc.
Qed.

(** [rbtree_insert] of a new key adds its pair and keeps the invariants. *)
Lemma wp_rbtree_insert z nz k v nn t m e s Q :
  foc nil nn [(z, nz)] s [] t → is_rb t RED m → sorted_pairs (inorder t) →
  n_key nz = PStr k → n_value nz = PStr v →
  (list_to_map (inorder t) : gmap string string) !! k = None →
  (∀ s' t' l1 l2, foc nil nn [] s' [] t' → (∃ m, is_rb t' RED m) →
    inorder t = l1 ++ l2 → inorder t' = l1 ++ (k, v) :: l2 →
    sorted_pairs (inorder t') → Q tt e s') →
  wp (rbtree_insert (Ptr z)) e s Q.
Proof.
  intros Hs Hrb Hso Hk Hv Hnone HQ. unfold rbtree_insert, rb_fuel. wp_step. rb_step. wp_step. rb_step.
  rewrite (fo_nil _ _ _ _ _ _ Hs), (fo_root _ _ _ _ _ _ Hs). repeat wp_step.
  pose proof (foc_size _ _ _ _ _ _ Hs) as Hsz. simpl in Hsz.
  eapply (wp_insert_descend _ _ _ _ _ _ [] t); [exact Hs|exact Hk|by constructor|lia|simpl..].
  - intros ctx Hpl Hp. rewrite <-Hpl in Hso, Hrb.
    eapply (wp_attach _ _ k v _ []); [eapply foc_move; [exact Hs|done]|done..|].
    intros s1 Hs1. destruct (plug_rb_inv _ _ _ Hrb) as (n & Hc & Hn). inversion Hn; subst.
    eapply wp_insert_fixup; [exact Hs1|constructor|constructor|done|].
    intros s2 t2 Hs2 Hin2 Hrb2. rewrite inorder_plug in Hin2. simpl in Hin2.
    rewrite inorder_plug in Hso. simpl in Hso. destruct (path_sides k ctx Hso Hp) as [Hb Ha].
    eapply (HQ s2 t2 (cpre ctx) (cpost ctx)); [exact Hs2|done| |done|].
    + by rewrite inorder_plug.
    + rewrite Hin2. by apply sorted_pairs_mid.
  - intros x c v' l r ctx Hpl. exfalso. rewrite <-Hpl, inorder_plug in Hnone, Hso. simpl in Hnone, Hso.
    assert (Heq : cpre ctx ++ (inorder l ++ (k, v') :: inorder r) ++ cpost ctx =
      (cpre ctx ++ inorder l) ++ (k, v') :: (inorder r ++ cpost ctx)) by by simplify_list_eq.
    rewrite Heq in Hnone, Hso. by rewrite alist_lookup in Hnone.
Qed.

End rb.

(** * The operations *)

(** The state holds a red-black tree whose pairs, in order, are those of [m]. *)
Definition rb_tree (s : rbtree) (nil : loc) (nn : rbnode) (t : tree) : Prop :=
  foc nil nn [] s [] t ∧ (∃ n, is_rb t RED n) ∧ sorted_pairs (inorder t).
Definition rb_rep (s : rbtree) (m : gmap string string) : Prop :=
  ∃ nil nn t, rb_tree s nil nn t ∧ m = list_to_map (inorder t).

Section ops.
Implicit Types (s : rbtree) (m : gmap string string) (k v : string).
Local Open Scope Z_scope.

Lemma inorder_focus ctx x c k v l r :
  inorder (plug ctx (T x c k v l r)) =
  (cpre ctx ++ inorder l) ++ (k, v) :: (inorder r ++ cpost ctx).
Proof. rewrite inorder_plug. simpl. by simplify_list_eq. Qed.

Lemma wp_lookup nil nn t k e s Q :
  rb_tree s nil nn t →
  ((list_to_map (inorder t) : gmap string string) !! k = None → Q (Ptr nil) e s) →
  (∀ ctx x c v l r, plug ctx (T x c k v l r) = t →
    (list_to_map (inorder t) : gmap string string) !! k = Some v →
    foc nil nn [] s ctx (T x c k v l r) → ptr_eqb (Ptr x) (Ptr nil) = false →
    Q (Ptr x) e s) →
  wp (rbtree_search (PStr k)) e s Q.
Proof.
  intros (Hs & _ & Hso) Hnone Hsome. eapply wp_search; [exact Hs|].
  intros ctx t' Hpl Hp [->|(x & c & v & l & r & ->)].
  - apply Hnone. rewrite <-Hpl, inorder_plug in *. simpl in *.
    destruct (path_sides _ _ Hso Hp). by apply alist_none.
  - assert (Hs' : foc nil nn [] s ctx (T x c k v l r)) by (by eapply foc_move).
    eapply Hsome; [exact Hpl| |exact Hs'|by eapply (node_not_nil nil L)].
    rewrite <-Hpl, inorder_focus in *. by apply alist_lookup.
Qed.
Arguments rbtree_search : simpl never.

(** The tests on the result of a search. *)
Ltac rb_found Hs :=
  intros; simpl; repeat (rb_step || wp_step);
  rewrite ?(fo_nil _ _ _ _ _ _ Hs); rewrite ?ptr_eqb_refl; simpl;
  try match goal with H : ptr_eqb (Ptr _) (Ptr _) = false |- _ => rewrite ?H; simpl end;
  repeat wp_step.

Lemma wp_rb_get e s m k :
  rb_rep s m →
  wp (kvs_rbtree_get IGlobal (PStr k)) e s (λ r e' s', r = ptr_of (m !! k) ∧ e' = e ∧ s' = s).
Proof.
  intros (nil & nn & t & Ht & ->). pose proof Ht as (Hs & _ & _). unfold kvs_rbtree_get. simpl. wp_step.
  eapply wp_lookup; [exact Ht|..].
  - intros Hk. rb_found Hs. by rewrite Hk.
  - intros ctx x c v l r Hpl Hk Hx Hne. rb_found Hs.
    eapply (wp_node_value _ L); [exact Hx|]. by rewrite Hk.
Qed.
Lemma wp_rb_exist e s m k :
  rb_rep s m →
  wp (kvs_rbtree_exist IGlobal (PStr k)) e s (λ r e' s', exist_post m k r ∧ e' = e ∧ s' = s).
Proof.
  intros (nil & nn & t & Ht & ->). pose proof Ht as (Hs & _ & _). unfold kvs_rbtree_exist, exist_post.
  simpl. wp_step. eapply wp_lookup; [exact Ht|..].
  - intros Hk. rb_found Hs. by rewrite Hk.
  - intros ctx x c v l r Hpl Hk Hx Hne. rb_found Hs. by rewrite Hk.
Qed.

Lemma heap_is_dom {V} (h : gmap loc V) l : heap_is h l → dom h = list_to_set l.*1.
Proof. intros [_ ->]. by rewrite dom_list_to_map_L. Qed.

(** Allocating a node beside the tree. *)
Lemma wp_ralloc nil nn ex t ctx e s Q :
  foc nil nn ex s ctx t →
  (malloc_fails e = true → Q RNull (after_malloc e) s) →
  (malloc_fails e = false → ∀ x s', foc nil nn ((x, undef_node) :: ex) s' ctx t →
    Q (Ptr x) (after_malloc e) s') →
  wp ralloc e s Q.
Proof.
  intros [Hn Hr Hh Hb] Hoom Hok. unfold ralloc. repeat wp_step.
  destruct (malloc_fails e); simpl; repeat wp_step; [by apply Hoom|]. apply Hok; [done|].
  split; simpl; [done..| |done]. eapply heap_is_perm.
  - apply heap_is_alloc; [exact Hh|apply is_fresh].
  - perm_solve.
Qed.
(** Freeing a node that is not part of the tree. *)
Lemma wp_rfree nil nn x n ex t ctx e s Q :
  foc nil nn ((x, n) :: ex) s ctx t →
  (∀ s', foc nil nn ex s' ctx t → Q tt (add_live (-1) e) s') →
  wp (rfree (Ptr x)) e s Q.
Proof.
  intros [Hn Hr Hh Hb] HQ. simpl in *. wp_step. eapply wp_rload; [exact Hh|typeclasses eauto|].
  repeat wp_step. apply HQ. split; simpl; [done..| |done].
  eapply heap_is_free; [exact Hh|typeclasses eauto].
Qed.
Arguments rfree : simpl never.
Arguments ralloc : simpl never.

(** Writing a field of a node beside the tree. *)
Lemma wp_ex_store nil nn x n f ex t ctx e s Q :
  foc nil nn ((x, n) :: ex) s ctx t →
  (∀ s', foc nil nn ((x, f n) :: ex) s' ctx t → Q tt e s') →
  wp (rstore (Ptr x) f) e s Q.
Proof.
  intros [Hn Hr Hh Hb] HQ. simpl in Hh. eapply wp_rstore; [exact Hh|typeclasses eauto|].
  intros s' Hr' Hn' Hh'. apply HQ.
  split; [congruence|congruence| |done]. eapply heap_is_perm; [exact Hh'|]. perm_solve.
Qed.
Lemma wp_ex_key nil nn x n ex t ctx e s Q :
  foc nil nn ((x, n) :: ex) s ctx t → Q (n_key n) e s → wp (get_key (Ptr x)) e s Q.
Proof. intros [_ _ Hh _] HQ. simpl in Hh. by rb_step. Qed.
Lemma wp_ex_value nil nn x n ex t ctx e s Q :
  foc nil nn ((x, n) :: ex) s ctx t → Q (n_value n) e s → wp (get_value (Ptr x)) e s Q.
Proof. intros [_ _ Hh _] HQ. simpl in Hh. by rb_step. Qed.

(** What [kvs_rbtree_set] guarantees. *)
Definition rb_set_post e m k v (r : Z) e' s' : Prop :=
  (no_oom e → no_oom e') ∧ (no_oom e → 0 ≤ r) ∧
  ∃ m', set_post m k v r m' ∧ pair_blocks 3 e m e' m' ∧ rb_rep s' m'.

Lemma rb_set_failed e t nil nn k v e' s' :
  (∃ n, is_rb t RED n) → sorted_pairs (inorder t) → foc nil nn [] s' [] t →
  live e' = live e → ¬ no_oom e → rb_set_post e (list_to_map (inorder t)) k v (-2) e' s'.
Proof.
  intros Hrb Hso Hs Hl Ho. split_and!; [done..|]. eexists.
  split_and!; [right; right; split; [lia|done]|unfold pair_blocks; lia|].
  eexists _, _, _. by split.
Qed.
Lemma rb_set_done e nil nn t l1 l2 t' k v e' s' :
  sorted_pairs (inorder t) → (list_to_map (inorder t) : gmap string string) !! k = None →
  inorder t = l1 ++ l2 → inorder t' = l1 ++ (k, v) :: l2 →
  sorted_pairs (inorder t') → (∃ n, is_rb t' RED n) → foc nil nn [] s' [] t' →
  live e' = live e + 3 → (no_oom e → no_oom e') →
  rb_set_post e (list_to_map (inorder t)) k v 0 e' s'.
Proof.
  intros Hso Hk Hin Hin' Hso' Hrb Hs Hl Ho. split_and!; [done|lia|].
  assert (Hm : (list_to_map (inorder t') : gmap string string) = <[k := v]> (list_to_map (inorder t))).
  { rewrite Hin, Hin' in *. by apply alist_mid. }
  exists (list_to_map (inorder t')). split_and!.
  - right; left. by rewrite Hm.
  - unfold pair_blocks. rewrite Hm, map_size_insert_None by done. lia.
  - eexists _, _, _. by split.
Qed.

Lemma wp_rb_set e s m k v :
  rb_rep s m → wp (kvs_rbtree_set IGlobal (PStr k) (PStr v)) e s (rb_set_post e m k v).
Proof.
  intros (nil & nn & t & Ht & ->). pose proof Ht as (Hs & Hrb & Hso).
  unfold kvs_rbtree_set. simpl. wp_step. eapply wp_lookup; [exact Ht|..].
  2:{ intros ctx x c v0 l r Hpl Hk Hx Hne. rb_found Hs. split_and!; [done|lia|].
      eexists. split_and!; [left; eauto|unfold pair_blocks; lia|eexists _, _, _; by split]. }
  assert (Hoom : ∀ e', malloc_fails e' = true → ¬ no_oom e') by (intros e' ? ?%no_oom_fails; congruence).
  intros Hk. rb_found Hs. pose proof (live_after_malloc e) as Hl1.
  eapply wp_ralloc; [exact Hs|..].
  { intros Hf. rewrite Hf in Hl1. simpl. wp_steps. eapply rb_set_failed; [done..|lia|auto]. }
  intros Hf1 x s1 Hs1. rewrite Hf1 in Hl1.
  pose proof (no_oom_after e) as Ho1. set (e1 := after_malloc e) in *.
  pose proof (live_after_malloc e1) as Hl2. pose proof (no_oom_after e1) as Ho2.
  wp_steps. destruct (malloc_fails e1) eqn:Hf2; simpl; (eapply wp_ex_store; [exact Hs1|]); intros s2 Hs2.
  { wp_step. eapply wp_rfree; [exact Hs2|]. intros s3 Hs3. wp_steps.
    eapply rb_set_failed; [done..|simpl; lia|]. intros Ho%Ho1. by destruct (Hoom e1). }
  set (e2 := after_malloc e1) in *.
  pose proof (live_after_malloc e2) as Hl3. pose proof (no_oom_after e2) as Ho3.
  wp_steps. destruct (malloc_fails e2) eqn:Hf3; simpl; (eapply wp_ex_store; [exact Hs2|]); intros s3 Hs3.
  { wp_step. eapply wp_ex_key; [exact Hs3|]. simpl. wp_steps. eapply wp_rfree; [exact Hs3|].
    intros s4 Hs4. wp_steps.
    eapply rb_set_failed; [done..|simpl; lia|]. intros Ho%Ho1%Ho2. by destruct (Hoom e2). }
  wp_step. destruct Hrb as [n Hrb].
  eapply wp_rbtree_insert; [exact Hs3|exact Hrb|exact Hso|reflexivity|reflexivity|exact Hk|].
  intros s4 t4 l1 l2 Hs4 Hrb4 Hin Hin4 Hso4. wp_steps.
  eapply rb_set_done; [exact Hso|exact Hk|exact Hin|exact Hin4|exact Hso4|done|exact Hs4|lia|auto].
Qed.

Lemma wp_rb_mod e s m k v :
  rb_rep s m → malloc_fails e = false →
  wp (kvs_rbtree_mod IGlobal (PStr k) (PStr v)) e s (λ r e' s',
    (no_oom e → no_oom e') ∧ ∃ m', mod_post m k v r m' ∧ pair_blocks 3 e m e' m' ∧ rb_rep s' m').
Proof.
  intros (nil & nn & t & Ht & ->) Hf. pose proof Ht as (Hs & [n Hrb] & Hso).
  unfold kvs_rbtree_mod. simpl. wp_step. eapply wp_lookup; [exact Ht|..].
  { intros Hk. rb_found Hs. split; [done|]. eexists.
    split_and!; [right; done|unfold pair_blocks; lia|eexists _, _, _; by split]. }
  intros ctx x c v0 l r Hpl Hk Hx Hne. rb_found Hs.
  eapply (wp_node_value _ L); [exact Hx|]. wp_steps.
  assert (Hf' : malloc_fails (add_live (-1) e) = false) by done. rewrite Hf'. simpl.
  destruct Hx as [Hn Hr Hh Hb]. simpl in *. rb_store. wp_steps. split; [by auto with kvs|].
  assert (Hs' : foc nil nn [] s0 ctx (T x c k v l r)) by rb_foc.
  rewrite <-Hpl, inorder_focus in Hso, Hk |- *.
  exists (list_to_map (inorder (plug ctx (T x c k v l r)))). rewrite inorder_focus.
  pose proof (live_after_malloc (add_live (-1) e)) as Hl. rewrite Hf' in Hl. simpl in Hl.
  rewrite (alist_update _ k v0 v) by done. split_and!.
  - left. by rewrite Hk.
  - unfold pair_blocks. rewrite map_size_insert_Some by eauto. lia.
  - exists nil, nn, (plug ctx (T x c k v l r)). split.
    + split_and!; [by eapply foc_move| |].
      * destruct (plug_rb_inv ctx (T x c k v0 l r) n) as (n' & Hc & Hn'); [by rewrite Hpl|].
        eapply plug_rb; [exact Hc|]. inversion Hn'; subst; by constructor.
      * rewrite inorder_focus. by eapply sorted_pairs_value.
    + rewrite inorder_focus. by rewrite (alist_update _ k v0 v).
Qed.

(** Removing a node: the pair is gone and its three blocks are freed. *)
Lemma wp_remove nil nn ctx x c k v l r e s Q :
  foc nil nn [] s ctx (T x c k v l r) → (∃ n, is_rb (plug ctx (T x c k v l r)) RED n) →
  (∀ s' t' nn', foc nil nn' [] s' [] t' → (∃ n, is_rb t' RED n) →
    inorder t' = (cpre ctx ++ inorder l) ++ (inorder r ++ cpost ctx) →
    Q tt (add_live (-1) (add_live (-1) (add_live (-1) e))) s') →
  wp (cur ← rbtree_delete (Ptr x); free_rbnode cur) e s Q.
Proof.
  intros Hs [n Hrb] HQ. wp_step. eapply wp_rbtree_delete; [exact Hs|exact Hrb|].
  intros s1 t1 nn1 y ny Hk Hv Hs1 Hin Hrb1. unfold free_rbnode. wp_step.
  eapply wp_ex_key; [exact Hs1|]. rewrite Hk. wp_steps.
  eapply wp_ex_value; [exact Hs1|]. rewrite Hv. wp_steps.
  eapply wp_rfree; [exact Hs1|]. intros s2 Hs2. eapply HQ; [exact Hs2|done|].
  rewrite Hin. by simplify_list_eq.
Qed.
Arguments rbtree_delete : simpl never.
Arguments free_rbnode : simpl never.

Lemma wp_rb_del e s m k :
  rb_rep s m →
  wp (kvs_rbtree_del IGlobal (PStr k)) e s (λ r e' s',
    (no_oom e → no_oom e') ∧ ∃ m', del_post m k r m' ∧ pair_blocks 3 e m e' m' ∧ rb_rep s' m').
Proof.
  intros (nil & nn & t & Ht & ->). pose proof Ht as (Hs & Hrb & Hso).
  unfold kvs_rbtree_del. simpl. wp_step. eapply wp_lookup; [exact Ht|..].
  { intros Hk. rb_found Hs. split; [done|]. eexists.
    split_and!; [right; done|unfold pair_blocks; lia|eexists _, _, _; by split]. }
  intros ctx x c v l r Hpl Hk Hx Hne. simpl. wp_step. rb_step. rewrite (fo_nil _ _ _ _ _ _ Hs), Hne.
  simpl. apply wp_bind_assoc. wp_step. eapply wp_remove; [exact Hx|by rewrite Hpl|].
  intros s' t' nn' Hs' Hrb' Hin'. wp_steps. split; [done|].
  rewrite <-Hpl, inorder_focus in Hso, Hk |- *.
  exists (list_to_map (inorder t')). rewrite Hin'. split_and!.
  - left. split_and!; [done|by rewrite Hk|]. by eapply alist_delete.
  - unfold pair_blocks. rewrite (alist_delete _ k v _ Hso), map_size_delete_Some by eauto.
    assert (size (list_to_map ((cpre ctx ++ inorder l) ++ (k, v) :: inorder r ++ cpost ctx)
      : gmap string string) ≠ 0%nat) by (rewrite alist_size by done; rewrite length_app; simpl; lia).
    simpl. lia.
  - exists nil, nn', t'. split; [|by rewrite Hin']. split_and!; [done..|].
    rewrite Hin'. by apply sorted_pairs_mid in Hso as [? _].
Qed.

End ops.

(** * The engine meets its contract *)

#[export] Instance rbtree_engine : KVEngine rbtree_ops.
Proof.
  unshelve econstructor; [exact rb_rep|exact (λ _, True)|exact None|exact (λ _ _, True)|exact 3%Z|..].
  - done.
  - intros e s m k Hr _. by apply wp_rb_get.
  - intros e s m k Hr _. by apply wp_rb_exist.
  - intros e s m k v Hr _ _. eapply wp_mono; [by apply wp_rb_set|].
    intros r e' s' (? & ? & ?). split_and!; [done|auto|done].
  - intros e s m k v Hr _ Hf. by apply wp_rb_mod.
  - intros e s m k Hr _. by apply wp_rb_del.
Defined.

(** * Creation and destruction *)

Section life.
Local Open Scope Z_scope.

Lemma wp_rb_create e :
  malloc_fails e = false →
  wp (kvs_rbtree_create IGlobal) e global_rbtree (λ r e' s',
    (no_oom e → no_oom e') ∧ r = 0 ∧ live e' = live e + 1 ∧ rb_rep s' ∅).
Proof.
  intros Hf. pose proof (live_after_malloc e) as Hl. rewrite Hf in Hl.
  unfold kvs_rbtree_create, ralloc. simpl. wp_steps. rewrite Hf. simpl. wp_steps.
  set (x := fresh (dom (∅ : gmap loc rbnode))).
  assert (Hh : heap_is (<[x := undef_node]> (∅ : gmap loc rbnode)) [(x, undef_node)]).
  { split; [repeat constructor; set_solver|done]. }
  unfold get_nil. wp_steps. eapply wp_rstore; [exact Hh|typeclasses eauto|].
  intros s' Hr Hn Hh'. simpl in *. wp_step. eapply wp_put_root; [exact Hn|exact Hh'|].
  intros s2 Hr2 Hn2 Hh2. wp_steps. split_and!; [by auto with kvs|done|done|].
  exists x, (n_set_color BLACK undef_node), E. split; [|done].
  split_and!; [|by exists 0%nat; constructor|constructor]. by split.
Qed.

(** The loop of [kvs_rbtree_destroy] removes the smallest node until none is left. *)
Lemma wp_destroy_loop fuel nil nn t e s Q :
  foc nil nn [] s [] t → (∃ n, is_rb t RED n) → (tsize t < fuel)%nat →
  (∀ e' s' nn', foc nil nn' [] s' [] E → live e' = live e - 3 * Z.of_nat (tsize t) → Q tt e' s') →
  wp (destroy_loop fuel) e s Q.
Proof.
  revert t nn e s. induction fuel as [|fuel IH]; intros t nn e s Hs Hrb Hf HQ; [lia|].
  simpl. wp_step. rb_step. wp_step. rb_step.
  rewrite (fo_root _ _ _ _ _ _ Hs), (fo_nil _ _ _ _ _ _ Hs).
  destruct t as [|x c k v l r]; simpl.
  - rewrite ptr_eqb_refl. wp_steps. eapply HQ; [exact Hs|simpl; lia].
  - rewrite (node_not_nil nil L _ _ _ _ _ _ _ _ _ _ Hs). wp_step.
    eapply wp_mini; [exact Hs|]. intros cs y cy ky vy ry Heq _. rewrite Heq in Hs, Hrb.
    apply wp_bind_assoc. wp_step. eapply wp_remove; [by eapply foc_move|exact Hrb|].
    intros s' t' nn' Hs' Hrb' Hin'.
    assert (Hsz : S (tsize t') = tsize (T x c k v l r)).
    { rewrite Heq, <-!length_inorder, Hin', inorder_focus, !length_app. simpl. rewrite length_app. lia. }
    eapply IH; [exact Hs'|exact Hrb'|lia|]. intros e2 s2 nn2 Hs2 Hl2.
    eapply HQ; [exact Hs2|]. simpl in Hl2, Hsz |- *. lia.
Qed.
Arguments destroy_loop : simpl never.

Lemma wp_rb_destroy e s m :
  rb_rep s m →
  wp (kvs_rbtree_destroy IGlobal) e s (λ _ e' s',
    s' = global_rbtree ∧ live e' = live e - 1 - 3 * Z.of_nat (size m)).
Proof.
  intros (nil & nn & t & (Hs & Hrb & Hso) & ->). rewrite alist_size, length_inorder by done.
  unfold kvs_rbtree_destroy, rb_fuel. simpl. repeat wp_step.
  pose proof (foc_size _ _ _ _ _ _ Hs) as Hsz. simpl in Hsz.
  eapply wp_destroy_loop; [exact Hs|exact Hrb|lia|]. intros e1 s1 nn1 [Hn Hr Hh Hb] Hl.
  wp_step. rb_step. rewrite Hn. unfold rfree. wp_step. wp_step.
  simpl in Hh. eapply wp_rload; [exact Hh|typeclasses eauto|].
  unfold put_root. repeat wp_step. split; [|simpl; lia].
  destruct Hh as [_ Hh]. rewrite Hh. simpl. unfold global_rbtree.
  by rewrite insert_empty, delete_singleton_eq.
Qed.

(** ** Shape and order of the tree *)

Lemma rb_height t n : is_rb t RED n → (depth t ≤ 2 * Nat.log2 (S (tsize t)))%nat.
Proof.
  intros Hrb. pose proof (is_rb_depth _ _ _ Hrb). pose proof (is_rb_size _ _ _ Hrb) as Hsz.
  apply Nat.log2_le_mono in Hsz. rewrite Nat.log2_pow2 in Hsz by lia. simpl in *. lia.
Qed.

Lemma wp_traversal_loop fuel nil nn ex ctx t e s Q :
  foc nil nn ex s ctx t → (tsize t < fuel)%nat →
  Q (inorder t) e s → wp (traversal_loop fuel (tptr nil t)) e s Q.
Proof.
  revert ctx t Q. induction fuel as [|fuel IH]; intros ctx t Q Hs Hf HQ; [lia|].
  simpl. wp_step. rb_step. rewrite (fo_nil _ _ _ _ _ _ Hs).
  destruct t as [|x c k v l r]; simpl in *; [rewrite ptr_eqb_refl; by wp_steps|].
  rewrite (node_not_nil nil L _ _ _ _ _ _ _ _ _ _ Hs). wp_step.
  eapply (wp_foc_child nil L); [exact Hs|]. wp_step.
  eapply (IH (Fr L x c k v r :: ctx) l); [view Hs|lia|]. wp_step.
  eapply (wp_node_key nil L); [exact Hs|]. wp_step. wp_step. wp_step.
  eapply (wp_node_value nil L); [exact Hs|]. wp_step. wp_step. wp_step.
  eapply (wp_foc_child nil R x c k v r l); [exact Hs|]. wp_step.
  eapply (IH (Fr R x c k v l :: ctx) r); [view Hs|lia|]. by wp_steps.
Qed.
Arguments traversal_loop : simpl never.

(** * The theorems *)

(** C8: over its whole life (create, any sequence of operations, destroy) with
    memory available, the red-black tree engine answers exactly as a finite map
    that starts empty, reaches no undefined behaviour and no loop of it runs
    longer than the number of nodes, gives back every block it allocated and
    leaves the global instance as it was before. *)
Theorem rbtree_lifecycle_refines os e :
  no_oom e →
  wp (lifecycle rbtree_ops (kvs_rbtree_create IGlobal) (kvs_rbtree_destroy IGlobal) os)
    e global_rbtree (λ a e' s',
      a = (spec_steps os ∅).1 ∧ live e' = live e ∧ s' = global_rbtree).
Proof.
  intros He. apply (lifecycle_refines rbtree_ops _ _ _ _ _ 1 (λ s', s' = global_rbtree)).
  - by apply Forall_true.
  - done.
  - done.
  - eapply wp_mono; [by apply wp_rb_create, no_oom_fails|].
    intros r e' s' (? & _ & ? & ?). split_and!; auto.
  - intros e' s m Hr. by apply wp_rb_destroy.
Qed.

Lemma rbtree_lifecycle_refines_witness :
  wp (lifecycle rbtree_ops (kvs_rbtree_create IGlobal) (kvs_rbtree_destroy IGlobal)
        [OpSet "b" "1"; OpSet "a" "2"; OpMod "a" "3"; OpDel "b"; OpGet "a"])
    (Env [] [] [] [] 0) global_rbtree (λ a e' s',
      a = [ACode 0; ACode 0; ACode 0; ACode 0; AValue (PStr "3")] ∧ live e' = 0 ∧
      s' = global_rbtree).
Proof.
  apply (rbtree_lifecycle_refines
    [OpSet "b" "1"; OpSet "a" "2"; OpMod "a" "3"; OpDel "b"; OpGet "a"] (Env [] [] [] [] 0)).
  constructor.
Defined.

(** C19: after any sequence of operations the tree on the heap is a search tree
    that holds exactly the pairs of the abstract map, satisfies the red-black
    invariants, and its height is at most twice the binary logarithm of the
    number of nodes plus one. *)
Theorem rbtree_balanced os e :
  no_oom e →
  wp (kvs_rbtree_create IGlobal;; kv_run_all rbtree_ops os) e global_rbtree (λ _ _ s',
    let m := (spec_steps os ∅).2 in
    ∃ nil nn t, rb_tree s' nil nn t ∧ m = list_to_map (inorder t) ∧
      (depth t ≤ 2 * Nat.log2 (S (size m)))%nat).
Proof.
  intros He. wp_step. eapply wp_mono; [by apply wp_rb_create, no_oom_fails|].
  intros r e1 s1 (He1 & _ & _ & Hr1).
  eapply wp_mono; [apply (kv_run_all_refines rbtree_ops os e1 s1 ∅); [done|by apply Forall_true|auto|done]|].
  intros a e2 s2 (_ & _ & (nil & nn & t & Ht & Hm) & _). exists nil, nn, t.
  split_and!; [done|done|]. destruct Ht as (_ & [n Hrb] & Hso).
  rewrite Hm, alist_size, length_inorder by done. by eapply rb_height.
Qed.

Lemma rbtree_balanced_witness :
  no_oom (Env [] [] [] [] 0) ∧
  wp (kvs_rbtree_create IGlobal;; kv_run_all rbtree_ops [OpSet "b" "1"; OpSet "a" "2"])
    (Env [] [] [] [] 0) global_rbtree (λ _ _ s',
    let m := (spec_steps [OpSet "b" "1"; OpSet "a" "2"] ∅).2 in
    ∃ nil nn t, rb_tree s' nil nn t ∧ m = list_to_map (inorder t) ∧
      (depth t ≤ 2 * Nat.log2 (S (size m)))%nat).
Proof.
  split; [constructor|].
  apply (rbtree_balanced [OpSet "b" "1"; OpSet "a" "2"] (Env [] [] [] [] 0)). constructor.
Defined.

(** C20: the traversal from the root visits exactly the pairs of the engine, in
    strictly increasing order of their keys. *)
Theorem rbtree_traversal_sorted e s m :
  rb_rep s m →
  wp (root ← get_root; rbtree_traversal root) e s (λ l e' s',
    e' = e ∧ s' = s ∧ sorted_pairs l ∧ m = list_to_map l).
Proof.
  intros (nil & nn & t & (Hs & _ & Hso) & ->). wp_step. rb_step. unfold rbtree_traversal, rb_fuel.
  repeat wp_step. rewrite (fo_root _ _ _ _ _ _ Hs). simpl.
  pose proof (foc_size _ _ _ _ _ _ Hs) as Hsz. simpl in Hsz.
  eapply wp_traversal_loop; [exact Hs|lia|done].
Qed.

(** The state after the insertion of one pair. *)
Definition rb_one : rbtree :=
  match (kvs_rbtree_create IGlobal;; kv_set rbtree_ops (PStr "k") (PStr "v"))
          (Env [] [] [] [] 0) global_rbtree with
  | Ret (_, _, s) => s
  | _ => global_rbtree
  end.
Lemma rb_one_rep : rb_rep rb_one {[ "k" := "v" ]}.
Proof.
  set (nn := RbNode BLACK RUndef RUndef RUndef PFreed PFreed).
  exists 1%positive, nn, (T 2%positive BLACK "k" "v" E E). split; [|by vm_compute].
  split_and!; [|exists 1%nat; repeat constructor|repeat constructor].
  split; [by vm_compute..| |done]. split; [|by vm_compute].
  repeat constructor; simpl; set_solver.
Qed.

Lemma rbtree_traversal_sorted_witness :
  wp (root ← get_root; rbtree_traversal root) (Env [] [] [] [] 0) rb_one (λ l e' s',
    e' = Env [] [] [] [] 0 ∧ s' = rb_one ∧ sorted_pairs l ∧
    ({[ "k" := "v" ]} : gmap string string) = list_to_map l).
Proof. apply (rbtree_traversal_sorted _ _ _ rb_one_rep). Defined.
End life.
