(* ===== verification/SkipList.v ===== *)
(** The skip list engine, as the code has it: src/engine/kvs_skiptable.c.

    A node owns its key, its value and an array of forward pointers, one per
    level it takes part in; the header takes part in every level.  This file
    holds the model; SkipProof.v the proofs. *)
From S2P Require Import Prelude KvsSpec.

Local Open Scope Z_scope.

Definition MAX_LEVEL : Z := 6.

(** [Node].  The forward array is empty until it is allocated. *)
Record snode := SNode {
  sn_key : cptr;
  sn_value : cptr;
  sn_forward : list nptr
}.

(** [SkipList], with the heap of its nodes. *)
Record skiplist := Skip {
  sk_level : Z;
  sk_header : nptr;
  sk_heap : gmap loc snode
}.

Definition global_skip : skiplist := Skip 0 None ∅.

Definition sn_set_key (p : cptr) (n : snode) : snode := SNode p (sn_value n) (sn_forward n).
Definition sn_set_value (p : cptr) (n : snode) : snode := SNode (sn_key n) p (sn_forward n).
Definition sn_set_forward (l : list nptr) (n : snode) : snode := SNode (sn_key n) (sn_value n) l.

(** * Access to the nodes *)

Definition sload (p : nptr) : M skiplist snode :=
  match p with
  | Some x => h ← gets sk_heap; some_or_ub (h !! x)
  | None => ub
  end.
Definition sstore (p : nptr) (f : snode → snode) : M skiplist unit :=
  match p with
  | Some x =>
      h ← gets sk_heap;
      n ← some_or_ub (h !! x);
      modify (λ t, Skip (sk_level t) (sk_header t) (<[x := f n]> (sk_heap t)))
  | None => ub
  end.

(** [malloc] of a node: its fields are not initialised. *)
Definition salloc : M skiplist nptr :=
  ok ← malloc_ok;
  if ok : bool then
    h ← gets sk_heap;
    let x := fresh (dom h) in
    modify (λ t, Skip (sk_level t) (sk_header t) (<[x := SNode PFreed PFreed []]> (sk_heap t)));;
    mret (Some x)
  else mret None.
Definition sfree (p : nptr) : M skiplist unit :=
  match p with
  | None => mret tt
  | Some x =>
      sload p;;
      modify (λ t, Skip (sk_level t) (sk_header t) (delete x (sk_heap t)));;
      free_block
  end.

(** [node->forward[i]], read and written; an index out of range is undefined
    behaviour. *)
Definition get_forward (p : nptr) (i : Z) : M skiplist nptr :=
  n ← sload p;
  if decide (0 ≤ i) then some_or_ub (sn_forward n !! Z.to_nat i) else ub.
Definition put_forward (p : nptr) (i : Z) (q : nptr) : M skiplist unit :=
  n ← sload p;
  if decide (0 ≤ i < Z.of_nat (length (sn_forward n))) then
    sstore p (λ n, sn_set_forward (<[Z.to_nat i := q]> (sn_forward n)) n)
  else ub.
Definition put_level (z : Z) : M skiplist unit :=
  modify (λ t, Skip z (sk_header t) (sk_heap t)).
Definition put_header (p : nptr) : M skiplist unit :=
  modify (λ t, Skip (sk_level t) p (sk_heap t)).

Definition snull (p : nptr) : bool := match p with None => true | Some _ => false end.

(** * Nodes *)

Definition createNode (level : Z) (key value : cptr) : M skiplist nptr :=
  if is_null key || is_null value || (level <? 0) then mret None else
  node ← salloc;
  if snull node then mret None else
  k ← malloc_copy key;
  sstore node (sn_set_key k);;
  if is_null k then sfree node;; mret None else
  v ← malloc_copy value;
  sstore node (sn_set_value v);;
  if is_null v then
    n ← sload node; kvs_free (sn_key n);;
    sfree node;;
    mret None
  else
  ok ← malloc_ok;
  if negb ok then
    n ← sload node; kvs_free (sn_value n);;
    n ← sload node; kvs_free (sn_key n);;
    sfree node;;
    mret None
  else
  sstore node (sn_set_forward (replicate (Z.to_nat (level + 1)) None));;
  mret node.

Definition freeNode (node : nptr) : M skiplist unit :=
  if snull node then mret tt else
  n ← sload node;
  kvs_free (sn_key n);;
  kvs_free (sn_value n);;
  free_block;;
  sfree node.

(** [while (rand() < RAND_MAX / 2 && level < MAX_LEVEL) level++], from [level];
    the fuel bounds the number of tests. *)
Fixpoint randomLevel_loop {S} (fuel : nat) (level : Z) : M S Z :=
  match fuel with
  | O => out_of_fuel
  | S fuel' =>
      r ← rand;
      if (r <? RAND_MAX / 2) && (level <? MAX_LEVEL) then randomLevel_loop fuel' (level + 1)
      else mret level
  end.
Definition randomLevel {S} : M S Z := randomLevel_loop (Z.to_nat (MAX_LEVEL + 1)) 0.

(** * Searching *)

Definition skip_fuel : M skiplist nat := h ← gets sk_heap; mret (S (size h)).

(** The inner loop:
    [while (current->forward[i] != NULL && strcmp(current->forward[i]->key, key) < 0)
       current = current->forward[i]]. *)
Fixpoint advance (fuel : nat) (key : cptr) (i : Z) (current : nptr) : M skiplist nptr :=
  match fuel with
  | O => out_of_fuel
  | S fuel' =>
      f ← get_forward current i;
      if snull f then mret current else
      n ← sload f;
      fk ← deref (sn_key n);
      k ← deref key;
      if (strcmp fk k <? 0) then advance fuel' key i f else mret current
  end.

(** The outer loop of [get] and [mod]: levels [n - 1] down to [0]. *)
Fixpoint descend (n : nat) (key : cptr) (current : nptr) : M skiplist nptr :=
  match n with
  | O => mret current
  | S n' =>
      fuel ← skip_fuel;
      current ← advance fuel key (Z.of_nat n') current;
      descend n' key current
  end.

(** [Node *update[MAX_LEVEL + 1]]: a local array, not initialised. *)
Abbreviation update_array := (list (option nptr)).
Definition fresh_update : update_array := replicate (Z.to_nat (MAX_LEVEL + 1)) None.
Definition set_update (u : update_array) (i : Z) (p : nptr) : M skiplist update_array :=
  if decide (0 ≤ i < Z.of_nat (length u)) then mret (<[Z.to_nat i := Some p]> u) else ub.
Definition get_update (u : update_array) (i : Z) : M skiplist nptr :=
  if decide (0 ≤ i) then
    match u !! Z.to_nat i with Some (Some p) => mret p | _ => ub end
  else ub.

(** The outer loop of [set] and [del], which records the path. *)
Fixpoint descend_path (n : nat) (key : cptr) (current : nptr) (update : update_array)
    : M skiplist (nptr * update_array) :=
  match n with
  | O => mret (current, update)
  | S n' =>
      fuel ← skip_fuel;
      current ← advance fuel key (Z.of_nat n') current;
      update ← set_update update (Z.of_nat n') current;
      descend_path n' key current update
  end.

(** Whether the node after the path holds the key. *)
Definition key_at (p : nptr) (key : cptr) : M skiplist bool :=
  if snull p then mret false else
  n ← sload p;
  nk ← deref (sn_key n);
  k ← deref key;
  mret (strcmp nk k =? 0).

(** * The operations *)

Definition kvs_skip_create (skipList : instance) : M skiplist Z :=
  if inst_null skipList then mret (-1) else
  put_level 0;;
  header ← createNode MAX_LEVEL (PStr "") (PStr "");
  put_header header;;
  if snull header then mret (-1) else
  for_up (R := unit) (Z.to_nat (MAX_LEVEL + 1)) 0 (λ i,
    header ← gets sk_header;
    put_forward header i None;;
    mret None);;
  mret 0.

(** [while (current) { next = current->forward[0]; freeNode(current); current = next; }]. *)
Fixpoint destroy_nodes (fuel : nat) (current : nptr) : M skiplist unit :=
  match fuel with
  | O => out_of_fuel
  | S fuel' =>
      if snull current then mret tt else
      next ← get_forward current 0;
      freeNode current;;
      destroy_nodes fuel' next
  end.

Definition kvs_skip_destroy (skipList : instance) : M skiplist unit :=
  if inst_null skipList then mret tt else
  header ← gets sk_header;
  if snull header then mret tt else
  current ← get_forward header 0;
  fuel ← skip_fuel;
  destroy_nodes fuel current;;
  header ← gets sk_header;
  freeNode header;;
  put_header None;;
  put_level 0.

(** [for (i = skipList->level + 1; i <= level; ++i) update[i] = skipList->header]. *)
Fixpoint raise_path (n : nat) (i : Z) (update : update_array) : M skiplist update_array :=
  match n with
  | O => mret update
  | S n' =>
      header ← gets sk_header;
      update ← set_update update i header;
      raise_path n' (i + 1) update
  end.

Definition kvs_skip_set (skipList : instance) (key value : cptr) : M skiplist Z :=
  if inst_null skipList then mret (-1) else
  header ← gets sk_header;
  if snull header || is_null key || is_null value then mret (-1) else
  lv ← gets sk_level;
  '(current, update) ← descend_path (Z.to_nat (lv + 1)) key header fresh_update;
  current ← get_forward current 0;
  same ← key_at current key;
  if same : bool then mret 1 else
  level ← randomLevel;
  lv ← gets sk_level;
  update ← (if (lv <? level) then
              update ← raise_path (Z.to_nat (level - lv)) (lv + 1) update;
              put_level level;;
              mret update
            else mret update);
  newNode ← createNode level key value;
  if snull newNode then mret (-1) else
  for_up (R := unit) (Z.to_nat (level + 1)) 0 (λ i,
    u ← get_update update i;
    f ← get_forward u i;
    put_forward newNode i f;;
    u ← get_update update i;
    put_forward u i newNode;;
    mret None);;
  mret 0.

Definition kvs_skip_get (skipList : instance) (key : cptr) : M skiplist cptr :=
  if inst_null skipList || is_null key then mret PNull else
  header ← gets sk_header;
  lv ← gets sk_level;
  current ← descend (Z.to_nat (lv + 1)) key header;
  current ← get_forward current 0;
  same ← key_at current key;
  if same : bool then n ← sload current; mret (sn_value n) else mret PNull.

Definition kvs_skip_mod (skipList : instance) (key value : cptr) : M skiplist Z :=
  if inst_null skipList || is_null key || is_null value then mret (-1) else
  header ← gets sk_header;
  lv ← gets sk_level;
  current ← descend (Z.to_nat (lv + 1)) key header;
  current ← get_forward current 0;
  same ← key_at current key;
  if same : bool then
    n ← sload current;
    kvs_free (sn_value n);;
    (* the node keeps the pointer to the freed block *)
    (match sn_value n with PStr _ => sstore current (sn_set_value PFreed) | _ => mret tt end);;
    v ← malloc_copy value;
    if is_null v then mret (-2) else
    sstore current (sn_set_value v);;
    mret 0
  else mret 1.

(** [while (skipList->level > 0 && skipList->header->forward[skipList->level] == NULL)
      skipList->level--]. *)
Fixpoint lower_level (fuel : nat) : M skiplist unit :=
  match fuel with
  | O => out_of_fuel
  | S fuel' =>
      lv ← gets sk_level;
      if (0 <? lv) then
        header ← gets sk_header;
        f ← get_forward header lv;
        if snull f then put_level (lv - 1);; lower_level fuel' else mret tt
      else mret tt
  end.

Definition kvs_skip_del (skipList : instance) (key : cptr) : M skiplist Z :=
  if inst_null skipList || is_null key then mret (-1) else
  header ← gets sk_header;
  lv ← gets sk_level;
  '(current, update) ← descend_path (Z.to_nat (lv + 1)) key header fresh_update;
  current ← get_forward current 0;
  same ← key_at current key;
  if negb same then mret 1 else
  lv ← gets sk_level;
  for_up (Z.to_nat (lv + 1)) 0 (λ i,
    u ← get_update update i;
    f ← get_forward u i;
    if negb (bool_decide (f = current)) then mret (Some tt) else
    cf ← get_forward current i;
    u ← get_update update i;
    put_forward u i cf;;
    mret None);;
  n ← sload current;
  kvs_free (sn_key n);;
  kvs_free (sn_value n);;
  free_block;;
  sfree current;;
  lv ← gets sk_level;
  lower_level (S (Z.to_nat lv));;
  mret 0.

Definition kvs_skip_exist (skipList : instance) (key : cptr) : M skiplist Z :=
  if inst_null skipList || is_null key then mret (-1) else
  value ← kvs_skip_get skipList key;
  if is_null value then mret 1 else mret 0.

Definition skip_ops : kv_ops skiplist :=
  KvOps (kvs_skip_set IGlobal) (kvs_skip_get IGlobal) (kvs_skip_del IGlobal)
        (kvs_skip_mod IGlobal) (kvs_skip_exist IGlobal).
