(* ===== verification/SkipProof.v ===== *)
(** The skip list engine refines a finite map.

    The nodes form one sorted list; a node takes part in the levels
    [en_lo <= i < en_hi], and its forward pointer of level [i] leads to the next
    node of that level.  While a node is being linked (from level 0 up) or
    unlinked (from level 0 up), the two bounds describe the levels done so far. *)
From S2P Require Import Prelude KvsSpec SkipList.

(** * The nodes and their cells *)

Record entry := Ent {
  en_loc : loc; en_key : string; en_val : string; en_lo : nat; en_hi : nat; en_cap : nat
}.
Implicit Types (a en : entry) (A B : list entry) (i j : nat).

Definition at_level i en : bool := bool_decide (en_lo en ≤ i < en_hi en).

(** The first node of level [i], and the last one. *)
Fixpoint next i (B : list entry) : nptr :=
  match B with
  | [] => None
  | en :: B' => if at_level i en then Some (en_loc en) else next i B'
  end.
Fixpoint last_at i (A : list entry) : nptr :=
  match A with
  | [] => None
  | a :: A' =>
      match last_at i A' with
      | Some x => Some x
      | None => if at_level i a then Some (en_loc a) else None
      end
  end.

(** The cell of a node followed by the nodes [B]. *)
Definition forwards en B : list nptr :=
  map (λ i, next i B) (seq 0 (en_hi en)) ++ replicate (en_cap en - en_hi en) None.
Definition ecell en B : loc * snode :=
  (en_loc en, SNode (PStr (en_key en)) (PStr (en_val en)) (forwards en B)).
(** The cells of [A] when [B] follows. *)
Fixpoint cells A B : list (loc * snode) :=
  match A with
  | [] => []
  | a :: A' => ecell a (A' ++ B) :: cells A' B
  end.

Lemma cells_app A1 A2 B : cells (A1 ++ A2) B = cells A1 (A2 ++ B) ++ cells A2 B.
Proof.
  induction A1 as [|a A1 IH]; simpl; [done|]. by rewrite IH, (assoc_L (++)).
Qed.
Lemma next_app i A B :
  next i (A ++ B) = match next i A with Some x => Some x | None => next i B end.
Proof. induction A as [|a A IH]; simpl; [done|]. by destruct (at_level i a). Qed.
Lemma last_at_app i A B :
  last_at i (A ++ B) = match last_at i B with Some x => Some x | None => last_at i A end.
Proof.
  induction A as [|a A IH]; simpl; [by destruct (last_at i B)|].
  rewrite IH. by destruct (last_at i B).
Qed.
Lemma next_last_none i A : next i A = None ↔ last_at i A = None.
Proof.
  induction A as [|a A IH]; simpl; [done|].
  destruct (last_at i A), (at_level i a); naive_solver.
Qed.
(** The last node of a level splits the list. *)
Lemma last_at_split i A x :
  last_at i A = Some x →
  ∃ A1 a A2, A = A1 ++ a :: A2 ∧ en_loc a = x ∧ at_level i a = true ∧ next i A2 = None.
Proof.
  induction A as [|a A IH]; simpl; [done|].
  destruct (last_at i A) as [y|] eqn:Hl.
  - intros [= ->]. destruct (IH eq_refl) as (A1 & b & A2 & -> & ?). by exists (a :: A1), b, A2.
  - destruct (at_level i a) eqn:Ha; [|done]. intros [= <-]. exists [], a, A.
    split_and!; [done..|]. by apply next_last_none.
Qed.
Lemma next_split i B x :
  next i B = Some x →
  ∃ B1 b B2, B = B1 ++ b :: B2 ∧ en_loc b = x ∧ at_level i b = true ∧ next i B1 = None.
Proof.
  induction B as [|b B IH]; simpl; [done|].
  destruct (at_level i b) eqn:Hb.
  - intros [= <-]. by exists [], b, B.
  - intros Hx. destruct (IH Hx) as (B1 & c & B2 & -> & ?). exists (b :: B1), c, B2.
    simpl. rewrite Hb. naive_solver.
Qed.

Lemma forwards_lookup en B i : i < en_hi en → forwards en B !! i = Some (next i B).
Proof.
  intros Hi. unfold forwards. rewrite lookup_app_l by (by rewrite length_map, length_seq).
  by rewrite list_lookup_fmap, lookup_seq_lt.
Qed.
Lemma length_forwards en B : en_hi en ≤ en_cap en → length (forwards en B) = en_cap en.
Proof.
  intros. unfold forwards. rewrite length_app, length_map, length_seq, length_replicate. lia.
Qed.
Lemma forwards_ext en B B' :
  (∀ i, i < en_hi en → next i B = next i B') → forwards en B = forwards en B'.
Proof.
  intros Heq. unfold forwards. f_equal. apply map_ext_in. intros i Hi%in_seq. apply Heq. lia.
Qed.

(** Replacing the tail of the list changes one pointer: that of the last node of
    the level on which the two tails differ. *)
Lemma forwards_one en B B' j :
  j < en_hi en → (∀ i, i ≠ j → next i B = next i B') →
  forwards en B' = <[j := next j B']> (forwards en B).
Proof.
  intros Hj Heq. apply list_eq. intros i. destruct (decide (i = j)) as [->|Hne].
  - rewrite list_lookup_insert_eq; [by rewrite forwards_lookup|].
    unfold forwards. rewrite length_app, length_map, length_seq. lia.
  - rewrite list_lookup_insert_ne by done. unfold forwards.
    destruct (decide (i < en_hi en)) as [Hi|Hi].
    + pose proof (forwards_lookup en B' i Hi) as H1. pose proof (forwards_lookup en B i Hi) as H2.
      unfold forwards in H1, H2. rewrite H1, H2. f_equal. symmetry. auto.
    + rewrite !lookup_app_r by (rewrite length_map, length_seq; lia).
      by rewrite !length_map.
Qed.

(** A node that is linked on all its levels. *)
Definition linked a : Prop := en_lo a = 0 ∧ en_hi a = en_cap a.

Lemma linked_at a i : linked a → at_level i a = bool_decide (i < en_cap a).
Proof. intros [Hlo Hhi]. unfold at_level. rewrite Hlo, Hhi. apply bool_decide_ext. lia. Qed.

Lemma cells_same A B B' :
  Forall linked A → (∀ i, last_at i A ≠ None → next i B = next i B') → cells A B = cells A B'.
Proof.
  induction A as [|a A IH]; intros Hl Heq; simpl; [done|].
  apply Forall_cons in Hl as [Ha Hl]. f_equal.
  - unfold ecell. f_equal. f_equal. apply forwards_ext. intros i Hi. rewrite !next_app, Heq; [done|].
    simpl. rewrite linked_at by done. destruct Ha as [_ Ha].
    rewrite bool_decide_true by lia. by destruct (last_at i A).
  - apply IH; [done|]. intros i Hi. apply Heq. simpl. by destruct (last_at i A).
Qed.

Lemma cells_relink A B B' j x :
  Forall linked A → last_at j A = Some x → (∀ i, i ≠ j → next i B = next i B') →
  ∃ n rest, cells A B ≡ₚ (x, n) :: rest ∧ sn_forward n !! j = Some (next j B) ∧
    cells A B' ≡ₚ (x, sn_set_forward (<[j := next j B']> (sn_forward n)) n) :: rest.
Proof.
  intros Hl Hx Heq. destruct (last_at_split _ _ _ Hx) as (A1 & a & A2 & -> & Hloc & Hat & Hnone).
  apply Forall_app in Hl as [Hl1 [Ha Hl2]%Forall_cons]. rewrite !cells_app. simpl.
  assert (cells A2 B = cells A2 B') as ->.
  { apply cells_same; [done|]. intros i Hi. apply Heq. intros ->. by apply Hi, next_last_none. }
  assert (cells A1 (a :: A2 ++ B) = cells A1 (a :: A2 ++ B')) as ->.
  { apply cells_same; [done|]. intros i _. simpl. rewrite !next_app.
    destruct (at_level i a) eqn:Hia; [done|]. destruct (next i A2); [done|]. apply Heq. congruence. }
  unfold ecell. rewrite Hloc. assert (Hj : j < en_hi a).
  { unfold at_level in Hat. apply bool_decide_eq_true in Hat. lia. }
  assert (Hnext : ∀ C, next j (A2 ++ C) = next j C) by (intros; by rewrite next_app, Hnone).
  exists (SNode (PStr (en_key a)) (PStr (en_val a)) (forwards a (A2 ++ B))),
    (cells A1 (a :: A2 ++ B') ++ cells A2 B').
  split_and!; [perm_solve|simpl; by rewrite forwards_lookup, Hnext|].
  simpl. unfold sn_set_forward. simpl. rewrite <-(Hnext B').
  rewrite <-(forwards_one a (A2 ++ B) (A2 ++ B') j Hj).
  - perm_solve.
  - intros i Hi. rewrite !next_app. destruct (next i A2); auto.
Qed.

(** * Access to the cells *)

Section access.
Implicit Types (s : skiplist) (l r : list (loc * snode)).

Lemma wp_sload x n l r e s Q :
  heap_is (sk_heap s) l → Front [(x, n)] l r → Q n e s → wp (sload (Some x)) e s Q.
Proof. intros Hh Hf HQ. simpl. wp_steps. by rewrite (heap_is_lookup _ _ _ _ _ Hh Hf). Qed.
Lemma wp_sstore x f n l r e s Q :
  heap_is (sk_heap s) l → Front [(x, n)] l r →
  (∀ s', sk_level s' = sk_level s → sk_header s' = sk_header s →
    heap_is (sk_heap s') ((x, f n) :: r) → Q tt e s') →
  wp (sstore (Some x) f) e s Q.
Proof.
  intros Hh Hf HQ. simpl. wp_steps. rewrite (heap_is_lookup _ _ _ _ _ Hh Hf). wp_steps.
  apply HQ; [done..|]. by eapply heap_is_store.
Qed.
Lemma wp_get_forward x n i f l r e s Q :
  heap_is (sk_heap s) l → Front [(x, n)] l r → sn_forward n !! i = Some f → Q f e s →
  wp (get_forward (Some x) (Z.of_nat i)) e s Q.
Proof.
  intros. unfold get_forward. wp_step. eapply wp_sload; [done..|].
  rewrite decide_True by lia. rewrite Nat2Z.id. by wp_step.
Qed.
Lemma wp_put_forward x n i q l r e s Q :
  heap_is (sk_heap s) l → Front [(x, n)] l r → i < length (sn_forward n) →
  (∀ s', sk_level s' = sk_level s → sk_header s' = sk_header s →
    heap_is (sk_heap s') ((x, sn_set_forward (<[i := q]> (sn_forward n)) n) :: r) → Q tt e s') →
  wp (put_forward (Some x) (Z.of_nat i) q) e s Q.
Proof.
  intros. unfold put_forward. wp_step. eapply wp_sload; [done..|].
  rewrite decide_True by lia. eapply wp_sstore; [done..|]. by rewrite Nat2Z.id.
Qed.
End access.

Arguments sload : simpl never.
Arguments sstore : simpl never.
Arguments get_forward : simpl never.
Arguments put_forward : simpl never.

(** A cell among those of a list. *)
Lemma cells_at A1 a A2 B :
  cells (A1 ++ a :: A2) B ≡ₚ ecell a (A2 ++ B) :: cells A1 (a :: A2 ++ B) ++ cells A2 B.
Proof. rewrite cells_app. simpl. perm_solve. Qed.

(** * Searching *)

Definition kv a : string * string := (en_key a, en_val a).
Definition not_below B k : Prop := ∀ b, b ∈ B → ¬ str_lt (en_key b) k.

Section search.
Implicit Types (s : skiplist) (ex : list (loc * snode)).

(** Reading a forward pointer of a node of the list. *)
Lemma wp_list_forward A1 c A2 i ex e s Q :
  heap_is (sk_heap s) (ex ++ cells (A1 ++ c :: A2) []) → i < en_hi c →
  Q (next i A2) e s → wp (get_forward (Some (en_loc c)) (Z.of_nat i)) e s Q.
Proof.
  intros Hh Hi HQ. eapply heap_is_perm in Hh; [|rewrite cells_at; reflexivity].
  unfold ecell in Hh. eapply wp_get_forward; [exact Hh|typeclasses eauto| |exact HQ].
  simpl. by rewrite app_nil_r, forwards_lookup.
Qed.
Lemma wp_list_load A1 c A2 ex e s Q :
  heap_is (sk_heap s) (ex ++ cells (A1 ++ c :: A2) []) →
  Q (ecell c A2).2 e s → wp (sload (Some (en_loc c))) e s Q.
Proof.
  intros Hh HQ. eapply heap_is_perm in Hh; [|rewrite cells_at; reflexivity].
  unfold ecell in *. rewrite app_nil_r in Hh. by eapply wp_sload; [exact Hh|typeclasses eauto|].
Qed.

Lemma at_level_hi i a : at_level i a = true → i < en_hi a.
Proof. unfold at_level. intros ?%bool_decide_eq_true. lia. Qed.

(** The inner loop ends at the last node of the level whose key is smaller. *)
Lemma wp_advance fuel k i A1 c A2 B ex e s Q :
  heap_is (sk_heap s) (ex ++ cells (A1 ++ c :: A2 ++ B) []) →
  at_level i c = true → keys_below (kv <$> A2) k → not_below B k → length A2 < fuel →
  Q (last_at i (c :: A2)) e s →
  wp (advance fuel (PStr k) (Z.of_nat i) (Some (en_loc c))) e s Q.
Proof.
  revert A1 c A2. induction fuel as [|fuel IH]; intros A1 c A2 Hh Hc Hb Hnb Hf HQ; [lia|].
  simpl. wp_step. eapply wp_list_forward; [exact Hh|by apply at_level_hi|].
  rewrite next_app. destruct (next i A2) as [y|] eqn:Hy.
  - destruct (next_split _ _ _ Hy) as (B1 & b & B2 & -> & <- & Hat & Hnone). simpl.
    assert (Hh' : heap_is (sk_heap s) (ex ++ cells ((A1 ++ c :: B1) ++ b :: B2 ++ B) [])).
    { revert Hh. by rewrite <-!(assoc_L (++)), <-!app_comm_cons. }
    wp_step. eapply wp_list_load; [exact Hh'|]. wp_steps.
    rewrite fmap_app in Hb. assert (str_lt (en_key b) k) as Hlt.
    { apply (Hb (kv b)), elem_of_app. right. by left. }
    apply strcmp_lt, Z.ltb_lt in Hlt. rewrite Hlt.
    eapply IH; [exact Hh'|done| |done| |].
    + intros p Hp. apply Hb, elem_of_app. right. by right.
    + rewrite length_app in Hf. simpl in Hf. lia.
    + revert HQ. rewrite app_comm_cons, last_at_app. simpl. rewrite Hat. by destruct (last_at i B2).
  - assert (Hstop : Q (Some (en_loc c)) e s).
    { revert HQ. simpl. apply next_last_none in Hy. by rewrite Hy, Hc. }
    destruct (next i B) as [y|] eqn:HyB; simpl; [|by wp_steps].
    destruct (next_split _ _ _ HyB) as (B1 & b & B2 & -> & <- & Hat & Hnone).
    assert (Hh' : heap_is (sk_heap s) (ex ++ cells ((A1 ++ c :: A2 ++ B1) ++ b :: B2) [])).
    { revert Hh. by rewrite <-!(assoc_L (++)), <-!app_comm_cons, <-!(assoc_L (++)). }
    wp_step. eapply wp_list_load; [exact Hh'|]. wp_steps.
    assert ((strcmp (en_key b) k <? 0)%Z = false) as ->; [|by wp_steps].
    apply Z.ltb_ge. destruct (decide (strcmp (en_key b) k < 0)%Z) as [Hlt|]; [|lia].
    apply strcmp_lt in Hlt. exfalso. eapply Hnb; [|exact Hlt]. apply elem_of_app. right. by left.
Qed.
Arguments advance : simpl never.

Lemma linked_level i a : linked a → i < en_cap a → at_level i a = true.
Proof. intros Ha Hi. rewrite linked_at by done. by apply bool_decide_eq_true. Qed.

(** Below a node of level [i], the last nodes of the lower levels follow it. *)
Lemma last_at_from P c A2 i :
  at_level i c = true → last_at i (P ++ c :: A2) = last_at i (c :: A2).
Proof. intros Hc. rewrite last_at_app. simpl. rewrite Hc. by destruct (last_at i A2). Qed.

Lemma length_cells A B : length (cells A B) = length A.
Proof. induction A as [|a A IH]; simpl; [done|]. by rewrite IH. Qed.

Definition path_to A2 (c : entry) (n : nat) (u u' : update_array) : Prop :=
  length u' = length u ∧ (∀ i, i < n → u' !! i = Some (Some (last_at i (c :: A2)))) ∧
  ∀ i, n ≤ i → u' !! i = u !! i.

(** The state of a search: the node reached, [A] before it and [A2] up to the key. *)
Record searching s ex A1 c A2 B k n : Prop := {
  se_heap : heap_is (sk_heap s) (ex ++ cells (A1 ++ c :: A2 ++ B) []);
  se_linked : Forall linked (c :: A2);
  se_cap : n ≤ en_cap c;
  se_below : keys_below (kv <$> A2) k;
  se_above : not_below B k
}.

(** One level of a search. *)
Lemma wp_advance_level n k A1 c A2 B ex e s Q :
  searching s ex A1 c A2 B k (S n) →
  (∀ P c' A2', c :: A2 = P ++ c' :: A2' → at_level n c' = true →
    last_at n (c :: A2) = Some (en_loc c') → searching s ex (A1 ++ P) c' A2' B k n →
    Q (Some (en_loc c')) e s) →
  wp (fuel ← skip_fuel; advance fuel (PStr k) (Z.of_nat n) (Some (en_loc c))) e s Q.
Proof.
  intros [Hh Hl Hc Hb Hnb] HQ. unfold skip_fuel. repeat wp_step.
  pose proof Hl as [Hlc Hl2]%Forall_cons.
  assert (Hat : at_level n c = true) by (apply linked_level; [done|lia]).
  eapply wp_advance; [exact Hh|exact Hat|done|done| |].
  { rewrite (heap_is_size _ _ Hh), length_app, length_cells, length_app. simpl.
    rewrite length_app. lia. }
  assert (∃ x, last_at n (c :: A2) = Some x) as [x Hx].
  { simpl. rewrite Hat. destruct (last_at n A2); eauto. }
  rewrite Hx. destruct (last_at_split _ _ _ Hx) as (P & c' & A2' & Heq & <- & Hat' & _).
  eapply HQ; [exact Heq|done|done|].
  assert (Hsub : c' ∈ c :: A2 ∧ ∀ a, a ∈ A2' → a ∈ A2).
  { rewrite Heq. split; [apply elem_of_app; right; by left|]. intros a Ha.
    destruct P as [|p P]; simplify_eq/=; [done|]. apply elem_of_app. right. by right. }
  rewrite Forall_forall in Hl. split.
  - revert Hh. rewrite app_comm_cons, Heq. by rewrite <-!(assoc_L (++)).
  - rewrite Forall_forall. rewrite Heq in Hl. intros a Ha. apply Hl, elem_of_app. by right.
  - destruct (Hl c') as [_ <-]; [apply Hsub|]. apply at_level_hi in Hat'. lia.
  - intros p Hp. apply list_elem_of_fmap in Hp as (a & -> & Ha). apply Hb, list_elem_of_fmap_2.
    by apply Hsub.
  - done.
Qed.

Lemma wp_descend n k A1 c A2 B ex e s Q :
  searching s ex A1 c A2 B k (S n) → Q (last_at 0 (c :: A2)) e s →
  wp (descend (S n) (PStr k) (Some (en_loc c))) e s Q.
Proof.
  revert A1 c A2. induction n as [|n IH]; intros A1 c A2 Hs HQ;
    simpl; apply wp_bind_assoc; wp_step; (eapply wp_advance_level; [exact Hs|]);
    intros P c' A2' Heq Hat Hlast Hs'.
  - wp_steps. by rewrite <-Hlast.
  - eapply IH; [exact Hs'|]. rewrite <-(last_at_from P c' A2'), <-Heq; [done|].
    pose proof (se_linked _ _ _ _ _ _ _ _ Hs') as [Hlc _]%Forall_cons. apply linked_level; [done|].
    pose proof (se_cap _ _ _ _ _ _ _ _ Hs'). lia.
Qed.

Lemma descend_path_S n k c u :
  descend_path (S n) k c u =
  (fuel ← skip_fuel;
   current ← advance fuel k (Z.of_nat n) c;
   update ← set_update u (Z.of_nat n) current;
   descend_path n k current update).
Proof. reflexivity. Qed.

Lemma wp_descend_path n k A1 c A2 B ex u e s Q :
  searching s ex A1 c A2 B k (S n) → S n ≤ length u →
  (∀ u', path_to A2 c (S n) u u' → Q (last_at 0 (c :: A2), u') e s) →
  wp (descend_path (S n) (PStr k) (Some (en_loc c)) u) e s Q.
Proof.
  revert A1 c A2 u. induction n as [|n IH]; intros A1 c A2 u Hs Hlen HQ;
    rewrite descend_path_S; apply wp_bind_assoc; wp_step; (eapply wp_advance_level; [exact Hs|]);
    intros P c' A2' Heq Hat Hlast Hs'; wp_step; unfold set_update at 1;
    (rewrite decide_True by lia); wp_step; rewrite ?Nat2Z.id.
  - simpl. wp_step. rewrite <-Hlast. apply HQ. split_and!; [by rewrite length_insert| |].
    + intros i Hi. replace i with 0 by lia. by rewrite list_lookup_insert_eq, Hlast by lia.
    + intros i Hi. rewrite list_lookup_insert_ne; [done|lia].
  - eapply IH; [exact Hs'|rewrite length_insert; lia|]. intros u' (Hl & Hlo & Hhi).
    pose proof (se_linked _ _ _ _ _ _ _ _ Hs') as [Hlc _]%Forall_cons.
    pose proof (se_cap _ _ _ _ _ _ _ _ Hs') as Hcap.
    assert (Hfrom : ∀ i, i ≤ n → last_at i (c' :: A2') = last_at i (c :: A2)).
    { intros i Hi. rewrite Heq. symmetry. apply last_at_from, linked_level; [done|lia]. }
    rewrite Hfrom by lia. apply HQ. split_and!.
    + by rewrite Hl, length_insert.
    + intros i Hi. destruct (decide (i = S n)) as [->|Hne].
      * rewrite Hhi by lia. by rewrite list_lookup_insert_eq, Hlast by lia.
      * rewrite Hlo by lia. by rewrite Hfrom by lia.
    + intros i Hi. rewrite Hhi by lia. rewrite list_lookup_insert_ne; [done|lia].
Qed.

End search.

(** * The invariant *)

Definition hd_entry (x : loc) : entry := Ent x "" "" 0 7 7.

Record skip_wf (s : skiplist) (hd : loc) (L : list entry) : Prop := {
  sw_header : sk_header s = Some hd;
  sw_level : (0 ≤ sk_level s ≤ MAX_LEVEL)%Z;
  sw_nodes : Forall (λ a, linked a ∧ 0 < en_cap a ≤ S (Z.to_nat (sk_level s))) L;
  sw_heap : heap_is (sk_heap s) (cells (hd_entry hd :: L) []);
  sw_sorted : sorted_pairs (kv <$> L)
}.
Definition skip_rep (s : skiplist) (m : gmap string string) : Prop :=
  ∃ hd L, skip_wf s hd L ∧ m = list_to_map (kv <$> L).

(** Where a key is, or would be. *)
Lemma split_at_key k L :
  sorted_pairs (kv <$> L) →
  ∃ A B, L = A ++ B ∧ keys_below (kv <$> A) k ∧
    (keys_above k (kv <$> B) ∨ ∃ b B', B = b :: B' ∧ en_key b = k).
Proof.
  induction L as [|a L IH]; simpl; intros Hso.
  - exists [], []. split_and!; [done|by intros p Hp%elem_of_nil|]. left. by intros p Hp%elem_of_nil.
  - apply sorted_pairs_cons in Hso as [Ha Hso].
    destruct (str_lt_total (en_key a) k) as [Hlt|[Heq|Hgt]].
    + destruct (IH Hso) as (A & B & -> & Hb & Hab). exists (a :: A), B. split_and!; [done| |done].
      intros p [->|Hp]%elem_of_cons; [done|by apply Hb].
    + exists [], (a :: L). split_and!; [done|by intros p Hp%elem_of_nil|]. right. eauto.
    + exists [], (a :: L). split_and!; [done|by intros p Hp%elem_of_nil|]. left.
      intros p [->|Hp]%elem_of_cons; [done|]. eapply str_lt_trans; [exact Hgt|]. by apply Ha.
Qed.
Lemma split_not_below k A B :
  sorted_pairs (kv <$> (A ++ B)) →
  (keys_above k (kv <$> B) ∨ ∃ b B', B = b :: B' ∧ en_key b = k) → not_below B k.
Proof.
  intros Hso [Ha|(b & B' & -> & <-)] c Hc Hlt.
  - destruct (str_lt_irrefl k). eapply str_lt_trans; [|exact Hlt].
    apply (Ha (kv c)). by apply list_elem_of_fmap_2.
  - rewrite fmap_app in Hso. apply sorted_pairs_app in Hso as (_ & Hso & _).
    simpl in Hso. apply sorted_pairs_cons in Hso as [Ha _].
    apply elem_of_cons in Hc as [->|Hc]; [by destruct (str_lt_irrefl (en_key b))|].
    destruct (str_lt_irrefl (en_key b)). eapply str_lt_trans; [|exact Hlt].
    apply (Ha (kv c)). by apply list_elem_of_fmap_2.
Qed.

Section find.
Implicit Types (s : skiplist).

Lemma sw_linked s hd L : skip_wf s hd L → Forall linked (hd_entry hd :: L).
Proof.
  intros Hw. constructor; [done|]. eapply Forall_impl; [apply Hw|]. naive_solver.
Qed.

Lemma sw_searching s hd A B k :
  skip_wf s hd (A ++ B) → keys_below (kv <$> A) k → not_below B k →
  searching s [] [] (hd_entry hd) A B k (S (Z.to_nat (sk_level s))).
Proof.
  intros Hw Hb Hnb. pose proof (sw_level _ _ _ Hw). split; [apply Hw| |simpl; unfold MAX_LEVEL in *; lia|done..].
  apply sw_linked in Hw. rewrite app_comm_cons in Hw. by apply Forall_app in Hw as [? _].
Qed.

(** The node after the path is the first one whose key is not smaller. *)
Lemma wp_key_test {R} hd A B k (K : nptr → bool → M skiplist R) e s Q :
  skip_wf s hd (A ++ B) →
  (keys_above k (kv <$> B) ∨ ∃ b B', B = b :: B' ∧ en_key b = k) →
  (keys_above k (kv <$> B) → ∀ p, wp (K p false) e s Q) →
  (∀ b B', B = b :: B' → en_key b = k → wp (K (Some (en_loc b)) true) e s Q) →
  wp (current ← get_forward (last_at 0 (hd_entry hd :: A)) 0;
      same ← key_at current (PStr k);
      K current same) e s Q.
Proof.
  intros Hw Hab Hno Hyes. pose proof (sw_heap _ _ _ Hw) as Hh. pose proof (sw_linked _ _ _ Hw) as Hl.
  assert (∃ x, last_at 0 (hd_entry hd :: A) = Some x) as [x Hx].
  { simpl. destruct (last_at 0 A); eauto. }
  rewrite Hx. destruct (last_at_split _ _ _ Hx) as (A1 & a & A2 & Heq & <- & Hat & Hnone).
  rewrite app_comm_cons, Heq, <-(assoc_L (++)), <-app_comm_cons in Hh. wp_step.
  eapply (wp_list_forward A1 a (A2 ++ B) 0 []); [exact Hh|by apply at_level_hi|].
  rewrite next_app, Hnone. wp_step. unfold key_at.
  destruct B as [|b B']; simpl; [wp_step; apply Hno; by intros p Hp%elem_of_nil|].
  assert (at_level 0 b = true) as ->.
  { pose proof (sw_nodes _ _ _ Hw) as Hn. rewrite Forall_forall in Hn.
    destruct (Hn b) as [? ?]; [apply elem_of_app; right; by left|]. apply linked_level; [done|lia]. }
  simpl. wp_step. eapply (wp_list_load (A1 ++ a :: A2) b B' []).
  { by rewrite <-(assoc_L (++)), <-app_comm_cons. }
  wp_steps. destruct Hab as [Ha|(? & ? & [= <- <-] & <-)].
  - assert (Hlt : str_lt k (en_key b)) by (apply (Ha (kv b)); by left).
    assert ((strcmp (en_key b) k =? 0)%Z = false) as ->; [|by apply Hno].
    apply Z.eqb_neq. apply strcmp_gt in Hlt. lia.
  - rewrite strcmp_refl. simpl. by eapply Hyes.
Qed.

Lemma wp_find {R} hd L k (K : nptr → bool → M skiplist R) e s Q :
  skip_wf s hd L →
  (∀ A B, L = A ++ B → keys_below (kv <$> A) k → keys_above k (kv <$> B) →
    ∀ p, wp (K p false) e s Q) →
  (∀ A b B, L = A ++ b :: B → en_key b = k → keys_below (kv <$> A) k →
    wp (K (Some (en_loc b)) true) e s Q) →
  wp (header ← gets sk_header;
      lv ← gets sk_level;
      current ← descend (Z.to_nat (lv + 1)) (PStr k) header;
      current ← get_forward current 0;
      same ← key_at current (PStr k);
      K current same) e s Q.
Proof.
  intros Hw Hno Hyes. destruct (split_at_key k L (sw_sorted _ _ _ Hw)) as (A & B & -> & Hb & Hab).
  pose proof (split_not_below _ _ _ (sw_sorted _ _ _ Hw) Hab) as Hnb. pose proof (sw_level _ _ _ Hw).
  repeat wp_step. rewrite (sw_header _ _ _ Hw).
  replace (Z.to_nat (sk_level s + 1)) with (S (Z.to_nat (sk_level s))) by lia.
  eapply (wp_descend _ _ [] (hd_entry hd) A B []); [by apply sw_searching|].
  eapply wp_key_test; [exact Hw|exact Hab|naive_solver|]. naive_solver.
Qed.

Lemma wp_find_path {R} hd L k (K : update_array → nptr → bool → M skiplist R) e s Q :
  skip_wf s hd L →
  (∀ A B u, L = A ++ B → keys_below (kv <$> A) k → keys_above k (kv <$> B) →
    path_to A (hd_entry hd) (S (Z.to_nat (sk_level s))) fresh_update u →
    ∀ p, wp (K u p false) e s Q) →
  (∀ A b B u, L = A ++ b :: B → en_key b = k → keys_below (kv <$> A) k →
    path_to A (hd_entry hd) (S (Z.to_nat (sk_level s))) fresh_update u →
    wp (K u (Some (en_loc b)) true) e s Q) →
  wp ('(current, update) ← descend_path (Z.to_nat (sk_level s + 1)) (PStr k) (Some hd) fresh_update;
      current ← get_forward current 0;
      same ← key_at current (PStr k);
      K update current same) e s Q.
Proof.
  intros Hw Hno Hyes. destruct (split_at_key k L (sw_sorted _ _ _ Hw)) as (A & B & -> & Hb & Hab).
  pose proof (split_not_below _ _ _ (sw_sorted _ _ _ Hw) Hab) as Hnb.
  pose proof (sw_level _ _ _ Hw) as Hlv. unfold MAX_LEVEL in Hlv. wp_step.
  replace (Z.to_nat (sk_level s + 1)) with (S (Z.to_nat (sk_level s))) by lia.
  eapply (wp_descend_path _ _ [] (hd_entry hd) A B []); [by apply sw_searching| |].
  { unfold fresh_update. rewrite length_replicate. unfold MAX_LEVEL. lia. }
  intros u Hu. eapply wp_key_test; [exact Hw|exact Hab|naive_solver|]. naive_solver.
Qed.
End find.
Arguments descend : simpl never.
Arguments descend_path : simpl never.
Arguments key_at : simpl never.

(** * The operations *)

Section ops.
Implicit Types (s : skiplist) (m : gmap string string) (k v : string).

Lemma kv_app A b B : kv <$> (A ++ b :: B) = (kv <$> A) ++ (en_key b, en_val b) :: (kv <$> B).
Proof. by rewrite fmap_app. Qed.

Lemma wp_skip_get e s m k :
  skip_rep s m →
  wp (kvs_skip_get IGlobal (PStr k)) e s (λ r e' s', r = ptr_of (m !! k) ∧ e' = e ∧ s' = s).
Proof.
  intros (hd & L & Hw & ->). unfold kvs_skip_get. simpl.
  eapply (wp_find _ _ _ (λ p same, if same : bool then n ← sload p; mret (sn_value n) else mret PNull));
    [exact Hw|..].
  - intros A B -> Hb Ha p. wp_steps. by rewrite fmap_app, alist_none.
  - intros A b B -> <- Hb. wp_step.
    pose proof (sw_heap _ _ _ Hw) as Hh. rewrite app_comm_cons in Hh.
    eapply (wp_list_load _ _ _ []); [exact Hh|]. wp_steps.
    pose proof (sw_sorted _ _ _ Hw) as Hso. rewrite kv_app in Hso |- *. by rewrite alist_lookup.
Qed.

Lemma wp_skip_exist e s m k :
  skip_rep s m →
  wp (kvs_skip_exist IGlobal (PStr k)) e s (λ r e' s', exist_post m k r ∧ e' = e ∧ s' = s).
Proof.
  intros Hr. unfold kvs_skip_exist, exist_post. simpl. wp_step.
  eapply wp_mono; [by apply wp_skip_get|]. intros r e' s' (-> & -> & ->).
  by destruct (m !! k); simpl; wp_steps.
Qed.

Lemma cells_ext A B B' : (∀ i, next i B = next i B') → cells A B = cells A B'.
Proof.
  intros Heq. induction A as [|a A IH]; simpl; [done|]. rewrite IH. f_equal.
  unfold ecell. do 2 f_equal. apply forwards_ext. intros i _. by rewrite !next_app, Heq.
Qed.

Definition set_val (v : string) (b : entry) : entry :=
  Ent (en_loc b) (en_key b) v (en_lo b) (en_hi b) (en_cap b).

Lemma cells_set_val A b B v :
  cells (A ++ set_val v b :: B) [] ≡ₚ
  (en_loc b, sn_set_value (PStr v) (ecell b B).2) :: cells A (b :: B) ++ cells B [].
Proof.
  rewrite cells_at, !app_nil_r. unfold ecell. simpl. by rewrite (cells_ext A (set_val v b :: B) (b :: B)).
Qed.

Lemma wp_skip_mod e s m k v :
  skip_rep s m → malloc_fails e = false →
  wp (kvs_skip_mod IGlobal (PStr k) (PStr v)) e s (λ r e' s',
    (no_oom e → no_oom e') ∧ ∃ m', mod_post m k v r m' ∧ pair_blocks 4 e m e' m' ∧ skip_rep s' m').
Proof.
  intros (hd & L & Hw & ->) Hf. unfold kvs_skip_mod. simpl.
  eapply (wp_find _ _ _ (λ p same, if same : bool then
    n ← sload p; kvs_free (sn_value n);;
    (match sn_value n with PStr _ => sstore p (sn_set_value PFreed) | _ => mret tt end);;
    v ← malloc_copy (PStr v);
    if is_null v then mret (-2)%Z else sstore p (sn_set_value v);; mret 0%Z else mret 1%Z));
    [exact Hw|..].
  - intros A B -> Hb Ha p. wp_steps. split; [done|]. exists (list_to_map (kv <$> A ++ B)).
    split_and!; [right; by rewrite fmap_app, alist_none|unfold pair_blocks; lia|by eexists _, _].
  - intros A b B -> <- Hb. wp_step.
    pose proof (sw_heap _ _ _ Hw) as Hh. rewrite app_comm_cons in Hh.
    eapply (wp_list_load _ _ _ []); [exact Hh|]. wp_steps.
    eapply heap_is_perm in Hh; [|rewrite cells_at, !app_nil_r; reflexivity]. unfold ecell in Hh.
    eapply wp_sstore; [exact Hh|typeclasses eauto|]. intros s1 Hlv1 Hhd1 Hh1.
    assert (Hf' : malloc_fails (add_live (-1) e) = false) by done.
    do 2 wp_step. rewrite Hf'. simpl. wp_step. eapply wp_sstore; [exact Hh1|typeclasses eauto|]. intros s2 Hlv2 Hhd2 Hh2. wp_steps.
    pose proof (sw_sorted _ _ _ Hw) as Hso. rewrite kv_app in Hso |- *.
    split; [by auto with kvs|]. eexists. split_and!.
    + left. split_and!; [done|rewrite alist_lookup; eauto|reflexivity].
    + unfold pair_blocks. rewrite map_size_insert_Some by (rewrite alist_lookup; eauto).
      rewrite live_after_malloc, Hf'. simpl. lia.
    + exists hd, (A ++ set_val v b :: B). split.
      * split.
        -- rewrite Hhd2, Hhd1. apply Hw.
        -- rewrite Hlv2, Hlv1. apply Hw.
        -- rewrite Hlv2, Hlv1. pose proof (sw_nodes _ _ _ Hw) as Hn.
           apply Forall_app in Hn as [Hn1 [Hn Hn2]%Forall_cons].
           apply Forall_app. split; [done|]. constructor; done.
        -- rewrite app_comm_cons. eapply heap_is_perm; [exact Hh2|]. rewrite cells_set_val. reflexivity.
        -- rewrite kv_app. simpl. by eapply sorted_pairs_value.
      * rewrite kv_app. simpl. symmetry. by apply alist_update.
Qed.

(** ** Insertion *)

Lemma wp_salloc l e s Q :
  heap_is (sk_heap s) l →
  (malloc_fails e = true → Q None (after_malloc e) s) →
  (malloc_fails e = false → ∀ x s', sk_level s' = sk_level s → sk_header s' = sk_header s →
    heap_is (sk_heap s') ((x, SNode PFreed PFreed []) :: l) → Q (Some x) (after_malloc e) s') →
  wp salloc e s Q.
Proof.
  intros Hh Hoom Hok. unfold salloc. repeat wp_step.
  destruct (malloc_fails e); simpl; repeat wp_step; [by apply Hoom|]. apply Hok; [done..|].
  apply heap_is_alloc; [exact Hh|apply is_fresh].
Qed.
Lemma wp_sfree x n l r e s Q :
  heap_is (sk_heap s) l → Front [(x, n)] l r →
  (∀ s', sk_level s' = sk_level s → sk_header s' = sk_header s →
    heap_is (sk_heap s') r → Q tt (add_live (-1) e) s') →
  wp (sfree (Some x)) e s Q.
Proof.
  intros Hh Hf HQ. simpl. wp_step. eapply wp_sload; [done..|]. repeat wp_step.
  apply HQ; [done..|]. by eapply heap_is_free.
Qed.
Arguments salloc : simpl never.
Arguments sfree : simpl never.

(** [createNode] allocates four blocks, or none. *)
Lemma wp_createNode lv k v l e s Q :
  heap_is (sk_heap s) l →
  (∀ e' s', ¬ no_oom e → live e' = live e → sk_level s' = sk_level s →
    sk_header s' = sk_header s → heap_is (sk_heap s') l → Q None e' s') →
  (∀ x e' s', (no_oom e → no_oom e') → live e' = (live e + 4)%Z → sk_level s' = sk_level s →
    sk_header s' = sk_header s →
    heap_is (sk_heap s') ((x, SNode (PStr k) (PStr v) (replicate (S lv) None)) :: l) →
    Q (Some x) e' s') →
  wp (createNode (Z.of_nat lv) (PStr k) (PStr v)) e s Q.
Proof.
  intros Hh Hfail Hok. unfold createNode. simpl.
  assert ((Z.of_nat lv <? 0)%Z = false) as -> by (apply Z.ltb_ge; lia). wp_step.
  assert (Hoom : ∀ e', malloc_fails e' = true → ¬ no_oom e') by (intros e' ? ?%no_oom_fails; congruence).
  pose proof (live_after_malloc e) as Hl1. pose proof (no_oom_after e) as Ho1.
  eapply wp_salloc; [exact Hh|..].
  { intros Hf. rewrite Hf in Hl1. simpl. wp_steps. apply Hfail; [auto|lia|done..]. }
  intros Hf1 x s1 Hlv1 Hhd1 Hh1. rewrite Hf1 in Hl1. set (e1 := after_malloc e) in *.
  pose proof (live_after_malloc e1) as Hl2. pose proof (no_oom_after e1) as Ho2.
  set (e2 := after_malloc e1) in *.
  pose proof (live_after_malloc e2) as Hl3. pose proof (no_oom_after e2) as Ho3.
  set (e3 := after_malloc e2) in *.
  pose proof (live_after_malloc e3) as Hl4. pose proof (no_oom_after e3) as Ho4.
  simpl. wp_step. wp_step. wp_step. fold e2.
  destruct (malloc_fails e1) eqn:Hf2; (eapply wp_sstore; [exact Hh1|typeclasses eauto|]);
    intros s2 Hlv2 Hhd2 Hh2; simpl in *.
  { wp_step. eapply wp_sfree; [exact Hh2|typeclasses eauto|]. intros s3 Hlv3 Hhd3 Hh3. wp_steps.
    apply Hfail; [|simpl; lia|congruence|congruence|done]. intros ?%Ho1. by eapply Hoom. }
  wp_step. wp_step. wp_step. fold e3.
  destruct (malloc_fails e2) eqn:Hf3; (eapply wp_sstore; [exact Hh2|typeclasses eauto|]);
    intros s3 Hlv3 Hhd3 Hh3; simpl in *.
  { wp_step. eapply wp_sload; [exact Hh3|typeclasses eauto|]. wp_steps.
    eapply wp_sfree; [exact Hh3|typeclasses eauto|]. intros s4 Hlv4 Hhd4 Hh4. wp_steps.
    apply Hfail; [|simpl; lia|congruence|congruence|done]. intros ?%Ho1%Ho2. by eapply Hoom. }
  wp_step. wp_step. destruct (malloc_fails e3) eqn:Hf4; simpl.
  { wp_step. eapply wp_sload; [exact Hh3|typeclasses eauto|]. wp_steps.
    eapply wp_sload; [exact Hh3|typeclasses eauto|]. wp_steps.
    eapply wp_sfree; [exact Hh3|typeclasses eauto|]. intros s4 Hlv4 Hhd4 Hh4. wp_steps.
    apply Hfail; [|simpl; lia|congruence|congruence|done]. intros ?%Ho1%Ho2%Ho3. by eapply Hoom. }
  wp_step. eapply wp_sstore; [exact Hh3|typeclasses eauto|]. intros s4 Hlv4 Hhd4 Hh4. wp_step.
  replace (Z.to_nat (Z.of_nat lv + 1)) with (S lv) in Hh4 by lia.
  apply Hok; [auto|lia|congruence|congruence|exact Hh4].
Qed.
Arguments createNode : simpl never.

Lemma wp_randomLevel e s Q :
  (∀ lv e', lv ≤ 6 → mallocs e' = mallocs e → live e' = live e → Q (Z.of_nat lv) e' s) →
  wp randomLevel e s Q.
Proof.
  intros HQ. unfold randomLevel.
  assert (Hgen : ∀ fuel lv e', fuel + lv = 7 → 0 < fuel → mallocs e' = mallocs e → live e' = live e →
    wp (randomLevel_loop fuel (Z.of_nat lv)) e' s Q).
  { induction fuel as [|fuel IH]; intros lv e' Hsum Hpos Hm Hl; [lia|]. simpl. wp_step.
    assert (∃ r e2, rand (S := skiplist) e' s = Ret (r, e2, s) ∧ mallocs e2 = mallocs e ∧ live e2 = live e)
      as (r & e2 & Hr & Hm2 & Hl2).
    { unfold rand. destruct (rands e'); eauto 10. }
    unfold wp at 1. rewrite Hr. destruct (r <? RAND_MAX / 2)%Z; simpl; [|by wp_step; apply HQ; [lia|..]].
    unfold MAX_LEVEL. destruct (Z.ltb_spec (Z.of_nat lv) 6); [|by wp_step; apply HQ; [lia|..]].
    replace (Z.of_nat lv + 1)%Z with (Z.of_nat (S lv)) by lia. apply IH; [lia|lia|done|done]. }
  apply (Hgen 7 0 e); [done|lia|done|done].
Qed.
Arguments randomLevel : simpl never.

Lemma wp_raise_path n i hd u e s Q :
  sk_header s = Some hd → i + n ≤ length u →
  (∀ u', length u' = length u → (∀ j, i ≤ j < i + n → u' !! j = Some (Some (Some hd))) →
    (∀ j, ¬ i ≤ j < i + n → u' !! j = u !! j) → Q u' e s) →
  wp (raise_path n (Z.of_nat i) u) e s Q.
Proof.
  intros Hhd. revert i u. induction n as [|n IH]; intros i u Hlen HQ; simpl.
  - wp_step. apply HQ; [done|lia|done].
  - do 2 wp_step. unfold set_update. rewrite decide_True by lia. do 2 wp_step.
    replace (Z.of_nat i + 1)%Z with (Z.of_nat (S i)) by lia. rewrite Nat2Z.id, Hhd.
    apply IH; [rewrite length_insert; lia|]. intros u' Hl Hin Hout. rewrite length_insert in Hl.
    apply HQ; [done| |].
    + intros j Hj. destruct (decide (j = i)) as [->|Hne]; [|apply Hin; lia].
      rewrite Hout by lia. apply list_lookup_insert_eq. lia.
    + intros j Hj. rewrite Hout by lia. apply list_lookup_insert_ne. lia.
Qed.
Arguments raise_path : simpl never.

(** The recorded path: the last node of every level before the key. *)
Definition path_for (hd : loc) A (n : nat) (u : update_array) : Prop :=
  ∀ i, i < n → ∃ y, last_at i (hd_entry hd :: A) = Some y ∧ u !! i = Some (Some (Some y)).

Lemma hd_level i hd : i < 7 → at_level i (hd_entry hd) = true.
Proof. intros. unfold at_level. apply bool_decide_eq_true. simpl. lia. Qed.
Lemma last_at_hd i hd A : i < 7 → ∃ y, last_at i (hd_entry hd :: A) = Some y.
Proof. intros Hi. simpl. rewrite hd_level by done. destruct (last_at i A); eauto. Qed.
Lemma last_at_high i A n :
  Forall (λ a, linked a ∧ 0 < en_cap a ≤ n) A → n ≤ i → last_at i A = None.
Proof.
  induction 1 as [|a A [Ha ?] _ IH]; intros Hi; simpl; [done|].
  rewrite IH by done. rewrite linked_at by done. rewrite bool_decide_false; [done|lia].
Qed.
Lemma path_to_for hd A n u u' : n ≤ 7 → path_to A (hd_entry hd) n u u' → path_for hd A n u'.
Proof.
  intros Hn (_ & Hlo & _) i Hi. destruct (last_at_hd i hd A) as [y Hy]; [lia|].
  exists y. split; [done|]. rewrite Hlo by done. by rewrite Hy.
Qed.

Lemma wp_get_update hd A n u i y e s Q :
  path_for hd A n u → i < n → last_at i (hd_entry hd :: A) = Some y → Q (Some y) e s →
  wp (get_update u (Z.of_nat i)) e s Q.
Proof.
  intros Hu Hi Hy HQ. destruct (Hu i Hi) as (y' & Hy' & Hl). unfold get_update.
  rewrite decide_True, Nat2Z.id, Hl by lia. wp_step. congruence.
Qed.

(** The loop that links the new node, level by level. *)
Lemma forwards_link x k v j cap B :
  j < cap →
  forwards (Ent x k v 0 (S j) cap) B = <[j := next j B]> (forwards (Ent x k v 0 j cap) B).
Proof.
  intros Hj. unfold forwards. simpl en_hi. simpl en_cap.
  assert (Hlen : length (map (λ i, next i B) (seq 0 j)) = j) by (by rewrite length_map, length_seq).
  rewrite insert_app_r_alt by lia. rewrite Hlen, Nat.sub_diag.
  rewrite seq_S, map_app, <-(assoc_L (++)). simpl. f_equal.
  replace (cap - j) with (S (cap - S j)) by lia. done.
Qed.

Lemma wp_link_loop hd A B x k v cap u e s Q :
  Forall linked A → path_for hd A cap u →
  heap_is (sk_heap s) ((x, SNode (PStr k) (PStr v) (replicate cap None)) ::
    cells (hd_entry hd :: A ++ B) []) →
  (∀ s', sk_level s' = sk_level s → sk_header s' = sk_header s →
    heap_is (sk_heap s') (cells (hd_entry hd :: A ++ Ent x k v 0 cap cap :: B) []) →
    Q None e s') →
  wp (for_up (R := unit) cap 0%Z (λ z,
        u0 ← get_update u z;
        f ← get_forward u0 z;
        put_forward (Some x) z f;;
        u1 ← get_update u z;
        put_forward u1 z (Some x);;
        mret None)) e s Q.
Proof.
  intros Hl Hu Hh HQ. assert (HlC : Forall linked (hd_entry hd :: A)) by (by constructor).
  remember (hd_entry hd :: A) as C eqn:HC.
  apply (wp_for_up (λ z e' s', ∃ j, z = Z.of_nat j ∧ j ≤ cap ∧ e' = e ∧
    sk_level s' = sk_level s ∧ sk_header s' = sk_header s ∧
    heap_is (sk_heap s') (cells (C ++ Ent x k v 0 j cap :: B) []))).
  - exists 0. split_and!; [done|lia|done..|]. eapply heap_is_perm; [exact Hh|].
    assert (ecell (Ent x k v 0 0 cap) B = (x, SNode (PStr k) (PStr v) (replicate cap None))) as He
      by (unfold ecell, forwards; simpl; by rewrite Nat.sub_0_r).
    rewrite cells_at, !app_nil_r, He, (cells_ext C (Ent x k v 0 0 cap :: B) B) by done.
    by rewrite (app_comm_cons A B), <-HC, cells_app, app_nil_r.
  - intros z e1 s1 Hz (j & -> & Hj & -> & Hlv1 & Hhd1 & Hh1).
    assert (Hjc : j < cap) by lia. destruct (Hu j Hjc) as (y & Hy & _). rewrite <-HC in Hy.
    assert (Hnext : ∀ i, i ≠ j → next i (Ent x k v 0 j cap :: B) = next i (Ent x k v 0 (S j) cap :: B)).
    { intros i Hi. simpl. assert (at_level i (Ent x k v 0 j cap) = at_level i (Ent x k v 0 (S j) cap)) as ->;
        [|done]. unfold at_level. simpl. apply bool_decide_ext. lia. }
    assert (Hnj : next j (Ent x k v 0 j cap :: B) = next j B).
    { simpl. unfold at_level. rewrite bool_decide_false; [done|simpl; lia]. }
    assert (Hnj' : next j (Ent x k v 0 (S j) cap :: B) = Some x).
    { simpl. unfold at_level. rewrite bool_decide_true; [done|simpl; lia]. }
    destruct (cells_relink C _ _ j y HlC Hy Hnext) as (n & rest & Hp1 & Hn & Hp2).
    rewrite Hnj in Hn. rewrite Hnj' in Hp2.
    assert (Hh2 : heap_is (sk_heap s1) ((x, SNode (PStr k) (PStr v) (forwards (Ent x k v 0 j cap) B))
      :: (y, n) :: rest ++ cells B [])).
    { eapply heap_is_perm; [exact Hh1|]. rewrite cells_at, !app_nil_r. unfold ecell. simpl.
      rewrite Hp1. perm_solve. }
    wp_step. eapply wp_get_update; [exact Hu|done|by rewrite <-HC|].
    wp_step. eapply wp_get_forward; [exact Hh2|typeclasses eauto|exact Hn|].
    wp_step. eapply wp_put_forward; [exact Hh2|typeclasses eauto|simpl; by rewrite length_forwards|].
    intros s2 Hlv2 Hhd2 Hh3. wp_step. eapply wp_get_update; [exact Hu|done|by rewrite <-HC|].
    wp_step. eapply wp_put_forward; [exact Hh3|typeclasses eauto|by eapply lookup_lt_Some|].
    intros s3 Hlv3 Hhd3 Hh4. wp_step. exists (S j).
    split_and!; [lia|lia|done|congruence|congruence|].
    eapply heap_is_perm; [exact Hh4|]. rewrite cells_at, !app_nil_r, Hp2. unfold ecell. simpl.
    unfold sn_set_forward. simpl. rewrite (forwards_link x k v j cap B) by done. perm_solve.
  - intros e1 s1 (j & Hj & _ & -> & Hlv & Hhd & Hh1). assert (j = cap) as -> by lia.
    apply HQ; [done|done|]. by rewrite app_comm_cons, <-HC.
Qed.

(** The level of the list may rise before a node is linked. *)
Lemma raise_wf s s' hd L lv :
  skip_wf s hd L → sk_header s' = sk_header s → heap_is (sk_heap s') (cells (hd_entry hd :: L) []) →
  sk_level s' = Z.of_nat lv → (sk_level s ≤ Z.of_nat lv ≤ 6)%Z → skip_wf s' hd L.
Proof.
  intros [Hhd Hlv Hn Hh Hso] Hhd' Hh' Hl' Hle. split; [congruence|unfold MAX_LEVEL; lia| |done..].
  eapply Forall_impl; [exact Hn|]. intros a [? ?]. split; [done|]. lia.
Qed.

Definition skip_set_post e m k v (r : Z) e' s' : Prop :=
  (no_oom e → no_oom e') ∧ (no_oom e → (0 ≤ r)%Z) ∧
  ∃ m', set_post m k v r m' ∧ pair_blocks 4 e m e' m' ∧ skip_rep s' m'.

(** From the choice of the level on. *)
Definition set_tail (key value : cptr) (update : update_array) : M skiplist Z :=
  level ← randomLevel;
  lv ← gets sk_level;
  update ← (if (lv <? level)%Z then
              update ← raise_path (Z.to_nat (level - lv)) (lv + 1) update;
              put_level level;;
              mret update
            else mret update);
  newNode ← createNode level key value;
  if snull newNode then mret (-1)%Z else
  for_up (R := unit) (Z.to_nat (level + 1)) 0%Z (λ z,
    u ← get_update update z;
    f ← get_forward u z;
    put_forward newNode z f;;
    u ← get_update update z;
    put_forward u z newNode;;
    mret None);;
  mret 0%Z.

(** The part of [set_tail] that raises the level. *)
Lemma wp_raise hd A B lv u e s Q :
  skip_wf s hd (A ++ B) → lv ≤ 6 → length u = 7 →
  path_for hd A (S (Z.to_nat (sk_level s))) u →
  (∀ u' s', skip_wf s' hd (A ++ B) → (Z.of_nat lv ≤ sk_level s')%Z → path_for hd A (S lv) u' →
    Q u' e s') →
  wp (if (sk_level s <? Z.of_nat lv)%Z then
        update ← raise_path (Z.to_nat (Z.of_nat lv - sk_level s)) (sk_level s + 1) u;
        put_level (Z.of_nat lv);;
        mret update
      else mret u) e s Q.
Proof.
  intros Hw Hlv Hu Hp HQ. pose proof (sw_level _ _ _ Hw) as Hl. pose proof (sw_nodes _ _ _ Hw) as Hn.
  apply Forall_app in Hn as [Hn _].
  destruct (Z.ltb_spec (sk_level s) (Z.of_nat lv)) as [Hlt|Hge].
  - wp_step. replace (sk_level s + 1)%Z with (Z.of_nat (S (Z.to_nat (sk_level s)))) by lia.
    eapply wp_raise_path; [apply Hw|lia|]. intros u' Hlen Hin Hout. unfold put_level. do 3 wp_step.
    apply HQ; [|simpl; lia|].
    + eapply (raise_wf s _ hd (A ++ B) lv Hw); simpl; [done|apply Hw|done|lia].
    + intros i Hi. destruct (decide (i < S (Z.to_nat (sk_level s)))) as [Hlo|Hhi].
      * destruct (Hp i Hlo) as (y & Hy & Hl'). exists y. split; [done|]. by rewrite Hout by lia.
      * exists hd. simpl. rewrite (last_at_high i A _ Hn) by lia. rewrite hd_level by lia.
        split; [done|]. apply Hin. lia.
  - wp_step. apply HQ; [done|lia|]. intros i Hi. apply Hp. lia.
Qed.

Lemma wp_set_tail hd A B k v u e s :
  skip_wf s hd (A ++ B) → keys_below (kv <$> A) k → keys_above k (kv <$> B) → length u = 7 →
  path_for hd A (S (Z.to_nat (sk_level s))) u →
  wp (set_tail (PStr k) (PStr v) u) e s (skip_set_post e (list_to_map (kv <$> (A ++ B))) k v).
Proof.
  intros Hw Hb Ha Hu Hp. unfold set_tail. wp_step. eapply wp_randomLevel.
  intros lv e1 Hlv Hm1 Hl1. assert (Ho : no_oom e ↔ no_oom e1) by (unfold no_oom; by rewrite Hm1).
  do 3 wp_step. eapply wp_raise; [exact Hw|exact Hlv|exact Hu|exact Hp|].
  intros u1 s1 Hw1 Hlv1 Hp1. wp_step. eapply wp_createNode; [apply Hw1|..].
  - intros e2 s2 Hoom Hl2 Hlv2 Hhd2 Hh2. simpl. wp_step. split_and!; [tauto|tauto|].
    exists (list_to_map (kv <$> A ++ B)).
    split_and!; [right; right; split; [lia|done]|unfold pair_blocks; lia|].
    exists hd, (A ++ B). split; [|done]. destruct Hw1 as [Hhd' Hlv' Hn' _ Hso'].
    split; [congruence|by rewrite Hlv2|by rewrite Hlv2|done|done].
  - intros x e2 s2 Ho2 Hl2 Hlv2 Hhd2 Hh2. simpl. wp_step.
    replace (Z.to_nat (Z.of_nat lv + 1)) with (S lv) by lia.
    eapply (wp_link_loop hd A B x k v (S lv)); [|exact Hp1|exact Hh2|].
    { pose proof (sw_linked _ _ _ Hw) as Hl. apply Forall_cons in Hl as [_ Hl].
      by apply Forall_app in Hl as [? _]. }
    intros s3 Hlv3 Hhd3 Hh3. wp_step.
    assert (Hso : sorted_pairs ((kv <$> A) ++ (k, v) :: (kv <$> B))).
    { apply sorted_pairs_mid. split_and!; [|done..]. rewrite <-fmap_app. apply Hw1. }
    split_and!; [tauto|lia|]. exists (<[k := v]> (list_to_map (kv <$> A ++ B))).
    assert (Hnone : (list_to_map (kv <$> A ++ B) : gmap string string) !! k = None)
      by (rewrite fmap_app; by apply alist_none).
    split_and!; [right; left; done|unfold pair_blocks; rewrite map_size_insert_None by done; lia|].
    exists hd, (A ++ Ent x k v 0 (S lv) (S lv) :: B). split.
    + destruct Hw1 as [Hhd' Hlv' Hn' _ Hso']. split; [congruence|by rewrite Hlv3, Hlv2| |done|].
      * rewrite Hlv3, Hlv2. apply Forall_app in Hn' as [Hn1 Hn2]. apply Forall_app. split; [done|].
        constructor; [|done]. split; [done|]. simpl. lia.
      * by rewrite kv_app.
    + rewrite kv_app, fmap_app. simpl. by rewrite alist_mid.
Qed.

Lemma wp_skip_set e s m k v :
  skip_rep s m → wp (kvs_skip_set IGlobal (PStr k) (PStr v)) e s (skip_set_post e m k v).
Proof.
  intros (hd & L & Hw & ->). unfold kvs_skip_set. simpl. do 2 wp_step. rewrite (sw_header _ _ _ Hw).
  simpl. do 2 wp_step. pose proof (sw_level _ _ _ Hw) as Hl. unfold MAX_LEVEL in Hl.
  eapply (wp_find_path _ _ _ (λ u p same, if same : bool then mret 1%Z else set_tail (PStr k) (PStr v) u));
    [exact Hw|..].
  - intros A B u -> Hb Ha Hu p. eapply wp_set_tail; [exact Hw|done|done| |].
    + destruct Hu as [-> _]. done.
    + eapply path_to_for; [|exact Hu]. lia.
  - intros A b B u -> <- Hb Hu. wp_step. split_and!; [done|lia|]. eexists.
    split_and!; [left; split_and!; [done| |reflexivity]|unfold pair_blocks; lia|by eexists _, _].
    pose proof (sw_sorted _ _ _ Hw) as Hso. rewrite kv_app in Hso |- *. rewrite alist_lookup; eauto.
Qed.

(** ** Deletion *)

(** The loop that unlinks a node, from level 0 up to the last level it is in. *)
Lemma wp_unlink_loop hd A B x k v cap lv u e s Q :
  Forall linked A → path_for hd A (S lv) u → cap ≤ S lv →
  heap_is (sk_heap s) (cells (hd_entry hd :: A ++ Ent x k v 0 cap cap :: B) []) →
  (∀ r s', sk_level s' = sk_level s → sk_header s' = sk_header s →
    heap_is (sk_heap s') (cells (hd_entry hd :: A ++ Ent x k v cap cap cap :: B) []) →
    Q r e s') →
  wp (for_up (S lv) 0%Z (λ z,
        u0 ← get_update u z;
        f ← get_forward u0 z;
        if negb (bool_decide (f = Some x)) then mret (Some tt) else
        cf ← get_forward (Some x) z;
        u1 ← get_update u z;
        put_forward u1 z cf;;
        mret None)) e s Q.
Proof.
  intros Hl Hu Hcap Hh HQ. assert (HlC : Forall linked (hd_entry hd :: A)) by (by constructor).
  remember (hd_entry hd :: A) as C eqn:HC.
  apply (wp_for_up (λ z e' s', ∃ j, z = Z.of_nat j ∧ j ≤ cap ∧ e' = e ∧
    sk_level s' = sk_level s ∧ sk_header s' = sk_header s ∧
    heap_is (sk_heap s') (cells (C ++ Ent x k v j cap cap :: B) []))).
  - exists 0. split_and!; [done|lia|done..|]. rewrite HC. done.
  - intros z e1 s1 Hz (j & -> & Hj & -> & Hlv1 & Hhd1 & Hh1).
    destruct (Hu j) as (y & Hy & _); [lia|]. rewrite <-HC in Hy.
    set (Ej := Ent x k v j cap cap) in *. set (Ej' := Ent x k v (S j) cap cap).
    assert (Hnext : ∀ i, i ≠ j → next i (Ej :: B) = next i (Ej' :: B)).
    { intros i Hi. simpl. assert (at_level i Ej = at_level i Ej') as ->; [|done].
      unfold at_level. simpl. apply bool_decide_ext. lia. }
    assert (Hnj' : next j (Ej' :: B) = next j B).
    { simpl. unfold at_level. rewrite bool_decide_false; [done|simpl; lia]. }
    destruct (cells_relink C _ _ j y HlC Hy Hnext) as (n & rest & Hp1 & Hn & Hp2).
    assert (Hh2 : heap_is (sk_heap s1) ((y, n) :: (x, SNode (PStr k) (PStr v) (forwards Ej B))
      :: rest ++ cells B [])).
    { eapply heap_is_perm; [exact Hh1|]. rewrite cells_at, !app_nil_r, Hp1. unfold ecell. simpl en_loc.
      simpl en_key. simpl en_val. perm_solve. }
    wp_step. eapply wp_get_update; [exact Hu|lia|by rewrite <-HC|].
    wp_step. eapply wp_get_forward; [exact Hh2|typeclasses eauto|exact Hn|].
    destruct (decide (j < cap)) as [Hjc|Hjc].
    + assert (next j (Ej :: B) = Some x) as Hnj.
      { simpl. unfold at_level. rewrite bool_decide_true; [done|simpl; lia]. }
      rewrite Hnj, bool_decide_true by done. simpl negb. cbv iota. wp_step.
      eapply wp_get_forward; [exact Hh2|typeclasses eauto|by simpl; apply forwards_lookup|].
      wp_step. eapply wp_get_update; [exact Hu|lia|by rewrite <-HC|].
      wp_step. eapply wp_put_forward; [exact Hh2|typeclasses eauto|by eapply lookup_lt_Some|].
      intros s2 Hlv2 Hhd2 Hh3. wp_step. exists (S j).
      split_and!; [lia|lia|done|congruence|congruence|].
      eapply heap_is_perm; [exact Hh3|]. fold Ej'. rewrite cells_at, !app_nil_r, Hp2, Hnj'. unfold ecell.
      simpl en_loc. simpl en_key. simpl en_val. change (forwards Ej' B) with (forwards Ej B). perm_solve.
    + assert (j = cap) as -> by lia.
      rewrite bool_decide_false.
      { simpl negb. cbv iota. wp_step. apply HQ; [done..|]. by rewrite app_comm_cons, <-HC. }
      simpl. unfold at_level. rewrite bool_decide_false by (simpl; lia). intros Hx.
      destruct (next_split _ _ _ Hx) as (B1 & b & B2 & -> & Hloc & _).
      apply heap_is_nodup in Hh2. simpl in Hh2. apply NoDup_cons in Hh2 as [_ Hh2].
      apply NoDup_cons in Hh2 as [Hnx _]. apply Hnx. rewrite fmap_app, cells_at.
      apply elem_of_app. right. simpl. rewrite Hloc. by left.
  - intros e1 s1 (j & Hj & Hjc & -> & Hlv & Hhd & Hh1). assert (j = cap) as -> by lia.
    apply HQ; [done|done|]. by rewrite app_comm_cons, <-HC.
Qed.

(** Lowering the level until the header has a node there. *)
Lemma wp_lower_level fuel hd L e s Q :
  skip_wf s hd L → Z.to_nat (sk_level s) < fuel →
  (∀ s', skip_wf s' hd L → Q tt e s') → wp (lower_level fuel) e s Q.
Proof.
  revert s. induction fuel as [|fuel IH]; intros s Hw Hf HQ; [lia|]. simpl. do 2 wp_step.
  pose proof (sw_level _ _ _ Hw) as Hl. unfold MAX_LEVEL in Hl.
  destruct (Z.ltb_spec 0 (sk_level s)) as [Hpos|]; [|wp_step; by apply HQ].
  do 2 wp_step. rewrite (sw_header _ _ _ Hw).
  replace (sk_level s) with (Z.of_nat (Z.to_nat (sk_level s))) at 1 by lia. wp_step.
  pose proof (sw_heap _ _ _ Hw) as Hh.
  eapply (wp_list_forward [] (hd_entry hd) L _ []); [exact Hh|simpl; lia|].
  destruct (next (Z.to_nat (sk_level s)) L) as [y|] eqn:Hnext; simpl; [wp_step; by apply HQ|].
  unfold put_level. do 2 wp_step. apply IH; [|simpl; lia|done].
  destruct Hw as [Hhd Hlv Hn _ Hso]. split; simpl; [done|unfold MAX_LEVEL; lia| |done..].
  rewrite Forall_forall in Hn |- *. intros a Ha. destruct (Hn a Ha) as [Hla Hcap]. split; [done|].
  destruct (decide (en_cap a = S (Z.to_nat (sk_level s)))) as [Hc|]; [|lia]. exfalso.
  apply list_elem_of_split in Ha as (L1 & L2 & ->).
  rewrite next_app in Hnext. destruct (next _ L1); [done|]. simpl in Hnext.
  rewrite linked_at, bool_decide_true in Hnext by (done || lia). done.
Qed.
Arguments lower_level : simpl never.

Lemma wp_skip_del e s m k :
  skip_rep s m →
  wp (kvs_skip_del IGlobal (PStr k)) e s (λ r e' s',
    (no_oom e → no_oom e') ∧ ∃ m', del_post m k r m' ∧ pair_blocks 4 e m e' m' ∧ skip_rep s' m').
Proof.
  intros (hd & L & Hw & ->). unfold kvs_skip_del. simpl. do 4 wp_step. rewrite (sw_header _ _ _ Hw).
  pose proof (sw_level _ _ _ Hw) as Hl. unfold MAX_LEVEL in Hl.
  eapply (wp_find_path _ _ _ (λ u current same,
    if negb same then mret 1%Z else
    lv ← gets sk_level;
    for_up (Z.to_nat (lv + 1)) 0%Z (λ z,
      u0 ← get_update u z;
      f ← get_forward u0 z;
      if negb (bool_decide (f = current)) then mret (Some tt) else
      cf ← get_forward current z;
      u1 ← get_update u z;
      put_forward u1 z cf;;
      mret None);;
    n ← sload current;
    kvs_free (sn_key n);;
    kvs_free (sn_value n);;
    free_block;;
    sfree current;;
    lv ← gets sk_level;
    lower_level (S (Z.to_nat lv));;
    mret 0%Z)); [exact Hw|..].
  - intros A B u -> Hb Ha Hu p. simpl. wp_step. split; [done|].
    exists (list_to_map (kv <$> A ++ B)).
    split_and!; [right; by rewrite fmap_app, alist_none|unfold pair_blocks; lia|by eexists _, _].
  - intros A b B u -> <- Hb Hu. simpl negb. cbv iota. do 3 wp_step.
    replace (Z.to_nat (sk_level s + 1)) with (S (Z.to_nat (sk_level s))) by lia.
    pose proof (sw_linked _ _ _ Hw) as HlL. apply Forall_cons in HlL as [_ HlL].
    apply Forall_app in HlL as [HlA _].
    pose proof (sw_nodes _ _ _ Hw) as Hn. apply Forall_app in Hn as [HnA [Hnb HnB]%Forall_cons].
    destruct Hnb as [[Hlo Hhi] Hcap]. destruct b as [x k v lo hi cap]. simpl in Hlo, Hhi, Hcap. subst lo hi.
    simpl en_loc. simpl en_key.
    eapply (wp_unlink_loop hd A B x k v cap); [done|eapply path_to_for; [|exact Hu]; lia|lia|apply Hw|].
    intros r s1 Hlv1 Hhd1 Hh1. rewrite app_comm_cons in Hh1.
    assert (Hh2 : heap_is (sk_heap s1) ((x, SNode (PStr k) (PStr v) (forwards (Ent x k v cap cap cap) B))
      :: cells (hd_entry hd :: A ++ B) [])).
    { eapply heap_is_perm; [exact Hh1|]. rewrite cells_at, !app_nil_r, (app_comm_cons A B), cells_app, app_nil_r.
      rewrite (cells_ext (hd_entry hd :: A) (Ent x k v cap cap cap :: B) B); [done|].
      intros i. simpl. unfold at_level. rewrite bool_decide_false; [done|simpl; lia]. }
    wp_step. eapply wp_sload; [exact Hh2|typeclasses eauto|]. simpl sn_key. simpl sn_value.
    do 7 wp_step. eapply wp_sfree; [exact Hh2|typeclasses eauto|]. intros s2 Hlv2 Hhd2 Hh3. do 3 wp_step.
    pose proof (sw_sorted _ _ _ Hw) as Hso. rewrite kv_app in Hso |- *. simpl in Hso.
    eapply (wp_lower_level _ hd (A ++ B)); [|lia|].
    { split; [rewrite Hhd2, Hhd1; apply Hw|rewrite Hlv2, Hlv1; apply Hw| |done|].
      - rewrite Hlv2, Hlv1. by apply Forall_app.
      - rewrite fmap_app. by apply sorted_pairs_mid in Hso as [? _]. }
    intros s3 Hw3. wp_step. simpl en_key. simpl en_val. split; [done|].
    exists (list_to_map (kv <$> A ++ B)). rewrite fmap_app. split_and!.
    + left. split_and!; [done|rewrite alist_lookup; eauto|by eapply alist_delete].
    + unfold pair_blocks. simpl live. rewrite !alist_size, !length_app;
        [simpl; lia|done|by apply sorted_pairs_mid in Hso as [? _]].
    + exists hd, (A ++ B). split; [done|]. by rewrite fmap_app.
Qed.

End ops.

(** * The engine meets its contract *)

#[export] Instance skip_engine : KVEngine skip_ops.
Proof.
  unshelve econstructor; [exact skip_rep|exact (λ _, True)|exact None|exact (λ _ _, True)|exact 4%Z|..].
  - done.
  - intros e s m k Hr _. by apply wp_skip_get.
  - intros e s m k Hr _. by apply wp_skip_exist.
  - intros e s m k v Hr _ _. eapply wp_mono; [by apply wp_skip_set|].
    intros r e' s' (? & ? & ?). split_and!; [done|auto|done].
  - intros e s m k v Hr _ Hf. by apply wp_skip_mod.
  - intros e s m k Hr _. by apply wp_skip_del.
Defined.

(** * Creation and destruction *)

Section life.
Local Open Scope Z_scope.
Implicit Types (s : skiplist).

Lemma wp_skip_create e :
  wp (kvs_skip_create IGlobal) e global_skip (λ r e' s',
    (no_oom e → no_oom e') ∧ (no_oom e → r = 0 ∧ live e' = live e + 4 ∧ skip_rep s' ∅) ∧
    (r = 0 ∨ r = -1 ∧ live e' = live e ∧ s' = global_skip)).
Proof.
  unfold kvs_skip_create, put_level. simpl inst_null. cbv iota. do 3 wp_step.
  eapply (wp_createNode 6 _ _ []); [by split; [constructor|]|..].
  - intros e' s' Hoom Hl Hlv Hhd Hh. unfold put_header. do 2 wp_step. simpl snull. cbv iota. wp_step.
    split_and!; [done|done|]. right. split_and!; [done|done|].
    destruct s' as [lv hd h]. simpl in *. destruct Hh as [_ ->]. by rewrite Hlv.
  - intros x e' s' Ho Hl Hlv Hhd Hh. unfold put_header. do 2 wp_step. simpl snull. cbv iota. wp_step.
    set (cell0 := (x, SNode (PStr "") (PStr "") (replicate 7 None))) in *.
    eapply (wp_for_up (λ z e1 s1, e1 = e' ∧ sk_level s1 = 0 ∧ sk_header s1 = Some x ∧
      heap_is (sk_heap s1) [cell0])).
    + by split_and!.
    + intros z e1 s1 Hz (-> & Hlv1 & Hhd1 & Hh1). do 2 wp_step. rewrite Hhd1. wp_step.
      replace z with (Z.of_nat (Z.to_nat z)) by lia. unfold cell0 in Hh1.
      assert (Hz7 : (Z.to_nat z < 7)%nat) by (unfold MAX_LEVEL in Hz; lia).
      eapply wp_put_forward; [exact Hh1|apply front_here_cons|exact Hz7|].
      intros s2 Hlv2 Hhd2 Hh2. wp_step. split_and!; [done|congruence|congruence|].
      simpl sn_forward in Hh2.
      assert (∀ i, (<[i := None]> (replicate 7 None) : list nptr) = replicate 7 None) as Hrep.
      { intros i. apply list_eq. intros j. destruct (decide (i = j)) as [->|]; [|by rewrite list_lookup_insert_ne].
        destruct (decide (j < 7)%nat).
        - rewrite list_lookup_insert_eq by (rewrite length_replicate; lia). by rewrite lookup_replicate_2.
        - by rewrite list_insert_ge by (rewrite length_replicate; lia). }
      unfold sn_set_forward in Hh2. simpl sn_key in Hh2. simpl sn_value in Hh2. by rewrite Hrep in Hh2.
    + intros e1 s1 (-> & Hlv1 & Hhd1 & Hh1). wp_step. split_and!; [done| |by left].
      intros He. split_and!; [done|done|]. exists x, []. split; [|done].
      split; [done|rewrite Hlv1; unfold MAX_LEVEL; lia|constructor|exact Hh1|constructor].
Qed.

Lemma wp_freeNode x k v f l r e s Q :
  heap_is (sk_heap s) l → Front [(x, SNode (PStr k) (PStr v) f)] l r →
  (∀ s', sk_level s' = sk_level s → sk_header s' = sk_header s → heap_is (sk_heap s') r →
    Q tt (add_live (-1) (add_live (-1) (add_live (-1) (add_live (-1) e)))) s') →
  wp (freeNode (Some x)) e s Q.
Proof.
  intros Hh Hf HQ. unfold freeNode. simpl snull. cbv iota. wp_step. eapply wp_sload; [done..|].
  simpl sn_key. simpl sn_value. do 6 wp_step. by eapply wp_sfree.
Qed.
Arguments freeNode : simpl never.

Lemma wp_destroy_nodes fuel L ex e s Q :
  heap_is (sk_heap s) (cells L [] ++ ex) → Forall (λ a, linked a ∧ (0 < en_cap a)%nat) L →
  (length L < fuel)%nat →
  (∀ e' s', heap_is (sk_heap s') ex → sk_header s' = sk_header s →
    live e' = live e - 4 * Z.of_nat (length L) → Q tt e' s') →
  wp (destroy_nodes fuel (next 0 L)) e s Q.
Proof.
  revert L e s. induction fuel as [|fuel IH]; intros L e s Hh Hl Hf HQ; [lia|].
  destruct L as [|a L]; simpl.
  - wp_steps. apply HQ; [done|done|simpl; lia].
  - apply Forall_cons in Hl as [[Ha Hc] Hl]. rewrite linked_at, bool_decide_true by done. simpl snull. cbv iota.
    wp_step. simpl in Hh. rewrite app_nil_r in Hh. unfold ecell in Hh.
    change 0 with (Z.of_nat 0) at 1. eapply wp_get_forward; [exact Hh|typeclasses eauto| |].
    { simpl. apply forwards_lookup. destruct Ha as [_ ->]. done. }
    wp_step. eapply wp_freeNode; [exact Hh|typeclasses eauto|]. intros s' Hlv' Hhd' Hh'.
    apply IH; [done|done|simpl in Hf; lia|]. intros e2 s2 Hh2 Hhd2 Hl2.
    apply HQ; [done|congruence|]. simpl in Hl2 |- *. lia.
Qed.
Arguments destroy_nodes : simpl never.

Lemma wp_skip_destroy e s m :
  skip_rep s m →
  wp (kvs_skip_destroy IGlobal) e s (λ _ e' s',
    s' = global_skip ∧ live e' = live e - 4 - 4 * Z.of_nat (size m)).
Proof.
  intros (hd & L & Hw & ->). rewrite alist_size, length_fmap by apply Hw.
  pose proof (sw_heap _ _ _ Hw) as Hh. pose proof (sw_nodes _ _ _ Hw) as Hn.
  unfold kvs_skip_destroy. simpl. do 2 wp_step. rewrite (sw_header _ _ _ Hw). simpl snull. cbv iota. wp_step.
  change 0 with (Z.of_nat 0) at 1. eapply (wp_list_forward [] (hd_entry hd) L 0 []); [exact Hh|simpl; lia|].
  unfold skip_fuel. repeat wp_step. pose proof (heap_is_size _ _ Hh) as Hsz. rewrite length_cells in Hsz.
  eapply (wp_destroy_nodes _ L [ecell (hd_entry hd) (L ++ [])]).
  - eapply heap_is_perm; [exact Hh|]. simpl. perm_solve.
  - eapply Forall_impl; [exact Hn|]. naive_solver.
  - simpl in Hsz. lia.
  - intros e1 s1 Hh1 Hhd1 Hl1. do 3 wp_step. rewrite Hhd1, (sw_header _ _ _ Hw). unfold ecell in Hh1.
    eapply wp_freeNode; [exact Hh1|typeclasses eauto|]. intros s2 Hlv2 Hhd2 [_ Hh2].
    unfold put_header, put_level. do 3 wp_step. simpl in *. split; [|simpl; lia].
    unfold global_skip. by rewrite Hh2.
Qed.

(** * The theorems *)

(** C9: over its whole life (create, any sequence of operations, destroy) with
    memory available, and whatever levels the random generator chooses, the skip
    list engine answers exactly as a finite map that starts empty, reaches no
    undefined behaviour, gives back every block it allocated and leaves the
    global instance as it was before. *)
Theorem skip_lifecycle_refines os e :
  no_oom e →
  wp (lifecycle skip_ops (kvs_skip_create IGlobal) (kvs_skip_destroy IGlobal) os)
    e global_skip (λ ans e' s',
      ans = (spec_steps os ∅).1 ∧ live e' = live e ∧ s' = global_skip).
Proof.
  intros He. apply (lifecycle_refines skip_ops _ _ _ _ _ 4 (λ s', s' = global_skip)).
  - by apply Forall_true.
  - done.
  - done.
  - eapply wp_mono; [by apply wp_skip_create|].
    intros r e' s' (? & Hok & _). destruct (Hok He) as (_ & ? & ?). split_and!; auto.
  - intros e' s m Hr. by apply wp_skip_destroy.
Qed.

Lemma skip_lifecycle_refines_witness :
  wp (lifecycle skip_ops (kvs_skip_create IGlobal) (kvs_skip_destroy IGlobal)
        [OpSet "b" "1"; OpSet "a" "2"; OpMod "a" "3"; OpDel "b"; OpGet "a"])
    (Env [] [5; 2000000000; 3; 4; 2000000000] [] [] 0) global_skip (λ ans e' s',
      ans = [ACode 0; ACode 0; ACode 0; ACode 0; AValue (PStr "3")] ∧ live e' = 0 ∧
      s' = global_skip).
Proof.
  apply (skip_lifecycle_refines
    [OpSet "b" "1"; OpSet "a" "2"; OpMod "a" "3"; OpDel "b"; OpGet "a"]
    (Env [] [5; 2000000000; 3; 4; 2000000000] [] [] 0)).
  constructor.
Defined.
End life.
