(* ===== verification/CText.v ===== *)
(** Numbers and text of the C library, as the program uses them: binary32 and
    binary64 arithmetic, [printf] of integers and floats, [atoi], [atof],
    [strtok].

    Every operation on [float] rounds to binary32 (x86-64); [printf] of a float
    prints the exact value rounded to nearest, ties to even. *)
From Stdlib Require Import SpecFloat.
From stdpp Require Import pretty.
From S2P Require Import Prelude.

Local Open Scope Z_scope.

(** * binary32 *)

Definition f32_prec : Z := 24.
Definition f32_emax : Z := 128.
Definition f32_add := SFadd f32_prec f32_emax.
Definition f32_sub := SFsub f32_prec f32_emax.
Definition f32_mul := SFmul f32_prec f32_emax.
Definition f32_div := SFdiv f32_prec f32_emax.
Definition sqrtf := SFsqrt f32_prec f32_emax.
Definition f32_zero : spec_float := S754_zero false.
(** [(float)z], and the literal [n/d]. *)
Definition f32_of_Z (z : Z) : spec_float := binary_normalize f32_prec f32_emax z 0 false.
Definition f32_lit (n d : Z) : spec_float := f32_div (f32_of_Z n) (f32_of_Z d).
(** [(float)] of a double. *)
Definition f32_of_f64 (x : spec_float) : spec_float :=
  match x with
  | S754_finite s m e => binary_round f32_prec f32_emax s m e
  | _ => x
  end.

(** * Printing *)

Definition CR : Ascii.ascii := Ascii.ascii_of_nat 13.
Definition LF : Ascii.ascii := Ascii.ascii_of_nat 10.
Definition crlf : string := String CR (String LF "").

(** [snprintf(out, max_len, ...)]: what is left in [out]. *)
Definition truncate (max_len : nat) (s : string) : string := String.substring 0 (pred max_len) s.

(** ["%.<digits>f"]. *)
Definition round_half_even (num den : Z) : Z :=
  let q := num / den in
  let r := num mod den in
  if (2 * r <? den) then q
  else if (den <? 2 * r) then q + 1
  else if Z.even q then q else q + 1.
Fixpoint zeros (n : nat) : string :=
  match n with O => "" | S n' => String (Ascii.ascii_of_nat 48) (zeros n') end.
Definition pad_left (n : nat) (s : string) : string := zeros (n - String.length s) +:+ s.
Definition fmt_scaled (digits : nat) (z : Z) : string :=
  let p := 10 ^ Z.of_nat digits in
  pretty (z / p) +:+ (if digits is O then "" else "." +:+ pad_left digits (pretty (z mod p))).
Definition fmt_f (digits : nat) (f : spec_float) : string :=
  match f with
  | S754_zero s => (if s then "-" else "") +:+ fmt_scaled digits 0
  | S754_infinity s => if s then "-inf" else "inf"
  | S754_nan => "nan"
  | S754_finite s m e =>
      let p := 10 ^ Z.of_nat digits in
      (if s then "-" else "") +:+
      fmt_scaled digits
        (if (0 <=? e) then Z.pos m * 2 ^ e * p else round_half_even (Z.pos m * p) (2 ^ (- e)))
  end.

(** The decimal digits of a number below [10 ^ n]. *)
Lemma pretty_go_length n x s :
  (x < 10 ^ N.of_nat n)%N → (String.length (pretty_N_go x s) ≤ n + String.length s)%nat.
Proof.
  revert x s. induction n as [|n IH]; intros x s Hx.
  { assert (x = 0)%N as -> by (simpl in Hx; lia). by rewrite pretty_N_go_0. }
  destruct (decide (x = 0%N)) as [->|Hx0]; [rewrite pretty_N_go_0; lia|].
  rewrite pretty_N_go_step by lia. etrans; [apply IH|simpl; lia].
  apply N.Div0.div_lt_upper_bound. rewrite Nat2N.inj_succ, N.pow_succ_r' in Hx. lia.
Qed.
Lemma pretty_length n z : 0 ≤ z < 10 ^ Z.of_nat (S n) → (String.length (pretty z) ≤ S n)%nat.
Proof.
  intros Hz. destruct z as [|p|p]; [simpl; lia| |lia]. unfold pretty, pretty_Z, pretty, pretty_positive, pretty, pretty_N.
  rewrite decide_False by done. rewrite <-(Nat.add_0_r (S n)). apply (pretty_go_length _ _ "").
  apply N2Z.inj_lt. rewrite N2Z.inj_pow, nat_N_Z. simpl Z.of_N. lia.
Qed.

(** * Reading numbers *)

Definition is_char (n : nat) (c : Ascii.ascii) : bool := Nat.eqb (Ascii.nat_of_ascii c) n.
(** [isspace]. *)
Definition is_space (c : Ascii.ascii) : bool :=
  let n := Ascii.nat_of_ascii c in Nat.eqb n 32 || (Nat.leb 9 n && Nat.leb n 13).
(** The value of a digit in a base of at most 16. *)
Definition digit (base : Z) (c : Ascii.ascii) : option Z :=
  let n := Z.of_nat (Ascii.nat_of_ascii c) in
  let d := if (48 <=? n) && (n <=? 57) then n - 48
           else if (65 <=? n) && (n <=? 70) then n - 55
           else if (97 <=? n) && (n <=? 102) then n - 87
           else 99 in
  if (d <? base) then Some d else None.

Fixpoint skip_space (s : string) : string :=
  match s with
  | String c s' => if is_space c then skip_space s' else s
  | _ => s
  end.
(** An optional sign: whether it is a minus. *)
Definition take_sign (s : string) : bool * string :=
  match s with
  | String c s' => if is_char 45 c then (true, s') else if is_char 43 c then (false, s') else (false, s)
  | _ => (false, s)
  end.
(** The digits at the front: their value, their number, and the rest. *)
Fixpoint take_digits (base acc : Z) (n : nat) (s : string) : Z * nat * string :=
  match s with
  | String c s' =>
      match digit base c with
      | Some d => take_digits base (acc * base + d) (S n) s'
      | None => (acc, n, s)
      end
  | _ => (acc, n, s)
  end.

(** [atoi]: [strtol] saturates, the result is converted to [int]. *)
Definition atoi (s : string) : Z :=
  let '(neg, s) := take_sign (skip_space s) in
  let '(z, _, _) := take_digits 10 0 0 s in
  to_int (Z.max (- 2 ^ 63) (Z.min (2 ^ 63 - 1) (if neg then - z else z))).

(** The nearest binary64 to [m * base^e]; exponents beyond the range are cut to
    a bound that does not change the result. *)
Definition f64_scale (neg : bool) (m base e : Z) : spec_float :=
  match m with
  | Z.pos p =>
      let e := Z.max (-5000 - Z.log2 m) (Z.min 5000 e) in
      if (0 <=? e) then binary_normalize 53 1024 (if neg then - (m * base ^ e) else m * base ^ e) 0 neg
      else
        let '(q, ez, l) := SFdiv_core_binary 53 1024 m 0 (base ^ (- e)) 0 in
        binary_round_aux 53 1024 neg q ez l
  | _ => S754_zero neg
  end.

(** A number in a base: digits, a point, digits, and an exponent that is a power
    of [ebase] introduced by the letter [mark] (of which there are two cases). *)
Definition take_exponent (mark1 mark2 : nat) (s : string) : Z :=
  match s with
  | String c s' =>
      if is_char mark1 c || is_char mark2 c then
        let '(neg, s') := take_sign s' in
        let '(z, _, _) := take_digits 10 0 0 s' in
        if neg then - z else z
      else 0
  | _ => 0
  end.
Definition take_number (base ebase step : Z) (mark1 mark2 : nat) (neg : bool) (s : string) : spec_float :=
  let '(m, n, s) := take_digits base 0 0 s in
  let '(m, frac, s) :=
    match s with
    | String c s' => if is_char 46 c then take_digits base m 0 s' else (m, O, s)
    | _ => (m, O, s)
    end in
  if Nat.eqb (n + frac) 0 then S754_zero neg
  else f64_scale neg m ebase (take_exponent mark1 mark2 s - step * Z.of_nat frac).

(** The words [strtod] knows, in any case of letters. *)
Definition lower (c : Ascii.ascii) : Ascii.ascii :=
  let n := Ascii.nat_of_ascii c in
  if Nat.leb 65 n && Nat.leb n 90 then Ascii.ascii_of_nat (n + 32) else c.
Fixpoint starts_with (w s : string) : bool :=
  match w, s with
  | EmptyString, _ => true
  | String a w', String b s' => Ascii.eqb a (lower b) && starts_with w' s'
  | _, _ => false
  end.

(** [atof]: decimal and hexadecimal numbers, infinity, not-a-number; anything
    else is zero. *)
Definition atof (s : string) : spec_float :=
  let '(neg, s) := take_sign (skip_space s) in
  if starts_with "inf" s then S754_infinity neg
  else if starts_with "nan" s then S754_nan
  else
    let hex := if starts_with "0x" s then String.substring 2 (String.length s) s else "" in
    let hexdigit := match hex with
                    | String c h => if is_char 46 c then
                                      match h with String d _ => digit 16 d | _ => None end
                                    else digit 16 c
                    | _ => None
                    end in
    match hexdigit with
    | Some _ => take_number 16 2 4 112 80 neg hex
    | None => take_number 10 10 1 101 69 neg s
    end.

(** * Splitting at spaces *)

(** The tokens [strtok_r(s, " ")] finds, one after the other; [w] is the token
    being read, reversed. *)
Fixpoint rev_str (s acc : string) : string :=
  match s with EmptyString => acc | String c s' => rev_str s' (String c acc) end.
Fixpoint words_from (w s : string) : list string :=
  match s with
  | EmptyString => if String.eqb w "" then [] else [rev_str w ""]
  | String c s' =>
      if is_char 32 c then
        if String.eqb w "" then words_from "" s' else rev_str w "" :: words_from "" s'
      else words_from (String c w) s'
  end.
Definition words (s : string) : list string := words_from "" s.
