(* ===== verification/CacheModel.v ===== *)
(** The eviction cache, as the code has it: src/cache/kvs_cache.c.

    The nodes live in a heap.  The LRU list and the four lists of ARC are
    doubly linked through [prev] and [next]; the LFU structure is a binary heap
    in an array of node pointers, from index 1.  The statistics the cache keeps
    (and the advice it gives) are in CacheStats.v. *)
From Stdlib Require Import SpecFloat.
From S2P Require Import Prelude.

Local Open Scope Z_scope.

Definition EVICT_LRU : Z := 0.
Definition EVICT_LFU : Z := 1.
Definition EVICT_ARC : Z := 2.
Definition DEFAULT_MAX_ITEMS : Z := 1000.
Definition HISTORY_SIZE : Z := 20.
Definition MINUTE_WINDOW : Z := 60.
Definition HOUR_WINDOW : Z := 24.
Definition CONFIDENCE_HIGH : Z := 3.
Definition CONFIDENCE_MEDIUM : Z := 2.
Definition CONFIDENCE_LOW : Z := 1.

(** [unsigned long]. *)
Definition u64 (z : Z) : Z := z mod 2 ^ 64.

Inductive AccessPattern : Type :=
  | PATTERN_STABLE | PATTERN_BURSTY | PATTERN_PERIODIC | PATTERN_RANDOM.

(** * Data *)

Record EvictNode := EvNode {
  ev_key : cptr;
  ev_value : cptr;
  ev_value_len : Z;
  ev_prev : nptr;
  ev_next : nptr;
  ev_access_time : Z;
  ev_access_count : Z;
  ev_is_frequent : Z
}.

Record LRUCache := LRU {
  l_head : nptr;
  l_tail : nptr;
  l_size : Z;
  l_max_size : Z
}.

(** [nodes] is null when [calloc] failed or after [kvs_cache_destroy]. *)
Record LFUCache := LFU {
  f_nodes : option (list nptr);
  f_size : Z;
  f_capacity : Z
}.

(** The lists of ARC are allocated blocks; a null one is [None]. *)
Record ARCCache := ARC {
  a_t1 : option LRUCache;
  a_t2 : option LRUCache;
  a_b1 : option LRUCache;
  a_b2 : option LRUCache;
  a_target_size : Z;
  a_max_size : Z
}.

(** The floats are binary32 numbers. *)
Record AIStats := AI {
  ai_hit_rate_history : list spec_float;
  ai_history_idx : Z;
  ai_history_count : Z;
  ai_threshold_hit_rate : spec_float;
  ai_threshold_burst_ratio : spec_float;
  ai_access_by_minute : list Z;
  ai_access_by_hour : list Z;
  ai_predicted_qps : spec_float;
  ai_predicted_hit_rate : spec_float;
  ai_detected_pattern : AccessPattern;
  ai_pattern_confidence : Z;
  ai_last_minute : Z;
  ai_last_hour : Z;
  ai_auto_adjust_enabled : Z;
  ai_last_adjust_time : Z;
  ai_adjust_cooldown : Z
}.

Record CacheManager := CM {
  c_policy : Z;
  c_max_items : Z;
  c_lru : LRUCache;
  c_lfu : LFUCache;
  c_arc : ARCCache;
  c_total_access : Z;
  c_cache_hit : Z;
  c_cache_miss : Z;
  c_eviction_count : Z;
  c_policy_changes : Z;
  c_access_by_second : list Z;
  c_last_update_time : Z;
  c_ai : AIStats;
  c_heap : gmap loc EvictNode
}.

(** The manager after [memset(&g_cache, 0, sizeof(CacheManager))]. *)
Definition zero_float : spec_float := S754_zero false.
Definition zero_lru : LRUCache := LRU None None 0 0.
Definition zero_ai : AIStats :=
  AI (replicate (Z.to_nat HISTORY_SIZE) zero_float) 0 0 zero_float zero_float
     (replicate (Z.to_nat MINUTE_WINDOW) 0) (replicate (Z.to_nat HOUR_WINDOW) 0)
     zero_float zero_float PATTERN_STABLE 0 0 0 0 0 0.
Definition zero_cache (h : gmap loc EvictNode) : CacheManager :=
  CM 0 0 zero_lru (LFU None 0 0) (ARC None None None None 0 0) 0 0 0 0 0
     (replicate 60 0) 0 zero_ai h.
Definition g_cache : CacheManager := zero_cache ∅.

(** ** Field updates *)

Definition ev_set_key p n := EvNode p (ev_value n) (ev_value_len n) (ev_prev n) (ev_next n)
  (ev_access_time n) (ev_access_count n) (ev_is_frequent n).
Definition ev_set_value p n := EvNode (ev_key n) p (ev_value_len n) (ev_prev n) (ev_next n)
  (ev_access_time n) (ev_access_count n) (ev_is_frequent n).
Definition ev_set_value_len z n := EvNode (ev_key n) (ev_value n) z (ev_prev n) (ev_next n)
  (ev_access_time n) (ev_access_count n) (ev_is_frequent n).
Definition ev_set_prev p n := EvNode (ev_key n) (ev_value n) (ev_value_len n) p (ev_next n)
  (ev_access_time n) (ev_access_count n) (ev_is_frequent n).
Definition ev_set_next p n := EvNode (ev_key n) (ev_value n) (ev_value_len n) (ev_prev n) p
  (ev_access_time n) (ev_access_count n) (ev_is_frequent n).
Definition ev_set_access_time z n := EvNode (ev_key n) (ev_value n) (ev_value_len n) (ev_prev n)
  (ev_next n) z (ev_access_count n) (ev_is_frequent n).
Definition ev_set_access_count z n := EvNode (ev_key n) (ev_value n) (ev_value_len n) (ev_prev n)
  (ev_next n) (ev_access_time n) z (ev_is_frequent n).
Definition ev_set_is_frequent z n := EvNode (ev_key n) (ev_value n) (ev_value_len n) (ev_prev n)
  (ev_next n) (ev_access_time n) (ev_access_count n) z.

Definition l_set_head p c := LRU p (l_tail c) (l_size c) (l_max_size c).
Definition l_set_tail p c := LRU (l_head c) p (l_size c) (l_max_size c).
Definition l_set_size z c := LRU (l_head c) (l_tail c) z (l_max_size c).

Definition c_set_policy z c := CM z (c_max_items c) (c_lru c) (c_lfu c) (c_arc c)
  (c_total_access c) (c_cache_hit c) (c_cache_miss c) (c_eviction_count c) (c_policy_changes c)
  (c_access_by_second c) (c_last_update_time c) (c_ai c) (c_heap c).
Definition c_set_max_items z c := CM (c_policy c) z (c_lru c) (c_lfu c) (c_arc c)
  (c_total_access c) (c_cache_hit c) (c_cache_miss c) (c_eviction_count c) (c_policy_changes c)
  (c_access_by_second c) (c_last_update_time c) (c_ai c) (c_heap c).
Definition c_set_lru l c := CM (c_policy c) (c_max_items c) l (c_lfu c) (c_arc c)
  (c_total_access c) (c_cache_hit c) (c_cache_miss c) (c_eviction_count c) (c_policy_changes c)
  (c_access_by_second c) (c_last_update_time c) (c_ai c) (c_heap c).
Definition c_set_lfu f c := CM (c_policy c) (c_max_items c) (c_lru c) f (c_arc c)
  (c_total_access c) (c_cache_hit c) (c_cache_miss c) (c_eviction_count c) (c_policy_changes c)
  (c_access_by_second c) (c_last_update_time c) (c_ai c) (c_heap c).
Definition c_set_arc a c := CM (c_policy c) (c_max_items c) (c_lru c) (c_lfu c) a
  (c_total_access c) (c_cache_hit c) (c_cache_miss c) (c_eviction_count c) (c_policy_changes c)
  (c_access_by_second c) (c_last_update_time c) (c_ai c) (c_heap c).
Definition c_set_total_access z c := CM (c_policy c) (c_max_items c) (c_lru c) (c_lfu c) (c_arc c)
  z (c_cache_hit c) (c_cache_miss c) (c_eviction_count c) (c_policy_changes c)
  (c_access_by_second c) (c_last_update_time c) (c_ai c) (c_heap c).
Definition c_set_cache_hit z c := CM (c_policy c) (c_max_items c) (c_lru c) (c_lfu c) (c_arc c)
  (c_total_access c) z (c_cache_miss c) (c_eviction_count c) (c_policy_changes c)
  (c_access_by_second c) (c_last_update_time c) (c_ai c) (c_heap c).
Definition c_set_cache_miss z c := CM (c_policy c) (c_max_items c) (c_lru c) (c_lfu c) (c_arc c)
  (c_total_access c) (c_cache_hit c) z (c_eviction_count c) (c_policy_changes c)
  (c_access_by_second c) (c_last_update_time c) (c_ai c) (c_heap c).
Definition c_set_eviction_count z c := CM (c_policy c) (c_max_items c) (c_lru c) (c_lfu c) (c_arc c)
  (c_total_access c) (c_cache_hit c) (c_cache_miss c) z (c_policy_changes c)
  (c_access_by_second c) (c_last_update_time c) (c_ai c) (c_heap c).
Definition c_set_policy_changes z c := CM (c_policy c) (c_max_items c) (c_lru c) (c_lfu c) (c_arc c)
  (c_total_access c) (c_cache_hit c) (c_cache_miss c) (c_eviction_count c) z
  (c_access_by_second c) (c_last_update_time c) (c_ai c) (c_heap c).
Definition c_set_access_by_second l c := CM (c_policy c) (c_max_items c) (c_lru c) (c_lfu c) (c_arc c)
  (c_total_access c) (c_cache_hit c) (c_cache_miss c) (c_eviction_count c) (c_policy_changes c)
  l (c_last_update_time c) (c_ai c) (c_heap c).
Definition c_set_last_update_time z c := CM (c_policy c) (c_max_items c) (c_lru c) (c_lfu c) (c_arc c)
  (c_total_access c) (c_cache_hit c) (c_cache_miss c) (c_eviction_count c) (c_policy_changes c)
  (c_access_by_second c) z (c_ai c) (c_heap c).
Definition c_set_ai a c := CM (c_policy c) (c_max_items c) (c_lru c) (c_lfu c) (c_arc c)
  (c_total_access c) (c_cache_hit c) (c_cache_miss c) (c_eviction_count c) (c_policy_changes c)
  (c_access_by_second c) (c_last_update_time c) a (c_heap c).
Definition c_set_heap h c := CM (c_policy c) (c_max_items c) (c_lru c) (c_lfu c) (c_arc c)
  (c_total_access c) (c_cache_hit c) (c_cache_miss c) (c_eviction_count c) (c_policy_changes c)
  (c_access_by_second c) (c_last_update_time c) (c_ai c) h.

(** [unsigned long] counters wrap around. *)
Definition bump_total_access := modify (λ c, c_set_total_access (u64 (c_total_access c + 1)) c).
Definition bump_cache_hit := modify (λ c, c_set_cache_hit (u64 (c_cache_hit c + 1)) c).
Definition bump_cache_miss := modify (λ c, c_set_cache_miss (u64 (c_cache_miss c + 1)) c).
Definition bump_eviction_count := modify (λ c, c_set_eviction_count (u64 (c_eviction_count c + 1)) c).

(** * Access to the nodes *)

Definition eload (p : nptr) : M CacheManager EvictNode :=
  match p with
  | Some x => h ← gets c_heap; some_or_ub (h !! x)
  | None => ub
  end.
Definition estore (p : nptr) (f : EvictNode → EvictNode) : M CacheManager unit :=
  match p with
  | Some x =>
      h ← gets c_heap;
      n ← some_or_ub (h !! x);
      modify (λ c, c_set_heap (<[x := f n]> (c_heap c)) c)
  | None => ub
  end.

(** [kvs_malloc(sizeof(EvictNode))]: the pointers and numbers of a new node are
    written before they are read; the strings are not. *)
Definition fresh_node : EvictNode := EvNode PFreed PFreed 0 None None 0 0 0.
Definition ealloc : M CacheManager nptr :=
  ok ← malloc_ok;
  if ok : bool then
    h ← gets c_heap;
    let x := fresh (dom h) in
    modify (λ c, c_set_heap (<[x := fresh_node]> (c_heap c)) c);;
    mret (Some x)
  else mret None.
Definition efree (p : nptr) : M CacheManager unit :=
  match p with
  | None => mret tt
  | Some x =>
      eload p;;
      modify (λ c, c_set_heap (delete x (c_heap c)) c);;
      free_block
  end.
(** [kvs_free] of the key, the value and the node. *)
Definition free_node (p : nptr) : M CacheManager unit :=
  n ← eload p; kvs_free (ev_key n);;
  n ← eload p; kvs_free (ev_value n);;
  efree p.

Definition pnull (p : nptr) : bool := match p with None => true | Some _ => false end.

(** * Time *)

Definition current_time_ms {S} : M S Z :=
  ts ← clock_gettime;
  mret (u64 (ts.1 * 1000 + ts.2 / 1000000)).
Definition current_time_sec {S} : M S Z :=
  ts ← clock_gettime;
  mret (u64 ts.1).

(** * LRU lists *)

(** The lists of the manager: [&g_cache.lru] and the four lists of ARC. *)
Inductive lref : Type := LLru | LT1 | LT2 | LB1 | LB2.

Definition get_list (r : lref) : M CacheManager LRUCache :=
  match r with
  | LLru => gets c_lru
  | LT1 => a ← gets c_arc; some_or_ub (a_t1 a)
  | LT2 => a ← gets c_arc; some_or_ub (a_t2 a)
  | LB1 => a ← gets c_arc; some_or_ub (a_b1 a)
  | LB2 => a ← gets c_arc; some_or_ub (a_b2 a)
  end.
Definition a_set_list (r : lref) (l : option LRUCache) (a : ARCCache) : ARCCache :=
  match r with
  | LLru => a
  | LT1 => ARC l (a_t2 a) (a_b1 a) (a_b2 a) (a_target_size a) (a_max_size a)
  | LT2 => ARC (a_t1 a) l (a_b1 a) (a_b2 a) (a_target_size a) (a_max_size a)
  | LB1 => ARC (a_t1 a) (a_t2 a) l (a_b2 a) (a_target_size a) (a_max_size a)
  | LB2 => ARC (a_t1 a) (a_t2 a) (a_b1 a) l (a_target_size a) (a_max_size a)
  end.
Definition set_list (r : lref) (l : LRUCache) (c : CacheManager) : CacheManager :=
  match r with
  | LLru => c_set_lru l c
  | _ => c_set_arc (a_set_list r (Some l) (c_arc c)) c
  end.
Definition upd_list (r : lref) (f : LRUCache → LRUCache) : M CacheManager unit :=
  l ← get_list r;
  modify (set_list r (f l)).

Definition lru_init (cache : lref) (max_size : Z) : M CacheManager unit :=
  upd_list cache (λ _, LRU None None 0 max_size).

Definition lru_remove (cache : lref) (node : nptr) : M CacheManager unit :=
  n ← eload node;
  (if negb (pnull (ev_prev n)) then estore (ev_prev n) (ev_set_next (ev_next n))
   else upd_list cache (l_set_head (ev_next n)));;
  n ← eload node;
  (if negb (pnull (ev_next n)) then estore (ev_next n) (ev_set_prev (ev_prev n))
   else upd_list cache (l_set_tail (ev_prev n)));;
  l ← get_list cache;
  z ← ck_int (l_size l - 1);
  upd_list cache (l_set_size z).

Definition lru_add_front (cache : lref) (node : nptr) : M CacheManager unit :=
  l ← get_list cache;
  estore node (ev_set_next (l_head l));;
  estore node (ev_set_prev None);;
  l ← get_list cache;
  (if negb (pnull (l_head l)) then estore (l_head l) (ev_set_prev node) else mret tt);;
  upd_list cache (l_set_head node);;
  l ← get_list cache;
  (if pnull (l_tail l) then upd_list cache (l_set_tail node) else mret tt);;
  l ← get_list cache;
  z ← ck_int (l_size l + 1);
  upd_list cache (l_set_size z).

(** [lru_remove_node] and [lru_add_node_front] repeat the two functions above. *)
Definition lru_remove_node : lref → nptr → M CacheManager unit := lru_remove.
Definition lru_add_node_front : lref → nptr → M CacheManager unit := lru_add_front.

Definition lru_touch (cache : lref) (node : nptr) : M CacheManager unit :=
  lru_remove cache node;;
  lru_add_front cache node;;
  t ← current_time_ms;
  estore node (ev_set_access_time t).

Definition lru_evict (cache : lref) : M CacheManager nptr :=
  l ← get_list cache;
  if pnull (l_tail l) then mret None else
  let victim := l_tail l in
  lru_remove cache victim;;
  mret victim.

(** The fuel of the loops over the nodes. *)
Definition cache_fuel : M CacheManager nat := h ← gets c_heap; mret (S (size h)).

(** Walking a list from [node] to the first node with the key.  A node whose key
    is null is skipped. *)
Fixpoint find_from (fuel : nat) (node : nptr) (key : cptr) : M CacheManager nptr :=
  match fuel with
  | O => out_of_fuel
  | S fuel' =>
      if pnull node then mret None else
      n ← eload node;
      same ← (if is_null (ev_key n) then mret false else
              nk ← deref (ev_key n); k ← deref key; mret (strcmp nk k =? 0));
      if same : bool then mret node else
      find_from fuel' (ev_next n) key
  end.
Definition lru_find (cache : lref) (key : cptr) : M CacheManager nptr :=
  l ← get_list cache;
  fuel ← cache_fuel;
  find_from fuel (l_head l) key.

(** * The LFU heap *)

Definition lfu_init (capacity : Z) : M CacheManager unit :=
  n ← ck_int (capacity + 1);
  ok ← malloc_ok;
  modify (c_set_lfu (LFU (if ok : bool then Some (replicate (Z.to_nat n) None) else None) 0 capacity)).

(** [nodes[i]]: out of the array is undefined behaviour. *)
Definition lfu_at (i : Z) : M CacheManager nptr :=
  f ← gets c_lfu;
  ns ← some_or_ub (f_nodes f);
  if decide (0 ≤ i) then some_or_ub (ns !! Z.to_nat i) else ub.
Definition lfu_put (i : Z) (p : nptr) : M CacheManager unit :=
  f ← gets c_lfu;
  ns ← some_or_ub (f_nodes f);
  if decide (0 ≤ i < Z.of_nat (length ns)) then
    modify (c_set_lfu (LFU (Some (<[Z.to_nat i := p]> ns)) (f_size f) (f_capacity f)))
  else ub.
Definition lfu_size : M CacheManager Z := f ← gets c_lfu; mret (f_size f).
Definition lfu_set_size (z : Z) : M CacheManager unit :=
  modify (λ c, c_set_lfu (LFU (f_nodes (c_lfu c)) z (f_capacity (c_lfu c))) c).
Definition lfu_count (i : Z) : M CacheManager Z :=
  p ← lfu_at i;
  n ← eload p;
  mret (ev_access_count n).

Definition lfu_swap (i j : Z) : M CacheManager unit :=
  tmp ← lfu_at i;
  q ← lfu_at j;
  lfu_put i q;;
  lfu_put j tmp.

Fixpoint lfu_heapify_up_loop (fuel : nat) (idx : Z) : M CacheManager unit :=
  match fuel with
  | O => out_of_fuel
  | S fuel' =>
      if negb (1 <? idx) then mret tt else
      let parent := idx / 2 in
      pc ← lfu_count parent;
      ic ← lfu_count idx;
      if (pc <=? ic) then mret tt else
      lfu_swap parent idx;;
      lfu_heapify_up_loop fuel' parent
  end.
Definition lfu_heapify_up (idx : Z) : M CacheManager unit :=
  lfu_heapify_up_loop (S (Z.to_nat idx)) idx.

(** One comparison of [lfu_heapify_down]: the smaller of [smallest] and [child]. *)
Definition smaller_child (child smallest : Z) : M CacheManager Z :=
  size ← lfu_size;
  if (child <=? size) then
    cc ← lfu_count child;
    sc ← lfu_count smallest;
    mret (if (cc <? sc) then child else smallest)
  else mret smallest.
Fixpoint lfu_heapify_down_loop (fuel : nat) (idx : Z) : M CacheManager unit :=
  match fuel with
  | O => out_of_fuel
  | S fuel' =>
      left ← ck_int (idx * 2);
      right ← ck_int (left + 1);
      smallest ← smaller_child left idx;
      smallest ← smaller_child right smallest;
      if (smallest =? idx) then mret tt else
      lfu_swap smallest idx;;
      lfu_heapify_down_loop fuel' smallest
  end.
Definition lfu_heapify_down (idx : Z) : M CacheManager unit :=
  size ← lfu_size;
  lfu_heapify_down_loop (S (Z.to_nat size)) idx.

Definition lfu_add (node : nptr) : M CacheManager unit :=
  f ← gets c_lfu;
  if (f_capacity f <=? f_size f) then mret tt else
  lfu_set_size (f_size f + 1);;
  size ← lfu_size;
  lfu_put size node;;
  lfu_heapify_up size.

(** [lfu_touch] has no caller; it counts an access without moving the node. *)
Definition lfu_touch (node : nptr) : M CacheManager unit :=
  estore node (λ n, ev_set_access_count (u64 (ev_access_count n + 1)) n).

Definition lfu_evict : M CacheManager nptr :=
  size ← lfu_size;
  if (size =? 0) then mret None else
  victim ← lfu_at 1;
  last ← lfu_at size;
  lfu_put 1 last;;
  lfu_set_size (size - 1);;
  lfu_heapify_down 1;;
  mret victim.

(** * ARC *)

Definition ARC_MISS : Z := 0.
Definition ARC_HIT_T1 : Z := 1.
Definition ARC_HIT_T2 : Z := 2.
Definition ARC_HIT_B1 : Z := 3.
Definition ARC_HIT_B2 : Z := 4.

(** [calloc(1, sizeof(LRUCache))]. *)
Definition calloc_list (r : lref) : M CacheManager unit :=
  ok ← malloc_ok;
  modify (λ c, c_set_arc (a_set_list r (if ok : bool then Some zero_lru else None) (c_arc c)) c).
Definition set_target (z : Z) : M CacheManager unit :=
  modify (λ c, let a := c_arc c in
    c_set_arc (ARC (a_t1 a) (a_t2 a) (a_b1 a) (a_b2 a) z (a_max_size a)) c).
Definition get_target : M CacheManager Z := a ← gets c_arc; mret (a_target_size a).
Definition get_arc_max : M CacheManager Z := a ← gets c_arc; mret (a_max_size a).
Definition list_size (r : lref) : M CacheManager Z := l ← get_list r; mret (l_size l).

Definition arc_init (max_size : Z) : M CacheManager unit :=
  modify (λ c, let a := c_arc c in
    c_set_arc (ARC (a_t1 a) (a_t2 a) (a_b1 a) (a_b2 a) (a_target_size a) max_size) c);;
  set_target (Z.quot max_size 2);;
  calloc_list LT1;;
  calloc_list LT2;;
  calloc_list LB1;;
  calloc_list LB2;;
  lru_init LT1 max_size;;
  lru_init LT2 max_size;;
  lru_init LB1 max_size;;
  lru_init LB2 max_size.

(** The step by which a ghost hit moves the target: [own] is the ghost list that
    was hit, [other] the other one. *)
Definition arc_delta (own other : lref) : M CacheManager Z :=
  so ← list_size other;
  if (0 <? so) then
    so ← list_size other;
    sn ← list_size own;
    if decide (sn = 0) then ub else
    let delta := Z.quot so sn in
    mret (if (delta <? 1) then 1 else delta)
  else mret 1.

(** A hit moves the node to the front of T2. *)
Definition promote (from : lref) (node : nptr) : M CacheManager unit :=
  lru_remove_node from node;;
  lru_add_node_front LT2 node.
Definition set_frequent (node : nptr) : M CacheManager unit := estore node (ev_set_is_frequent 1).

Definition arc_access (key : cptr) : M CacheManager Z :=
  node ← lru_find LT1 key;
  if negb (pnull node) then
    promote LT1 node;;
    set_frequent node;;
    mret ARC_HIT_T1
  else
  node ← lru_find LT2 key;
  if negb (pnull node) then
    promote LT2 node;;
    mret ARC_HIT_T2
  else
  node ← lru_find LB1 key;
  if negb (pnull node) then
    delta ← arc_delta LB1 LB2;
    target ← get_target;
    z ← ck_int (target + delta);
    set_target z;;
    target ← get_target;
    max_size ← get_arc_max;
    (if (max_size <? target) then set_target max_size else mret tt);;
    promote LB1 node;;
    set_frequent node;;
    mret ARC_HIT_B1
  else
  node ← lru_find LB2 key;
  if negb (pnull node) then
    delta ← arc_delta LB2 LB1;
    target ← get_target;
    z ← ck_int (target - delta);
    set_target z;;
    target ← get_target;
    (if (target <? 0) then set_target 0 else mret tt);;
    promote LB2 node;;
    set_frequent node;;
    mret ARC_HIT_B2
  else mret ARC_MISS.

(** [while (b->size > max_size)] drop the oldest ghost of [b]. *)
Fixpoint trim_ghosts (fuel : nat) (b : lref) : M CacheManager unit :=
  match fuel with
  | O => out_of_fuel
  | S fuel' =>
      size ← list_size b;
      max_size ← get_arc_max;
      if (max_size <? size) then
        l ← get_list b;
        let old_ghost := l_tail l in
        lru_remove_node b old_ghost;;
        n ← eload old_ghost;
        kvs_free (ev_key n);;
        efree old_ghost;;
        trim_ghosts fuel' b
      else mret tt
  end.

(** A victim leaves a ghost of its key in [b]. *)
Definition leave_ghost (b : lref) (is_frequent : Z) (victim : nptr) : M CacheManager unit :=
  ghost ← ealloc;
  v ← eload victim;
  k ← kvs_strdup (ev_key v);
  estore ghost (ev_set_key k);;
  estore ghost (ev_set_value PNull);;
  estore ghost (ev_set_value_len 0);;
  estore ghost (ev_set_is_frequent is_frequent);;
  t ← current_time_ms;
  estore ghost (ev_set_access_time t);;
  v ← eload victim;
  estore ghost (ev_set_access_count (ev_access_count v));;
  lru_add_node_front b ghost;;
  fuel ← cache_fuel;
  trim_ghosts fuel b.

Definition arc_evict : M CacheManager nptr :=
  s1 ← list_size LT1;
  s2 ← list_size LT2;
  total ← ck_int (s1 + s2);
  max_size ← get_arc_max;
  if (total <? max_size) then mret None else
  s1 ← list_size LT1;
  target ← get_target;
  l1 ← get_list LT1;
  if (target <? s1) && negb (pnull (l_tail l1)) then
    let victim := l_tail l1 in
    lru_remove_node LT1 victim;;
    leave_ghost LB1 0 victim;;
    mret victim
  else
  l2 ← get_list LT2;
  if negb (pnull (l_tail l2)) then
    let victim := l_tail l2 in
    lru_remove_node LT2 victim;;
    leave_ghost LB2 1 victim;;
    mret victim
  else mret None.

(** [value = kvs_malloc(value_len); memcpy(value, src, value_len)].  The cache is
    only given C strings with their length including the terminator; a copy
    into a null block is undefined behaviour. *)
Definition copy_value (src : cptr) (value_len : Z) : M CacheManager cptr :=
  s ← deref src;
  if decide (value_len = Z.of_nat (String.length s) + 1) then
    ok ← malloc_ok;
    if ok : bool then mret (PStr s) else ub
  else ub.

Definition arc_add (key value : cptr) (value_len : Z) : M CacheManager unit :=
  victim ← arc_evict;
  (if negb (pnull victim) then free_node victim else mret tt);;
  node ← ealloc;
  k ← kvs_strdup key;
  estore node (ev_set_key k);;
  v ← copy_value value value_len;
  estore node (ev_set_value v);;
  estore node (ev_set_value_len value_len);;
  estore node (ev_set_is_frequent 0);;
  t ← current_time_ms;
  estore node (ev_set_access_time t);;
  estore node (ev_set_access_count 1);;
  estore node (ev_set_next None);;
  estore node (ev_set_prev None);;
  lru_add_node_front LT1 node.

(** The value pointer, and the length the caller's [*value_len] receives. *)
Definition arc_get (key : cptr) : M CacheManager (cptr * option Z) :=
  hit_type ← arc_access key;
  if (hit_type =? ARC_HIT_T1) || (hit_type =? ARC_HIT_T2) then
    node ← lru_find LT2 key;
    node ← (if pnull node then lru_find LT1 key else mret node);
    if pnull node then mret (PNull, None) else
    n ← eload node;
    if is_null (ev_value n) then mret (PNull, None)
    else mret (ev_value n, Some (ev_value_len n))
  else mret (PNull, None).

Definition arc_del (key : cptr) : M CacheManager Z :=
  node ← lru_find LT1 key;
  if negb (pnull node) then lru_remove_node LT1 node;; free_node node;; mret 0 else
  node ← lru_find LT2 key;
  if negb (pnull node) then lru_remove_node LT2 node;; free_node node;; mret 0 else
  node ← lru_find LB1 key;
  if negb (pnull node) then
    lru_remove_node LB1 node;;
    n ← eload node; kvs_free (ev_key n);;
    efree node;;
    mret 0
  else
  node ← lru_find LB2 key;
  if negb (pnull node) then
    lru_remove_node LB2 node;;
    n ← eload node; kvs_free (ev_key n);;
    efree node;;
    mret 0
  else mret (-1).

(** * The manager *)

(** 50.0f and 5.0f. *)
Definition f32_50 : spec_float := S754_finite false 13107200 (-18).
Definition f32_5 : spec_float := S754_finite false 10485760 (-21).

Definition kvs_cache_init (max_items : Z) : M CacheManager Z :=
  modify (λ c, zero_cache (c_heap c));;
  modify (c_set_policy EVICT_LRU);;
  modify (c_set_max_items (if (0 <? max_items) then max_items else DEFAULT_MAX_ITEMS));;
  m ← gets c_max_items;
  lru_init LLru m;;
  lfu_init m;;
  arc_init m;;
  modify (λ c, let a := c_ai c in
    c_set_ai (AI (ai_hit_rate_history a) (ai_history_idx a) (ai_history_count a)
                 f32_50 f32_5 (ai_access_by_minute a) (ai_access_by_hour a)
                 (ai_predicted_qps a) (ai_predicted_hit_rate a) (ai_detected_pattern a)
                 CONFIDENCE_MEDIUM (ai_last_minute a) (ai_last_hour a) 1
                 (ai_last_adjust_time a) 60) c);;
  mret 0.

(** Freeing a list from [node] on. *)
Fixpoint free_list (fuel : nat) (node : nptr) : M CacheManager unit :=
  match fuel with
  | O => out_of_fuel
  | S fuel' =>
      if pnull node then mret tt else
      n ← eload node;
      free_node node;;
      free_list fuel' (ev_next n)
  end.

Definition destroy_arc_list (l : option LRUCache) : M CacheManager unit :=
  match l with
  | None => mret tt
  | Some l =>
      fuel ← cache_fuel;
      free_list fuel (l_head l);;
      free_block
  end.

Definition kvs_cache_destroy : M CacheManager unit :=
  l ← gets c_lru;
  fuel ← cache_fuel;
  free_list fuel (l_head l);;
  upd_list LLru (l_set_head None);;
  upd_list LLru (l_set_tail None);;
  f ← gets c_lfu;
  match f_nodes f with
  | None => mret tt
  | Some _ =>
      for_up (R := unit) (Z.to_nat (f_size f)) 1 (λ i,
        p ← lfu_at i;
        (if negb (pnull p) then free_node p else mret tt);;
        mret None);;
      free_block;;
      modify (λ c, c_set_lfu (LFU None (f_size (c_lfu c)) (f_capacity (c_lfu c))) c)
  end;;
  a ← gets c_arc;
  destroy_arc_list (a_t1 a);;
  destroy_arc_list (a_t2 a);;
  destroy_arc_list (a_b1 a);;
  destroy_arc_list (a_b2 a);;
  modify (λ c, let a := c_arc c in
    c_set_arc (ARC None None None None (a_target_size a) (a_max_size a)) c).

(** [kvs_cache_touch_lru]: the keys of the list are compared without a null test. *)
Fixpoint touch_from (fuel : nat) (node : nptr) (key : cptr) : M CacheManager unit :=
  match fuel with
  | O => out_of_fuel
  | S fuel' =>
      if pnull node then mret tt else
      n ← eload node;
      nk ← deref (ev_key n); k ← deref key;
      if (strcmp nk k =? 0) then lru_touch LLru node
      else touch_from fuel' (ev_next n) key
  end.
Definition kvs_cache_touch_lru (key : cptr) : M CacheManager unit :=
  l ← gets c_lru;
  fuel ← cache_fuel;
  touch_from fuel (l_head l) key.

Definition kvs_cache_lru_evict_key : M CacheManager cptr :=
  victim ← lru_evict LLru;
  if negb (pnull victim) then
    bump_eviction_count;;
    n ← eload victim;
    let evicted_key := ev_key n in
    kvs_free (ev_value n);;
    efree victim;;
    mret evicted_key
  else mret PNull.

Definition kvs_cache_lru_need_evict : M CacheManager Z :=
  l ← gets c_lru;
  m ← gets c_max_items;
  mret (if (m <=? l_size l) then 1 else 0).

(** [while (g_cache.lru.size >= g_cache.max_items)] evict. *)
Fixpoint evict_loop (fuel : nat) : M CacheManager unit :=
  match fuel with
  | O => out_of_fuel
  | S fuel' =>
      need ← kvs_cache_lru_need_evict;
      if (need =? 1) then
        ek ← kvs_cache_lru_evict_key;
        (if negb (is_null ek) then kvs_free ek else mret tt);;
        evict_loop fuel'
      else mret tt
  end.

(** The new node of [kvs_cache_lru_add]. *)
Definition new_node (key value : cptr) (value_len : Z) : M CacheManager nptr :=
  node ← ealloc;
  k ← malloc_copy key;
  (* strcpy into the new block *)
  (if is_null k then ub else mret tt);;
  estore node (ev_set_key k);;
  v ← copy_value value value_len;
  estore node (ev_set_value v);;
  estore node (ev_set_value_len value_len);;
  t ← current_time_ms;
  estore node (ev_set_access_time t);;
  estore node (ev_set_access_count 1);;
  estore node (ev_set_next None);;
  estore node (ev_set_prev None);;
  mret node.

Definition kvs_cache_lru_add (key value : cptr) (value_len : Z) : M CacheManager unit :=
  policy ← gets c_policy;
  if (policy =? EVICT_ARC) then arc_add key value value_len else
  node ← new_node key value value_len;
  policy ← gets c_policy;
  if (policy =? EVICT_LRU) then
    fuel ← cache_fuel;
    evict_loop fuel;;
    lru_add_front LLru node
  else if (policy =? EVICT_LFU) then
    f ← gets c_lfu;
    (if (f_capacity f <=? f_size f) then
       victim ← lfu_evict;
       (if negb (pnull victim) then free_node victim else mret tt)
     else mret tt);;
    lfu_add node
  else mret tt.

Definition kvs_cache_set_policy (policy : Z) : M CacheManager unit :=
  modify (c_set_policy policy);;
  modify (λ c, c_set_policy_changes (u64 (c_policy_changes c + 1)) c).
Definition kvs_cache_get_policy : M CacheManager Z := gets c_policy.
Definition kvs_cache_record_hit : M CacheManager unit := bump_cache_hit.
Definition kvs_cache_record_miss : M CacheManager unit := bump_cache_miss.

(** [for (i = 1; i <= size; i++)] find the node with the key. *)
Definition lfu_find (key : cptr) : M CacheManager (option Z) :=
  size ← lfu_size;
  for_up (Z.to_nat size) 1 (λ i,
    p ← lfu_at i;
    if pnull p then mret None else
    n ← eload p;
    if is_null (ev_key n) then mret None else
    nk ← deref (ev_key n); k ← deref key;
    mret (if (strcmp nk k =? 0) then Some i else None)).

Definition kvs_cache_get (key : cptr) : M CacheManager (cptr * option Z) :=
  m ← gets c_max_items;
  if is_null key || (m =? 0) then mret (PNull, None) else
  policy ← gets c_policy;
  if (policy =? EVICT_LRU) then
    node ← lru_find LLru key;
    if negb (pnull node) then
      lru_touch LLru node;;
      bump_cache_hit;;
      bump_total_access;;
      n ← eload node;
      mret (ev_value n, Some (ev_value_len n))
    else bump_cache_miss;; bump_total_access;; mret (PNull, None)
  else if (policy =? EVICT_LFU) then
    i ← lfu_find key;
    match i with
    | Some i =>
        node ← lfu_at i;
        estore node (λ n, ev_set_access_count (u64 (ev_access_count n + 1)) n);;
        lfu_heapify_down i;;
        bump_cache_hit;;
        bump_total_access;;
        n ← eload node;
        mret (ev_value n, Some (ev_value_len n))
    | None => bump_cache_miss;; bump_total_access;; mret (PNull, None)
    end
  else if (policy =? EVICT_ARC) then
    r ← arc_get key;
    (if negb (is_null r.1) then bump_cache_hit else bump_cache_miss);;
    bump_total_access;;
    mret r
  else bump_cache_miss;; bump_total_access;; mret (PNull, None).

Definition kvs_cache_del (key : cptr) : M CacheManager Z :=
  m ← gets c_max_items;
  if is_null key || (m =? 0) then mret (-1) else
  policy ← gets c_policy;
  if (policy =? EVICT_LRU) then
    node ← lru_find LLru key;
    if negb (pnull node) then
      lru_remove LLru node;;
      free_node node;;
      mret 0
    else mret (-2)
  else if (policy =? EVICT_LFU) then
    i ← lfu_find key;
    match i with
    | Some i =>
        node ← lfu_at i;
        size ← lfu_size;
        last ← lfu_at size;
        lfu_put i last;;
        lfu_set_size (size - 1);;
        lfu_heapify_down i;;
        free_node node;;
        mret 0
    | None => mret (-2)
    end
  else if (policy =? EVICT_ARC) then arc_del key
  else mret (-2).

Definition kvs_cache_policy_name (policy : Z) : string :=
  if policy =? EVICT_LRU then "LRU"
  else if policy =? EVICT_LFU then "LFU"
  else if policy =? EVICT_ARC then "ARC"
  else "UNKNOWN".
