(* ===== verification/CacheSpec.v ===== *)
(** What the cache of src/cache/kvs_cache.c promises to the command dispatcher:
    the three calls the dispatcher makes ([kvs_cache_get], [kvs_cache_lru_add],
    [kvs_cache_del]) as data, and the contract of an eviction policy as a type
    class.  The dispatcher's theorems use the class; the files of the policies
    discharge it. *)
From S2P Require Import Prelude KvsSpec CacheModel.

Local Open Scope Z_scope.

Implicit Types (c : CacheManager) (k v : string) (e : env).

(** The length the callers pass with a string, and receive with a hit. *)
Definition len1 v : Z := Z.of_nat (String.length v) + 1.

(** The calls a cache can still serve before an [int] of it may overflow: [None] is
    no bound.  Every call spends one. *)
Abbreviation budget := (option nat).
Definition more (n : nat) (b : budget) : budget := Nat.add n <$> b.
Lemma more_more n1 n2 b : more n1 (more n2 b) = more (n1 + n2) b.
Proof. destruct b as [k|]; [|done]. simpl. f_equal. lia. Qed.

(** [cache_holds b c S]: the cache is well formed, works under the policy, can take
    [b] calls, and would answer exactly the pairs of [S].  A hit answers the pair
    and a miss null, neither changes what is cached; an addition makes room by
    forgetting other pairs, it never invents one; a deletion forgets the key. *)
Class CacheContract (policy : Z) := {
  cache_holds : budget → CacheManager → gmap string string → Prop;
  cache_holds_policy b c S : cache_holds b c S → c_policy c = policy;
  cache_holds_less n b c S : cache_holds (more n b) c S → cache_holds b c S;
  cache_get_law b e c S k :
    cache_holds (more 1 b) c S →
    wp (kvs_cache_get (PStr k)) e c (λ r e' c',
      r = (ptr_of (S !! k), len1 <$> (S !! k)) ∧ cache_holds b c' S ∧
      mallocs e' = mallocs e ∧ live e' = live e);
  cache_add_law b e c S k v :
    cache_holds (more 1 b) c S → S !! k = None → no_oom e →
    wp (kvs_cache_lru_add (PStr k) (PStr v) (len1 v)) e c (λ _ e' c',
      no_oom e' ∧ ∃ S', S' !! k = Some v ∧ S' ⊆ <[k := v]> S ∧ cache_holds b c' S');
  cache_del_law b e c S k :
    cache_holds (more 1 b) c S →
    wp (kvs_cache_del (PStr k)) e c (λ r e' c',
      (is_Some (S !! k) → r = 0) ∧ cache_holds b c' (delete k S) ∧
      mallocs e' = mallocs e)
}.

(** ** Sequences of calls *)

Inductive cache_op : Type :=
  | CGet (k : string)
  | CAdd (k v : string)
  | CDel (k : string).

Inductive cache_answer : Type :=
  | CHit (p : cptr)
  | CAdded
  | CCode (r : Z).

Definition cache_run (o : cache_op) : M CacheManager cache_answer :=
  match o with
  | CGet k => r ← kvs_cache_get (PStr k); mret (CHit r.1)
  | CAdd k v => kvs_cache_lru_add (PStr k) (PStr v) (len1 v);; mret CAdded
  | CDel k => r ← kvs_cache_del (PStr k); mret (CCode r)
  end.
Fixpoint cache_run_all (os : list cache_op) : M CacheManager (list cache_answer) :=
  match os with
  | [] => mret []
  | o :: os' =>
      a ← cache_run o;
      rest ← cache_run_all os';
      mret (a :: rest)
  end.
