(* ===== verification/CacheList.v ===== *)
(** The doubly linked lists of the cache (the LRU list and the four lists of
    ARC): the cells of a list, and what the pointer code of kvs_cache.c does to
    them. *)
From S2P Require Import Prelude CacheModel.

Local Open Scope Z_scope.

(** * The state, list by list *)

Global Instance lref_eq_dec : EqDecision lref.
Proof. solve_decision. Defined.

Definition the_list (r : lref) (c : CacheManager) : option LRUCache :=
  match r with
  | LLru => Some (c_lru c)
  | LT1 => a_t1 (c_arc c)
  | LT2 => a_t2 (c_arc c)
  | LB1 => a_b1 (c_arc c)
  | LB2 => a_b2 (c_arc c)
  end.
(** Everything but the lists and the nodes. *)
Definition rest (c : CacheManager) : CacheManager :=
  c_set_heap ∅ (c_set_lru zero_lru
    (c_set_arc (ARC None None None None (a_target_size (c_arc c)) (a_max_size (c_arc c))) c)).

Definition only_list (r : lref) (l : LRUCache) (c c' : CacheManager) : Prop :=
  (∀ r', the_list r' c' = if decide (r' = r) then Some l else the_list r' c) ∧ rest c' = rest c.
Definition same_lists (c c' : CacheManager) : Prop :=
  (∀ r, the_list r c' = the_list r c) ∧ rest c' = rest c.

Lemma same_lists_refl c : same_lists c c.
Proof. done. Qed.
Lemma same_lists_trans c1 c2 c3 : same_lists c1 c2 → same_lists c2 c3 → same_lists c1 c3.
Proof. intros [H1 H2] [H3 H4]. split; [intros r; by rewrite H3|congruence]. Qed.
Lemma only_same r l c1 c2 c3 : only_list r l c1 c2 → same_lists c2 c3 → only_list r l c1 c3.
Proof. intros [H1 H2] [H3 H4]. split; [intros r'; by rewrite H3|congruence]. Qed.
Lemma same_only r l c1 c2 c3 : same_lists c1 c2 → only_list r l c2 c3 → only_list r l c1 c3.
Proof.
  intros [H1 H2] [H3 H4]. split; [intros r'; rewrite H3|congruence].
  destruct (decide (r' = r)); [done|]. apply H1.
Qed.
Lemma only_only r l l' c1 c2 c3 : only_list r l c1 c2 → only_list r l' c2 c3 → only_list r l' c1 c3.
Proof.
  intros [H1 H2] [H3 H4]. split; [intros r'; rewrite H3|congruence].
  destruct (decide (r' = r)); [done|]. by rewrite H1, decide_False.
Qed.
Lemma only_list_at r l c c' : only_list r l c c' → the_list r c' = Some l.
Proof. intros [H _]. rewrite H. by rewrite decide_True. Qed.
Lemma only_list_ne r r' l c c' : only_list r l c c' → r' ≠ r → the_list r' c' = the_list r' c.
Proof. intros [H _] Hne. rewrite H. by rewrite decide_False. Qed.

(** * Access rules *)

Section access.
Implicit Types (c : CacheManager).

Lemma wp_get_list r l e c Q : the_list r c = Some l → Q l e c → wp (get_list r) e c Q.
Proof. destruct r; simpl; intros [= Hl] HQ; subst; repeat wp_step; by rewrite ?Hl. Qed.
Lemma wp_upd_list r f l e c Q :
  the_list r c = Some l →
  (∀ c', only_list r (f l) c c' → c_heap c' = c_heap c → Q tt e c') →
  wp (upd_list r f) e c Q.
Proof.
  intros Hl HQ. unfold upd_list. wp_step. eapply wp_get_list; [done|]. wp_step. apply HQ.
  - split; [|by destruct r]. intros r'. by destruct r, r'.
  - by destruct r.
Qed.
Lemma wp_eload x n l r e c Q :
  heap_is (c_heap c) l → Front [(x, n)] l r → Q n e c → wp (eload (Some x)) e c Q.
Proof. intros Hh Hf HQ. simpl. wp_steps. by rewrite (heap_is_lookup _ _ _ _ _ Hh Hf). Qed.
Lemma wp_estore x f n l r e c Q :
  heap_is (c_heap c) l → Front [(x, n)] l r →
  (∀ c', same_lists c c' → heap_is (c_heap c') ((x, f n) :: r) → Q tt e c') →
  wp (estore (Some x) f) e c Q.
Proof.
  intros Hh Hf HQ. simpl. wp_steps. rewrite (heap_is_lookup _ _ _ _ _ Hh Hf). wp_steps.
  apply HQ; [by split; [intros []|]|]. by eapply heap_is_store.
Qed.
Lemma wp_ealloc l e c Q :
  heap_is (c_heap c) l → malloc_fails e = false →
  (∀ x c', same_lists c c' → heap_is (c_heap c') ((x, fresh_node) :: l) →
    Q (Some x) (after_malloc e) c') →
  wp ealloc e c Q.
Proof.
  intros Hh Hf HQ. unfold ealloc. repeat wp_step. rewrite Hf. simpl. repeat wp_step.
  apply HQ; [by split; [intros []|]|]. apply heap_is_alloc; [exact Hh|apply is_fresh].
Qed.
Lemma wp_efree x n l r e c Q :
  heap_is (c_heap c) l → Front [(x, n)] l r →
  (∀ c', same_lists c c' → heap_is (c_heap c') r → Q tt (add_live (-1) e) c') →
  wp (efree (Some x)) e c Q.
Proof.
  intros Hh Hf HQ. unfold efree. wp_step. eapply wp_eload; [done..|]. repeat wp_step.
  apply HQ; [by split; [intros []|]|]. by eapply heap_is_free.
Qed.
End access.
Arguments eload : simpl never.
Arguments estore : simpl never.
Arguments efree : simpl never.
Arguments ealloc : simpl never.
Arguments get_list : simpl never.
Arguments upd_list : simpl never.

(** * The cells of a list *)

Definition links (p q : nptr) (n : EvictNode) : EvictNode :=
  EvNode (ev_key n) (ev_value n) (ev_value_len n) p q (ev_access_time n) (ev_access_count n)
    (ev_is_frequent n).

Implicit Types (d : list (loc * EvictNode)).

Definition first_loc d (q : nptr) : nptr := match d with [] => q | (x, _) :: _ => Some x end.
Fixpoint last_loc (p : nptr) d : nptr :=
  match d with [] => p | (x, _) :: d' => last_loc (Some x) d' end.

(** The cells of a segment between [p] and [q]. *)
Fixpoint dseg (p : nptr) d (q : nptr) : list (loc * EvictNode) :=
  match d with
  | [] => []
  | (x, n) :: d' => (x, links p (first_loc d' q) n) :: dseg (Some x) d' q
  end.
Definition dcells d : list (loc * EvictNode) := dseg None d None.

Lemma first_loc_app d1 d2 q : first_loc (d1 ++ d2) q = first_loc d1 (first_loc d2 q).
Proof. by destruct d1 as [|[x n] d1]. Qed.
Lemma last_loc_app p d1 d2 : last_loc p (d1 ++ d2) = last_loc (last_loc p d1) d2.
Proof. revert p. by induction d1 as [|[x n] d1 IH]; intros p; simpl. Qed.
Lemma dseg_app p d1 d2 q :
  dseg p (d1 ++ d2) q = dseg p d1 (first_loc d2 q) ++ dseg (last_loc p d1) d2 q.
Proof.
  revert p. induction d1 as [|[x n] d1 IH]; intros p; simpl; [done|].
  by rewrite IH, first_loc_app.
Qed.
Lemma dseg_locs p d q : (dseg p d q).*1 = d.*1.
Proof. revert p. induction d as [|[x n] d IH]; intros p; simpl; [done|]. by rewrite IH. Qed.
Lemma links_links p q p' q' n : links p q (links p' q' n) = links p q n.
Proof. done. Qed.
Lemma dseg_links p d q x n p' q' d2 :
  dseg p (d ++ (x, links p' q' n) :: d2) q = dseg p (d ++ (x, n) :: d2) q.
Proof. by rewrite !dseg_app. Qed.

(** The header of a list with the nodes [d]. *)
Definition lru_of d (mx : Z) : LRUCache :=
  LRU (first_loc d None) (last_loc None d) (Z.of_nat (length d)) mx.

Section lists.
Implicit Types (c : CacheManager) (ex : list (loc * EvictNode)).

Lemma same_only_list r l c c' : same_lists c c' → the_list r c = Some l → only_list r l c c'.
Proof.
  intros [H1 H2] Hl. split; [|done]. intros r'. rewrite H1. by destruct (decide (r' = r)) as [->|].
Qed.

(** Making the last node of a segment (or the head of the list) point to [q']. *)
Lemma wp_fix_next r d q q' l ex e c Q :
  the_list r c = Some l → l_head l = first_loc d q →
  heap_is (c_heap c) (dseg None d q ++ ex) →
  (∀ c', only_list r (l_set_head (first_loc d q') l) c c' →
    heap_is (c_heap c') (dseg None d q' ++ ex) → Q tt e c') →
  wp (if negb (pnull (last_loc None d)) then estore (last_loc None d) (ev_set_next q')
      else upd_list r (l_set_head q')) e c Q.
Proof.
  intros Hl Hhd Hh HQ. destruct d as [|[y m] d _] using rev_ind; simpl in *.
  - eapply wp_upd_list; [exact Hl|]. intros c' Ho Hh'. apply HQ; [done|]. by rewrite Hh'.
  - rewrite last_loc_app in *. simpl. rewrite dseg_app in Hh. simpl in Hh.
    eapply wp_estore; [exact Hh|typeclasses eauto|]. intros c' Hs Hh'. apply HQ.
    + assert (l_set_head (first_loc (d ++ [(y, m)]) q') l = l) as ->.
      { rewrite !first_loc_app in *. simpl in *. rewrite <-Hhd. by destruct l. }
      by apply same_only_list.
    + rewrite dseg_app. simpl. eapply heap_is_perm; [exact Hh'|].
      change (ev_set_next q' (links (last_loc None d) q m)) with (links (last_loc None d) q' m).
      perm_solve.
Qed.

(** Making the first node of a segment (or the tail of the list) point back to [p']. *)
Lemma wp_fix_prev r d p p' l ex e c Q :
  the_list r c = Some l → l_tail l = last_loc p d →
  heap_is (c_heap c) (dseg p d None ++ ex) →
  (∀ c', only_list r (l_set_tail (last_loc p' d) l) c c' →
    heap_is (c_heap c') (dseg p' d None ++ ex) → Q tt e c') →
  wp (if negb (pnull (first_loc d None)) then estore (first_loc d None) (ev_set_prev p')
      else upd_list r (l_set_tail p')) e c Q.
Proof.
  intros Hl Htl Hh HQ. destruct d as [|[y m] d]; simpl in *.
  - eapply wp_upd_list; [exact Hl|]. intros c' Ho Hh'. apply HQ; [done|]. by rewrite Hh'.
  - eapply wp_estore; [exact Hh|typeclasses eauto|]. intros c' Hs Hh'. apply HQ.
    + rewrite <-Htl. assert (l_set_tail (l_tail l) l = l) as -> by (by destruct l).
      by apply same_only_list.
    + exact Hh'.
Qed.

Lemma wp_list_size_add r (z : Z) l e c Q :
  the_list r c = Some l → INT_MIN ≤ l_size l + z ≤ INT_MAX →
  (∀ c', only_list r (l_set_size (l_size l + z) l) c c' → c_heap c' = c_heap c → Q tt e c') →
  wp (l ← get_list r; z ← ck_int (l_size l + z); upd_list r (l_set_size z)) e c Q.
Proof.
  intros Hl Hz HQ. wp_step. eapply wp_get_list; [done|]. wp_step. apply wp_ck_int; [done|].
  by eapply wp_upd_list.
Qed.

(** Removing a node from the middle of a list. *)
Lemma wp_lru_remove r d1 x n d2 mx ex e c Q :
  the_list r c = Some (lru_of (d1 ++ (x, n) :: d2) mx) →
  heap_is (c_heap c) (dcells (d1 ++ (x, n) :: d2) ++ ex) →
  Z.of_nat (length (d1 ++ (x, n) :: d2)) ≤ INT_MAX →
  (∀ c' p q, only_list r (lru_of (d1 ++ d2) mx) c c' →
    heap_is (c_heap c') ((x, links p q n) :: dcells (d1 ++ d2) ++ ex) → Q tt e c') →
  wp (lru_remove r (Some x)) e c Q.
Proof.
  intros Hl Hh Hsz HQ. unfold lru_remove, dcells in *. rewrite dseg_app in Hh. simpl in Hh.
  set (p := last_loc None d1) in *. set (q := first_loc d2 None) in *.
  wp_step. eapply wp_eload; [exact Hh|typeclasses eauto|]. simpl. wp_step.
  eapply (wp_fix_next r d1 (Some x) q _ ((x, links p q n) :: dseg (Some x) d2 None ++ ex));
    [exact Hl|simpl; by rewrite first_loc_app|eapply heap_is_perm; [exact Hh|perm_solve]|].
  intros c1 Ho1 Hh1. wp_step. eapply wp_eload; [exact Hh1|typeclasses eauto|]. simpl. wp_step.
  eapply (wp_fix_prev r d2 (Some x) p _ ((x, links p q n) :: dseg None d1 q ++ ex));
    [by eapply only_list_at| |eapply heap_is_perm; [exact Hh1|perm_solve]|].
  { simpl. by rewrite last_loc_app. }
  intros c2 Ho2 Hh2. apply (wp_list_size_add r (-1) (LRU (first_loc d1 q) (last_loc p d2)
    (Z.of_nat (length (d1 ++ (x, n) :: d2))) mx)).
  - by erewrite only_list_at.
  - simpl. rewrite length_app in *. simpl in *. unfold INT_MIN. lia.
  - intros c3 Ho3 Hh3. eapply HQ.
    + assert (l_set_size (l_size (LRU (first_loc d1 q) (last_loc p d2)
        (Z.of_nat (length (d1 ++ (x, n) :: d2))) mx) + -1) (LRU (first_loc d1 q) (last_loc p d2)
        (Z.of_nat (length (d1 ++ (x, n) :: d2))) mx) = lru_of (d1 ++ d2) mx) as Heq.
      { unfold lru_of, l_set_size. simpl. rewrite first_loc_app, last_loc_app, !length_app. simpl.
        f_equal. lia. }
      rewrite <-Heq. eauto using only_only.
    + rewrite Hh3, dseg_app. fold p q. eapply heap_is_perm; [exact Hh2|]. perm_solve.
Qed.

(** Adding a node in front of a list. *)
Lemma wp_lru_add_front r d x n mx ex e c Q :
  the_list r c = Some (lru_of d mx) → heap_is (c_heap c) ((x, n) :: dcells d ++ ex) →
  Z.of_nat (length d) < INT_MAX →
  (∀ c', only_list r (lru_of ((x, n) :: d) mx) c c' →
    heap_is (c_heap c') (dcells ((x, n) :: d) ++ ex) → Q tt e c') →
  wp (lru_add_front r (Some x)) e c Q.
Proof.
  intros Hl Hh Hsz HQ. unfold lru_add_front, dcells in *.
  wp_step. eapply wp_get_list; [exact Hl|]. simpl. wp_step.
  eapply wp_estore; [exact Hh|typeclasses eauto|]. intros c1 Ho1 Hh1. wp_step.
  eapply wp_estore; [exact Hh1|typeclasses eauto|]. intros c2 Ho2 Hh2.
  pose proof (same_lists_trans _ _ _ Ho1 Ho2) as Ho. clear c1 Ho1 Ho2 Hh1 Hh.
  change (ev_set_prev None (ev_set_next (first_loc d None) n)) with (links None (first_loc d None) n) in Hh2.
  assert (Hl2 : the_list r c2 = Some (lru_of d mx)) by (destruct Ho as [-> _]; done).
  wp_step. eapply wp_get_list; [exact Hl2|]. simpl. wp_step.
  apply (wp_mono _ _ _ (λ _ e' c', e' = e ∧ same_lists c2 c' ∧
    heap_is (c_heap c') (dseg None ((x, n) :: d) None ++ ex))).
  { destruct d as [|[y m] d]; simpl in *.
    - wp_step. by split_and!.
    - eapply wp_estore; [exact Hh2|typeclasses eauto|]. intros c3 Ho3 Hh3. split_and!; [done..|].
      eapply heap_is_perm; [exact Hh3|].
      change (ev_set_prev (Some x) (links None (first_loc d None) m)) with (links (Some x) (first_loc d None) m).
      perm_solve. }
  intros _ e' c3 (-> & Ho3 & Hh3). pose proof (same_lists_trans _ _ _ Ho Ho3) as Ho'.
  assert (Hl3 : the_list r c3 = Some (lru_of d mx)) by (destruct Ho' as [-> _]; done).
  wp_step. eapply wp_upd_list; [exact Hl3|]. intros c4 Ho4 Hh4. rewrite <-Hh4 in Hh3.
  wp_step. eapply wp_get_list; [by eapply only_list_at|]. wp_step.
  apply (wp_mono _ _ _ (λ _ e' c', e' = e ∧ c_heap c' = c_heap c4 ∧ only_list r
    (LRU (Some x) (last_loc None ((x, n) :: d)) (Z.of_nat (length d)) mx) c4 c')).
  { destruct d as [|[y m] d].
    - simpl. eapply wp_upd_list; [by eapply only_list_at|]. intros c5 Ho5 Hh5. by split_and!.
    - assert (pnull (l_tail (l_set_head (Some x) (lru_of ((y, m) :: d) mx))) = false) as ->.
      { simpl. clear. revert y. induction d as [|[z o] d IH]; intros y; simpl; [done|]. apply IH. }
      wp_step. split_and!; [done..|]. apply same_only_list; [by apply same_lists_refl|].
      by erewrite only_list_at. }
  intros _ e' c5 (-> & Hh5 & Ho5). eapply (wp_list_size_add r 1); [by eapply only_list_at|simpl; unfold INT_MIN; lia|].
  intros c6 Ho6 Hh6. apply HQ.
  - assert (Heq : lru_of ((x, n) :: d) mx = l_set_size (Z.of_nat (length d) + 1)
      (LRU (Some x) (last_loc None ((x, n) :: d)) (Z.of_nat (length d)) mx)).
    { unfold lru_of, l_set_size. simpl. f_equal. lia. }
    rewrite Heq. eapply same_only; [exact Ho'|]. eauto using only_only.
  - by rewrite Hh6, Hh5.
Qed.
End lists.
Arguments lru_remove : simpl never.
Arguments lru_add_front : simpl never.
