(* ===== verification/CacheLru.v ===== *)
(** The cache under the LRU policy: the manager's operations on the list refine
    operations on a list of pairs, most recently used first. *)
From S2P Require Import Prelude KvsSpec CacheModel CacheSpec CacheList.

Local Open Scope Z_scope.

(** * Nodes and pairs *)

Implicit Types (c : CacheManager) (d ex : list (loc * EvictNode)) (l : list (string * string))
  (k v : string).

(** The node holds the pair. *)
Definition holds (kv : string * string) (n : EvictNode) : Prop :=
  ev_key n = PStr kv.1 ∧ ev_value n = PStr kv.2 ∧
  ev_value_len n = Z.of_nat (String.length kv.2) + 1.
Definition holds_all l d : Prop := Forall2 (λ kv p, holds kv p.2) l d.

Definition has_key (p : loc * EvictNode) : Prop := ∃ k, ev_key p.2 = PStr k.

Lemma holds_links kv p q n : holds kv n → holds kv (links p q n).
Proof. done. Qed.
Lemma holds_all_keys l d : holds_all l d → Forall has_key d.
Proof.
  induction 1 as [|kv [x n] l d [Hk _] _ IH]; constructor; [|done]. by exists kv.1.
Qed.

(** * Finding a key *)

Lemma wp_find_from fuel d1 d2 key ex e c Q :
  heap_is (c_heap c) (dcells (d1 ++ d2) ++ ex) → Forall has_key d2 → (length d2 < fuel)%nat →
  (∀ da x n db, d2 = da ++ (x, n) :: db → ev_key n = PStr key →
    Forall (λ p, ev_key p.2 ≠ PStr key) da → Q (Some x) e c) →
  (Forall (λ p, ev_key p.2 ≠ PStr key) d2 → Q None e c) →
  wp (find_from fuel (first_loc d2 None) (PStr key)) e c Q.
Proof.
  intros Hh Hk Hf Hyes Hno.
  assert (Hgen : ∀ da db, d2 = da ++ db → Forall (λ p, ev_key p.2 ≠ PStr key) da →
    (length db < fuel)%nat → wp (find_from fuel (first_loc db None) (PStr key)) e c Q);
    [|by apply (Hgen [] d2)].
  clear Hf. induction fuel as [|fuel IH]; intros da db Heq Hda Hf; [lia|].
  destruct db as [|[x n] db]; simpl.
  { wp_steps. apply Hno. by rewrite Heq, app_nil_r. }
  unfold dcells in Hh. wp_step.
  assert (Hh' : heap_is (c_heap c) (dseg None (d1 ++ da) (Some x) ++
    (x, links (last_loc None (d1 ++ da)) (first_loc db None) n) :: dseg (Some x) db None ++ ex)).
  { rewrite Heq, (assoc_L (++)), dseg_app in Hh. simpl in Hh. by rewrite <-!(assoc_L (++)) in Hh. }
  eapply wp_eload; [exact Hh'|typeclasses eauto|]. simpl.
  rewrite Heq in Hk. apply Forall_app in Hk as [_ [[k Hk] _]%Forall_cons]. simpl in Hk. rewrite Hk.
  simpl. wp_steps. destruct (Z.eqb_spec (strcmp k key) 0) as [Hcmp|Hcmp].
  - apply strcmp_eq in Hcmp as ->. wp_steps. by eapply Hyes.
  - apply (IH (da ++ [(x, n)]) db); [by rewrite Heq, <-(assoc_L (++))| |simpl in Hf; lia].
    apply Forall_app. split; [done|]. constructor; [|done]. simpl. rewrite Hk. intros [= ->].
    by rewrite strcmp_refl in Hcmp.
Qed.
Arguments find_from : simpl never.

Lemma length_dcells d : length (dcells d) = length d.
Proof.
  rewrite <-(length_fmap fst (dcells d)), <-(length_fmap fst d). unfold dcells. by rewrite dseg_locs.
Qed.

Lemma wp_lru_find r d mx key ex e c Q :
  the_list r c = Some (lru_of d mx) → heap_is (c_heap c) (dcells d ++ ex) → Forall has_key d →
  (∀ da x n db, d = da ++ (x, n) :: db → ev_key n = PStr key →
    Forall (λ p, ev_key p.2 ≠ PStr key) da → Q (Some x) e c) →
  (Forall (λ p, ev_key p.2 ≠ PStr key) d → Q None e c) →
  wp (lru_find r (PStr key)) e c Q.
Proof.
  intros Hl Hh Hk Hyes Hno. unfold lru_find, cache_fuel. wp_step. eapply wp_get_list; [exact Hl|].
  repeat wp_step. simpl. eapply (wp_find_from _ [] d); [exact Hh|done| |done..].
  rewrite (heap_is_size _ _ Hh), length_app, length_dcells. lia.
Qed.
Arguments lru_find : simpl never.

(** Freeing a node that is in no list. *)
Lemma wp_free_node x n kv ls r e c Q :
  heap_is (c_heap c) ls → Front [(x, n)] ls r → holds kv n →
  (∀ c', same_lists c c' → heap_is (c_heap c') r →
    Q tt (add_live (-1) (add_live (-1) (add_live (-1) e))) c') →
  wp (free_node (Some x)) e c Q.
Proof.
  intros Hh Hf (Hk & Hv & _) HQ. unfold free_node. wp_step. eapply wp_eload; [done..|].
  rewrite Hk. do 3 wp_step. eapply wp_eload; [done..|]. rewrite Hv. do 2 wp_step.
  by eapply wp_efree.
Qed.
Arguments free_node : simpl never.

Lemma wp_current_time_ms {S} e (s : S) Q :
  (∀ t e', mallocs e' = mallocs e → live e' = live e → Q t e' s) → wp current_time_ms e s Q.
Proof.
  intros HQ. unfold current_time_ms. wp_step. unfold wp, clock_gettime.
  destruct (clocks e) as [|t ts]; simpl; by apply HQ.
Qed.

(** A new node of [kvs_cache_lru_add], in no structure yet. *)
Lemma wp_new_node key v ls e c Q :
  heap_is (c_heap c) ls → no_oom e →
  (∀ x n c' e', no_oom e' → live e' = live e + 3 → same_lists c c' → holds (key, v) n →
    ev_access_count n = 1 → heap_is (c_heap c') ((x, n) :: ls) → Q (Some x) e' c') →
  wp (new_node (PStr key) (PStr v) (Z.of_nat (String.length v) + 1)) e c Q.
Proof.
  intros Hh He HQ. unfold new_node, copy_value.
  pose proof (no_oom_fails _ He) as Hf1. pose proof (no_oom_after _ He) as He1.
  pose proof (no_oom_fails _ He1) as Hf2. pose proof (no_oom_after _ He1) as He2.
  pose proof (no_oom_fails _ He2) as Hf3. pose proof (no_oom_after _ He2) as He3.
  wp_step. eapply wp_ealloc; [exact Hh|done|]. intros x c1 Hs1 Hh1. repeat wp_step. rewrite Hf2.
  simpl is_null. cbv iota. repeat wp_step.
  eapply wp_estore; [exact Hh1|typeclasses eauto|]. intros c2 Hs2 Hh2. repeat wp_step.
  rewrite decide_True by done. repeat wp_step. rewrite Hf3. cbv iota beta delta [negb]. repeat wp_step.
  eapply wp_estore; [exact Hh2|typeclasses eauto|]. intros c3 Hs3 Hh3. repeat wp_step.
  eapply wp_estore; [exact Hh3|typeclasses eauto|]. intros c4 Hs4 Hh4. repeat wp_step.
  apply wp_current_time_ms. intros t e5 Hme5 Hle5. repeat wp_step.
  eapply wp_estore; [exact Hh4|typeclasses eauto|]. intros c5 Hs5 Hh5. repeat wp_step.
  eapply wp_estore; [exact Hh5|typeclasses eauto|]. intros c6 Hs6 Hh6. repeat wp_step.
  eapply wp_estore; [exact Hh6|typeclasses eauto|]. intros c7 Hs7 Hh7. repeat wp_step.
  eapply wp_estore; [exact Hh7|typeclasses eauto|]. intros c8 Hs8 Hh8. repeat wp_step.
  eapply HQ; [| | | | |exact Hh8]; [| | |done..].
  - unfold no_oom in *. by rewrite Hme5.
  - rewrite Hle5, !live_after_malloc, Hf1, Hf2, Hf3. lia.
  - repeat (eapply same_lists_trans; [eassumption|]). apply same_lists_refl.
Qed.
Arguments new_node : simpl never.

(** * The LRU list of the manager *)

(** [c] holds the pairs of [l] in its LRU list, most recently used first; [ex]
    are the cells of the other structures. *)
Record lru_view c l ex : Prop := {
  lv_policy : c_policy c = EVICT_LRU;
  lv_max : 0 < c_max_items c < INT_MAX;
  lv_fits : Z.of_nat (length l) ≤ c_max_items c;
  lv_list : ∃ d, holds_all l d ∧ c_lru c = lru_of d (c_max_items c) ∧
              heap_is (c_heap c) (dcells d ++ ex)
}.

(** What the manager keeps outside the LRU list. *)
Definition outside c c' : Prop :=
  c_policy c' = c_policy c ∧ c_max_items c' = c_max_items c ∧ c_lfu c' = c_lfu c ∧
  c_arc c' = c_arc c.

Lemma outside_refl c : outside c c.
Proof. done. Qed.
Lemma outside_trans c1 c2 c3 : outside c1 c2 → outside c2 c3 → outside c1 c3.
Proof. unfold outside. intros (?&?&?&?) (?&?&?&?). split_and!; congruence. Qed.
Lemma rest_outside c c' :
  (∀ r, r ≠ LLru → the_list r c' = the_list r c) → rest c' = rest c → outside c c'.
Proof.
  intros Hl Hr. unfold outside.
  pose proof (f_equal c_policy Hr). pose proof (f_equal c_max_items Hr).
  pose proof (f_equal c_lfu Hr). pose proof (f_equal c_arc Hr) as Ha.
  pose proof (Hl LT1 ltac:(done)). pose proof (Hl LT2 ltac:(done)).
  pose proof (Hl LB1 ltac:(done)). pose proof (Hl LB2 ltac:(done)).
  split_and!; [done..|]. simpl in *. destruct (c_arc c), (c_arc c'). simpl in *. congruence.
Qed.
Lemma only_list_outside hdr c c' : only_list LLru hdr c c' → outside c c'.
Proof. intros [Hl Hr]. apply rest_outside; [|done]. intros r Hne. rewrite Hl. by rewrite decide_False. Qed.
Lemma same_lists_outside c c' : same_lists c c' → outside c c'.
Proof. intros [Hl Hr]. by apply rest_outside. Qed.
Lemma only_list_lru hdr c c' : only_list LLru hdr c c' → c_lru c' = hdr.
Proof. intros H. pose proof (only_list_at _ _ _ _ H) as E. by injection E. Qed.
Lemma same_lists_lru c c' : same_lists c c' → c_lru c' = c_lru c.
Proof. intros [H _]. specialize (H LLru). by injection H. Qed.

(** * The operations on lists of pairs *)

(** The first pair with the key, and the list without it. *)
Fixpoint take_out k l : option (string * list (string * string)) :=
  match l with
  | [] => None
  | p :: l' =>
      if decide (p.1 = k) then Some (p.2, l') else
      match take_out k l' with Some (v, r) => Some (v, p :: r) | None => None end
  end.

Lemma take_out_some la k v lb :
  Forall (λ p, p.1 ≠ k) la → take_out k (la ++ (k, v) :: lb) = Some (v, la ++ lb).
Proof.
  induction 1 as [|p la Hp _ IH]; simpl; [by rewrite decide_True|].
  rewrite decide_False by done. by rewrite IH.
Qed.
Lemma take_out_none k l : Forall (λ p, p.1 ≠ k) l → take_out k l = None.
Proof.
  induction 1 as [|p la Hp _ IH]; simpl; [done|]. rewrite decide_False by done. by rewrite IH.
Qed.
Lemma take_out_spec k l :
  match take_out k l with
  | Some (v, r) => ∃ la lb, l = la ++ (k, v) :: lb ∧ r = la ++ lb ∧ Forall (λ p, p.1 ≠ k) la
  | None => Forall (λ p, p.1 ≠ k) l
  end.
Proof.
  induction l as [|[k' v'] l IH]; simpl; [done|]. destruct (decide (k' = k)) as [->|Hne].
  - exists [], l. by split_and!.
  - destruct (take_out k l) as [[v r]|].
    + destruct IH as (la & lb & -> & -> & Hla). exists ((k', v') :: la), lb.
      split_and!; [done..|]. by constructor.
    + by constructor.
Qed.

(** What the cache promises under LRU: a hit moves the pair to the front, a new
    pair goes to the front and as many of the oldest pairs as needed are
    dropped, a deletion takes the pair out. *)
Definition lru_get_spec k l : option string * list (string * string) :=
  match take_out k l with Some (v, r) => (Some v, (k, v) :: r) | None => (None, l) end.
Definition lru_add_spec (mx : Z) k v l : list (string * string) :=
  (k, v) :: take (Z.to_nat (mx - 1)) l.
Definition lru_del_spec k l : Z * list (string * string) :=
  match take_out k l with Some (_, r) => (0, r) | None => (-2, l) end.

(** ** Matching nodes and pairs *)

Lemma holds_all_split l da x n db k :
  holds_all l (da ++ (x, n) :: db) → ev_key n = PStr k →
  Forall (λ p, ev_key p.2 ≠ PStr k) da →
  ∃ la v lb, l = la ++ (k, v) :: lb ∧ Forall (λ p, p.1 ≠ k) la ∧ holds (k, v) n ∧
    holds_all la da ∧ holds_all lb db.
Proof.
  intros H Hk Hda. apply Forall2_app_inv_r in H as (la & l2 & Hla & H2 & ->).
  apply Forall2_cons_inv_r in H2 as ([k' v] & lb & Hn & Hlb & ->). simpl in Hn.
  pose proof Hn as (Hk' & _). rewrite Hk in Hk'. injection Hk' as ->.
  exists la, v, lb. split_and!; try done.
  clear -Hla Hda. induction Hla as [|kv [y m] la da [Hm _] _ IH]; [done|].
  apply Forall_cons in Hda as [Hd Hda]. constructor; [|by apply IH].
  simpl in *. rewrite Hm in Hd. congruence.
Qed.
Lemma holds_all_absent l d k :
  holds_all l d → Forall (λ p, ev_key p.2 ≠ PStr k) d → Forall (λ p, p.1 ≠ k) l.
Proof.
  induction 1 as [|kv [y m] la da [Hm _] _ IH]; intros Hda; [done|].
  apply Forall_cons in Hda as [Hd Hda]. constructor; [|by apply IH].
  simpl in *. rewrite Hm in Hd. congruence.
Qed.
Lemma holds_all_snoc l d kv x n :
  holds_all l d → holds kv n → holds_all (l ++ [kv]) (d ++ [(x, n)]).
Proof. intros H1 H2. apply Forall2_app; [done|]. by constructor. Qed.
Lemma holds_all_length l d : holds_all l d → length l = length d.
Proof. apply Forall2_length. Qed.

Lemma lru_view_make c c' l0 ex0 l d ex :
  lru_view c l0 ex0 → outside c c' → holds_all l d → Z.of_nat (length l) ≤ c_max_items c →
  c_lru c' = lru_of d (c_max_items c) → heap_is (c_heap c') (dcells d ++ ex) →
  lru_view c' l ex.
Proof.
  intros [Hp Hm _ _] (Hp' & Hm' & _) Hd Hlen Hl Hh. split; [congruence|by rewrite Hm'..|].
  exists d. by rewrite Hm'.
Qed.

(** A change of the counters only. *)
Definition counters_only c c' : Prop := outside c c' ∧ c_lru c' = c_lru c ∧ c_heap c' = c_heap c.
Lemma lru_view_counters c c' l ex : lru_view c l ex → counters_only c c' → lru_view c' l ex.
Proof.
  intros Hv (Ho & Hl & Hh). pose proof Hv as [_ _ Hfit (d & Hd & Hld & Hhd)].
  eapply lru_view_make; [done..|congruence|congruence].
Qed.

(** * The operations *)

Section operations.
Implicit Types (e : env).

Lemma wp_lru_touch da x n db mx ex e c Q :
  c_lru c = lru_of (da ++ (x, n) :: db) mx →
  heap_is (c_heap c) (dcells (da ++ (x, n) :: db) ++ ex) →
  Z.of_nat (length (da ++ (x, n) :: db)) ≤ INT_MAX →
  (∀ t e' c', mallocs e' = mallocs e → live e' = live e → outside c c' →
    c_lru c' = lru_of ((x, ev_set_access_time t n) :: da ++ db) mx →
    heap_is (c_heap c') (dcells ((x, ev_set_access_time t n) :: da ++ db) ++ ex) → Q tt e' c') →
  wp (lru_touch LLru (Some x)) e c Q.
Proof.
  intros Hl Hh Hsz HQ. unfold lru_touch. wp_step.
  eapply wp_lru_remove; [simpl; by rewrite Hl|exact Hh|exact Hsz|]. intros c1 p q Ho1 Hh1. wp_step.
  eapply wp_lru_add_front; [by eapply only_list_at|exact Hh1| |].
  { rewrite length_app in *. simpl in *. lia. }
  intros c2 Ho2 Hh2. wp_step. apply wp_current_time_ms. intros t e' Hm Hlive.
  unfold dcells in Hh2. simpl in Hh2.
  eapply wp_estore; [exact Hh2|typeclasses eauto|]. intros c3 Hs3 Hh3. eapply HQ; [done..| | |exact Hh3].
  - eapply outside_trans; [by eapply only_list_outside|]. eapply outside_trans;
      [by eapply only_list_outside|]. by apply same_lists_outside.
  - rewrite (same_lists_lru _ _ Hs3). by rewrite (only_list_lru _ _ _ Ho2).
Qed.
Arguments lru_touch : simpl never.

(** [kvs_cache_get] under LRU. *)
Lemma wp_cache_get_lru key l ex e c :
  lru_view c l ex →
  wp (kvs_cache_get (PStr key)) e c (λ r e' c',
    r.1 = ptr_of (lru_get_spec key l).1 ∧
    r.2 = ((λ v, Z.of_nat (String.length v) + 1) <$> (lru_get_spec key l).1) ∧
    lru_view c' (lru_get_spec key l).2 ex ∧ outside c c' ∧
    mallocs e' = mallocs e ∧ live e' = live e).
Proof.
  intros Hv. pose proof Hv as [Hp Hm Hfit (d & Hd & Hl & Hh)]. unfold kvs_cache_get, bump_cache_hit, bump_cache_miss, bump_total_access. repeat wp_step.
  destruct (Z.eqb_spec (c_max_items c) 0) as [|_]; [lia|]. simpl is_null. cbv iota beta delta [orb].
  repeat wp_step. rewrite Hp. simpl Z.eqb. cbv iota. wp_step.
  pose proof (holds_all_length _ _ Hd) as Hlen.
  eapply wp_lru_find; [simpl; by rewrite Hl|exact Hh|by eapply holds_all_keys| |].
  - intros da x n db -> Hk Hda. simpl pnull. cbv iota beta delta [negb].
    destruct (holds_all_split _ _ _ _ _ _ Hd Hk Hda) as (la & v & lb & -> & Hla & Hn & Hlad & Hlbd).
    unfold lru_get_spec. rewrite take_out_some by done. wp_step.
    eapply wp_lru_touch; [exact Hl|exact Hh|unfold INT_MAX in *; lia|].
    intros t e' c' Hme Hle Ho Hl' Hh'. repeat wp_step. unfold dcells in Hh'. simpl in Hh'.
    eapply wp_eload; [exact Hh'|typeclasses eauto|]. wp_step.
    destruct Hn as (Hnk & Hnv & Hnl). split_and!; [done|simpl; by rewrite Hnl| |done..].
    eapply lru_view_make with (d := (x, ev_set_access_time t n) :: da ++ db); [exact Hv|exact Ho| | |exact Hl'|exact Hh'].
    + constructor; [done|]. by apply Forall2_app.
    + rewrite length_app in Hfit. simpl in *. rewrite length_app. lia.
  - intros Habs. unfold lru_get_spec. rewrite take_out_none by eauto using holds_all_absent.
    simpl pnull. cbv iota beta delta [negb]. repeat wp_step. split_and!; try done. by eapply lru_view_counters.
Qed.

Lemma last_loc_snoc p d x n : last_loc p (d ++ [(x, n)]) = Some x.
Proof. by rewrite last_loc_app. Qed.

(** The eviction of the oldest pair. *)
Lemma wp_lru_evict_key l kv ex e c :
  lru_view c (l ++ [kv]) ex →
  wp kvs_cache_lru_evict_key e c (λ r e' c',
    r = PStr kv.1 ∧ lru_view c' l ex ∧ outside c c' ∧ mallocs e' = mallocs e ∧
    live e' = live e - 2).
Proof.
  intros Hv. pose proof Hv as [Hp Hm Hfit (d & Hd & Hl & Hh)].
  pose proof (holds_all_length _ _ Hd) as Hlen. rewrite length_app in Hlen, Hfit. simpl in *.
  apply Forall2_app_inv_l in Hd as (d1 & d2 & Hd & Hd2 & ->).
  apply Forall2_cons_inv_l in Hd2 as ([x n] & d2' & Hn & Hd2' & ->). apply Forall2_nil_inv_l in Hd2' as ->.
  unfold kvs_cache_lru_evict_key, lru_evict, bump_eviction_count. repeat wp_step.
  eapply wp_get_list; [simpl; by rewrite Hl|]. simpl l_tail. rewrite last_loc_snoc.
  simpl pnull. cbv iota. wp_step. rewrite length_app in Hlen. simpl in Hlen.
  eapply wp_lru_remove; [simpl; by rewrite Hl|exact Hh|rewrite length_app; simpl; unfold INT_MAX in *; lia|].
  intros c1 p q Ho Hh1. wp_step. simpl pnull. cbv iota beta delta [negb]. repeat wp_step.
  eapply wp_eload; [exact Hh1|typeclasses eauto|]. destruct Hn as (Hk & Hv' & _). simpl in Hk, Hv'.
  simpl ev_value. simpl ev_key. rewrite Hk, Hv'. repeat wp_step. rewrite app_nil_r in Ho, Hh1.
  eapply wp_efree; [exact Hh1|typeclasses eauto|]. intros c' Hs Hh'. wp_step.
  assert (Hout : outside c c').
  { eapply outside_trans; [by eapply only_list_outside|].
    eapply (outside_trans _ (c_set_eviction_count _ c1)); [done|by apply same_lists_outside]. }
  split_and!; [done| |done..|simpl; lia].
  eapply lru_view_make; [exact Hv|exact Hout|exact Hd|lia| |exact Hh'].
  rewrite (same_lists_lru _ _ Hs). simpl. by apply only_list_lru in Ho.
Qed.
Arguments kvs_cache_lru_evict_key : simpl never.

(** The loop that makes room drops pairs until one place is free. *)
Lemma wp_evict_loop fuel l ex e c :
  lru_view c l ex → (length l < fuel)%nat →
  wp (evict_loop fuel) e c (λ _ e' c',
    lru_view c' (take (Z.to_nat (c_max_items c - 1)) l) ex ∧ outside c c' ∧
    mallocs e' = mallocs e ∧
    live e' = live e - 3 * (Z.of_nat (length l) -
      Z.of_nat (length (take (Z.to_nat (c_max_items c - 1)) l)))).
Proof.
  revert fuel e c. induction l as [|kv l IH] using rev_ind; intros [|fuel] e c Hv Hf; simpl in Hf; try lia;
    pose proof Hv as [Hp Hm Hfit (d & Hd & Hl & Hh)]; pose proof (holds_all_length _ _ Hd) as Hlen;
    simpl; unfold kvs_cache_lru_need_evict; repeat wp_step; rewrite Hl; simpl l_size; rewrite <-Hlen.
  - simpl. rewrite (proj2 (Z.leb_gt _ _)) by lia. simpl. wp_step. rewrite take_nil. split_and!; try done. simpl. lia.
  - destruct (Z.leb_spec (c_max_items c) (Z.of_nat (length (l ++ [kv])))) as [Hfull|Hroom]; simpl Z.eqb; cbv iota.
    + wp_step. eapply wp_mono; [by apply wp_lru_evict_key|].
      intros ek e1 c1 (-> & Hv1 & Ho1 & Hme1 & Hle1). simpl is_null. cbv iota beta delta [negb].
      repeat wp_step. rewrite length_app in Hf, Hfull. simpl in Hf, Hfull.
      eapply wp_mono; [eapply (IH _ _ _ Hv1); lia|]. intros _ e2 c2 (Hv2 & Ho2 & Hme2 & Hle2).
      pose proof Ho1 as (_ & Hmx & _). rewrite Hmx in *. rewrite take_app_le by lia.
      split_and!; [done|by eapply outside_trans|by rewrite Hme2|].
      rewrite Hle2. simpl. rewrite length_app. simpl. lia.
    + wp_step. rewrite take_ge by lia. split_and!; try done. lia.
Qed.
Arguments evict_loop : simpl never.

(** [kvs_cache_lru_add] under LRU. *)
Lemma wp_cache_add_lru key v l ex e c :
  lru_view c l ex → no_oom e →
  wp (kvs_cache_lru_add (PStr key) (PStr v) (Z.of_nat (String.length v) + 1)) e c (λ _ e' c',
    lru_view c' (lru_add_spec (c_max_items c) key v l) ex ∧ outside c c' ∧ no_oom e' ∧
    live e' = live e + 3 * (Z.of_nat (length (lru_add_spec (c_max_items c) key v l)) -
      Z.of_nat (length l))).
Proof.
  intros Hv He. pose proof Hv as [Hp Hm Hfit (d & Hd & Hl & Hh)]. unfold kvs_cache_lru_add.
  repeat wp_step. rewrite Hp. simpl Z.eqb. cbv iota. wp_step.
  eapply wp_new_node; [exact Hh|done|]. intros x n c1 e1 He1 Hle1 Hs Hn _ Hh1.
  pose proof (same_lists_outside _ _ Hs) as Ho. pose proof Ho as (Hp1 & Hmx1 & _).
  repeat wp_step. rewrite Hp1, Hp. simpl Z.eqb. cbv iota. unfold cache_fuel. repeat wp_step.
  assert (Hv1 : lru_view c1 l ((x, n) :: ex)).
  { eapply (lru_view_make c); [exact Hv|exact Ho|exact Hd|done|by rewrite (same_lists_lru _ _ Hs)|].
    eapply heap_is_perm; [exact Hh1|perm_solve]. }
  eapply wp_mono; [apply (wp_evict_loop _ _ _ _ _ Hv1)|].
  { rewrite (heap_is_size _ _ Hh1). simpl. rewrite length_app, length_dcells.
    pose proof (holds_all_length _ _ Hd). lia. }
  intros _ e2 c2 (Hv2 & Ho2 & Hme2 & Hle2). rewrite Hmx1 in *.
  pose proof Hv2 as [_ _ Hfit2 (d2 & Hd2 & Hl2 & Hh2)]. pose proof Ho2 as (_ & Hmx2 & _).
  pose proof (holds_all_length _ _ Hd2) as Hlen2. rewrite length_take in Hlen2.
  eapply (wp_lru_add_front LLru d2 x n _ ex); [simpl; by rewrite Hl2| | |].
  { eapply heap_is_perm; [exact Hh2|perm_solve]. }
  { unfold INT_MAX in *. lia. }
  intros c3 Ho3 Hh3. unfold lru_add_spec. pose proof (only_list_outside _ _ _ Ho3) as Ho3'.
  assert (Hmx : c_max_items c2 = c_max_items c) by congruence.
  split_and!.
  - eapply (lru_view_make c2 c3 _ _ _ ((x, n) :: d2)); [exact Hv2|exact Ho3'| | |by eapply only_list_lru|exact Hh3].
    + by constructor.
    + simpl. rewrite length_take. lia.
  - eauto using outside_trans.
  - unfold no_oom in *. by rewrite Hme2.
  - rewrite Hle2, Hle1. simpl. rewrite !length_take. lia.
Qed.

(** [kvs_cache_del] under LRU. *)
Lemma wp_cache_del_lru key l ex e c :
  lru_view c l ex →
  wp (kvs_cache_del (PStr key)) e c (λ r e' c',
    r = (lru_del_spec key l).1 ∧ lru_view c' (lru_del_spec key l).2 ex ∧ outside c c' ∧
    mallocs e' = mallocs e ∧
    live e' = live e + 3 * (Z.of_nat (length (lru_del_spec key l).2) - Z.of_nat (length l))).
Proof.
  intros Hv. pose proof Hv as [Hp Hm Hfit (d & Hd & Hl & Hh)]. unfold kvs_cache_del. repeat wp_step.
  destruct (Z.eqb_spec (c_max_items c) 0) as [|_]; [lia|]. simpl is_null. cbv iota beta delta [orb].
  repeat wp_step. rewrite Hp. simpl Z.eqb. cbv iota. wp_step.
  pose proof (holds_all_length _ _ Hd) as Hlen.
  eapply wp_lru_find; [simpl; by rewrite Hl|exact Hh|by eapply holds_all_keys| |].
  - intros da x n db -> Hk Hda. simpl pnull. cbv iota beta delta [negb].
    destruct (holds_all_split _ _ _ _ _ _ Hd Hk Hda) as (la & v & lb & -> & Hla & Hn & Hlad & Hlbd).
    unfold lru_del_spec. rewrite take_out_some by done. wp_step.
    eapply wp_lru_remove; [simpl; by rewrite Hl|exact Hh|unfold INT_MAX in *; lia|].
    intros c1 p q Ho1 Hh1. wp_step.
    eapply wp_free_node; [exact Hh1|typeclasses eauto|apply holds_links; exact Hn|].
    intros c2 Hs2 Hh2. wp_step.
    assert (Hout : outside c c2)
      by (eapply outside_trans; [by eapply only_list_outside|by apply same_lists_outside]).
    simpl. rewrite length_app in Hfit. simpl in Hfit. rewrite !length_app. simpl.
    split_and!; [done| |done|done|lia].
    eapply lru_view_make; [exact Hv|exact Hout|by apply Forall2_app|rewrite length_app; lia| |exact Hh2].
    rewrite (same_lists_lru _ _ Hs2). by apply only_list_lru in Ho1.
  - intros Habs. unfold lru_del_spec. rewrite take_out_none by eauto using holds_all_absent.
    simpl pnull. cbv iota beta delta [negb]. repeat wp_step. split_and!; try done. simpl. lia.
Qed.
End operations.

(** * What the LRU policy promises *)

Lemma NoDup_take_out k l v r :
  NoDup l.*1 → take_out k l = Some (v, r) →
  NoDup r.*1 ∧ (k ∉ r.*1) ∧ (list_to_map l : gmap string string) = <[k := v]> (list_to_map r).
Proof.
  intros Hnd Ht. pose proof (take_out_spec k l) as H. rewrite Ht in H.
  destruct H as (la & lb & -> & -> & _).
  assert (Hp : (la ++ (k, v) :: lb) ≡ₚ ((k, v) :: (la ++ lb))) by (by rewrite Permutation_middle).
  assert (Hnd' : NoDup ((k, v) :: la ++ lb).*1) by (by rewrite <-Hp).
  rewrite (list_to_map_proper _ _ Hnd Hp). rewrite fmap_cons in Hnd'.
  apply NoDup_cons in Hnd' as [Hk Hnd']. by split_and!.
Qed.
Lemma take_out_absent k l :
  take_out k l = None → (list_to_map l : gmap string string) !! k = None.
Proof.
  intros Ht. pose proof (take_out_spec k l) as H. rewrite Ht in H.
  apply not_elem_of_list_to_map_1. intros Hin. apply list_elem_of_fmap in Hin as (p & -> & Hp).
  rewrite Forall_forall in H. by apply (H p).
Qed.

Definition lru_holds c (S : gmap string string) : Prop :=
  ∃ l ex, lru_view c l ex ∧ NoDup l.*1 ∧ S = list_to_map l.

Lemma lru_take_map (n : nat) l :
  NoDup l.*1 → NoDup (take n l).*1 ∧ (list_to_map (take n l) : gmap string string) ⊆ list_to_map l.
Proof.
  intros Hnd. rewrite <-(take_drop n l) in Hnd at 1. rewrite fmap_app in Hnd.
  apply NoDup_app in Hnd as (Ht & Hdis & _). split; [done|].
  rewrite <-(take_drop n l) at 2. rewrite list_to_map_app. apply map_union_subseteq_l.
Qed.

Global Program Instance lru_contract : CacheContract EVICT_LRU := {| cache_holds _ := lru_holds |}.
Next Obligation. by intros _ c S (l & ex & [Hp _ _ _] & _). Qed.
Next Obligation. done. Qed.
Next Obligation.
  intros _ e c S k (l & ex & Hv & Hnd & ->). eapply wp_mono; [by apply wp_cache_get_lru|].
  intros [p len] e' c' (Hr & Hlen & Hv' & _ & Hm & Hl). simpl in *. subst p len.
  unfold lru_get_spec in *. destruct (take_out k l) as [[v r]|] eqn:Ht; simpl in *.
  - destruct (NoDup_take_out _ _ _ _ Hnd Ht) as (Hr & Hk & Heq).
    rewrite Heq, lookup_insert_eq. split_and!; [done| |done..].
    exists ((k, v) :: r), ex. split_and!; [done| |done]. rewrite fmap_cons. by apply NoDup_cons.
  - rewrite take_out_absent by done. split_and!; [done| |done..]. by exists l, ex.
Qed.
Next Obligation.
  intros _ e c S k v (l & ex & Hv & Hnd & ->) Hk He. eapply wp_mono; [by apply wp_cache_add_lru|].
  intros _ e' c' (Hv' & _ & He' & _). split; [done|]. unfold lru_add_spec in *.
  destruct (lru_take_map (Z.to_nat (c_max_items c - 1)) l Hnd) as [Hnd' Hsub].
  eexists. split_and!; [| |eexists _, ex; split_and!; [exact Hv'| |reflexivity]].
  - apply lookup_insert_eq.
  - simpl. by apply insert_mono.
  - rewrite fmap_cons. apply NoDup_cons. split; [|done]. intros Hin.
    apply not_elem_of_list_to_map_2 in Hk. apply Hk.
    rewrite <-(take_drop (Z.to_nat (c_max_items c - 1)) l), fmap_app. apply elem_of_app. by left.
Qed.
Next Obligation.
  intros _ e c S k (l & ex & Hv & Hnd & ->). eapply wp_mono; [by apply wp_cache_del_lru|].
  intros r e' c' (-> & Hv' & _ & Hm & _). unfold lru_del_spec in *.
  destruct (take_out k l) as [[v r]|] eqn:Ht; simpl in *.
  - destruct (NoDup_take_out _ _ _ _ Hnd Ht) as (Hr & Hk & Heq). rewrite Heq.
    split_and!; [done| |done].
    exists r, ex. split_and!; [done..|]. rewrite delete_insert_id; [done|].
    by apply not_elem_of_list_to_map_1.
  - pose proof (take_out_absent _ _ Ht) as Hno. rewrite Hno.
    split_and!; [by intros []| |done]. exists l, ex. split_and!; [done..|].
    by rewrite delete_id.
Qed.

(** * Sequences of calls from a new cache *)

Definition lru_step (mx : Z) (o : cache_op) l : cache_answer * list (string * string) :=
  match o with
  | CGet k => let '(r, l') := lru_get_spec k l in (CHit (ptr_of r), l')
  | CAdd k v => (CAdded, lru_add_spec mx k v l)
  | CDel k => let '(r, l') := lru_del_spec k l in (CCode r, l')
  end.
Fixpoint lru_steps (mx : Z) (os : list cache_op) l : list cache_answer * list (string * string) :=
  match os with
  | [] => ([], l)
  | o :: os' =>
      let '(a, l') := lru_step mx o l in
      let '(rest, l'') := lru_steps mx os' l' in
      (a :: rest, l'')
  end.

(** The capacity [kvs_cache_init] sets. *)
Definition capacity (max_items : Z) : Z := if 0 <? max_items then max_items else DEFAULT_MAX_ITEMS.

Lemma capacity_bounds max_items :
  max_items < INT_MAX → 0 < capacity max_items < INT_MAX.
Proof.
  unfold capacity, DEFAULT_MAX_ITEMS, INT_MAX. destruct (Z.ltb_spec 0 max_items); lia.
Qed.

(** A new list of ARC. *)
Lemma wp_calloc_list {B} r (k : unit → M CacheManager B) e c Q :
  no_oom e → r ≠ LLru →
  wp (k tt) (after_malloc e) (set_list r zero_lru c) Q → wp (calloc_list r ≫= k) e c Q.
Proof.
  intros He Hr HQ. apply wp_bind. unfold calloc_list. repeat wp_step.
  rewrite no_oom_fails by done. by destruct r.
Qed.
Lemma wp_lru_init {B} r mx hdr (k : unit → M CacheManager B) e c Q :
  the_list r c = Some hdr → wp (k tt) e (set_list r (lru_of [] mx) c) Q →
  wp (lru_init r mx ≫= k) e c Q.
Proof.
  intros Hl HQ. apply wp_bind. unfold lru_init, upd_list. wp_step. eapply wp_get_list; [exact Hl|].
  by wp_step.
Qed.

Lemma wp_cache_init max_items e c Q :
  max_items < INT_MAX → no_oom e →
  (∀ e' c', no_oom e' → live e' = live e + 5 → c_policy c' = EVICT_LRU →
    c_max_items c' = capacity max_items → c_heap c' = c_heap c →
    c_lfu c' = LFU (Some (replicate (Z.to_nat (capacity max_items + 1)) None)) 0 (capacity max_items) →
    (∀ r, the_list r c' = Some (lru_of [] (capacity max_items))) →
    a_target_size (c_arc c') = Z.quot (capacity max_items) 2 →
    a_max_size (c_arc c') = capacity max_items → Q 0 e' c') →
  wp (kvs_cache_init max_items) e c Q.
Proof.
  intros Hmx He HQ. pose proof (capacity_bounds _ Hmx) as Hcap. unfold kvs_cache_init. do 8 wp_step.
  change (if 0 <? max_items then max_items else DEFAULT_MAX_ITEMS) with (capacity max_items).
  simpl c_max_items. remember (capacity max_items) as n eqn:En.
  eapply wp_lru_init; [reflexivity|]. unfold lfu_init. do 2 wp_step.
  apply wp_ck_int; [unfold INT_MIN; lia|]. do 3 wp_step. rewrite no_oom_fails by done.
  cbv iota beta delta [negb]. unfold arc_init, set_target. do 5 wp_step.
  do 4 (eapply wp_calloc_list; [by repeat apply no_oom_after|done|]).
  do 3 (eapply wp_lru_init; [reflexivity|]). unfold lru_init. eapply wp_upd_list; [reflexivity|].
  intros c' [Hl Hr] Hh. do 3 wp_step.
  pose proof (no_oom_after _ He) as He1. pose proof (no_oom_after _ He1) as He2.
  pose proof (no_oom_after _ He2) as He3. pose proof (no_oom_after _ He3) as He4.
  apply HQ.
  - by apply no_oom_after.
  - rewrite !live_after_malloc, !no_oom_fails by done. lia.
  - exact (f_equal c_policy Hr).
  - exact (f_equal c_max_items Hr).
  - exact Hh.
  - exact (f_equal c_lfu Hr).
  - intros r. specialize (Hl r). by destruct r.
  - exact (f_equal (λ c, a_target_size (c_arc c)) Hr).
  - exact (f_equal (λ c, a_max_size (c_arc c)) Hr).
Qed.
Arguments kvs_cache_init : simpl never.

(** What [kvs_cache_init] leaves, and [kvs_cache_set_policy] on it. *)
Record fresh_cache (n : Z) c : Prop := {
  fc_bounds : 0 < n ∧ 2 * n + 1 ≤ INT_MAX;
  fc_policy : c_policy c = EVICT_LRU;
  fc_items : c_max_items c = n;
  fc_heap : c_heap c = ∅;
  fc_lfu : c_lfu c = LFU (Some (replicate (Z.to_nat (n + 1)) None)) 0 n;
  fc_lists r : the_list r c = Some (lru_of [] n);
  fc_target : a_target_size (c_arc c) = Z.quot n 2;
  fc_max : a_max_size (c_arc c) = n
}.
Definition switched (policy : Z) c : CacheManager :=
  c_set_policy_changes (u64 (c_policy_changes c + 1)) (c_set_policy policy c).

Lemma wp_cache_init_fresh max_items e c Q :
  2 * capacity max_items + 1 ≤ INT_MAX → no_oom e → c_heap c = ∅ →
  (∀ e' c', no_oom e' → live e' = live e + 5 → fresh_cache (capacity max_items) c' → Q 0 e' c') →
  wp (kvs_cache_init max_items) e c Q.
Proof.
  intros Hcap He Hc HQ.
  assert (Hmx : max_items < INT_MAX).
  { unfold capacity in Hcap. destruct (Z.ltb_spec 0 max_items); unfold INT_MAX in *; lia. }
  pose proof (capacity_bounds _ Hmx) as Hb. apply wp_cache_init; [done..|].
  intros e' c' He' Hl Hp Hm Hh Hlfu Hlists Htg Hmax. apply HQ; [done..|]. split; try done; [lia|congruence].
Qed.

Lemma lru_view_init max_items e c :
  max_items < INT_MAX → no_oom e → c_heap c = ∅ →
  wp (kvs_cache_init max_items) e c (λ _ e' c',
    no_oom e' ∧ live e' = live e + 5 ∧ c_max_items c' = capacity max_items ∧ lru_view c' [] []).
Proof.
  intros Hmx He Hc. pose proof (capacity_bounds _ Hmx). apply wp_cache_init; [done..|].
  intros e' c' He' Hlive Hp Hm Hh _ Hl _ _. split_and!; [done..|].
  split; [done|by rewrite Hm|rewrite Hm; simpl; lia|].
  exists []. split_and!; [constructor| |].
  - specialize (Hl LLru). rewrite Hm. by injection Hl.
  - rewrite Hh, Hc. by split; [constructor|].
Qed.

Lemma lru_run_step o l e c :
  lru_view c l [] → no_oom e →
  wp (cache_run o) e c (λ a e' c',
    no_oom e' ∧ c_max_items c' = c_max_items c ∧ a = (lru_step (c_max_items c) o l).1 ∧
    lru_view c' (lru_step (c_max_items c) o l).2 [] ∧
    live e' = live e + 3 * (Z.of_nat (length (lru_step (c_max_items c) o l).2) - Z.of_nat (length l))).
Proof.
  intros Hv He. destruct o as [k|k v|k]; simpl; wp_step.
  - eapply wp_mono; [by apply wp_cache_get_lru|]. intros r e' c' (-> & _ & Hv' & (_ & Hm & _) & Hme & Hle).
    wp_step. unfold lru_get_spec in *. pose proof (take_out_spec k l) as Ht.
    destruct (take_out k l) as [[v r']|]; simpl in *; unfold no_oom in *; rewrite Hme;
      split_and!; try done; [|lia].
    destruct Ht as (la & lb & -> & -> & _). rewrite !length_app. simpl. lia.
  - eapply wp_mono; [by apply wp_cache_add_lru|]. intros _ e' c' (Hv' & (_ & Hm & _) & He' & Hle).
    wp_step. by split_and!.
  - eapply wp_mono; [by apply wp_cache_del_lru|]. intros r e' c' (-> & Hv' & (_ & Hm & _) & Hme & Hle).
    wp_step. unfold no_oom in *. rewrite Hme. destruct (lru_del_spec k l) as [z l']. by split_and!.
Qed.
Lemma lru_run_steps os l e c :
  lru_view c l [] → no_oom e →
  wp (cache_run_all os) e c (λ a e' c',
    a = (lru_steps (c_max_items c) os l).1 ∧ lru_view c' (lru_steps (c_max_items c) os l).2 [] ∧
    c_max_items c' = c_max_items c ∧
    live e' = live e + 3 * (Z.of_nat (length (lru_steps (c_max_items c) os l).2) - Z.of_nat (length l))).
Proof.
  revert l e c. induction os as [|o os IH]; intros l e c Hv He; simpl; wp_step.
  - split_and!; try done. lia.
  - eapply wp_mono; [by apply lru_run_step|]. intros a e1 c1 (He1 & Hm1 & -> & Hv1 & Hl1). wp_step.
    eapply wp_mono; [by apply IH|]. intros rs e2 c2 (-> & Hv2 & Hm2 & Hl2). wp_step.
    rewrite Hm1 in *. destruct (lru_step (c_max_items c) o l) as [a l1]; simpl in *.
    destruct (lru_steps (c_max_items c) os l1) as [rs l2]; simpl in *. split_and!; try done. lia.
Qed.

(** C12: under the LRU policy, any sequence of lookups, additions and deletions on
    a new cache behaves as on a list of pairs in order of recency: a hit answers
    the value and moves the pair to the front, an addition in a full cache drops
    exactly the least recently used pairs, a deletion takes one pair out.  The
    cache never holds more than its capacity, its linked list is exactly that
    list of pairs, and three blocks of memory are in use per cached pair. *)
Theorem lru_cache_refines max_items os e :
  max_items < INT_MAX → no_oom e →
  wp (kvs_cache_init max_items;; cache_run_all os) e g_cache (λ a e' c',
    a = (lru_steps (capacity max_items) os []).1 ∧
    (let l := (lru_steps (capacity max_items) os []).2 in
     lru_view c' l [] ∧ Z.of_nat (length l) ≤ capacity max_items ∧
     live e' = live e + 5 + 3 * Z.of_nat (length l))).
Proof.
  intros Hmx He. wp_step. eapply wp_mono; [by apply lru_view_init|].
  intros _ e1 c1 (He1 & Hl1 & Hm1 & Hv1). eapply wp_mono; [by apply lru_run_steps|].
  intros a e2 c2 (-> & Hv2 & Hm2 & Hl2). rewrite Hm1 in *. pose proof (lv_fits _ _ _ Hv2) as Hfit.
  rewrite Hm2 in Hfit. cbv zeta. change (Z.of_nat (length [])) with 0 in Hl2. split_and!; [done..|lia].
Qed.

Definition env0 : env := Env [] [] [] [] 0.
Definition lru_trace : list cache_op :=
  [CAdd "a" "1"; CAdd "b" "2"; CGet "a"; CAdd "c" "3"; CGet "b"; CGet "a"; CDel "c"; CDel "c"].
Lemma lru_cache_refines_witness :
  (lru_steps 2 lru_trace []).1 =
    [CAdded; CAdded; CHit (PStr "1"); CAdded; CHit PNull; CHit (PStr "1"); CCode 0; CCode (-2)] ∧
  wp (kvs_cache_init 2;; cache_run_all lru_trace) env0 g_cache (λ a e' c',
    a = (lru_steps (capacity 2) lru_trace []).1 ∧
    (let l := (lru_steps (capacity 2) lru_trace []).2 in
     lru_view c' l [] ∧ Z.of_nat (length l) ≤ capacity 2 ∧
     live e' = live env0 + 5 + 3 * Z.of_nat (length l))).
Proof. split; [reflexivity|]. apply (lru_cache_refines 2 lru_trace env0); [reflexivity|constructor]. Defined.
