(* ===== verification/CacheLfu.v ===== *)
(** The cache under the LFU policy: the array of nodes is a binary heap on the
    numbers of accesses.  The sift loops of src/cache/kvs_cache.c restore its
    order, so that an eviction drops a pair with the fewest accesses. *)
From S2P Require Import Prelude KvsSpec CacheModel CacheSpec CacheList CacheLru.

Local Open Scope Z_scope.
Local Ltac Zify.zify_post_hook ::= Z.to_euclidean_division_equations.

(** * Heaps of numbers *)

(** [f i] is the number at position [i], from 1 to [n]; the parent of [i] is
    [i / 2]. *)
Definition heap_ok (f : Z → Z) (n : Z) : Prop := ∀ i, 2 ≤ i ≤ n → f (i / 2) ≤ f i.
(** The order holds but below [idx]; above [idx] it holds for its children. *)
Definition down_ok (f : Z → Z) (n idx : Z) : Prop :=
  (∀ i, 2 ≤ i ≤ n → i / 2 ≠ idx → f (i / 2) ≤ f i) ∧
  (∀ i, 2 ≤ i ≤ n → i / 2 = idx → 2 ≤ idx → f (idx / 2) ≤ f i).
(** The order holds but above [idx]. *)
Definition up_ok (f : Z → Z) (n idx : Z) : Prop :=
  (∀ i, 2 ≤ i ≤ n → i ≠ idx → f (i / 2) ≤ f i) ∧
  (∀ i, 2 ≤ i ≤ n → i / 2 = idx → 2 ≤ idx → f (idx / 2) ≤ f i).

(** [g] is [f] with two positions exchanged. *)
Definition exchanged (f g : Z → Z) (a b : Z) : Prop :=
  g a = f b ∧ g b = f a ∧ ∀ i, i ≠ a → i ≠ b → g i = f i.

Lemma down_ok_step f g n idx s :
  down_ok f n idx → 1 ≤ idx → 2 ≤ s ≤ n → s / 2 = idx → f s < f idx →
  (∀ i, 2 ≤ i ≤ n → i / 2 = idx → f s ≤ f i) → exchanged f g s idx → down_ok g n s.
Proof.
  intros [H1 H2] Hidx Hs Hp Hlt Hmin (Ha & Hb & Hg). assert (s ≠ idx) by lia. split.
  - intros i Hi Hne. destruct (decide (i = s)) as [->|Hi1]; [rewrite Hp, Ha, Hb; lia|].
    destruct (decide (i / 2 = idx)) as [Hpi|Hpi].
    { rewrite Hpi, Hb, (Hg i) by lia. by apply Hmin. }
    rewrite (Hg (i / 2)) by lia. destruct (decide (i = idx)) as [->|Hi2].
    + rewrite Hb. apply H2; [lia|done|lia].
    + rewrite Hg by done. by apply H1.
  - intros i Hi Hpi Hs2. rewrite Hp, Hb, (Hg i) by lia. specialize (H1 i Hi). rewrite Hpi in H1. lia.
Qed.
Lemma down_ok_end f n idx :
  down_ok f n idx → (∀ i, 2 ≤ i ≤ n → i / 2 = idx → f idx ≤ f i) → heap_ok f n.
Proof. intros [H1 _] H i Hi. destruct (decide (i / 2 = idx)) as [Hp|]; [rewrite Hp; auto|auto]. Qed.
Lemma up_ok_step f g n idx :
  up_ok f n idx → 2 ≤ idx ≤ n → f idx < f (idx / 2) → exchanged f g (idx / 2) idx → up_ok g n (idx / 2).
Proof.
  intros [H1 H2] Hidx Hlt (Ha & Hb & Hg). assert (idx / 2 ≠ idx) by lia. split.
  - intros i Hi Hne. destruct (decide (i = idx)) as [->|Hi1]; [rewrite Ha, Hb; lia|].
    rewrite (Hg i) by done. destruct (decide (i / 2 = idx)) as [Hpi|Hpi].
    { rewrite Hpi, Hb. apply H2; [done|done|lia]. }
    destruct (decide (i / 2 = idx / 2)) as [Hpp|Hpp].
    + rewrite Hpp, Ha. specialize (H1 i Hi Hi1). rewrite Hpp in H1. lia.
    + rewrite Hg by done. by apply H1.
  - intros i Hi Hpi H2i. rewrite (Hg (idx / 2 / 2)) by lia.
    assert (Hpp : f (idx / 2 / 2) ≤ f (idx / 2)) by (apply H1; lia).
    destruct (decide (i = idx)) as [->|Hi1]; [by rewrite Hb|].
    rewrite Hg by lia. specialize (H1 i Hi Hi1). rewrite Hpi in H1. lia.
Qed.
Lemma up_ok_end f n idx : up_ok f n idx → (2 ≤ idx → f (idx / 2) ≤ f idx) → heap_ok f n.
Proof. intros [H1 _] H i Hi. destruct (decide (i = idx)) as [->|]; [apply H; lia|auto]. Qed.

(** The root is a minimum. *)
Lemma heap_ok_root f n i : heap_ok f n → 1 ≤ i ≤ n → f 1 ≤ f i.
Proof.
  intros H Hi. assert (Hgen : ∀ k : nat, ∀ i, 1 ≤ i ≤ n → i ≤ Z.of_nat k → f 1 ≤ f i).
  { induction k as [|k IH]; intros j Hj Hk; [lia|]. destruct (decide (j = 1)) as [->|]; [done|].
    etrans; [apply (IH (j / 2)); lia|]. apply H. lia. }
  apply (Hgen (Z.to_nat i)); lia.
Qed.

(** * The array of nodes *)

Implicit Types (c : CacheManager) (d ex : list (loc * EvictNode)) (k v : string) (e : env).

(** The nodes of [d] fill the positions from 1 on; [z] and [tl] are the others. *)
Definition lfu_of (z : nptr) d (tl : list nptr) : LFUCache :=
  LFU (Some (z :: (Some <$> d.*1) ++ tl)) (Z.of_nat (length d)) (Z.of_nat (length d + length tl)).
(** The numbers of accesses, by position. *)
Definition cnt d (i : Z) : Z :=
  match guard (1 ≤ i) ≫= λ _, d !! Z.to_nat (i - 1) with Some p => ev_access_count p.2 | None => 0 end.
Lemma cnt_at d i p : d !! Z.to_nat (i - 1) = Some p → 1 ≤ i → cnt d i = ev_access_count p.2.
Proof. intros Hd Hi. unfold cnt. rewrite option_guard_True by done. by rewrite Hd. Qed.
Lemma cnt_ext d d' i : (1 ≤ i → d !! Z.to_nat (i - 1) = d' !! Z.to_nat (i - 1)) → cnt d i = cnt d' i.
Proof.
  intros H. unfold cnt. destruct (decide (1 ≤ i)).
  - by rewrite !option_guard_True, H.
  - by rewrite !option_guard_False.
Qed.
(** What LFU leaves alone. *)
Definition lfu_outside c c' : Prop :=
  c_policy c' = c_policy c ∧ c_max_items c' = c_max_items c ∧ c_lru c' = c_lru c ∧ c_arc c' = c_arc c.
Lemma lfu_outside_trans c1 c2 c3 : lfu_outside c1 c2 → lfu_outside c2 c3 → lfu_outside c1 c3.
Proof. unfold lfu_outside. intros (?&?&?&?) (?&?&?&?). split_and!; congruence. Qed.
Lemma same_lists_lfu c c' : same_lists c c' → lfu_outside c c' ∧ c_lfu c' = c_lfu c.
Proof.
  intros Hs. destruct (same_lists_outside _ _ Hs) as (? & ? & ? & ?).
  split; [|done]. split_and!; [done..|by apply same_lists_lru|done].
Qed.

(** The array and its nodes; [ex] are the other nodes. *)
Definition lfu_cells c z d (tl : list nptr) ex : Prop :=
  c_lfu c = lfu_of z d tl ∧ heap_is (c_heap c) (d ++ ex).

Lemma lookup_nodes z d tl i x n :
  d !! Z.to_nat (i - 1) = Some (x, n) → 1 ≤ i →
  (z :: (Some <$> d.*1) ++ tl) !! Z.to_nat i = Some (Some x).
Proof.
  intros Hd Hi. replace (Z.to_nat i) with (S (Z.to_nat (i - 1))) by lia. simpl.
  rewrite lookup_app_l by (rewrite !length_fmap; by eapply lookup_lt_Some).
  by rewrite !list_lookup_fmap, Hd.
Qed.
Lemma insert_nodes z d tl i x n :
  1 ≤ i ≤ Z.of_nat (length d) →
  <[Z.to_nat i := Some x]> (z :: (Some <$> d.*1) ++ tl) =
  z :: (Some <$> (<[Z.to_nat (i - 1) := (x, n)]> d).*1) ++ tl.
Proof.
  intros Hi. replace (Z.to_nat i) with (S (Z.to_nat (i - 1))) by lia. simpl. f_equal.
  rewrite insert_app_l by (rewrite !length_fmap; lia). by rewrite !list_fmap_insert.
Qed.
Lemma front_lookup d ex i x n :
  d !! i = Some (x, n) → Front [(x, n)] (d ++ ex) (delete i d ++ ex).
Proof.
  intros Hd. unfold Front. apply delete_Permutation in Hd as Hp. by rewrite Hp at 1.
Qed.

Lemma wp_lfu_at i x n z d tl e c Q :
  c_lfu c = lfu_of z d tl → d !! Z.to_nat (i - 1) = Some (x, n) → 1 ≤ i → Q (Some x) e c →
  wp (lfu_at i) e c Q.
Proof.
  intros Hl Hd Hi HQ. unfold lfu_at. repeat wp_step. rewrite Hl. simpl f_nodes. repeat wp_step.
  rewrite decide_True by lia. by rewrite (lookup_nodes _ _ _ _ _ _ Hd Hi).
Qed.
Lemma wp_lfu_count i z d tl ex e c Q :
  lfu_cells c z d tl ex → 1 ≤ i ≤ Z.of_nat (length d) → Q (cnt d i) e c → wp (lfu_count i) e c Q.
Proof.
  intros [Hl Hh] Hi HQ. destruct (lookup_lt_is_Some_2 d (Z.to_nat (i - 1))) as [[x n] Hd]; [lia|].
  unfold lfu_count. wp_step. eapply wp_lfu_at; [done..|lia|]. wp_step.
  eapply wp_eload; [exact Hh|by eapply front_lookup|]. wp_step. rewrite (cnt_at _ _ _ Hd) in HQ by lia. exact HQ.
Qed.
Lemma wp_lfu_size z d tl e c Q :
  c_lfu c = lfu_of z d tl → Q (Z.of_nat (length d)) e c → wp lfu_size e c Q.
Proof. intros Hl HQ. unfold lfu_size. repeat wp_step. by rewrite Hl. Qed.

(** Replacing the node at a position. *)
Lemma wp_lfu_put i x n z d tl e c Q :
  c_lfu c = lfu_of z d tl → 1 ≤ i ≤ Z.of_nat (length d) →
  (∀ c', lfu_outside c c' → c_heap c' = c_heap c →
    c_lfu c' = lfu_of z (<[Z.to_nat (i - 1) := (x, n)]> d) tl → Q tt e c') →
  wp (lfu_put i (Some x)) e c Q.
Proof.
  intros Hl Hi HQ. unfold lfu_put. repeat wp_step. rewrite Hl. simpl f_nodes. repeat wp_step.
  rewrite decide_True by (simpl; rewrite length_app, !length_fmap; lia). wp_step.
  apply HQ; [done..|]. simpl c_lfu. rewrite (insert_nodes _ _ _ _ _ n) by done.
  unfold lfu_of. by rewrite length_insert.
Qed.

(** Exchanging two positions. *)
Definition swap_at (i j : Z) d : list (loc * EvictNode) :=
  match d !! Z.to_nat (i - 1), d !! Z.to_nat (j - 1) with
  | Some a, Some b => <[Z.to_nat (j - 1) := a]> (<[Z.to_nat (i - 1) := b]> d)
  | _, _ => d
  end.
Lemma swap_at_perm i j d : swap_at i j d ≡ₚ d.
Proof.
  unfold swap_at. destruct (d !! Z.to_nat (i - 1)) eqn:Hi; [|done].
  destruct (d !! Z.to_nat (j - 1)) eqn:Hj; [|done]. by apply Permutation_insert_swap.
Qed.
Lemma swap_at_exchanged i j d :
  1 ≤ i ≤ Z.of_nat (length d) → 1 ≤ j ≤ Z.of_nat (length d) → i ≠ j →
  exchanged (cnt d) (cnt (swap_at i j d)) i j.
Proof.
  intros Hi Hj Hne. unfold swap_at.
  destruct (lookup_lt_is_Some_2 d (Z.to_nat (i - 1))) as [a Ha]; [lia|].
  destruct (lookup_lt_is_Some_2 d (Z.to_nat (j - 1))) as [b Hb]; [lia|]. rewrite Ha, Hb.
  assert (Hij : Z.to_nat (i - 1) ≠ Z.to_nat (j - 1)) by lia. split_and!.
  - rewrite (cnt_at d j b) by (done || lia). apply cnt_at; [|lia].
    rewrite list_lookup_insert_ne by done. apply list_lookup_insert_eq. lia.
  - rewrite (cnt_at d i a) by (done || lia). apply cnt_at; [|lia].
    apply list_lookup_insert_eq. rewrite length_insert. lia.
  - intros p Hpi Hpj. apply cnt_ext. intros Hp. by rewrite !list_lookup_insert_ne by lia.
Qed.
Lemma wp_lfu_swap i j z d tl ex e c Q :
  lfu_cells c z d tl ex → 1 ≤ i ≤ Z.of_nat (length d) → 1 ≤ j ≤ Z.of_nat (length d) →
  (∀ c', lfu_outside c c' → lfu_cells c' z (swap_at i j d) tl ex → Q tt e c') →
  wp (lfu_swap i j) e c Q.
Proof.
  intros [Hl Hh] Hi Hj HQ. unfold lfu_swap.
  destruct (lookup_lt_is_Some_2 d (Z.to_nat (i - 1))) as [[x n] Ha]; [lia|].
  destruct (lookup_lt_is_Some_2 d (Z.to_nat (j - 1))) as [[y m] Hb]; [lia|].
  wp_step. eapply wp_lfu_at; [done..|lia|]. wp_step. eapply wp_lfu_at; [done..|lia|]. wp_step.
  eapply (wp_lfu_put _ y m); [done..|]. intros c1 Ho1 Hh1 Hl1.
  eapply (wp_lfu_put _ x n); [done|rewrite length_insert; lia|]. intros c2 Ho2 Hh2 Hl2.
  apply HQ; [by eapply lfu_outside_trans|]. pose proof (swap_at_perm i j d) as Hp.
  unfold swap_at in *. rewrite Ha, Hb in *. split; [done|]. rewrite Hh2, Hh1.
  eapply heap_is_perm; [exact Hh|]. by rewrite Hp.
Qed.
Arguments lfu_swap : simpl never.
Arguments lfu_count : simpl never.
Arguments lfu_at : simpl never.
Arguments lfu_put : simpl never.

(** * The sift loops *)

(** The result: the same nodes, in the order of a heap if only one place was wrong. *)
Lemma wp_smaller_child child smallest z d tl ex e c Q :
  lfu_cells c z d tl ex → 1 ≤ smallest → 1 ≤ child → (child ≤ Z.of_nat (length d) → smallest ≤ Z.of_nat (length d)) →
  (∀ s, s = child ∧ child ≤ Z.of_nat (length d) ∧ cnt d child < cnt d smallest ∨
        s = smallest ∧ (child ≤ Z.of_nat (length d) → cnt d smallest ≤ cnt d child) → Q s e c) →
  wp (smaller_child child smallest) e c Q.
Proof.
  intros Hc H1 H2 H3 HQ. unfold smaller_child. wp_step. eapply wp_lfu_size; [apply Hc|].
  destruct (Z.leb_spec child (Z.of_nat (length d))).
  - wp_step. eapply wp_lfu_count; [done|lia|]. wp_step. eapply wp_lfu_count; [done|lia|]. wp_step.
    apply HQ. destruct (Z.ltb_spec (cnt d child) (cnt d smallest)); [by left|right]. by split.
  - wp_step. apply HQ. right. split; [done|lia].
Qed.

Lemma wp_heapify_down_loop fuel idx z d tl ex e c Q :
  lfu_cells c z d tl ex → 1 ≤ idx → 2 * idx + 1 ≤ INT_MAX → 2 * Z.of_nat (length d) + 1 ≤ INT_MAX →
  Z.of_nat (length d) - idx < Z.of_nat fuel → (0 < fuel)%nat →
  (∀ c' d', lfu_outside c c' → lfu_cells c' z d' tl ex → d' ≡ₚ d →
    (down_ok (cnt d) (Z.of_nat (length d)) idx → heap_ok (cnt d') (Z.of_nat (length d'))) → Q tt e c') →
  wp (lfu_heapify_down_loop fuel idx) e c Q.
Proof.
  revert idx d c. induction fuel as [|fuel IH]; intros idx d c Hc Hi Hmi Hmd Hf Hf0 HQ; [lia|].
  cbn [lfu_heapify_down_loop]. wp_step. apply wp_ck_int; [unfold INT_MIN; lia|]. wp_step.
  apply wp_ck_int; [unfold INT_MIN; lia|]. wp_step.
  eapply wp_smaller_child; [exact Hc|lia|lia|lia|]. intros s1 Hs1. wp_step.
  eapply wp_smaller_child; [exact Hc|lia|lia|lia|]. intros s2 Hs2.
  destruct (Z.eqb_spec s2 idx) as [->|Hne].
  - wp_step. apply (HQ c d); [done|done|done|]. intros Hd. eapply down_ok_end; [exact Hd|].
    intros i Hin Hpi. assert (i = idx * 2 ∨ i = idx * 2 + 1) as [->| ->] by lia.
    + destruct Hs1 as [(-> & ? & ?)|(-> & H1)]; [|apply H1; lia]. destruct Hs2 as [(? & ? & ?)|(? & H2)]; lia.
    + destruct Hs2 as [(? & ? & ?)|(? & H2)]; [lia|]. subst s1. apply H2. lia.
  - assert (Hs : 2 ≤ s2 ≤ Z.of_nat (length d) ∧ s2 / 2 = idx ∧ cnt d s2 < cnt d idx ∧
      ∀ i, 2 ≤ i ≤ Z.of_nat (length d) → i / 2 = idx → cnt d s2 ≤ cnt d i).
    { assert (Hch : ∀ i, 2 ≤ i ≤ Z.of_nat (length d) → i / 2 = idx → i = idx * 2 ∨ i = idx * 2 + 1) by lia.
      destruct Hs2 as [(-> & ? & H2)|(-> & H2)].
      - assert (Hs : cnt d (idx * 2 + 1) < cnt d idx ∧ cnt d (idx * 2 + 1) ≤ cnt d (idx * 2)).
        { destruct Hs1 as [(-> & ? & H1)|(-> & H1)]; [lia|]. specialize (H1 ltac:(lia)). lia. }
        split_and!; [lia..|]. intros i Hin Hpi. destruct (Hch i Hin Hpi) as [->| ->]; lia.
      - destruct Hs1 as [(-> & ? & H1)|(-> & H1)]; [|done].
        split_and!; [lia..|]. intros i Hin Hpi. destruct (Hch i Hin Hpi) as [->| ->]; [lia|apply H2; lia]. }
    destruct Hs as (Hr & Hp & Hlt & Hmin). wp_step. eapply wp_lfu_swap; [exact Hc|lia|lia|].
    intros c1 Ho1 Hc1. pose proof (swap_at_perm s2 idx d) as Hperm. pose proof (Permutation_length Hperm) as Hlen.
    apply (IH s2 (swap_at s2 idx d) c1); try lia; [done|]. intros c2 d2 Ho2 Hc2 Hp2 Hord.
    apply (HQ c2 d2); [by eapply lfu_outside_trans|done|by etrans|]. intros Hd. apply Hord. rewrite Hlen.
    eapply down_ok_step; [exact Hd|lia|lia|done|done|done|]. apply swap_at_exchanged; lia.
Qed.

Lemma wp_heapify_down idx z d tl ex e c Q :
  lfu_cells c z d tl ex → 1 ≤ idx → 2 * idx + 1 ≤ INT_MAX → 2 * Z.of_nat (length d) + 1 ≤ INT_MAX →
  (∀ c' d', lfu_outside c c' → lfu_cells c' z d' tl ex → d' ≡ₚ d →
    (down_ok (cnt d) (Z.of_nat (length d)) idx → heap_ok (cnt d') (Z.of_nat (length d'))) → Q tt e c') →
  wp (lfu_heapify_down idx) e c Q.
Proof.
  intros Hc Hi H1 H2 HQ. unfold lfu_heapify_down. wp_step. eapply wp_lfu_size; [apply Hc|].
  eapply wp_heapify_down_loop; [exact Hc|done|done|done|lia|lia|done].
Qed.
Arguments lfu_heapify_down : simpl never.

Lemma wp_heapify_up_loop fuel idx z d tl ex e c Q :
  lfu_cells c z d tl ex → 1 ≤ idx ≤ Z.of_nat (length d) → idx < Z.of_nat fuel →
  (∀ c' d', lfu_outside c c' → lfu_cells c' z d' tl ex → d' ≡ₚ d →
    (up_ok (cnt d) (Z.of_nat (length d)) idx → heap_ok (cnt d') (Z.of_nat (length d'))) → Q tt e c') →
  wp (lfu_heapify_up_loop fuel idx) e c Q.
Proof.
  revert idx d c. induction fuel as [|fuel IH]; intros idx d c Hc Hi Hf HQ; [lia|].
  cbn [lfu_heapify_up_loop]. destruct (Z.ltb_spec 1 idx) as [H1|H1]; cbv iota beta delta [negb].
  - wp_step. eapply wp_lfu_count; [done|lia|]. wp_step. eapply wp_lfu_count; [done|lia|].
    destruct (Z.leb_spec (cnt d (idx / 2)) (cnt d idx)) as [Hle|Hlt].
    + wp_step. apply (HQ c d); [done|done|done|]. intros Hu. by eapply up_ok_end.
    + wp_step. eapply wp_lfu_swap; [exact Hc|lia|lia|]. intros c1 Ho1 Hc1.
      pose proof (swap_at_perm (idx / 2) idx d) as Hperm. pose proof (Permutation_length Hperm) as Hlen.
      apply (IH (idx / 2) (swap_at (idx / 2) idx d) c1); [done|lia|lia|]. intros c2 d2 Ho2 Hc2 Hp2 Hord.
      apply (HQ c2 d2); [by eapply lfu_outside_trans|done|by etrans|]. intros Hu. apply Hord. rewrite Hlen.
      eapply up_ok_step; [exact Hu|lia|done|]. apply swap_at_exchanged; lia.
  - wp_step. apply (HQ c d); [done|done|done|]. intros Hu. eapply up_ok_end; [exact Hu|lia].
Qed.

(** * Adding and evicting *)

(** The heap order of the array. *)
Definition ordered d : Prop := heap_ok (cnt d) (Z.of_nat (length d)).

Lemma cnt_app_l d d' i : i ≤ Z.of_nat (length d) → cnt (d ++ d') i = cnt d i.
Proof. intros Hi. apply cnt_ext. intros H1. apply lookup_app_l. lia. Qed.
Lemma ordered_snoc d p :
  ordered d → up_ok (cnt (d ++ [p])) (Z.of_nat (length (d ++ [p]))) (Z.of_nat (length d) + 1).
Proof.
  intros Hd. rewrite length_app. simpl. split.
  - intros i Hi Hne. rewrite !cnt_app_l by lia. apply Hd. lia.
  - intros i Hi Hp. lia.
Qed.

(** A new node at the end of the array. *)
Lemma wp_lfu_add x n z d t tl ex e c Q :
  c_lfu c = lfu_of z d (t :: tl) → heap_is (c_heap c) ((x, n) :: d ++ ex) →
  (∀ c' d', lfu_outside c c' → lfu_cells c' z d' tl ex → d' ≡ₚ (x, n) :: d →
    (ordered d → ordered d') → Q tt e c') →
  wp (lfu_add (Some x)) e c Q.
Proof.
  intros Hl Hh HQ. unfold lfu_add, lfu_set_size. do 2 wp_step. rewrite Hl. simpl f_capacity. simpl f_size.
  rewrite (proj2 (Z.leb_gt _ _)) by lia. cbv iota. do 3 wp_step. unfold lfu_size. repeat wp_step.
  change (f_size (c_lfu (c_set_lfu (LFU ?a ?b ?k) c))) with b. rewrite Hl. simpl f_nodes. simpl f_capacity.
  set (c0 := c_set_lfu _ c). assert (H0 : c_lfu c0 = LFU (Some (z :: (Some <$> d.*1) ++ t :: tl))
    (Z.of_nat (length d) + 1) (Z.of_nat (length d + length (t :: tl)))) by done.
  unfold lfu_put. do 3 wp_step. rewrite H0. simpl f_nodes. repeat wp_step.
  rewrite decide_True by (simpl; rewrite length_app, !length_fmap; simpl; lia). wp_step.
  set (c1 := c_set_lfu _ c0).
  assert (Hc1 : lfu_cells c1 z (d ++ [(x, n)]) tl ex).
  { split; [|eapply heap_is_perm; [exact Hh|rewrite <-(assoc_L (++)); simpl; by rewrite <-Permutation_middle]].
    unfold c1, lfu_of. simpl c_lfu. rewrite length_app. simpl length.
    replace (Z.to_nat (Z.of_nat (length d) + 1)) with (S (length d)) by lia. simpl.
    rewrite insert_app_r_alt by (rewrite !length_fmap; lia). rewrite !length_fmap, Nat.sub_diag. simpl.
    f_equal; [|lia|lia]. do 2 f_equal. rewrite !fmap_app, <-(assoc_L (++)). done. }
  unfold lfu_heapify_up. eapply wp_heapify_up_loop; [exact Hc1|rewrite length_app; simpl; lia|lia|].
  intros c2 d2 Ho2 Hc2 Hp2 Hord. apply (HQ c2 d2); [done|done| |].
  - rewrite Hp2. by rewrite <-Permutation_cons_append.
  - intros Hd. apply Hord. by apply ordered_snoc.
Qed.
Arguments lfu_add : simpl never.

Lemma insert_last_perm (db : list (loc * EvictNode)) p j q :
  (db ++ [p]) !! j = Some q → q :: <[j := p]> db ≡ₚ db ++ [p].
Proof.
  intros Hj. pose proof (lookup_lt_Some _ _ _ Hj) as Hlt. rewrite length_app in Hlt. simpl in Hlt.
  assert (Hl : (db ++ [p]) !! length db = Some p) by (by apply list_lookup_middle).
  pose proof (Permutation_insert_swap _ _ _ _ _ Hj Hl) as Hp.
  rewrite <-Hp. destruct (decide (j < length db)%nat) as [Hd|Hd].
  - rewrite insert_app_l by done. rewrite insert_app_r_alt by (rewrite length_insert; lia).
    rewrite length_insert, Nat.sub_diag. simpl. by rewrite Permutation_cons_append.
  - assert (j = length db) as -> by lia. rewrite Hl in Hj. injection Hj as ->.
    rewrite Hp, (list_insert_ge db) by lia. by rewrite Permutation_cons_append.
Qed.
Lemma insert_last (db : list (loc * EvictNode)) p j :
  (j ≤ length db)%nat → <[j := p]> (db ++ [p]) = <[j := p]> db ++ [p].
Proof.
  intros Hj. destruct (decide (j < length db)%nat); [by apply insert_app_l|].
  assert (j = length db) as -> by lia. rewrite (list_insert_ge db) by lia. apply list_insert_id.
  by apply list_lookup_middle.
Qed.

(** The last node takes the place of the one at position [i], and the array
    shrinks: the common part of an eviction and a deletion. *)
Lemma wp_remove_at {A} (K : M CacheManager A) i x n z d tl ex e c Q :
  lfu_cells c z d tl ex → d !! Z.to_nat (i - 1) = Some (x, n) → 1 ≤ i →
  2 * Z.of_nat (length d) + 1 ≤ INT_MAX →
  (∀ c' d' t', lfu_outside c c' → lfu_cells c' z d' (t' :: tl) ((x, n) :: ex) → (x, n) :: d' ≡ₚ d →
    (i = 1 → ordered d → ordered d') → wp K e c' Q) →
  wp (last ← lfu_at (Z.of_nat (length d));
      lfu_put i last;;
      lfu_set_size (Z.of_nat (length d) - 1);;
      lfu_heapify_down i;;
      K) e c Q.
Proof.
  intros [Hl Hh] Hd Hi Hmax HQ. destruct d as [|[y m] db _] using rev_ind; [done|].
  pose proof (lookup_lt_Some _ _ _ Hd) as Hlt. rewrite length_app in Hlt, Hmax. simpl in Hlt, Hmax.
  unfold lfu_set_size. wp_step. rewrite length_app. simpl length.
  eapply (wp_lfu_at _ y m); [done| |lia|].
  { replace (Z.to_nat _) with (length db) by lia. by apply list_lookup_middle. }
  wp_step. eapply (wp_lfu_put _ y m); [done|rewrite length_app; simpl; lia|]. intros c1 Ho1 Hh1 Hl1.
  rewrite insert_last in Hl1 by lia. set (d1 := <[Z.to_nat (i - 1) := (y, m)]> db) in *.
  assert (Hlen1 : length d1 = length db) by apply length_insert.
  do 3 wp_step.
  match goal with |- wp _ _ ?s _ => set (c2 := s) end.
  assert (Hc2 : lfu_cells c2 z d1 (Some y :: tl) ((x, n) :: ex)).
  { split.
    - unfold c2, lfu_of. simpl c_lfu. rewrite Hl1. simpl. rewrite Hlen1, length_app. simpl.
      f_equal; [|lia|lia]. do 2 f_equal. rewrite !fmap_app, <-(assoc_L (++)). done.
    - unfold c2. simpl c_heap. rewrite Hh1. eapply heap_is_perm; [exact Hh|].
      rewrite <-(insert_last_perm db (y, m) _ _ Hd). fold d1. by rewrite <-Permutation_middle. }
  assert (H21 : lfu_outside c c2) by done.
  eapply wp_heapify_down; [exact Hc2|lia|lia|lia|]. intros c3 d3 Ho3 Hc3 Hp3 Hord.
  apply (HQ c3 d3 (Some y)); [by eapply lfu_outside_trans|done| |].
  - rewrite Hp3. by apply insert_last_perm.
  - intros -> Hod. apply Hord. split; [|lia]. intros j Hj Hp.
    assert (Hsame : ∀ p, 2 ≤ p ≤ Z.of_nat (length d1) → cnt d1 p = cnt (db ++ [(y, m)]) p).
    { intros p Hp'. rewrite cnt_app_l by lia. apply cnt_ext. intros _. unfold d1.
      by rewrite list_lookup_insert_ne by lia. }
    rewrite !Hsame by lia. apply Hod. rewrite length_app. simpl. lia.
Qed.

(** * Finding a key *)

Lemma wp_lfu_find key z d tl ex e c Q :
  lfu_cells c z d tl ex → Forall has_key d →
  (∀ i x n, d !! Z.to_nat (i - 1) = Some (x, n) → 1 ≤ i → ev_key n = PStr key → Q (Some i) e c) →
  (Forall (λ p, ev_key p.2 ≠ PStr key) d → Q None e c) →
  wp (lfu_find (PStr key)) e c Q.
Proof.
  intros Hc Hk Hyes Hno. unfold lfu_find. wp_step. eapply wp_lfu_size; [apply Hc|].
  apply wp_for_up with (I := λ j e' c', e' = e ∧ c' = c ∧
    Forall (λ p, ev_key p.2 ≠ PStr key) (take (Z.to_nat (j - 1)) d)).
  - split_and!; [done..|]. constructor.
  - intros j e' c' Hj (-> & -> & Hpre). rewrite Nat2Z.id in Hj.
    destruct (lookup_lt_is_Some_2 d (Z.to_nat (j - 1))) as [[x n] Hd]; [lia|]. wp_step.
    eapply wp_lfu_at; [apply Hc|done|lia|]. simpl pnull. cbv iota. wp_step.
    eapply wp_eload; [apply Hc|by eapply front_lookup|].
    pose proof (Forall_lookup_1 _ _ _ _ Hk Hd) as [k Hnk]. simpl in Hnk. rewrite Hnk. simpl is_null. cbv iota.
    repeat wp_step. rewrite strcmp_eqb. destruct (String.eqb_spec k key) as [->|Hne].
    + by eapply Hyes; [exact Hd|lia|].
    + split_and!; [done..|]. replace (Z.to_nat (j + 1 - 1)) with (S (Z.to_nat (j - 1))) by lia.
      rewrite (take_S_r _ _ _ Hd). apply Forall_app. split; [done|]. constructor; [|done].
      simpl. rewrite Hnk. congruence.
  - intros e' c' (-> & -> & Hall). apply Hno. rewrite take_ge in Hall by lia. done.
Qed.
Arguments lfu_find : simpl never.

(** * The cache under LFU *)

(** The pairs of the nodes. *)
Definition node_pair (p : loc * EvictNode) : string * string :=
  (match ev_key p.2 with PStr k => k | _ => "" end, match ev_value p.2 with PStr v => v | _ => "" end).
Definition well_kept (p : loc * EvictNode) : Prop := holds (node_pair p) p.2.

Record lfu_view c d ex : Prop := {
  fv_policy : c_policy c = EVICT_LFU;
  fv_max : 0 < c_max_items c;
  fv_cap : 2 * c_max_items c + 1 ≤ INT_MAX;
  fv_nodes : Forall well_kept d;
  fv_array : ∃ z tl, lfu_cells c z d tl ex ∧ Z.of_nat (length d + length tl) = c_max_items c
}.
Lemma lfu_view_make c c' d d' z tl ex ex' :
  lfu_view c d ex → lfu_outside c c' → Forall well_kept d' → lfu_cells c' z d' tl ex' →
  Z.of_nat (length d' + length tl) = c_max_items c → lfu_view c' d' ex'.
Proof.
  intros [Hp Hm Hcap _ _] (Hp' & Hm' & _) Hd Hc Hlen. split; [congruence|by rewrite Hm'..|done|].
  exists z, tl. by rewrite Hm'.
Qed.
Lemma well_kept_keys d : Forall well_kept d → Forall has_key d.
Proof. intros H. eapply Forall_impl; [exact H|]. intros p (Hk & _). by eexists. Qed.
Lemma pair_key p k : well_kept p → ev_key p.2 = PStr k ↔ (node_pair p).1 = k.
Proof. intros (Hk & _). split; [rewrite Hk; by intros [= ?]|by intros <-]. Qed.

(** The cache as a map from keys to values and numbers of accesses; if [o] holds,
    the array is a heap. *)
Definition entry (p : loc * EvictNode) : string * (string * Z) :=
  ((node_pair p).1, ((node_pair p).2, ev_access_count p.2)).
Definition ranking_of d : gmap string (string * Z) := list_to_map (entry <$> d).
Definition distinct d : Prop := NoDup (entry <$> d).*1.
Definition lfu_state (o : Prop) c (F : gmap string (string * Z)) : Prop :=
  ∃ d ex, lfu_view c d ex ∧ distinct d ∧ F = ranking_of d ∧ (o → ordered d).

Lemma distinct_perm d d' : d ≡ₚ d' → distinct d → distinct d'.
Proof. unfold distinct. by intros ->. Qed.
Lemma ranking_perm d d' : d ≡ₚ d' → distinct d → ranking_of d = ranking_of d'.
Proof. intros Hp Hd. apply list_to_map_proper; [done|]. by rewrite Hp. Qed.
Lemma ranking_cons p d : ranking_of (p :: d) = <[(entry p).1 := (entry p).2]> (ranking_of d).
Proof. done. Qed.
Lemma distinct_cons p d : distinct (p :: d) ↔ ranking_of d !! (entry p).1 = None ∧ distinct d.
Proof.
  unfold distinct, ranking_of. rewrite !fmap_cons, NoDup_cons. rewrite not_elem_of_list_to_map. done.
Qed.
Lemma ranking_size d : distinct d → size (ranking_of d) = length d.
Proof. intros Hd. unfold ranking_of. rewrite map_size_list_to_map by done. apply length_fmap. Qed.
(** The node of a key: the others come after it up to order. *)
Lemma ranking_split d i p :
  d !! i = Some p → distinct d →
  d ≡ₚ p :: delete i d ∧ ranking_of d !! (entry p).1 = Some (entry p).2 ∧
  ranking_of (delete i d) = delete (entry p).1 (ranking_of d) ∧ distinct (delete i d).
Proof.
  intros Hi Hd. pose proof (delete_Permutation _ _ _ Hi) as Hp. pose proof (distinct_perm _ _ Hp Hd) as Hd'.
  apply distinct_cons in Hd' as [Hk Hd']. rewrite (ranking_perm _ _ Hp Hd), ranking_cons.
  split_and!; [done|apply lookup_insert_eq| |done]. by rewrite delete_insert_id.
Qed.
Lemma ranking_none d k : Forall well_kept d → Forall (λ p, ev_key p.2 ≠ PStr k) d → ranking_of d !! k = None.
Proof.
  intros Hd Hk. apply not_elem_of_list_to_map_1. intros Hin.
  apply list_elem_of_fmap in Hin as ([k' w] & -> & Hin). apply list_elem_of_fmap in Hin as (p & Heq & Hin).
  rewrite Forall_forall in Hd, Hk. apply (Hk p Hin). apply (pair_key _ _ (Hd p Hin)).
  unfold entry in Heq. by injection Heq.
Qed.
Lemma ranking_lookup d k w : ranking_of d !! k = Some w → ∃ i p, d !! i = Some p ∧ entry p = (k, w).
Proof.
  intros H. apply elem_of_list_to_map_2 in H. apply list_elem_of_fmap in H as (p & Heq & Hin).
  apply list_elem_of_lookup in Hin as [i Hi]. by exists i, p.
Qed.

Lemma insert_delete_perm d i p q : d !! i = Some p → <[i := q]> d ≡ₚ q :: delete i d.
Proof.
  intros Hi. apply list_elem_of_split_length in Hi as (l1 & l2 & -> & ->).
  rewrite insert_app_r_alt, Nat.sub_diag by lia. simpl. rewrite delete_middle. by rewrite Permutation_middle.
Qed.

Section operations.
Implicit Types (F : gmap string (string * Z)) (o : Prop).

Definition bump (n : EvictNode) : EvictNode := ev_set_access_count (u64 (ev_access_count n + 1)) n.

(** More accesses: only the order below the node can fail. *)
Lemma ordered_bump d i x n :
  d !! Z.to_nat (i - 1) = Some (x, n) → 1 ≤ i → ordered d → 0 ≤ ev_access_count n → ev_access_count n + 1 < 2 ^ 64 →
  down_ok (cnt (<[Z.to_nat (i - 1) := (x, bump n)]> d)) (Z.of_nat (length d)) i.
Proof.
  intros Hd Hi Ho Hn Hlt. pose proof (lookup_lt_Some _ _ _ Hd) as Hl.
  set (d1 := <[Z.to_nat (i - 1) := (x, bump n)]> d).
  assert (Hi1 : cnt d1 i = cnt d i + 1).
  { rewrite (cnt_at d i (x, n)) by done. unfold d1. erewrite cnt_at; [|by apply list_lookup_insert_eq|done].
    simpl. unfold u64. rewrite Z.mod_small by lia. done. }
  assert (Hne : ∀ j, j ≠ i → cnt d1 j = cnt d j).
  { intros j Hj. apply cnt_ext. intros H1. unfold d1. by rewrite list_lookup_insert_ne by lia. }
  split.
  - intros j Hj Hp. rewrite (Hne (j / 2)) by done. pose proof (Ho j Hj) as H.
    destruct (decide (j = i)) as [->|Hji]; [lia|by rewrite Hne].
  - intros j Hj Hp H2. rewrite (Hne (i / 2)), (Hne j) by lia. pose proof (Ho j Hj) as Ha. rewrite Hp in Ha.
    pose proof (Ho i ltac:(lia)) as Hb. lia.
Qed.

(** [kvs_cache_get] under LFU. *)
Lemma wp_cache_get_lfu key o F e c :
  lfu_state o c F → (o → map_Forall (λ _ w, 0 ≤ w.2 ∧ w.2 + 1 < 2 ^ 64) F) →
  wp (kvs_cache_get (PStr key)) e c (λ r e' c',
    mallocs e' = mallocs e ∧ live e' = live e ∧ c_max_items c' = c_max_items c ∧
    match F !! key with
    | Some (v, n) => r = (PStr v, Some (len1 v)) ∧ lfu_state o c' (<[key := (v, u64 (n + 1))]> F)
    | None => r = (PNull, None) ∧ lfu_state o c' F
    end).
Proof.
  intros (d & ex & Hv & Hd & -> & Ho) Hb. pose proof Hv as [Hp Hm Hcap Hk (z & tl & Hc & Hlen)].
  unfold kvs_cache_get, bump_cache_hit, bump_cache_miss, bump_total_access. repeat wp_step.
  destruct (Z.eqb_spec (c_max_items c) 0) as [|_]; [lia|]. simpl is_null. cbv iota beta delta [orb].
  repeat wp_step. rewrite Hp. simpl Z.eqb. cbv iota. wp_step.
  eapply wp_lfu_find; [exact Hc|by apply well_kept_keys| |].
  - intros i x n Hi H1 Hkey. pose proof (Forall_lookup_1 _ _ _ _ Hk Hi) as Hn.
    pose proof (proj1 (pair_key _ _ Hn) Hkey) as Hnk. simpl in Hnk.
    destruct (ranking_split _ _ _ Hi Hd) as (Hsp & Hlk & Hdel & Hdd). simpl in Hlk, Hdel. rewrite Hnk in Hlk, Hdel.
    rewrite Hlk. wp_step. eapply wp_lfu_at; [apply Hc|done..|]. wp_step.
    eapply wp_estore; [apply Hc|by eapply front_lookup|]. intros c1 Hs1 Hh1. wp_step.
    destruct (same_lists_lfu _ _ Hs1) as [Ho1 Hl1]. pose proof (lookup_lt_Some _ _ _ Hi) as Hlt.
    set (d1 := <[Z.to_nat (i - 1) := (x, bump n)]> d).
    assert (Hp1 : d1 ≡ₚ (x, bump n) :: delete (Z.to_nat (i - 1)) d) by (by eapply insert_delete_perm).
    assert (Hc1 : lfu_cells c1 z d1 tl ex).
    { split; [|eapply heap_is_perm; [exact Hh1|by rewrite Hp1]]. rewrite Hl1, (proj1 Hc). unfold lfu_of, d1.
      rewrite length_insert, list_fmap_insert. simpl. rewrite list_insert_id; [done|]. by rewrite list_lookup_fmap, Hi. }
    assert (Hk1 : Forall well_kept d1).
    { rewrite Hp1. constructor; [exact Hn|]. rewrite Hsp in Hk. by apply Forall_cons in Hk as [_ ?]. }
    assert (Hlen1 : length d1 = length d) by apply length_insert.
    eapply wp_heapify_down; [exact Hc1|lia|lia|lia|]. intros c2 d2 Ho2 Hc2 Hp2 Hord. repeat wp_step.
    assert (Hx : ∃ r, d2 ++ ex ≡ₚ (x, bump n) :: r) by (exists (delete (Z.to_nat (i - 1)) d ++ ex); by rewrite Hp2, Hp1).
    destruct Hx as [r Hx]. eapply (wp_eload _ (bump n)); [exact (proj2 Hc2)|exact Hx|]. wp_step.
    assert (Hout : lfu_outside c c2) by (by eapply lfu_outside_trans).
    destruct Hn as (_ & Hnv & Hnl). split_and!; [done|done|apply Hout| |].
    + cbn [snd] in Hnv, Hnl. simpl. rewrite Hnv, Hnl. done.
    + exists d2, ex.
      assert (Hd1 : distinct ((x, bump n) :: delete (Z.to_nat (i - 1)) d)).
      { apply distinct_cons. split; [|done]. simpl. rewrite Hnk, Hdel. apply lookup_delete_eq. }
      assert (Hd2 : d2 ≡ₚ (x, bump n) :: delete (Z.to_nat (i - 1)) d) by (by rewrite Hp2).
      split_and!.
      * eapply (lfu_view_make c _ d); [done|exact Hout|by rewrite Hp2|exact Hc2|].
        rewrite (Permutation_length Hp2), Hlen1. done.
      * by eapply distinct_perm; [symmetry|].
      * rewrite (ranking_perm _ _ Hd2) by (by eapply distinct_perm; [symmetry|]). rewrite ranking_cons. simpl.
        rewrite Hnk, Hdel. by rewrite insert_delete_eq.
      * intros Ht. apply Hord. rewrite Hlen1. specialize (Hb Ht _ _ Hlk). simpl in Hb.
        apply ordered_bump; auto; lia.
  - intros Hno. rewrite (ranking_none _ _ Hk Hno). repeat wp_step. split_and!; try done.
    exists d, ex. split_and!; try done. by eapply (lfu_view_make c).
Qed.

(** What an addition drops: nothing while there is room; in a full cache one pair,
    which has the fewest accesses if the array is a heap. *)
Definition makes_room o (cap : Z) F F0 : Prop :=
  Z.of_nat (size F) < cap ∧ F0 = F ∨
  Z.of_nat (size F) = cap ∧ ∃ k w, F !! k = Some w ∧ F0 = delete k F ∧
    (o → map_Forall (λ _ w', w.2 ≤ w'.2) F).

Lemma ordered_min d p k w : ordered d → d !! 0%nat = Some p → ranking_of d !! k = Some w → ev_access_count p.2 ≤ w.2.
Proof.
  intros Ho H0 Hk. apply ranking_lookup in Hk as (i & q & Hi & Heq). unfold entry in Heq. injection Heq as _ <-. simpl.
  pose proof (lookup_lt_Some _ _ _ Hi) as Hlt.
  pose proof (heap_ok_root _ _ (Z.of_nat i + 1) Ho ltac:(lia)) as Hr.
  rewrite (cnt_at d 1 p), (cnt_at d (Z.of_nat i + 1) q) in Hr; [done|..|lia]; [|lia|done].
  by replace (Z.to_nat (Z.of_nat i + 1 - 1)) with i by lia.
Qed.

(** The step that makes room, with the new node already allocated. *)
Lemma wp_make_room x0 n0 o d ex z tl e c Q :
  lfu_view c d ((x0, n0) :: ex) → lfu_cells c z d tl ((x0, n0) :: ex) →
  Z.of_nat (length d + length tl) = c_max_items c → distinct d → (o → ordered d) →
  (∀ e' c' d' t tl', lfu_outside c c' → lfu_cells c' z d' (t :: tl') ((x0, n0) :: ex) →
    Z.of_nat (length d' + length (t :: tl')) = c_max_items c → Forall well_kept d' → distinct d' →
    (o → ordered d') → makes_room o (c_max_items c) (ranking_of d) (ranking_of d') →
    mallocs e' = mallocs e → live e' = live e - 3 * (Z.of_nat (length d) - Z.of_nat (length d')) → Q tt e' c') →
  wp (f ← gets c_lfu;
      if (f_capacity f <=? f_size f) then
        victim ← lfu_evict;
        (if negb (pnull victim) then free_node victim else mret tt)
      else mret tt) e c Q.
Proof.
  intros Hv Hc Hlen Hd Ho HQ. pose proof Hv as [Hp Hm Hcap Hk _]. do 2 wp_step. rewrite (proj1 Hc). simpl.
  destruct (Z.leb_spec (Z.of_nat (length d + length tl)) (Z.of_nat (length d))) as [Hfull|Hroom].
  - destruct tl as [|t tl]; [|simpl in Hfull; lia]. simpl in Hlen. rewrite Nat.add_0_r in Hlen.
    destruct (lookup_lt_is_Some_2 d 0) as [[x n] H0]; [lia|].
    unfold lfu_evict. do 2 wp_step. eapply wp_lfu_size; [apply Hc|].
    rewrite (proj2 (Z.eqb_neq _ _)) by lia. wp_step. eapply (wp_lfu_at 1 x n); [apply Hc|done|lia|].
    eapply (wp_remove_at _ 1 x n); [exact Hc|done|lia|lia|]. intros c1 d1 t1 Ho1 Hc1 Hp1 Hord. wp_step.
    simpl pnull. cbv iota beta delta [negb]. pose proof (Forall_lookup_1 _ _ _ _ Hk H0) as Hn.
    eapply wp_free_node; [apply Hc1| |exact Hn|]; [typeclasses eauto|]. intros c2 Hs2 Hh2.
    destruct (same_lists_lfu _ _ Hs2) as [Ho2 Hl2]. destruct (ranking_split _ _ _ H0 Hd) as (Hsp & Hlk & Hdel & Hdd).
    pose proof (Permutation_length Hp1) as Hpl. simpl in Hpl.
    assert (Hd1 : distinct ((x, n) :: d1)) by (by eapply distinct_perm; [symmetry|]).
    assert (Hr1 : ranking_of d1 = delete (entry (x, n)).1 (ranking_of d)).
    { rewrite (ranking_perm d ((x, n) :: d1)) by done. rewrite ranking_cons.
      apply distinct_cons in Hd1 as [Hnone _]. by rewrite delete_insert_id. }
    apply distinct_cons in Hd1 as [_ Hd1].
    apply (HQ _ c2 d1 t1 []); try done.
    + by eapply lfu_outside_trans.
    + split; [by rewrite Hl2, (proj1 Hc1)|exact Hh2].
    + simpl. lia.
    + rewrite <-Hp1 in Hk. by apply Forall_cons in Hk as [_ ?].
    + auto.
    + right. split; [rewrite ranking_size by done; lia|]. eexists _, _. split_and!; [exact Hlk|exact Hr1|].
      intros Ht k w Hkw. eapply (ordered_min d (x, n)); [auto|done|exact Hkw].
    + simpl. lia.
  - destruct tl as [|t tl]; [simpl in Hroom; lia|]. wp_step. apply (HQ e c d t tl); try done; [|lia].
    left. split; [|done]. rewrite ranking_size by done. simpl in *. lia.
Qed.

(** [kvs_cache_lru_add] under LFU. *)
Lemma wp_cache_add_lfu key v o F e c :
  lfu_state o c F → F !! key = None → no_oom e →
  wp (kvs_cache_lru_add (PStr key) (PStr v) (len1 v)) e c (λ _ e' c',
    no_oom e' ∧ c_max_items c' = c_max_items c ∧
    ∃ F0, makes_room o (c_max_items c) F F0 ∧ lfu_state o c' (<[key := (v, 1)]> F0) ∧
      live e' = live e + 3 * (1 + Z.of_nat (size F0) - Z.of_nat (size F))).
Proof.
  intros (d & ex & Hv & Hd & -> & Ho) Hnone He. pose proof Hv as [Hp Hm Hcap Hk (z & tl & Hc & Hlen)].
  unfold kvs_cache_lru_add. repeat wp_step. rewrite Hp. simpl Z.eqb. cbv iota. wp_step.
  eapply wp_new_node; [apply Hc|done|]. intros x n c1 e1 He1 Hle1 Hs1 Hn Hn1 Hh1.
  destruct (same_lists_lfu _ _ Hs1) as [Ho1 Hl1]. pose proof Ho1 as (Hp1 & Hm1 & _).
  do 2 wp_step. rewrite Hp1, Hp. simpl Z.eqb. cbv iota.
  assert (Hc1 : lfu_cells c1 z d tl ((x, n) :: ex)).
  { split; [by rewrite Hl1, (proj1 Hc)|]. eapply heap_is_perm; [exact Hh1|perm_solve]. }
  apply wp_bind_assoc. wp_step.
  eapply (wp_make_room x n o d ex z tl); [by eapply (lfu_view_make c)|done|by rewrite Hm1|done|done|].
  intros e2 c2 d2 t tl2 Ho2 Hc2 Hlen2 Hk2 Hd2 Hord2 Hroom Hme2 Hle2. rewrite Hm1 in *.
  eapply (wp_lfu_add x n z d2 t tl2 ex); [apply Hc2| |].
  { eapply heap_is_perm; [apply Hc2|perm_solve]. }
  intros c3 d3 Ho3 Hc3 Hp3 Hord3. destruct Hn as (Hnk & Hnv & Hnl).
  assert (Hent : entry (x, n) = (key, (v, 1))) by (unfold entry, node_pair; simpl; by rewrite Hnk, Hnv, Hn1).
  assert (Hnew : ranking_of d2 !! key = None).
  { destruct Hroom as [[_ ->]|(_ & k & w & _ & -> & _)]; [done|]. by rewrite lookup_delete_None; right. }
  assert (Hd3 : distinct ((x, n) :: d2)) by (apply distinct_cons; by rewrite Hent).
  assert (Hout : lfu_outside c c3) by (eapply lfu_outside_trans; [|exact Ho3]; by eapply lfu_outside_trans).
  assert (Hsz : Z.of_nat (length d) = Z.of_nat (size (ranking_of d)) ∧
                Z.of_nat (length d2) = Z.of_nat (size (ranking_of d2))) by (by rewrite !ranking_size).
  split_and!; [unfold no_oom in *; by rewrite Hme2|apply Hout|]. exists (ranking_of d2). split_and!; [done| |lia].
  exists d3, ex. split_and!.
  - eapply (lfu_view_make c _ d); [done|exact Hout| |exact Hc3|].
    + rewrite Hp3. constructor; [|done]. unfold well_kept, node_pair, holds. simpl. rewrite Hnk, Hnv. by split_and!.
    + rewrite (Permutation_length Hp3). simpl in *. lia.
  - by eapply distinct_perm; [symmetry|].
  - rewrite (ranking_perm d3 _ Hp3) by (by eapply distinct_perm; [symmetry|]). by rewrite ranking_cons, Hent.
  - auto.
Qed.

(** [kvs_cache_del] under LFU: the order of the heap may be lost. *)
Lemma wp_cache_del_lfu key o F e c :
  lfu_state o c F →
  wp (kvs_cache_del (PStr key)) e c (λ r e' c',
    mallocs e' = mallocs e ∧ c_max_items c' = c_max_items c ∧
    match F !! key with
    | Some _ => r = 0 ∧ lfu_state False c' (delete key F) ∧ live e' = live e - 3
    | None => r = -2 ∧ lfu_state o c' F ∧ live e' = live e
    end).
Proof.
  intros (d & ex & Hv & Hd & -> & Ho). pose proof Hv as [Hp Hm Hcap Hk (z & tl & Hc & Hlen)].
  unfold kvs_cache_del. repeat wp_step.
  destruct (Z.eqb_spec (c_max_items c) 0) as [|_]; [lia|]. simpl is_null. cbv iota beta delta [orb].
  repeat wp_step. rewrite Hp. simpl Z.eqb. cbv iota. wp_step.
  eapply wp_lfu_find; [exact Hc|by apply well_kept_keys| |].
  - intros i x n Hi H1 Hkey. pose proof (Forall_lookup_1 _ _ _ _ Hk Hi) as Hn.
    pose proof (proj1 (pair_key _ _ Hn) Hkey) as Hnk. simpl in Hnk.
    destruct (ranking_split _ _ _ Hi Hd) as (Hsp & Hlk & Hdel & Hdd). simpl in Hlk, Hdel. rewrite Hnk in Hlk, Hdel.
    rewrite Hlk. wp_step. eapply wp_lfu_at; [apply Hc|done..|]. wp_step. eapply wp_lfu_size; [apply Hc|].
    eapply (wp_remove_at _ i x n); [exact Hc|done|done|lia|]. intros c1 d1 t1 Ho1 Hc1 Hp1 _. wp_step.
    eapply wp_free_node; [apply Hc1|typeclasses eauto|exact Hn|]. intros c2 Hs2 Hh2. wp_step.
    destruct (same_lists_lfu _ _ Hs2) as [Ho2 Hl2]. assert (Hout : lfu_outside c c2) by (by eapply lfu_outside_trans).
    assert (Hd1 : distinct ((x, n) :: d1)) by (by eapply distinct_perm; [symmetry|]).
    apply distinct_cons in Hd1 as Hd1'. destruct Hd1' as [Hnone Hd1'].
    split_and!; [done|apply Hout|done| |simpl; lia]. exists d1, ex. split_and!; [|done| |done].
    + eapply (lfu_view_make c _ d d1 z (t1 :: tl)); [done|exact Hout| |split; [by rewrite Hl2, (proj1 Hc1)|exact Hh2]|].
      * rewrite <-Hp1 in Hk. by apply Forall_cons in Hk as [_ ?].
      * pose proof (Permutation_length Hp1) as Hpl. simpl in *. lia.
    + rewrite (ranking_perm d ((x, n) :: d1)) by done. rewrite ranking_cons. simpl in *. rewrite Hnk in *.
      by rewrite delete_insert_id.
  - intros Hno. rewrite (ranking_none _ _ Hk Hno). wp_step. split_and!; try done.
    exists d, ex. by split_and!.
Qed.
End operations.

(** * What the LFU policy promises *)

Definition lfu_holds c (S : gmap string string) : Prop := ∃ F, lfu_state False c F ∧ S = fst <$> F.

Lemma makes_room_sub o cap (F F0 : gmap string (string * Z)) : makes_room o cap F F0 → F0 ⊆ F.
Proof. intros [[_ ->]|(_ & k & w & _ & -> & _)]; [done|apply delete_subseteq]. Qed.

Global Program Instance lfu_contract : CacheContract EVICT_LFU := {| cache_holds _ := lfu_holds |}.
Next Obligation. by intros _ c S (F & (d & ex & [Hp _ _ _ _] & _) & _). Qed.
Next Obligation. done. Qed.
Next Obligation.
  intros _ e c S k (F & HF & ->). eapply wp_mono; [by eapply wp_cache_get_lfu|].
  intros r e' c' (Hm & Hl & _ & Hr). rewrite lookup_fmap. destruct (F !! k) as [[v n]|] eqn:Hk; destruct Hr as [-> HF'];
    (split_and!; [done| |done..]); eexists; (split; [exact HF'|]); [|done].
  rewrite fmap_insert. simpl. symmetry. apply insert_id. by rewrite lookup_fmap, Hk.
Qed.
Next Obligation.
  intros _ e c S k v (F & HF & ->) Hk He. rewrite lookup_fmap, fmap_None in Hk.
  eapply wp_mono; [by eapply wp_cache_add_lfu|]. intros _ e' c' (He' & _ & F0 & Hroom & HF' & _).
  split; [done|]. exists (fst <$> <[k := (v, 1)]> F0). rewrite fmap_insert. split_and!.
  - apply lookup_insert_eq.
  - apply insert_mono, map_fmap_mono. by eapply makes_room_sub.
  - eexists. split; [exact HF'|by rewrite fmap_insert].
Qed.
Next Obligation.
  intros _ e c S k (F & HF & ->). eapply wp_mono; [by eapply wp_cache_del_lfu|].
  intros r e' c' (Hm & _ & Hr). rewrite lookup_fmap. destruct (F !! k) as [w|] eqn:Hk; destruct Hr as (-> & HF' & _); split_and!.
  - done.
  - eexists. split; [exact HF'|by rewrite fmap_delete].
  - done.
  - by intros [].
  - exists F. split; [done|]. by rewrite delete_id by (by rewrite lookup_fmap, Hk).
  - done.
Qed.

(** ** Reading through the cache *)

(** The use the dispatcher makes of the cache: a miss is followed by an addition. *)
Definition read_through (kv : string * string) : M CacheManager cptr :=
  r ← kvs_cache_get (PStr kv.1);
  if is_null r.1 then
    kvs_cache_lru_add (PStr kv.1) (PStr kv.2) (len1 kv.2);;
    mret PNull
  else mret r.1.
Fixpoint read_all (l : list (string * string)) : M CacheManager (list cptr) :=
  match l with
  | [] => mret []
  | kv :: l' =>
      r ← read_through kv;
      rest ← read_all l';
      mret (r :: rest)
  end.

(** The policy: a hit counts, a miss enters with one access, and a full cache
    drops a pair with the fewest accesses. *)
Inductive lfu_step (cap : Z) : gmap string (string * Z) → string * string → cptr → gmap string (string * Z) → Prop :=
  | lfu_hit F k v w n : F !! k = Some (w, n) → lfu_step cap F (k, v) (PStr w) (<[k := (w, n + 1)]> F)
  | lfu_miss F F0 k v : F !! k = None → makes_room True cap F F0 → lfu_step cap F (k, v) PNull (<[k := (v, 1)]> F0).
Inductive lfu_steps (cap : Z) : gmap string (string * Z) → list (string * string) → list cptr → gmap string (string * Z) → Prop :=
  | lfu_done F : lfu_steps cap F [] [] F
  | lfu_more F kv r F1 l rs F2 :
      lfu_step cap F kv r F1 → lfu_steps cap F1 l rs F2 → lfu_steps cap F (kv :: l) (r :: rs) F2.

Definition counts_within (N : Z) (F : gmap string (string * Z)) : Prop := map_Forall (λ _ w, 1 ≤ w.2 ≤ N) F.

Lemma wp_read_through kv F N e c :
  lfu_state True c F → no_oom e → counts_within N F → 0 ≤ N → N + 1 < 2 ^ 64 →
  wp (read_through kv) e c (λ r e' c',
    no_oom e' ∧ c_max_items c' = c_max_items c ∧ ∃ F', lfu_step (c_max_items c) F kv r F' ∧
      lfu_state True c' F' ∧ counts_within (N + 1) F' ∧
      live e' = live e + 3 * (Z.of_nat (size F') - Z.of_nat (size F))).
Proof.
  intros HF He HN H0 Hmax. destruct kv as [k v]. unfold read_through. simpl fst. simpl snd. wp_step.
  eapply wp_mono; [apply (wp_cache_get_lfu k True F); [done|]|].
  { intros _ k' w Hw. specialize (HN k' w Hw). simpl in *. lia. }
  intros r e1 c1 (Hm1 & Hl1 & Hx1 & Hr). destruct (F !! k) as [[w n]|] eqn:Hk; destruct Hr as [-> HF1].
  - simpl. wp_step. specialize (HN k _ Hk) as Hn. simpl in Hn.
    assert (Hu : u64 (n + 1) = n + 1) by (unfold u64; rewrite Z.mod_small; lia). rewrite Hu in HF1.
    split_and!; [unfold no_oom in *; by rewrite Hm1|done|]. eexists. split_and!; [by apply lfu_hit|done| |].
    + apply map_Forall_insert_2; [simpl; lia|]. intros k' w' Hw. specialize (HN k' w' Hw). simpl in *. lia.
    + rewrite map_size_insert_Some by eauto. lia.
  - simpl. wp_step. eapply wp_mono; [apply (wp_cache_add_lfu k v True F); [done|done|unfold no_oom in *; by rewrite Hm1]|].
    intros _ e2 c2 (He2 & Hx2 & F0 & Hroom & HF2 & Hl2). wp_step. rewrite Hx1 in *.
    split_and!; [done|congruence|]. eexists. split_and!; [by apply lfu_miss|done| |].
    + apply map_Forall_insert_2; [simpl; lia|]. intros k' w' Hw.
      apply (lookup_weaken _ F) in Hw; [|by eapply makes_room_sub]. specialize (HN k' w' Hw). simpl in *. lia.
    + rewrite map_size_insert_None; [lia|]. apply makes_room_sub in Hroom.
      by eapply lookup_weaken_None.
Qed.

Lemma wp_read_all l F N e c :
  lfu_state True c F → no_oom e → counts_within N F → 0 ≤ N → N + Z.of_nat (length l) < 2 ^ 64 →
  wp (read_all l) e c (λ rs e' c', ∃ F', lfu_steps (c_max_items c) F l rs F' ∧ lfu_state True c' F' ∧
    c_max_items c' = c_max_items c ∧ live e' = live e + 3 * (Z.of_nat (size F') - Z.of_nat (size F))).
Proof.
  revert F N e c. induction l as [|kv l IH]; intros F N e c HF He HN H0 Hmax; simpl; wp_step.
  { exists F. split_and!; [constructor|done|done|lia]. }
  simpl in Hmax. eapply wp_mono; [eapply (wp_read_through kv F N); try done; lia|].
  intros r e1 c1 (He1 & Hx1 & F1 & Hstep & HF1 & HN1 & Hl1). wp_step.
  eapply wp_mono; [eapply (IH F1 (N + 1)); try done; lia|]. intros rs e2 c2 (F2 & Hsteps & HF2 & Hx2 & Hl2).
  wp_step. rewrite Hx1 in *. exists F2. split_and!; [by econstructor|done|done|lia].
Qed.

(** A new heap. *)
Lemma lfu_state_new c n :
  0 < n → 2 * n + 1 ≤ INT_MAX → c_max_items c = n →
  c_lfu c = LFU (Some (replicate (Z.to_nat (n + 1)) None)) 0 n → c_heap c = ∅ →
  ∀ o, lfu_state o (c_set_policy EVICT_LFU c) ∅.
Proof.
  intros H0 Hcap Hm Hlfu Hh o.
  exists [], []. split_and!; [|constructor|done|intros _ i Hi; simpl in Hi; lia].
  split; simpl; [done|lia|by rewrite Hm|constructor|].
  exists None, (replicate (Z.to_nat n) None). split; [split|].
  - simpl c_lfu. rewrite Hlfu. unfold lfu_of. simpl. rewrite length_replicate.
    replace (Z.to_nat (n + 1)) with (S (Z.to_nat n)) by lia. simpl. f_equal. lia.
  - simpl c_heap. rewrite Hh. by split; [constructor|].
  - simpl. rewrite length_replicate, Hm. lia.
Qed.
Lemma lfu_state_counters o c F z : lfu_state o c F → lfu_state o (c_set_policy_changes z c) F.
Proof. intros (d & ex & [H1 H2 H3 H4 H5] & Hd & HF & Ho). exists d, ex. by split_and!. Qed.

(** A new cache that is switched to LFU. *)
Definition lfu_start (max_items : Z) : M CacheManager unit :=
  kvs_cache_init max_items;;
  kvs_cache_set_policy EVICT_LFU.
Lemma wp_lfu_start max_items e Q :
  2 * capacity max_items + 1 ≤ INT_MAX → no_oom e →
  (∀ e' c', no_oom e' → live e' = live e + 5 → c_max_items c' = capacity max_items → lfu_state True c' ∅ → Q tt e' c') →
  wp (lfu_start max_items) e g_cache Q.
Proof.
  intros Hcap He HQ. unfold lfu_start, kvs_cache_set_policy. wp_step.
  assert (Hmx : max_items < INT_MAX).
  { unfold capacity in Hcap. destruct (Z.ltb_spec 0 max_items); unfold INT_MAX in *; lia. }
  pose proof (capacity_bounds _ Hmx) as Hb. apply wp_cache_init; [done..|].
  intros e' c' He' Hl Hp Hm Hh Hlfu _ _ _. repeat wp_step. apply HQ; [done..|].
  apply lfu_state_counters. by apply (lfu_state_new _ (capacity max_items)); [lia|..].
Qed.

(** C13: under the LFU policy, reading any sequence of pairs through a new cache
    follows the policy: a hit answers the cached value and counts, a miss enters
    the pair, and a full cache drops a pair with the fewest accesses.  The cache
    never holds more than its capacity, and three blocks are in use per pair. *)
Theorem lfu_cache_refines max_items l e :
  2 * capacity max_items + 1 ≤ INT_MAX → no_oom e → Z.of_nat (length l) < 2 ^ 64 →
  wp (lfu_start max_items;; read_all l) e g_cache (λ rs e' c',
    ∃ F, lfu_steps (capacity max_items) ∅ l rs F ∧ lfu_state True c' F ∧
      Z.of_nat (size F) ≤ capacity max_items ∧ live e' = live e + 5 + 3 * Z.of_nat (size F)).
Proof.
  intros Hcap He Hlen. wp_step. apply wp_lfu_start; [done..|]. intros e1 c1 He1 Hl1 Hx1 HF1.
  eapply wp_mono; [apply (wp_read_all l ∅ 0 e1 c1); [done|done|apply map_Forall_empty|lia|lia]|].
  intros rs e2 c2 (F & Hsteps & HF & Hx2 & Hl2). rewrite Hx1 in *. exists F.
  rewrite map_size_empty in Hl2. split_and!; [done|done| |lia].
  destruct HF as (d & ex & [_ _ _ _ (z & tl & _ & Hsz)] & Hd & -> & _). rewrite ranking_size by done. lia.
Qed.

Lemma lfu_cache_refines_witness :
  2 * capacity 2 + 1 ≤ INT_MAX ∧
  wp (lfu_start 2;; read_all [("a", "1"); ("b", "2"); ("a", "1"); ("c", "3")]) env0 g_cache (λ rs e' c',
    ∃ F, lfu_steps (capacity 2) ∅ [("a", "1"); ("b", "2"); ("a", "1"); ("c", "3")] rs F ∧ lfu_state True c' F ∧
      Z.of_nat (size F) ≤ capacity 2 ∧ live e' = live env0 + 5 + 3 * Z.of_nat (size F)).
Proof.
  split; [unfold capacity, INT_MAX; simpl; lia|].
  apply (lfu_cache_refines 2); [unfold capacity, INT_MAX; simpl; lia|constructor|simpl; lia].
Defined.

(** * Deletion *)

Definition reads (k : string) : list cache_op := [CGet k; CAdd k k].
(** Six keys, some read again; "f" is deleted; then a seventh key is read. *)
Definition deletion_trace : list cache_op :=
  reads "a" ++ reads "c" ++ reads "b" ++ reads "g" ++ reads "f" ++ [CGet "c"] ++ reads "h" ++
  [CGet "f"; CGet "g"; CGet "g"; CDel "f"] ++ reads "e" ++ [CGet "a"; CGet "b"; CGet "e"] ++ reads "d".

(** A deletion only sifts down the node that fills the hole, so the order can
    be lost: in this run "h" was read once and "e" twice, but it is "e" that the
    full cache drops. *)
Theorem lfu_delete_loses_order :
  match (lfu_start 6;; cache_run_all (deletion_trace ++ [CGet "h"; CGet "e"])) env0 g_cache with
  | Ret (a, _, _) => drop (length deletion_trace) a = [CHit (PStr "h"); CHit PNull]
  | _ => False
  end.
Proof. vm_compute. reflexivity. Qed.
