(* ===== verification/CacheArc.v ===== *)
(** The cache under the ARC policy: the pointer code on the four lists refines
    operations on four lists of keys, and those never serve a value that was
    not stored.  The capacity, however, is not kept. *)
From stdpp Require Import pretty.
From S2P Require Import Prelude KvsSpec CacheModel CacheSpec CacheList CacheLru CacheLfu.

Local Open Scope Z_scope.

(** * The policy on lists *)

(** A key with its value; the ghosts of the policy have none. *)
Abbreviation slot := (string * option string)%type.
(** The four lists, most recently used first; [LLru] plays no role. *)
Abbreviation arc_lists := (lref → list slot).
Implicit Types (l : list slot) (k v : string) (ov : option string) (A : arc_lists) (r : lref).

Definition put r l A : arc_lists := λ r', if decide (r' = r) then l else A r'.
(** The first slot of a key: its value and the rest. *)
Fixpoint take_slot k l : option (option string * list slot) :=
  match l with
  | [] => None
  | s :: l' =>
      if decide (s.1 = k) then Some (s.2, l') else
      match take_slot k l' with Some (ov, rest) => Some (ov, s :: rest) | None => None end
  end.
Definition split_last l : option (list slot * slot) :=
  match reverse l with [] => None | s :: rest => Some (reverse rest, s) end.

(** A hit in a list moves the slot to the front of T2. *)
Definition to_front r k A : option arc_lists :=
  match take_slot k (A r) with
  | Some (ov, rest) => let A' := put r rest A in Some (put LT2 ((k, ov) :: A' LT2) A')
  | None => None
  end.
Definition size_of r A : Z := Z.of_nat (length (A r)).
Definition spec_delta (own other : lref) A : Z :=
  if (0 <? size_of other A) then Z.max 1 (Z.quot (size_of other A) (size_of own A)) else 1.
Definition spec_access (mx : Z) k A (target : Z) : Z * arc_lists * Z :=
  match to_front LT1 k A with
  | Some A' => (ARC_HIT_T1, A', target)
  | None =>
      match to_front LT2 k A with
      | Some A' => (ARC_HIT_T2, A', target)
      | None =>
          match to_front LB1 k A with
          | Some A' => (ARC_HIT_B1, A', Z.min mx (target + spec_delta LB1 LB2 A))
          | None =>
              match to_front LB2 k A with
              | Some A' => (ARC_HIT_B2, A', Z.max 0 (target - spec_delta LB2 LB1 A))
              | None => (ARC_MISS, A, target)
              end
          end
      end
  end.
(** Only a hit in T1 or T2 answers a value. *)
Definition spec_get (mx : Z) k A (target : Z) : option string * arc_lists * Z :=
  let '(hit, A', target') := spec_access mx k A target in
  (if (hit =? ARC_HIT_T1) || (hit =? ARC_HIT_T2) then
     match A' LT2 with s :: _ => s.2 | [] => None end
   else None, A', target').
(** The last slot of [t] leaves a ghost in [b]; at most [mx] ghosts stay. *)
Definition spec_retire (mx : Z) (t b : lref) A : option arc_lists :=
  match split_last (A t) with
  | Some (rest, s) => Some (put b (take (Z.to_nat mx) ((s.1, None) :: A b)) (put t rest A))
  | None => None
  end.
Definition spec_evict (mx : Z) A (target : Z) : arc_lists :=
  if (size_of LT1 A + size_of LT2 A <? mx) then A else
  match (if (target <? size_of LT1 A) then spec_retire mx LT1 LB1 A else None) with
  | Some A' => A'
  | None => default A (spec_retire mx LT2 LB2 A)
  end.
Definition spec_add (mx : Z) k v A (target : Z) : arc_lists :=
  let A' := spec_evict mx A target in put LT1 ((k, Some v) :: A' LT1) A'.
Fixpoint spec_del (rs : list lref) k A : Z * arc_lists :=
  match rs with
  | [] => (-1, A)
  | r :: rs' =>
      match take_slot k (A r) with
      | Some (_, rest) => (0, put r rest A)
      | None => spec_del rs' k A
      end
  end.

Lemma put_eq r l A : put r l A r = l.
Proof. unfold put. by rewrite decide_True. Qed.
Lemma put_ne r r' l A : r' ≠ r → put r l A r' = A r'.
Proof. intros. unfold put. by rewrite decide_False. Qed.

Ltac put_simpl := repeat first [rewrite put_eq | rewrite put_ne by done].

Lemma take_slot_some la k ov lb :
  Forall (λ s : slot, s.1 ≠ k) la → take_slot k (la ++ (k, ov) :: lb) = Some (ov, la ++ lb).
Proof.
  induction 1 as [|s la Hs _ IH]; simpl; [by rewrite decide_True|]. by rewrite decide_False, IH.
Qed.
Lemma take_slot_none k l : Forall (λ s : slot, s.1 ≠ k) l → take_slot k l = None.
Proof. induction 1 as [|s l Hs _ IH]; simpl; [done|]. by rewrite decide_False, IH. Qed.
Lemma take_slot_spec k l :
  match take_slot k l with
  | Some (ov, rest) => ∃ la lb, l = la ++ (k, ov) :: lb ∧ rest = la ++ lb ∧ Forall (λ s : slot, s.1 ≠ k) la
  | None => Forall (λ s : slot, s.1 ≠ k) l
  end.
Proof.
  induction l as [|[k' ov'] l IH]; simpl; [done|]. destruct (decide (k' = k)) as [->|Hne].
  - exists [], l. by split_and!.
  - destruct (take_slot k l) as [[ov rest]|]; [|by constructor]. destruct IH as (la & lb & -> & -> & Hla).
    exists ((k', ov') :: la), lb. split_and!; [done..|]. by constructor.
Qed.
Lemma split_last_snoc l s : split_last (l ++ [s]) = Some (l, s).
Proof. unfold split_last. rewrite reverse_app. simpl. by rewrite reverse_involutive. Qed.

(** Blocks of memory: a node, its key, and its value if it has one. *)
Definition slot_blocks (s : slot) : Z := match s.2 with Some _ => 3 | None => 2 end.
Fixpoint list_blocks l : Z := match l with [] => 0 | s :: l' => slot_blocks s + list_blocks l' end.
Definition arc_blocks A : Z :=
  list_blocks (A LT1) + list_blocks (A LT2) + list_blocks (A LB1) + list_blocks (A LB2).
Lemma list_blocks_app l1 l2 : list_blocks (l1 ++ l2) = list_blocks l1 + list_blocks l2.
Proof. induction l1 as [|s l1 IH]; simpl; lia. Qed.
Lemma arc_blocks_put r l A : r ≠ LLru → arc_blocks (put r l A) = arc_blocks A + list_blocks l - list_blocks (A r).
Proof. intros Hr. unfold arc_blocks, put. destruct r; try done; simpl; lia. Qed.

(** * The lists in memory *)

Implicit Types (c : CacheManager) (d ex : list (loc * EvictNode)) (D : lref → list (loc * EvictNode)) (mx : Z) (e : env).

(** The node holds the key and the value, or no value. *)
Definition keeps (s : slot) (n : EvictNode) : Prop :=
  ev_key n = PStr s.1 ∧
  match s.2 with
  | Some v => ev_value n = PStr v ∧ ev_value_len n = len1 v
  | None => ev_value n = PNull
  end.
Definition keeps_all l d : Prop := Forall2 (λ s p, keeps s p.2) l d.

Definition dput r d D : lref → list (loc * EvictNode) := λ r', if decide (r' = r) then d else D r'.
Definition cells D : list (loc * EvictNode) :=
  dcells (D LT1) ++ dcells (D LT2) ++ dcells (D LB1) ++ dcells (D LB2).

(** The code's state: four lists of nodes, and cells [ex] outside of them. *)
Record arc_rep mx c A (target : Z) D ex : Prop := {
  ar_policy : c_policy c = EVICT_ARC;
  ar_items : c_max_items c = mx;
  ar_max : a_max_size (c_arc c) = mx;
  ar_target : a_target_size (c_arc c) = target;
  ar_list r : r ≠ LLru → the_list r c = Some (lru_of (D r) mx);
  ar_keeps r : r ≠ LLru → keeps_all (A r) (D r);
  ar_heap : heap_is (c_heap c) (cells D ++ ex)
}.

Lemma cells_focus D r : r ≠ LLru →
  ∃ others, cells D ≡ₚ dcells (D r) ++ others ∧ ∀ d, cells (dput r d D) ≡ₚ dcells d ++ others.
Proof.
  intros Hr. unfold cells, dput. destruct r; try done; simpl.
  - by eexists.
  - exists (dcells (D LT1) ++ dcells (D LB1) ++ dcells (D LB2)). split; [|intros d]; perm_solve.
  - exists (dcells (D LT1) ++ dcells (D LT2) ++ dcells (D LB2)). split; [|intros d]; perm_solve.
  - exists (dcells (D LT1) ++ dcells (D LT2) ++ dcells (D LB1)). split; [|intros d]; perm_solve.
Qed.

Lemma rest_fields c c' :
  rest c' = rest c → c_policy c' = c_policy c ∧ c_max_items c' = c_max_items c ∧
    a_max_size (c_arc c') = a_max_size (c_arc c) ∧ a_target_size (c_arc c') = a_target_size (c_arc c).
Proof.
  intros Hr. split_and!; [exact (f_equal c_policy Hr)|exact (f_equal c_max_items Hr)|
    exact (f_equal (λ c, a_max_size (c_arc c)) Hr)|exact (f_equal (λ c, a_target_size (c_arc c)) Hr)].
Qed.
(** One list changes. *)
Lemma arc_rep_put mx c c' A t D ex r l d ex' :
  arc_rep mx c A t D ex → r ≠ LLru → only_list r (lru_of d mx) c c' → keeps_all l d →
  heap_is (c_heap c') (cells (dput r d D) ++ ex') → arc_rep mx c' (put r l A) t (dput r d D) ex'.
Proof.
  intros [H1 H2 H3 H4 H5 H6 H7] Hr [Hl Hrest] Hk Hh. destruct (rest_fields _ _ Hrest) as (E1 & E2 & E3 & E4).
  split; [congruence..| | |done].
  - intros r' Hr'. rewrite Hl. unfold dput. destruct (decide (r' = r)); [done|by apply H5].
  - intros r' Hr'. unfold put, dput. destruct (decide (r' = r)); [done|by apply H6].
Qed.
(** Only cells outside the lists change. *)
Lemma arc_rep_same mx c c' A t D ex ex' :
  arc_rep mx c A t D ex → same_lists c c' → heap_is (c_heap c') (cells D ++ ex') → arc_rep mx c' A t D ex'.
Proof.
  intros [H1 H2 H3 H4 H5 H6 H7] [Hl Hrest] Hh. destruct (rest_fields _ _ Hrest) as (E1 & E2 & E3 & E4).
  split; [congruence..| |done|done]. intros r Hr. rewrite Hl. by apply H5.
Qed.

Lemma keeps_all_split l da x n db k :
  keeps_all l (da ++ (x, n) :: db) → ev_key n = PStr k → Forall (λ p, ev_key p.2 ≠ PStr k) da →
  ∃ la ov lb, l = la ++ (k, ov) :: lb ∧ Forall (λ s : slot, s.1 ≠ k) la ∧ keeps (k, ov) n ∧
    keeps_all (la ++ lb) (da ++ db).
Proof.
  intros H Hk Hda. apply Forall2_app_inv_r in H as (la & l2 & Hla & H2 & ->).
  apply Forall2_cons_inv_r in H2 as ([k' ov] & lb & Hn & Hlb & ->). simpl in Hn.
  pose proof Hn as [Hk' _]. simpl in Hk'. rewrite Hk in Hk'. injection Hk' as ->.
  exists la, ov, lb. split_and!; [done| |done|by apply Forall2_app].
  clear -Hla Hda. induction Hla as [|s [y m] la da [Hm _] _ IH]; [done|].
  apply Forall_cons in Hda as [Hd Hda]. constructor; [|by apply IH]. simpl in *. congruence.
Qed.
Lemma keeps_all_absent l d k :
  keeps_all l d → Forall (λ p, ev_key p.2 ≠ PStr k) d → Forall (λ s : slot, s.1 ≠ k) l.
Proof.
  induction 1 as [|s [y m] la da [Hm _] _ IH]; intros Hda; [done|].
  apply Forall_cons in Hda as [Hd Hda]. constructor; [|by apply IH]. simpl in *. congruence.
Qed.
Lemma keeps_all_keys l d : keeps_all l d → Forall has_key d.
Proof. induction 1 as [|s [x n] l d [Hk _] _ IH]; constructor; [|done]. by exists s.1. Qed.
Lemma rep_length mx c A t D ex r : arc_rep mx c A t D ex → r ≠ LLru → length (D r) = length (A r).
Proof. intros Hr Hne. symmetry. eapply Forall2_length. by apply (ar_keeps _ _ _ _ _ _ Hr). Qed.

(** ** The steps of the code *)

Lemma wp_arc_find mx c A t D ex r k e Q :
  arc_rep mx c A t D ex → r ≠ LLru →
  match take_slot k (A r) with
  | Some (ov, rest) => ∀ da x n db, D r = da ++ (x, n) :: db → keeps (k, ov) n → keeps_all rest (da ++ db) → Q (Some x) e c
  | None => Q None e c
  end → wp (lru_find r (PStr k)) e c Q.
Proof.
  intros Hr Hne HQ. pose proof (ar_keeps _ _ _ _ _ _ Hr r Hne) as Hk.
  destruct (cells_focus D r Hne) as (o & Hp & _).
  eapply (wp_lru_find r (D r) mx k (o ++ ex)); [by eapply ar_list| |by eapply keeps_all_keys| |].
  - eapply heap_is_perm; [apply Hr|]. by rewrite Hp, (assoc_L (++)).
  - intros da x n db Hd Hkey Hda. rewrite Hd in Hk.
    destruct (keeps_all_split _ _ _ _ _ _ Hk Hkey Hda) as (la & ov & lb & Hl & Hla & Hn & Hrest).
    rewrite Hl, take_slot_some in HQ by done. by eapply HQ.
  - intros Habs. rewrite take_slot_none in HQ by (by eapply keeps_all_absent). done.
Qed.
Lemma wp_arc_remove mx c A t D ex r rest da x n db e Q :
  arc_rep mx c A t D ex → r ≠ LLru → D r = da ++ (x, n) :: db → keeps_all rest (da ++ db) →
  Z.of_nat (length (A r)) ≤ INT_MAX →
  (∀ c' p q, arc_rep mx c' (put r rest A) t (dput r (da ++ db) D) ((x, links p q n) :: ex) → Q tt e c') →
  wp (lru_remove_node r (Some x)) e c Q.
Proof.
  intros Hr Hne Hd Hrest Hsz HQ. destruct (cells_focus D r Hne) as (o & Hp & Hput).
  rewrite <-(rep_length _ _ _ _ _ _ _ Hr Hne), Hd in Hsz.
  eapply (wp_lru_remove r da x n db mx (o ++ ex)); [rewrite <-Hd; by eapply ar_list| |done|].
  - eapply heap_is_perm; [apply Hr|]. by rewrite Hp, Hd, (assoc_L (++)).
  - intros c' p q Ho Hh. apply (HQ c' p q). eapply arc_rep_put; [done|done|done|done|].
    eapply heap_is_perm; [exact Hh|]. rewrite Hput. perm_solve.
Qed.
Lemma wp_arc_add mx c A t D ex r s x n e Q :
  arc_rep mx c A t D ((x, n) :: ex) → r ≠ LLru → keeps s n → Z.of_nat (length (A r)) < INT_MAX →
  (∀ c', arc_rep mx c' (put r (s :: A r) A) t (dput r ((x, n) :: D r) D) ex → Q tt e c') →
  wp (lru_add_node_front r (Some x)) e c Q.
Proof.
  intros Hr Hne Hs Hsz HQ. destruct (cells_focus D r Hne) as (o & Hp & Hput).
  rewrite <-(rep_length _ _ _ _ _ _ _ Hr Hne) in Hsz.
  eapply (wp_lru_add_front r (D r) x n mx (o ++ ex)); [by eapply ar_list| |done|].
  - eapply heap_is_perm; [apply Hr|]. rewrite Hp. perm_solve.
  - intros c' Ho Hh. apply (HQ c'). eapply arc_rep_put; [done|done|done| |].
    + constructor; [done|]. by apply Hr.
    + eapply heap_is_perm; [exact Hh|]. by rewrite Hput, (assoc_L (++)).
Qed.
Arguments lru_remove_node : simpl never.
Arguments lru_add_node_front : simpl never.

(** A hit: the slot goes to the front of T2, and the node may be marked as frequent. *)
Lemma wp_promote mx c A t D ex r k ov rest da x n db e Q :
  arc_rep mx c A t D ex → r ≠ LLru → D r = da ++ (x, n) :: db → keeps (k, ov) n → keeps_all rest (da ++ db) →
  Z.of_nat (length (A r)) ≤ INT_MAX → Z.of_nat (length (A LT2)) < INT_MAX →
  (∀ c' D' n' d', D' LT2 = (x, n') :: d' → arc_rep mx c' (put LT2 ((k, ov) :: put r rest A LT2) (put r rest A)) t D' ex → Q tt e c') →
  wp (promote r (Some x)) e c Q.
Proof.
  intros Hr Hne Hd Hn Hrest Hsz Hsz2 HQ. unfold promote. wp_step.
  eapply wp_arc_remove; [exact Hr|done|exact Hd|exact Hrest|done|]. intros c1 p q Hr1.
  eapply (wp_arc_add _ _ _ _ _ _ _ (k, ov)); [exact Hr1|done|done| |].
  - destruct (decide (r = LT2)) as [->|Hr2]; [|by rewrite put_ne].
    rewrite put_eq. rewrite (Forall2_length _ _ _ Hrest).
    rewrite <-(rep_length _ _ _ _ _ _ _ Hr Hne), Hd in Hsz2. rewrite length_app in *. simpl in *. lia.
  - intros c2 Hr2. eapply HQ; [|exact Hr2]. unfold dput at 1. by rewrite decide_True.
Qed.
(** Storing into the first node of T2. *)
Lemma wp_mark_front mx c A t D ex x n d f e Q :
  arc_rep mx c A t D ex → D LT2 = (x, n) :: d →
  (∀ p q, f (links p q n) = links p q (f n)) → (∀ s, keeps s n → keeps s (f n)) →
  (∀ c', arc_rep mx c' A t (dput LT2 ((x, f n) :: d) D) ex → Q tt e c') →
  wp (estore (Some x) f) e c Q.
Proof.
  intros Hr Hd Hf Hk HQ. destruct (cells_focus D LT2 ltac:(done)) as (o & Hp & Hput).
  assert (Hh : heap_is (c_heap c) ((x, links None (first_loc d None) n) :: dseg (Some x) d None ++ o ++ ex)).
  { eapply heap_is_perm; [apply Hr|]. rewrite Hp, Hd. unfold dcells. simpl. perm_solve. }
  eapply wp_estore; [exact Hh|typeclasses eauto|]. intros c' Hs Hh'. apply HQ.
  pose proof Hr as [H1 H2 H3 H4 H5 H6 H7]. destruct Hs as [Hl Hrest].
  destruct (rest_fields _ _ Hrest) as (E1 & E2 & E3 & E4). split; [congruence..| | |].
  - intros r Hne. rewrite Hl, H5 by done. unfold dput. destruct (decide (r = LT2)) as [->|]; [|done].
    rewrite Hd. unfold lru_of. simpl. done.
  - intros r Hne. specialize (H6 r Hne). unfold dput. destruct (decide (r = LT2)) as [->|]; [|done].
    rewrite Hd in H6. apply Forall2_cons_inv_r in H6 as (s & l' & Hs & Hl' & ->). constructor; [by apply Hk|done].
  - eapply heap_is_perm; [exact Hh'|]. rewrite Hput, Hf. unfold dcells. simpl. perm_solve.
Qed.
Lemma wp_set_frequent mx c A t D ex x n d e Q :
  arc_rep mx c A t D ex → D LT2 = (x, n) :: d →
  (∀ c' D', arc_rep mx c' A t D' ex → Q tt e c') → wp (set_frequent (Some x)) e c Q.
Proof. intros Hr Hd HQ. unfold set_frequent. eapply wp_mark_front; [exact Hr|exact Hd|done|done|]. intros c'. apply HQ. Qed.
Lemma wp_promote_mark mx c A t D ex r k ov rest da x n db (hit : Z) e Q :
  arc_rep mx c A t D ex → r ≠ LLru → D r = da ++ (x, n) :: db → keeps (k, ov) n → keeps_all rest (da ++ db) →
  Z.of_nat (length (A r)) ≤ INT_MAX → Z.of_nat (length (A LT2)) < INT_MAX →
  (∀ c' D', arc_rep mx c' (put LT2 ((k, ov) :: put r rest A LT2) (put r rest A)) t D' ex → Q hit e c') →
  wp (promote r (Some x);; set_frequent (Some x);; mret hit) e c Q.
Proof.
  intros Hr Hne Hd Hn Hrest Hsz Hsz2 HQ. wp_step. eapply wp_promote; [exact Hr|done|exact Hd|exact Hn|exact Hrest|done|done|].
  intros c1 D1 n1 d1 HD1 Hr1. wp_step. eapply wp_set_frequent; [exact Hr1|exact HD1|]. intros c2 D2 Hr2. wp_step. by eapply HQ.
Qed.
Arguments promote : simpl never.
Arguments set_frequent : simpl never.

Lemma wp_list_size mx c A t D ex r e Q :
  arc_rep mx c A t D ex → r ≠ LLru → Q (size_of r A) e c → wp (list_size r) e c Q.
Proof.
  intros Hr Hne HQ. unfold list_size. wp_step. eapply wp_get_list; [by eapply ar_list|]. wp_step. simpl.
  by rewrite (rep_length _ _ _ _ _ _ _ Hr Hne).
Qed.
Lemma wp_get_target mx c A t D ex e Q : arc_rep mx c A t D ex → Q t e c → wp get_target e c Q.
Proof. intros Hr HQ. unfold get_target. do 3 wp_step. by rewrite (ar_target _ _ _ _ _ _ Hr). Qed.
Lemma wp_get_arc_max mx c A t D ex e Q : arc_rep mx c A t D ex → Q mx e c → wp get_arc_max e c Q.
Proof. intros Hr HQ. unfold get_arc_max. do 3 wp_step. by rewrite (ar_max _ _ _ _ _ _ Hr). Qed.
Lemma wp_set_target mx c A t D ex z e Q :
  arc_rep mx c A t D ex → (∀ c', arc_rep mx c' A z D ex → Q tt e c') → wp (set_target z) e c Q.
Proof.
  intros [H1 H2 H3 H4 H5 H6 H7] HQ. unfold set_target. wp_step. apply HQ. split; simpl; [done..| |done|done].
  intros r Hr. rewrite <-H5 by done. by destruct r.
Qed.
Arguments list_size : simpl never.
Arguments get_target : simpl never.
Arguments get_arc_max : simpl never.
Arguments set_target : simpl never.
Lemma wp_arc_delta mx c A t D ex own other e Q :
  arc_rep mx c A t D ex → own ≠ LLru → other ≠ LLru → A own ≠ [] →
  Q (spec_delta own other A) e c → wp (arc_delta own other) e c Q.
Proof.
  intros Hr Ho Ht Hne HQ. unfold arc_delta, spec_delta in *. wp_step. eapply wp_list_size; [exact Hr|done|].
  destruct (0 <? size_of other A); [|by wp_step]. wp_step. eapply wp_list_size; [exact Hr|done|]. wp_step.
  eapply wp_list_size; [exact Hr|done|]. rewrite decide_False by (unfold size_of; by destruct (A own)).
  cbv zeta. wp_step. destruct (Z.ltb_spec (Z.quot (size_of other A) (size_of own A)) 1).
  - by rewrite Z.max_l in HQ by lia.
  - by rewrite Z.max_r in HQ by lia.
Qed.
Arguments arc_delta : simpl never.

(** The sizes fit in an [int]. *)
Record arc_fits mx A (t : Z) : Prop := {
  af_mx : 0 < mx ∧ 2 * mx + 1 ≤ INT_MAX;
  af_target : 0 ≤ t ≤ mx;
  af_b1 : size_of LB1 A ≤ mx;
  af_b2 : size_of LB2 A ≤ mx;
  af_t : size_of LT1 A + size_of LT2 A < INT_MAX
}.
Lemma arc_fits_size mx A t r : arc_fits mx A t → r ≠ LLru → Z.of_nat (length (A r)) ≤ INT_MAX.
Proof. intros [H1 H2 H3 H4 H5]. unfold size_of in *. destruct r; [done|lia..]. Qed.
Lemma spec_delta_bounds own other A : 1 ≤ spec_delta own other A ≤ Z.max 1 (size_of other A).
Proof.
  unfold spec_delta. destruct (Z.ltb_spec 0 (size_of other A)); [|lia]. split; [lia|].
  apply Z.max_le_compat_l. destruct (decide (size_of own A = 0)) as [->|Hne]; [rewrite Z.quot_0_r_ext by done; lia|].
  apply Z.quot_le_upper_bound; unfold size_of in *; [lia|]. nia.
Qed.
Lemma take_slot_nonempty k l ov rest : take_slot k l = Some (ov, rest) → l ≠ [].
Proof. by intros H ->. Qed.

Lemma wp_arc_access mx c A t D ex k e Q :
  arc_rep mx c A t D ex → arc_fits mx A t →
  (∀ hit A' t' c' D', spec_access mx k A t = (hit, A', t') → arc_rep mx c' A' t' D' ex → Q hit e c') →
  wp (arc_access (PStr k)) e c Q.
Proof.
  intros Hr Hf HQ. pose proof (arc_fits_size _ _ _ LT2 Hf ltac:(done)) as Hs2.
  assert (Hlt2 : Z.of_nat (length (A LT2)) < INT_MAX) by (pose proof (af_t _ _ _ Hf); unfold size_of in *; lia).
  pose proof (spec_delta_bounds LB1 LB2 A) as Hd1. pose proof (spec_delta_bounds LB2 LB1 A) as Hd2.
  pose proof Hf as [Hmx Ht Hb1 Hb2 _]. unfold spec_access in HQ. unfold arc_access. wp_step.
  eapply wp_arc_find; [exact Hr|done|]. unfold to_front in HQ.
  destruct (take_slot k (A LT1)) as [[ov rest]|] eqn:H1.
  { intros da x n db Hd Hn Hrest. simpl pnull. simpl negb. cbv iota.
    eapply wp_promote_mark; [exact Hr|done|exact Hd|exact Hn|exact Hrest|by eapply arc_fits_size|done|].
    intros c1 D1. by apply HQ. }
  simpl pnull. simpl negb. cbv iota. wp_step. eapply wp_arc_find; [exact Hr|done|].
  destruct (take_slot k (A LT2)) as [[ov rest]|] eqn:H2.
  { intros da x n db Hd Hn Hrest. simpl pnull. simpl negb. cbv iota. wp_step.
    eapply wp_promote; [exact Hr|done|exact Hd|exact Hn|exact Hrest|by eapply arc_fits_size|done|].
    intros c1 D1 n1 d1 HD1 Hr1. wp_step. by eapply HQ. }
  simpl pnull. simpl negb. cbv iota. wp_step. eapply wp_arc_find; [exact Hr|done|].
  destruct (take_slot k (A LB1)) as [[ov rest]|] eqn:H3.
  { intros da x n db Hd Hn Hrest. simpl pnull. simpl negb. cbv iota. wp_step.
    eapply wp_arc_delta; [exact Hr|done|done|by eapply take_slot_nonempty|]. wp_step.
    eapply wp_get_target; [exact Hr|]. wp_step. apply wp_ck_int; [unfold INT_MIN, INT_MAX in *; lia|]. wp_step.
    eapply wp_set_target; [exact Hr|]. intros c1 Hr1. wp_step. eapply wp_get_target; [exact Hr1|]. wp_step.
    eapply wp_get_arc_max; [exact Hr1|]. wp_step.
    apply (wp_mono _ _ _ (λ _ e' c', e' = e ∧ arc_rep mx c' A (Z.min mx (t + spec_delta LB1 LB2 A)) D ex)).
    { destruct (Z.ltb_spec mx (t + spec_delta LB1 LB2 A)).
      - eapply wp_set_target; [exact Hr1|]. intros c2 Hr2. by rewrite Z.min_l by lia.
      - wp_step. by rewrite Z.min_r by lia. }
    intros _ e' c2 (-> & Hr2).
    eapply wp_promote_mark; [exact Hr2|done|exact Hd|exact Hn|exact Hrest|by eapply arc_fits_size|done|].
    intros c3 D3. by apply HQ. }
  simpl pnull. simpl negb. cbv iota. wp_step. eapply wp_arc_find; [exact Hr|done|].
  destruct (take_slot k (A LB2)) as [[ov rest]|] eqn:H4.
  { intros da x n db Hd Hn Hrest. simpl pnull. simpl negb. cbv iota. wp_step.
    eapply wp_arc_delta; [exact Hr|done|done|by eapply take_slot_nonempty|]. wp_step.
    eapply wp_get_target; [exact Hr|]. wp_step. apply wp_ck_int; [unfold INT_MIN, INT_MAX in *; lia|]. wp_step.
    eapply wp_set_target; [exact Hr|]. intros c1 Hr1. wp_step. eapply wp_get_target; [exact Hr1|]. wp_step.
    apply (wp_mono _ _ _ (λ _ e' c', e' = e ∧ arc_rep mx c' A (Z.max 0 (t - spec_delta LB2 LB1 A)) D ex)).
    { destruct (Z.ltb_spec (t - spec_delta LB2 LB1 A) 0).
      - eapply wp_set_target; [exact Hr1|]. intros c2 Hr2. by rewrite Z.max_l by lia.
      - wp_step. by rewrite Z.max_r by lia. }
    intros _ e' c2 (-> & Hr2).
    eapply wp_promote_mark; [exact Hr2|done|exact Hd|exact Hn|exact Hrest|by eapply arc_fits_size|done|].
    intros c3 D3. by apply HQ. }
  simpl pnull. simpl negb. cbv iota. wp_step. by eapply HQ.
Qed.
Arguments arc_access : simpl never.

Lemma to_front_head r k A A' : to_front r k A = Some A' → ∃ ov l, A' LT2 = (k, ov) :: l.
Proof.
  unfold to_front. destruct (take_slot k (A r)) as [[ov rest]|]; [|done]. intros [= <-]. rewrite put_eq. eauto.
Qed.
Lemma hit_head mx k A t hit A' t' :
  spec_access mx k A t = (hit, A', t') → (hit =? ARC_HIT_T1) || (hit =? ARC_HIT_T2) = true →
  ∃ ov l, A' LT2 = (k, ov) :: l.
Proof.
  unfold spec_access. intros H Hh.
  destruct (to_front LT1 k A) as [B|] eqn:H1; [injection H as <- <- <-; by eapply to_front_head|].
  destruct (to_front LT2 k A) as [B|] eqn:H2; [injection H as <- <- <-; by eapply to_front_head|].
  by destruct (to_front LB1 k A), (to_front LB2 k A); injection H as <- <- <-.
Qed.

(** The code's answer of a value. *)
Definition answer_of ov : cptr * option Z := (ptr_of ov, len1 <$> ov).
Lemma wp_arc_get mx c A t D ex k e Q :
  arc_rep mx c A t D ex → arc_fits mx A t →
  (∀ ov A' t' c' D', spec_get mx k A t = (ov, A', t') → arc_rep mx c' A' t' D' ex → Q (answer_of ov) e c') →
  wp (arc_get (PStr k)) e c Q.
Proof.
  intros Hr Hf HQ. unfold arc_get. wp_step. eapply wp_arc_access; [exact Hr|done|].
  intros hit A' t' c' D' Hacc Hr'. unfold spec_get in HQ. rewrite Hacc in HQ.
  destruct ((hit =? ARC_HIT_T1) || (hit =? ARC_HIT_T2)) eqn:Hh; [|wp_step; by eapply (HQ None)].
  destruct (hit_head _ _ _ _ _ _ _ Hacc Hh) as (ov & l & HA). wp_step.
  eapply wp_arc_find; [exact Hr'|done|]. rewrite HA. simpl. rewrite decide_True by done.
  intros da x n db Hd Hn _. wp_step. simpl pnull. cbv iota. wp_step. simpl pnull. cbv iota. wp_step.
  destruct (cells_focus D' LT2 ltac:(done)) as (o & Hp & _).
  assert (Hh' : heap_is (c_heap c') ((x, links (last_loc None da) (first_loc db None) n) :: dseg None da (Some x) ++ dseg (Some x) db None ++ o ++ ex)).
  { eapply heap_is_perm; [apply Hr'|]. rewrite Hp, Hd. unfold dcells. rewrite dseg_app. simpl. perm_solve. }
  eapply wp_eload; [exact Hh'|typeclasses eauto|]. simpl ev_value. simpl ev_value_len. destruct Hn as [_ Hv]. simpl in Hv.
  rewrite HA in HQ. simpl snd in HQ. destruct ov as [v|].
  - destruct Hv as [-> ->]. simpl is_null. cbv iota. wp_step. by eapply (HQ (Some v)).
  - rewrite Hv. simpl is_null. cbv iota. wp_step. by eapply (HQ None).
Qed.
Arguments arc_get : simpl never.

(** ** Making room *)

(** Freeing a node that is in no list. *)
Lemma wp_free_slot x n s ls rest e c Q :
  heap_is (c_heap c) ls → Front [(x, n)] ls rest → keeps s n →
  (∀ c' e', same_lists c c' → heap_is (c_heap c') rest → mallocs e' = mallocs e → live e' = live e - slot_blocks s → Q tt e' c') →
  wp (free_node (Some x)) e c Q.
Proof.
  intros Hh Hf [Hk Hv] HQ. unfold free_node. wp_step. eapply wp_eload; [done..|]. rewrite Hk. do 3 wp_step.
  eapply wp_eload; [done..|]. unfold slot_blocks in HQ. destruct (s.2) as [v|].
  - destruct Hv as [-> _]. do 2 wp_step. eapply wp_efree; [done..|]. intros c' Hs Hh'. apply HQ; [done..|]. simpl. lia.
  - rewrite Hv. unfold kvs_free. do 2 wp_step. eapply wp_efree; [done..|]. intros c' Hs Hh'. apply HQ; [done..|]. simpl. lia.
Qed.
Lemma wp_trim_ghosts fuel mx c A t D ex b e Q :
  arc_rep mx c A t D ex → b ≠ LLru → 0 < mx < INT_MAX → size_of b A ≤ mx + 1 → Forall (λ s : slot, s.2 = None) (A b) →
  (2 ≤ fuel)%nat →
  (∀ c' D' e', arc_rep mx c' (put b (take (Z.to_nat mx) (A b)) A) t D' ex → mallocs e' = mallocs e →
    live e' = live e - (list_blocks (A b) - list_blocks (take (Z.to_nat mx) (A b))) → Q tt e' c') →
  wp (trim_ghosts fuel b) e c Q.
Proof.
  intros Hr Hb Hmx Hsz Hnone Hfuel HQ.
  assert (Hstop : ∀ fuel' c' A' D' e' Q', (1 ≤ fuel')%nat → arc_rep mx c' A' t D' ex → size_of b A' ≤ mx → Q' tt e' c' →
    wp (trim_ghosts fuel' b) e' c' Q').
  { intros [|fuel'] c' A' D' e' Q' Hf' Hr' Hs' HQ'; [lia|]. cbn [trim_ghosts]. wp_step. eapply wp_list_size; [exact Hr'|done|].
    wp_step. eapply wp_get_arc_max; [exact Hr'|]. rewrite (proj2 (Z.ltb_ge _ _)) by lia. by wp_step. }
  unfold size_of in *. destruct (decide (Z.of_nat (length (A b)) ≤ mx)) as [Hle|Hgt].
  { eapply Hstop; [lia|exact Hr|done|]. rewrite take_ge in HQ by lia. eapply (HQ _ D); [|done|lia].
    destruct Hr as [H1 H2 H3 H4 H5 H6 H7]. split; [done..| |done]. intros r Hne. unfold put.
    destruct (decide (r = b)) as [->|]; by apply H6. }
  destruct fuel as [|fuel]; [lia|]. cbn [trim_ghosts]. wp_step. eapply wp_list_size; [exact Hr|done|].
  wp_step. eapply wp_get_arc_max; [exact Hr|]. unfold size_of. rewrite (proj2 (Z.ltb_lt _ _)) by lia.
  wp_step. eapply wp_get_list; [by eapply ar_list|].
  pose proof (ar_keeps _ _ _ _ _ _ Hr b Hb) as Hk.
  destruct (exists_last (l := A b)) as (l0 & s0 & HA); [intros HA; rewrite HA in Hgt; simpl in Hgt; lia|].
  rewrite HA in Hk, Hnone, Hsz, Hgt, HQ.
  apply Forall2_app_inv_l in Hk as (d & d2 & Hkd & Hk2 & HD). apply Forall2_cons_inv_l in Hk2 as ([x n] & d3 & Hn & Hk3 & ->).
  apply Forall2_nil_inv_l in Hk3 as ->. apply Forall_app in Hnone as [_ [Hnone _]%Forall_cons].
  rewrite HD. simpl l_tail. rewrite last_loc_app. simpl last_loc. wp_step.
  rewrite length_app in Hsz, Hgt. simpl in Hsz, Hgt.
  eapply (wp_arc_remove _ _ _ _ _ _ b l0 d x n []); [exact Hr|done|exact HD|by rewrite app_nil_r|rewrite HA, length_app; simpl; lia|].
  intros c1 p q Hr1. wp_step. pose proof (ar_heap _ _ _ _ _ _ Hr1) as Hh1. eapply wp_eload; [exact Hh1|typeclasses eauto|].
  destruct Hn as [Hkey _]. simpl ev_key. simpl in Hkey. rewrite Hkey. do 2 wp_step. wp_step. eapply wp_efree; [exact Hh1|typeclasses eauto|].
  intros c2 Hs2 Hh2. eapply (Hstop fuel c2 (put b l0 A)); [lia|by eapply arc_rep_same|unfold size_of; rewrite put_eq; lia|].
  rewrite take_app_le, take_ge in HQ by lia. eapply HQ; [by eapply arc_rep_same|done|].
  rewrite list_blocks_app. simpl. unfold slot_blocks. rewrite Hnone. lia.
Qed.
Arguments trim_ghosts : simpl never.

Lemma arc_rep_ext mx c A A' t D ex : arc_rep mx c A t D ex → (∀ r, r ≠ LLru → A r = A' r) → arc_rep mx c A' t D ex.
Proof. intros [H1 H2 H3 H4 H5 H6 H7] HA. split; [done..| |done]. intros r Hr. rewrite <-HA by done. by apply H6. Qed.
Lemma put_put r l l' A r' : put r l (put r l' A) r' = put r l A r'.
Proof. unfold put. by destruct (decide (r' = r)). Qed.

Lemma wp_leave_ghost mx c A t D ex b fr x n s e Q :
  arc_rep mx c A t D ((x, n) :: ex) → keeps s n → no_oom e → b ≠ LLru → 0 < mx < INT_MAX → size_of b A ≤ mx →
  Forall (λ s : slot, s.2 = None) (A b) →
  (∀ c' D' e', arc_rep mx c' (put b (take (Z.to_nat mx) ((s.1, None) :: A b)) A) t D' ((x, n) :: ex) → no_oom e' →
    live e' = live e + list_blocks (take (Z.to_nat mx) ((s.1, None) :: A b)) - list_blocks (A b) → Q tt e' c') →
  wp (leave_ghost b fr (Some x)) e c Q.
Proof.
  intros Hr Hn He Hb Hmx Hsz Hnone HQ. pose proof Hn as [Hkey _]. unfold leave_ghost.
  pose proof (no_oom_fails _ He) as F1. pose proof (no_oom_after _ He) as He1.
  pose proof (no_oom_fails _ He1) as F2. pose proof (no_oom_after _ He1) as He2.
  wp_step. eapply wp_ealloc; [apply Hr|done|]. intros g c1 Hs1 Hh1. wp_step.
  eapply wp_eload; [exact Hh1|typeclasses eauto|]. rewrite Hkey. do 2 wp_step. rewrite F2. wp_step.
  eapply wp_estore; [exact Hh1|typeclasses eauto|]. intros c2 Hs2 Hh2. wp_step.
  eapply wp_estore; [exact Hh2|typeclasses eauto|]. intros c3 Hs3 Hh3. wp_step.
  eapply wp_estore; [exact Hh3|typeclasses eauto|]. intros c4 Hs4 Hh4. wp_step.
  eapply wp_estore; [exact Hh4|typeclasses eauto|]. intros c5 Hs5 Hh5. wp_step.
  apply wp_current_time_ms. intros tm e6 Hm6 Hl6. wp_step.
  eapply wp_estore; [exact Hh5|typeclasses eauto|]. intros c7 Hs7 Hh7. wp_step.
  eapply wp_eload; [exact Hh7|typeclasses eauto|]. wp_step.
  eapply wp_estore; [exact Hh7|typeclasses eauto|]. intros c8 Hs8 Hh8. wp_step.
  match type of Hh8 with heap_is _ ((g, ?gn) :: _) => set (ng := gn) in Hh8 end.
  assert (Hr8 : arc_rep mx c8 A t D ((g, ng) :: (x, n) :: ex)).
  { eapply arc_rep_same; [exact Hr|repeat (eapply same_lists_trans; [eassumption|]); apply same_lists_refl|].
    eapply heap_is_perm; [exact Hh8|]. perm_solve. }
  eapply (wp_arc_add _ _ _ _ _ _ _ (s.1, None)); [exact Hr8|done|done|unfold size_of in Hsz; lia|].
  intros c9 Hr9. unfold cache_fuel. do 4 wp_step.
  eapply wp_trim_ghosts; [exact Hr9|done|done|unfold size_of in *; rewrite put_eq; simpl; lia|rewrite put_eq; by constructor| |].
  - rewrite (heap_is_size _ _ (ar_heap _ _ _ _ _ _ Hr9)), length_app. simpl. lia.
  - rewrite put_eq. intros c10 D10 e10 Hr10 Hm10 Hl10. eapply HQ.
    + eapply arc_rep_ext; [exact Hr10|]. intros r _. apply put_put.
    + unfold no_oom in *. by rewrite Hm10, Hm6.
    + rewrite Hl10, Hl6, !live_after_malloc, F1, F2.
      change (list_blocks ((s.1, None) :: A b)) with (2 + list_blocks (A b)). lia.
Qed.
Arguments leave_ghost : simpl never.

Lemma exists_last_slot mx c A t D ex r : arc_rep mx c A t D ex → r ≠ LLru →
  match split_last (A r) with
  | Some (rest, s) => ∃ d x n, D r = d ++ (x, n) :: [] ∧ keeps s n ∧ keeps_all rest (d ++ []) ∧
      A r = rest ++ [s] ∧ l_tail (lru_of (D r) mx) = Some x
  | None => A r = [] ∧ l_tail (lru_of (D r) mx) = None
  end.
Proof.
  intros Hr Hne. pose proof (ar_keeps _ _ _ _ _ _ Hr r Hne) as Hk. destruct (decide (A r = [])) as [HA|HA].
  - rewrite HA in *. apply Forall2_nil_inv_l in Hk as ->. done.
  - destruct (exists_last HA) as (l0 & s0 & HA'). rewrite HA', split_last_snoc in *.
    apply Forall2_app_inv_l in Hk as (d & d2 & Hkd & Hk2 & HD). apply Forall2_cons_inv_l in Hk2 as ([x n] & d3 & Hn & Hk3 & ->).
    apply Forall2_nil_inv_l in Hk3 as ->. exists d, x, n. rewrite HD, app_nil_r. split_and!; [done..|].
    simpl. apply last_loc_snoc.
Qed.
(** The oldest node of [tl] is taken out, its key stays as a ghost in [b]. *)
Lemma wp_retire mx c A t D ex tl b fr rest s d x n e Q :
  arc_rep mx c A t D ex → tl ≠ LLru → b ≠ LLru → b ≠ tl → arc_fits mx A t → no_oom e →
  D tl = d ++ [(x, n)] → keeps s n → keeps_all rest (d ++ []) → A tl = rest ++ [s] → size_of b A ≤ mx →
  Forall (λ s : slot, s.2 = None) (A b) →
  (∀ c' D' e' n', arc_rep mx c' (put b (take (Z.to_nat mx) ((s.1, None) :: A b)) (put tl rest A)) t D' ((x, n') :: ex) →
    keeps s n' → no_oom e' →
    live e' = live e + arc_blocks (put b (take (Z.to_nat mx) ((s.1, None) :: A b)) (put tl rest A)) - arc_blocks A + slot_blocks s →
    Q (Some x) e' c') →
  wp (lru_remove_node tl (Some x);; leave_ghost b fr (Some x);; mret (Some x)) e c Q.
Proof.
  intros Hr Ht Hb Hbt Hf He HD Hn Hrest HA Hsz Hnone HQ. pose proof (af_mx _ _ _ Hf) as Hmx. wp_step.
  eapply (wp_arc_remove _ _ _ _ _ _ tl rest d x n []); [exact Hr|done|exact HD|exact Hrest|by eapply arc_fits_size|].
  intros c1 p q Hr1. wp_step.
  eapply wp_leave_ghost with (s := s); [exact Hr1|done|done|done|unfold INT_MAX in *; lia|unfold size_of in *; by rewrite put_ne|by rewrite put_ne|].
  rewrite put_ne by done. intros c2 D2 e2 Hr2 He2 Hl2. wp_step. eapply HQ; [exact Hr2|done|done|].
  rewrite Hl2, !arc_blocks_put, put_ne, HA, list_blocks_app by done. simpl. lia.
Qed.

(** B1 and B2 hold ghosts only. *)
Definition ghosts A : Prop := Forall (λ s : slot, s.2 = None) (A LB1) ∧ Forall (λ s : slot, s.2 = None) (A LB2).

Lemma wp_arc_evict mx c A t D ex e Q :
  arc_rep mx c A t D ex → arc_fits mx A t → ghosts A → no_oom e →
  (spec_evict mx A t = A → Q None e c) →
  (∀ c' D' e' x n s, arc_rep mx c' (spec_evict mx A t) t D' ((x, n) :: ex) → keeps s n → no_oom e' →
    live e' = live e + arc_blocks (spec_evict mx A t) - arc_blocks A + slot_blocks s → Q (Some x) e' c') →
  wp arc_evict e c Q.
Proof.
  intros Hr Hf [Hg1 Hg2] He Hno Hyes. pose proof Hf as [Hmx Ht Hb1 Hb2 Hsum]. unfold arc_evict, spec_evict in *. unfold spec_retire in *.
  wp_step. eapply wp_list_size; [exact Hr|done|]. wp_step. eapply wp_list_size; [exact Hr|done|]. wp_step.
  apply wp_ck_int; [unfold size_of, INT_MIN in *; lia|]. wp_step. eapply wp_get_arc_max; [exact Hr|].
  destruct (size_of LT1 A + size_of LT2 A <? mx); [wp_step; by apply Hno|].
  wp_step. eapply wp_list_size; [exact Hr|done|]. wp_step. eapply wp_get_target; [exact Hr|]. wp_step.
  eapply wp_get_list; [by eapply ar_list|].
  pose proof (exists_last_slot _ _ _ _ _ _ LT1 Hr ltac:(done)) as H1. pose proof (exists_last_slot _ _ _ _ _ _ LT2 Hr ltac:(done)) as H2.
  assert (Hsecond : (if t <? size_of LT1 A then split_last (A LT1) else None) = None →
    wp (l2 ← get_list LT2;
        if negb (pnull (l_tail l2)) then
          let victim := l_tail l2 in lru_remove_node LT2 victim;; leave_ghost LB2 1 victim;; mret victim
        else mret None) e c Q).
  { intros Hfirst.
    assert (Hm : match (if t <? size_of LT1 A then match split_last (A LT1) with
        | Some (rest, s) => Some (put LB1 (take (Z.to_nat mx) ((s.1, None) :: A LB1)) (put LT1 rest A)) | None => None end else None)
        with Some A' => False | None => True end) by (destruct (t <? size_of LT1 A); [by rewrite Hfirst|done]).
    destruct (if t <? size_of LT1 A then _ else _) in Hno, Hyes, Hm; [done|]. clear Hm.
    wp_step. eapply wp_get_list; [by eapply ar_list|].
    destruct (split_last (A LT2)) as [[rest s]|].
    - destruct H2 as (d & x & n & HD & Hn & Hrest & HA & ->). simpl pnull. simpl negb. cbv iota. cbv zeta.
      eapply wp_retire; [exact Hr|done|done|done|done|done|exact HD|exact Hn|exact Hrest|exact HA|done|done|].
      intros c' D' e' n' Hr' Hn' He' Hl'. eapply Hyes; [exact Hr'|exact Hn'|done|done].
    - destruct H2 as (HA & ->). simpl pnull. simpl negb. cbv iota. wp_step. by apply Hno. }
  destruct (t <? size_of LT1 A); [|by apply Hsecond]. destruct (split_last (A LT1)) as [[rest s]|].
  - destruct H1 as (d & x & n & HD & Hn & Hrest & HA & ->). simpl pnull. simpl negb. simpl andb. cbv iota. cbv zeta.
    eapply wp_retire; [exact Hr|done|done|done|done|done|exact HD|exact Hn|exact Hrest|exact HA|done|done|].
    intros c' D' e' n' Hr' Hn' He' Hl'. eapply Hyes; [exact Hr'|exact Hn'|done|done].
  - destruct H1 as (HA & ->). simpl pnull. simpl negb. simpl andb. cbv iota. by apply Hsecond.
Qed.
Arguments arc_evict : simpl never.

Lemma split_last_length l rest s : split_last l = Some (rest, s) → l = rest ++ [s].
Proof.
  unfold split_last. destruct (reverse l) as [|s' r] eqn:Hl; [done|]. intros [= <- <-].
  rewrite <-(reverse_involutive l), Hl. by rewrite reverse_cons.
Qed.
(** What an eviction does to the four lists. *)
Lemma spec_evict_cases mx A t :
  spec_evict mx A t = A ∨
  ∃ tl b rest s, (tl, b) ∈ [(LT1, LB1); (LT2, LB2)] ∧ A tl = rest ++ [s] ∧
    spec_evict mx A t = put b (take (Z.to_nat mx) ((s.1, None) :: A b)) (put tl rest A).
Proof.
  unfold spec_evict, spec_retire. destruct (_ <? mx); [by left|].
  assert (H2 : default A (match split_last (A LT2) with
      | Some (rest, s) => Some (put LB2 (take (Z.to_nat mx) ((s.1, None) :: A LB2)) (put LT2 rest A)) | None => None end) = A ∨
    ∃ tl b rest s, (tl, b) ∈ [(LT1, LB1); (LT2, LB2)] ∧ A tl = rest ++ [s] ∧
    default A (match split_last (A LT2) with
      | Some (rest, s) => Some (put LB2 (take (Z.to_nat mx) ((s.1, None) :: A LB2)) (put LT2 rest A)) | None => None end) =
      put b (take (Z.to_nat mx) ((s.1, None) :: A b)) (put tl rest A)).
  { destruct (split_last (A LT2)) as [[rest s]|] eqn:HA; [|by left]. right. exists LT2, LB2, rest, s.
    split_and!; [by right; left|by apply split_last_length|done]. }
  destruct (t <? size_of LT1 A); [|exact H2]. destruct (split_last (A LT1)) as [[rest s]|] eqn:HA; [|exact H2].
  right. exists LT1, LB1, rest, s. split_and!; [by left|by apply split_last_length|done].
Qed.
Lemma spec_evict_fits mx A t : arc_fits mx A t → ghosts A →
  arc_fits mx (spec_evict mx A t) t ∧ ghosts (spec_evict mx A t) ∧
  size_of LT1 (spec_evict mx A t) + size_of LT2 (spec_evict mx A t) ≤ size_of LT1 A + size_of LT2 A.
Proof.
  intros Hf Hg. destruct (spec_evict_cases mx A t) as [->|(tl & b & rest & s & Hin & HA & ->)]; [done|].
  destruct Hf as [H1 H2 H3 H4 H5], Hg as [Hg1 Hg2].
  assert (Hgh : Forall (λ s : slot, s.2 = None) (A b)) by (set_unfold in Hin; destruct Hin as [[= -> ->]|[[= -> ->]|[]]]; done).
  assert (Htk : Z.of_nat (length (take (Z.to_nat mx) ((s.1, None) :: A b))) ≤ mx) by (rewrite length_take; lia).
  assert (Htg : Forall (λ s : slot, s.2 = None) (take (Z.to_nat mx) ((s.1, None) :: A b))) by (apply Forall_take; by constructor).
  assert (Hlen : Z.of_nat (length (A tl)) = Z.of_nat (length rest) + 1) by (rewrite HA, length_app; simpl; lia).
  set (g := take (Z.to_nat mx) ((s.1, None) :: A b)) in *. clearbody g.
  set_unfold in Hin. destruct Hin as [[= -> ->]|[[= -> ->]|[]]].
  all: split_and!; [split; unfold size_of in *; put_simpl; lia|split; put_simpl; done|unfold size_of in *; put_simpl; lia].
Qed.

(** ** Adding and deleting *)

Lemma wp_arc_add_value mx c A t D ex k v e Q :
  arc_rep mx c A t D ex → arc_fits mx A t → ghosts A → no_oom e →
  (∀ c' D' e', arc_rep mx c' (spec_add mx k v A t) t D' ex → no_oom e' →
    live e' = live e + arc_blocks (spec_add mx k v A t) - arc_blocks A → Q tt e' c') →
  wp (arc_add (PStr k) (PStr v) (len1 v)) e c Q.
Proof.
  intros Hr Hf Hg He HQ. destruct (spec_evict_fits _ _ _ Hf Hg) as (Hf' & Hg' & _).
  set (A' := spec_evict mx A t) in *. unfold arc_add. wp_step.
  apply (wp_mono _ _ _ (λ victim e' c', wp (if negb (pnull victim) then free_node victim else mret tt) e' c' (λ _ e2 c2,
    no_oom e2 ∧ (∃ D2, arc_rep mx c2 A' t D2 ex) ∧ live e2 = live e + arc_blocks A' - arc_blocks A))).
  { eapply wp_arc_evict; [exact Hr|done|done|done| |].
    - intros Heq. simpl pnull. simpl negb. cbv iota. wp_step. unfold A'. rewrite Heq. split_and!; [done|by exists D|lia].
    - intros c1 D1 e1 x n s Hr1 Hn He1 Hl1. simpl pnull. simpl negb. cbv iota.
      eapply wp_free_slot; [apply Hr1|typeclasses eauto|exact Hn|]. intros c2 e2 Hs2 Hh2 Hm2 Hl2.
      split_and!; [unfold no_oom in *; by rewrite Hm2|exists D1; by eapply arc_rep_same|unfold A'; lia]. }
  intros victim e1 c1 Hw. wp_step. eapply wp_mono; [exact Hw|]. intros _ e2 c2 (He2 & (D2 & Hr2) & Hl2). clear Hw.
  pose proof (no_oom_fails _ He2) as F1. pose proof (no_oom_after _ He2) as He3.
  pose proof (no_oom_fails _ He3) as F2. pose proof (no_oom_after _ He3) as He4.
  pose proof (no_oom_fails _ He4) as F3. pose proof (no_oom_after _ He4) as He5.
  wp_step. eapply wp_ealloc; [apply Hr2|done|]. intros x c3 Hs3 Hh3. do 2 wp_step. rewrite F2. wp_step.
  eapply wp_estore; [exact Hh3|typeclasses eauto|]. intros c4 Hs4 Hh4. wp_step. unfold copy_value. do 2 wp_step.
  rewrite decide_True by done. do 2 wp_step. rewrite F3. cbv iota beta delta [negb]. do 2 wp_step.
  eapply wp_estore; [exact Hh4|typeclasses eauto|]. intros c5 Hs5 Hh5. wp_step.
  eapply wp_estore; [exact Hh5|typeclasses eauto|]. intros c6 Hs6 Hh6. wp_step.
  eapply wp_estore; [exact Hh6|typeclasses eauto|]. intros c7 Hs7 Hh7. wp_step.
  apply wp_current_time_ms. intros tm e8 Hm8 Hl8. wp_step.
  eapply wp_estore; [exact Hh7|typeclasses eauto|]. intros c8 Hs8 Hh8. wp_step.
  eapply wp_estore; [exact Hh8|typeclasses eauto|]. intros c9 Hs9 Hh9. wp_step.
  eapply wp_estore; [exact Hh9|typeclasses eauto|]. intros c10 Hs10 Hh10. wp_step.
  eapply wp_estore; [exact Hh10|typeclasses eauto|]. intros c11 Hs11 Hh11.
  match type of Hh11 with heap_is _ ((x, ?nn) :: _) => set (n := nn) in Hh11 end.
  assert (Hr11 : arc_rep mx c11 A' t D2 ((x, n) :: ex)).
  { eapply arc_rep_same; [exact Hr2|repeat (eapply same_lists_trans; [eassumption|]); apply same_lists_refl|].
    eapply heap_is_perm; [exact Hh11|]. perm_solve. }
  eapply (wp_arc_add _ _ _ _ _ _ _ (k, Some v)); [exact Hr11|done|done| |].
  - pose proof (af_t _ _ _ Hf'). unfold size_of in *. lia.
  - intros c12 Hr12. eapply HQ; [exact Hr12|unfold no_oom in *; by rewrite Hm8|].
    unfold spec_add. fold A'. rewrite Hl8, !live_after_malloc, F1, F2, F3, arc_blocks_put by done. simpl. unfold slot_blocks. simpl. lia.
Qed.
Arguments arc_add : simpl never.

(** Taking a found node out and freeing it. *)
Lemma wp_drop mx c A t D ex r k ov rest da x n db (m : M CacheManager Z) e Q :
  arc_rep mx c A t D ex → r ≠ LLru → D r = da ++ (x, n) :: db → keeps (k, ov) n → keeps_all rest (da ++ db) →
  take_slot k (A r) = Some (ov, rest) → arc_fits mx A t →
  (m = (free_node (Some x);; mret 0) ∨
   ov = None ∧ m = (n ← eload (Some x); kvs_free (ev_key n);; efree (Some x);; mret 0)) →
  (∀ c' D' e', arc_rep mx c' (put r rest A) t D' ex → mallocs e' = mallocs e →
    live e' = live e + arc_blocks (put r rest A) - arc_blocks A → Q 0 e' c') →
  wp (lru_remove_node r (Some x);; m) e c Q.
Proof.
  intros Hr Hne HD Hn Hrest Htake Hf Hm HQ. wp_step.
  eapply wp_arc_remove; [exact Hr|done|exact HD|exact Hrest|by eapply arc_fits_size|]. intros c1 p q Hr1.
  assert (Hbl : arc_blocks (put r rest A) - arc_blocks A = - slot_blocks (k, ov)).
  { pose proof (take_slot_spec k (A r)) as Hs. rewrite Htake in Hs. destruct Hs as (la & lb & HA & -> & _).
    rewrite arc_blocks_put, HA, !list_blocks_app by done. simpl. lia. }
  destruct Hm as [->|[-> ->]]; wp_step.
  - eapply wp_free_slot with (s := (k, ov)); [apply Hr1|typeclasses eauto|exact Hn|]. intros c2 e2 Hs2 Hh2 Hm2 Hl2. wp_step.
    eapply HQ; [by eapply arc_rep_same|done|lia].
  - pose proof (ar_heap _ _ _ _ _ _ Hr1) as Hh1. eapply wp_eload; [exact Hh1|typeclasses eauto|].
    destruct Hn as [Hkey _]. simpl ev_key. simpl in Hkey. rewrite Hkey. do 3 wp_step.
    eapply wp_efree; [exact Hh1|typeclasses eauto|]. intros c2 Hs2 Hh2. wp_step.
    eapply HQ; [by eapply arc_rep_same|done|]. simpl. unfold slot_blocks in Hbl. simpl in Hbl. lia.
Qed.
Definition all_lists : list lref := [LT1; LT2; LB1; LB2].
Lemma take_slot_ghost k l ov rest : Forall (λ s : slot, s.2 = None) l → take_slot k l = Some (ov, rest) → ov = None.
Proof.
  intros Hl Ht. pose proof (take_slot_spec k l) as Hs. rewrite Ht in Hs. destruct Hs as (la & lb & -> & _ & _).
  by apply Forall_app in Hl as [_ [? _]%Forall_cons].
Qed.
Lemma wp_arc_del mx c A t D ex k e Q :
  arc_rep mx c A t D ex → arc_fits mx A t → ghosts A →
  (∀ code A' c' D' e', spec_del all_lists k A = (code, A') → arc_rep mx c' A' t D' ex → mallocs e' = mallocs e →
    live e' = live e + arc_blocks A' - arc_blocks A → Q code e' c') →
  wp (arc_del (PStr k)) e c Q.
Proof.
  intros Hr Hf [Hg1 Hg2] HQ. unfold arc_del. unfold all_lists in HQ. cbn [spec_del] in HQ. wp_step.
  eapply wp_arc_find; [exact Hr|done|]. destruct (take_slot k (A LT1)) as [[ov rest]|] eqn:H1.
  { intros da x n db HD Hn Hrest. simpl pnull. simpl negb. cbv iota.
    eapply wp_drop; [exact Hr|done|exact HD|exact Hn|exact Hrest|exact H1|done|by left|]. intros c' D' e'. by apply HQ. }
  simpl pnull. simpl negb. cbv iota. wp_step. eapply wp_arc_find; [exact Hr|done|].
  destruct (take_slot k (A LT2)) as [[ov rest]|] eqn:H2.
  { intros da x n db HD Hn Hrest. simpl pnull. simpl negb. cbv iota.
    eapply wp_drop; [exact Hr|done|exact HD|exact Hn|exact Hrest|exact H2|done|by left|]. intros c' D' e'. by apply HQ. }
  simpl pnull. simpl negb. cbv iota. wp_step. eapply wp_arc_find; [exact Hr|done|].
  destruct (take_slot k (A LB1)) as [[ov rest]|] eqn:H3.
  { intros da x n db HD Hn Hrest. simpl pnull. simpl negb. cbv iota. pose proof (take_slot_ghost _ _ _ _ Hg1 H3) as ->.
    eapply wp_drop; [exact Hr|done|exact HD|exact Hn|exact Hrest|exact H3|done|by right|]. intros c' D' e'. by apply HQ. }
  simpl pnull. simpl negb. cbv iota. wp_step. eapply wp_arc_find; [exact Hr|done|].
  destruct (take_slot k (A LB2)) as [[ov rest]|] eqn:H4.
  { intros da x n db HD Hn Hrest. simpl pnull. simpl negb. cbv iota. pose proof (take_slot_ghost _ _ _ _ Hg2 H4) as ->.
    eapply wp_drop; [exact Hr|done|exact HD|exact Hn|exact Hrest|exact H4|done|by right|]. intros c' D' e'. by apply HQ. }
  simpl pnull. simpl negb. cbv iota. wp_step. eapply HQ; [done|exact Hr|done|lia].
Qed.
Arguments arc_del : simpl never.

(** * What the policy promises *)

(** The pairs a list would answer, and the map of them. *)
Definition pairs l : list (string * string) := omap (λ s : slot, pair s.1 <$> s.2) l.
Definition contents l : gmap string string := list_to_map (pairs l).
Definition resident A : list slot := A LT1 ++ A LT2.

(** A value is only found in the first slot of its key. *)
Fixpoint tidy l : Prop :=
  match l with
  | [] => True
  | s :: l' => (∀ w, (s.1, Some w) ∉ l') ∧ tidy l'
  end.
Lemma tidy_app l1 l2 :
  tidy (l1 ++ l2) ↔ tidy l1 ∧ tidy l2 ∧ ∀ s w, s ∈ l1 → (s.1, Some w) ∉ l2.
Proof.
  induction l1 as [|s l1 IH]; simpl; [set_solver|]. rewrite IH. set_solver.
Qed.
Lemma tidy_cons s l : tidy (s :: l) ↔ (∀ w, (s.1, Some w) ∉ l) ∧ tidy l.
Proof. done. Qed.
Lemma tidy_remove l1 s l2 : tidy (l1 ++ s :: l2) → tidy (l1 ++ l2).
Proof. rewrite !tidy_app, tidy_cons. set_solver. Qed.

Lemma pairs_app l1 l2 : pairs (l1 ++ l2) = pairs l1 ++ pairs l2.
Proof. apply omap_app. Qed.
Lemma elem_of_pairs k v l : (k, v) ∈ pairs l ↔ (k, Some v) ∈ l.
Proof.
  unfold pairs. rewrite list_elem_of_omap. split.
  - intros ([k' [v'|]] & Hin & Heq); simpl in Heq; [|done]. by injection Heq as -> ->.
  - intros Hin. by exists (k, Some v).
Qed.
Lemma tidy_nodup l : tidy l → NoDup (pairs l).*1.
Proof.
  induction l as [|[k [v|]] l IH]; simpl; [constructor| |by intros [_ ?]; apply IH].
  intros [Hk Hl]. constructor; [|by apply IH]. intros Hin. apply list_elem_of_fmap in Hin as ([k' w] & -> & Hin).
  apply (Hk w). by apply elem_of_pairs.
Qed.
Lemma contents_some l k v : tidy l → contents l !! k = Some v ↔ (k, Some v) ∈ l.
Proof. intros Hl. unfold contents. rewrite <-elem_of_list_to_map by (by apply tidy_nodup). apply elem_of_pairs. Qed.
Lemma contents_perm l l' : pairs l ≡ₚ pairs l' → tidy l → contents l = contents l'.
Proof. intros Hp Hl. apply list_to_map_proper; [by apply tidy_nodup|done]. Qed.
Lemma contents_absent l k : tidy l → Forall (λ s : slot, s.1 ≠ k) l → contents l !! k = None.
Proof.
  intros Hl Hk. apply eq_None_not_Some. intros [v Hv]. apply contents_some in Hv; [|done].
  rewrite Forall_forall in Hk. by apply Hk in Hv.
Qed.
Lemma pairs_mid l1 s l2 : pairs (l1 ++ s :: l2) ≡ₚ pairs (s :: l1 ++ l2).
Proof. unfold pairs. by rewrite <-Permutation_middle. Qed.
(** Removing the first slot of a key removes the key. *)
Lemma contents_remove l1 k ov l2 :
  tidy (l1 ++ (k, ov) :: l2) → Forall (λ s : slot, s.1 ≠ k) l1 →
  contents (l1 ++ (k, ov) :: l2) !! k = ov ∧
  contents (l1 ++ l2) = delete k (contents (l1 ++ (k, ov) :: l2)).
Proof.
  intros Ht Hk. pose proof (tidy_remove _ _ _ Ht) as Ht'.
  assert (Hno : contents (l1 ++ l2) !! k = None).
  { apply eq_None_not_Some. intros [v Hv]. apply contents_some in Hv; [|done]. apply elem_of_app in Hv as [Hv|Hv].
    - rewrite Forall_forall in Hk. by apply Hk in Hv.
    - apply tidy_app in Ht as (_ & [Ht _] & _). by apply (Ht v). }
  rewrite (contents_perm _ _ (pairs_mid l1 (k, ov) l2) Ht). unfold contents in *.
  destruct ov as [v|]; simpl.
  - split; [apply lookup_insert_eq|]. by rewrite delete_insert_id.
  - split; [done|]. by rewrite delete_id.
Qed.
Lemma contents_drop l1 s l2 : tidy (l1 ++ s :: l2) → contents (l1 ++ l2) ⊆ contents (l1 ++ s :: l2).
Proof.
  intros Ht. rewrite (contents_perm _ _ (pairs_mid l1 s l2) Ht). apply map_subseteq_spec. intros k v Hk.
  pose proof (tidy_remove _ _ _ Ht) as Ht'. destruct s as [k' [v'|]]; [|done]. unfold contents. simpl.
  apply contents_some in Hk; [|done]. assert (k' ≠ k) as Hne.
  { intros ->. pose proof (tidy_nodup _ Ht) as Hnd. rewrite (pairs_mid l1 (k, Some v') l2) in Hnd. simpl in Hnd.
    apply NoDup_cons in Hnd as [Hnd _]. apply Hnd. apply (list_elem_of_fmap_2 fst _ (k, v)). by apply elem_of_pairs. }
  rewrite lookup_insert_ne by done. by apply contents_some.
Qed.

(** The invariant of the four lists; [n] bounds the slots of T1 and T2. *)
Record arc_ok mx A (t n : Z) : Prop := {
  ok_mx : 0 < mx ∧ 2 * mx + 1 ≤ INT_MAX;
  ok_target : 0 ≤ t ≤ mx;
  ok_b1 : size_of LB1 A ≤ mx;
  ok_b2 : size_of LB2 A ≤ mx;
  ok_total : size_of LT1 A + size_of LT2 A ≤ n;
  ok_ghosts : ghosts A;
  ok_valued : Forall (λ s : slot, s.2 ≠ None) (A LT1);
  ok_tidy : tidy (resident A)
}.
Lemma arc_ok_fits mx A t n : arc_ok mx A t n → n < INT_MAX → arc_fits mx A t.
Proof. intros [H1 H2 H3 H4 H5 H6 H7 H8] Hn. split; [done..|lia]. Qed.

(** ** Hits *)

(** Moving a slot within T1 and T2, or a ghost into T2. *)
Definition moved A A' : Prop :=
  tidy (resident A') ∧ contents (resident A') = contents (resident A) ∧ arc_blocks A' = arc_blocks A.
Lemma moved_blocks r k ov rest A :
  r ≠ LLru → take_slot k (A r) = Some (ov, rest) →
  arc_blocks (put LT2 ((k, ov) :: put r rest A LT2) (put r rest A)) = arc_blocks A.
Proof.
  intros Hr Ht. pose proof (take_slot_spec k (A r)) as Hs. rewrite Ht in Hs. destruct Hs as (la & lb & HA & -> & _).
  rewrite !arc_blocks_put, HA, !list_blocks_app by done. cbn [list_blocks]. lia.
Qed.
Lemma front_T1 mx k ov rest A t n :
  arc_ok mx A t n → take_slot k (A LT1) = Some (ov, rest) →
  contents (resident A) !! k = ov ∧ moved A (put LT2 ((k, ov) :: put LT1 rest A LT2) (put LT1 rest A)).
Proof.
  intros Hok Ht. pose proof (take_slot_spec k (A LT1)) as Hs. rewrite Ht in Hs. destruct Hs as (la & lb & HA & -> & Hla).
  pose proof (ok_tidy _ _ _ _ Hok) as Htidy. pose proof (ok_valued _ _ _ _ Hok) as Hval.
  assert (Hlb : Forall (λ s : slot, s.1 ≠ k) lb).
  { unfold resident in Htidy. rewrite HA in *. rewrite <-(assoc_L (++)) in Htidy. apply tidy_app in Htidy as (_ & [Htk _] & _).
    apply Forall_app in Hval as [_ [_ Hval]%Forall_cons]. rewrite Forall_forall in *. intros [k' [v'|]] Hin Hk; simpl in *.
    - subst k'. apply (Htk v'). apply elem_of_app. by left.
    - by apply (Hval _ Hin). }
  unfold moved. rewrite moved_blocks by done. unfold resident in *. put_simpl. rewrite HA in *. rewrite <-!(assoc_L (++)) in *. simpl in *.
  assert (Hperm : pairs (la ++ (k, ov) :: lb ++ A LT2) ≡ₚ pairs (la ++ lb ++ (k, ov) :: A LT2)).
  { rewrite pairs_mid, (assoc_L (++) la lb ((k, ov) :: _)), pairs_mid. by rewrite (assoc_L (++)). }
  split_and!; [by apply contents_remove| | |done].
  - rewrite !tidy_app, !tidy_cons in *. rewrite !tidy_app in *. rewrite Forall_forall in *.
    destruct Htidy as (Hta & (Htk & Htb & Ht2 & Hb2) & Hall). split_and!; [done|done|set_solver|done| |].
    + intros s w Hs [[= Hsk _]|Hin]%elem_of_cons; [by apply (Hlb s)|by apply (Hb2 s w)].
    + intros s w Hs [Hin|[[= Hsk _]|Hin]%elem_of_cons]%elem_of_app; [set_solver|by apply (Hla s)|set_solver].
  - symmetry. by apply contents_perm.
Qed.
Lemma front_T2 mx k ov rest A t n :
  arc_ok mx A t n → take_slot k (A LT1) = None → take_slot k (A LT2) = Some (ov, rest) →
  contents (resident A) !! k = ov ∧ moved A (put LT2 ((k, ov) :: put LT2 rest A LT2) (put LT2 rest A)).
Proof.
  intros Hok H1 Ht. pose proof (take_slot_spec k (A LT2)) as Hs. rewrite Ht in Hs. destruct Hs as (la & lb & HA & -> & Hla).
  pose proof (take_slot_spec k (A LT1)) as Hs. rewrite H1 in Hs. rename Hs into HT1.
  pose proof (ok_tidy _ _ _ _ Hok) as Htidy. unfold moved. rewrite moved_blocks by done. unfold resident in *. put_simpl. rewrite HA in *.
  assert (Hperm : pairs (A LT1 ++ la ++ (k, ov) :: lb) ≡ₚ pairs (A LT1 ++ (k, ov) :: la ++ lb)).
  { unfold pairs. by rewrite (Permutation_middle la lb (k, ov)). }
  split_and!; [| | |done].
  - rewrite (assoc_L (++)) in *. apply contents_remove; [done|]. by apply Forall_app.
  - rewrite !tidy_app, !tidy_cons in *. rewrite !tidy_app in *. rewrite Forall_forall in *.
    destruct Htidy as (Ht1 & (Hta & [Htk Htb] & Hab) & Hall). split_and!; [done| |done|done|set_solver|set_solver].
    intros w [Hin|Hin]%elem_of_app; [by apply (Hla _ Hin)|by apply (Htk w)].
  - symmetry. by apply contents_perm.
Qed.
Lemma front_ghost mx k ov rest A t n b :
  arc_ok mx A t n → b = LB1 ∨ b = LB2 → take_slot k (A LT1) = None → take_slot k (A LT2) = None →
  take_slot k (A b) = Some (ov, rest) →
  contents (resident A) !! k = None ∧ moved A (put LT2 ((k, ov) :: put b rest A LT2) (put b rest A)).
Proof.
  intros Hok Hb H1 H2 Ht. pose proof (take_slot_spec k (A LT1)) as HT1. rewrite H1 in HT1.
  pose proof (take_slot_spec k (A LT2)) as HT2. rewrite H2 in HT2.
  assert (ov = None) as ->.
  { destruct (ok_ghosts _ _ _ _ Hok) as [Hg1 Hg2]. destruct Hb as [-> | ->]; [exact (take_slot_ghost _ _ _ _ Hg1 Ht)|exact (take_slot_ghost _ _ _ _ Hg2 Ht)]. }
  assert (b ≠ LLru ∧ LT1 ≠ b ∧ LT2 ≠ b) as (Hne & Hb1 & Hb2) by (by destruct Hb as [-> | ->]).
  pose proof (ok_tidy _ _ _ _ Hok) as Htidy. unfold moved. rewrite moved_blocks by done. unfold resident in *. put_simpl.
  assert (Htidy' : tidy (A LT1 ++ (k, None) :: A LT2)).
  { rewrite tidy_app in *. rewrite tidy_cons. destruct Htidy as (Ht1 & Ht2 & Hall). rewrite Forall_forall in *.
    split_and!; [done| |done|].
    - intros w Hin. by apply (HT2 _ Hin).
    - intros s w Hs [?|Hin]%elem_of_cons; [done|by apply (Hall s w)]. }
  split_and!; [by apply contents_absent; [|apply Forall_app]|done| |done].
  apply contents_perm; [by rewrite pairs_mid|done].
Qed.

Lemma take_slot_length k l ov rest : take_slot k l = Some (ov, rest) → length l = S (length rest).
Proof.
  intros Ht. pose proof (take_slot_spec k l) as Hs. rewrite Ht in Hs. destruct Hs as (la & lb & -> & -> & _).
  rewrite !length_app. simpl. lia.
Qed.
Lemma take_slot_forall (P : slot → Prop) k l ov rest : Forall P l → take_slot k l = Some (ov, rest) → Forall P rest.
Proof.
  intros Hl Ht. pose proof (take_slot_spec k l) as Hs. rewrite Ht in Hs. destruct Hs as (la & lb & -> & -> & _).
  apply Forall_app in Hl as [? [_ ?]%Forall_cons]. by apply Forall_app.
Qed.

(** A lookup answers what is stored and changes nothing of it. *)
Lemma spec_get_ok mx k A t n ov A' t' :
  arc_ok mx A t n → spec_get mx k A t = (ov, A', t') →
  arc_ok mx A' t' (n + 1) ∧ ov = contents (resident A) !! k ∧ moved A A'.
Proof.
  intros Hok. pose proof Hok as [H1 H2 H3 H4 H5 [Hg1 Hg2] H7 H8]. unfold spec_get, spec_access, to_front.
  pose proof (spec_delta_bounds LB1 LB2 A). pose proof (spec_delta_bounds LB2 LB1 A).
  destruct (take_slot k (A LT1)) as [[ov1 rest]|] eqn:E1.
  { intros [= <- <- <-]. destruct (front_T1 _ _ _ _ _ _ _ Hok E1) as [Hc Hm]. split_and!; [|done|done].
    pose proof (take_slot_length _ _ _ _ E1). destruct Hm as (Ht & _). split; unfold size_of in *; put_simpl; simpl length; try done; try lia.
    by eapply take_slot_forall. }
  destruct (take_slot k (A LT2)) as [[ov2 rest]|] eqn:E2.
  { intros [= <- <- <-]. destruct (front_T2 _ _ _ _ _ _ _ Hok E1 E2) as [Hc Hm]. split_and!; [|done|done].
    pose proof (take_slot_length _ _ _ _ E2). destruct Hm as (Ht & _). split; unfold size_of in *; put_simpl; simpl length; try done; lia. }
  destruct (take_slot k (A LB1)) as [[ov3 rest]|] eqn:E3.
  { intros [= <- <- <-]. destruct (front_ghost _ _ _ _ _ _ _ LB1 Hok ltac:(auto) E1 E2 E3) as [Hc Hm]. split_and!; [|done|done].
    pose proof (take_slot_length _ _ _ _ E3). destruct Hm as (Ht & _). split; unfold size_of in *; put_simpl; simpl length; try done; try lia.
    split; put_simpl; [exact (take_slot_forall _ _ _ _ _ Hg1 E3)|done]. }
  destruct (take_slot k (A LB2)) as [[ov4 rest]|] eqn:E4.
  { intros [= <- <- <-]. destruct (front_ghost _ _ _ _ _ _ _ LB2 Hok ltac:(auto) E1 E2 E4) as [Hc Hm]. split_and!; [|done|done].
    pose proof (take_slot_length _ _ _ _ E4). destruct Hm as (Ht & _). split; unfold size_of in *; put_simpl; simpl length; try done; try lia.
    split; put_simpl; [done|exact (take_slot_forall _ _ _ _ _ Hg2 E4)]. }
  intros [= <- <- <-]. pose proof (take_slot_spec k (A LT1)) as HT1. rewrite E1 in HT1.
  pose proof (take_slot_spec k (A LT2)) as HT2. rewrite E2 in HT2. split_and!; [split; try done; lia| |by split_and!].
  symmetry. apply contents_absent; [done|]. by apply Forall_app.
Qed.

(** An addition enters the pair and may forget others. *)
Lemma spec_evict_ok mx A t n :
  arc_ok mx A t n → arc_ok mx (spec_evict mx A t) t n ∧ contents (resident (spec_evict mx A t)) ⊆ contents (resident A).
Proof.
  intros Hok. pose proof Hok as [H1 H2 H3 H4 H5 Hg H7 H8].
  destruct (spec_evict_cases mx A t) as [->|(tl & b & rest & s & Hin & HA & ->)]; [done|]. destruct Hg as [Hg1 Hg2].
  assert (Hgh : Forall (λ s : slot, s.2 = None) (A b)) by (set_unfold in Hin; destruct Hin as [[= -> ->]|[[= -> ->]|[]]]; done).
  assert (Htk : Z.of_nat (length (take (Z.to_nat mx) ((s.1, None) :: A b))) ≤ mx) by (rewrite length_take; lia).
  assert (Htg : Forall (λ s : slot, s.2 = None) (take (Z.to_nat mx) ((s.1, None) :: A b))) by (apply Forall_take; by constructor).
  assert (Hlen : Z.of_nat (length (A tl)) = Z.of_nat (length rest) + 1) by (rewrite HA, length_app; simpl; lia).
  set (g := take (Z.to_nat mx) ((s.1, None) :: A b)) in *. clearbody g.
  set_unfold in Hin. unfold resident in *. destruct Hin as [[= -> ->]|[[= -> ->]|[]]]; put_simpl; rewrite HA in H8.
  - rewrite <-(assoc_L (++)) in H8. split.
    + split; unfold size_of, resident in *; put_simpl; try done; try lia.
      * rewrite HA in H7. by apply Forall_app in H7 as [? _].
      * by apply tidy_remove in H8.
    + rewrite HA, <-(assoc_L (++)). by apply contents_drop.
  - rewrite (assoc_L (++)) in H8. pose proof (tidy_remove _ _ _ H8) as H8'. pose proof (contents_drop _ _ _ H8) as Hsub.
    rewrite app_nil_r in H8', Hsub. split; [|by rewrite HA, (assoc_L (++))].
    split; unfold size_of, resident in *; put_simpl; try done; try lia.
Qed.
Lemma spec_add_ok mx k v A t n :
  arc_ok mx A t n → contents (resident A) !! k = None →
  arc_ok mx (spec_add mx k v A t) t (n + 1) ∧ ∃ S, S ⊆ contents (resident A) ∧
    contents (resident (spec_add mx k v A t)) = <[k := v]> S.
Proof.
  intros Hok Hk. destruct (spec_evict_ok _ _ _ _ Hok) as [Hok' Hsub]. unfold spec_add.
  set (A' := spec_evict mx A t) in *. pose proof Hok' as [H1 H2 H3 H4 H5 [Hg1 Hg2] H7 H8].
  assert (Hk' : contents (resident A') !! k = None) by (by eapply lookup_weaken_None).
  split.
  - split; unfold size_of, resident in *; put_simpl; simpl length; try done; try lia.
    + by constructor.
    + rewrite <-app_comm_cons, tidy_cons. split; [|done]. intros w Hin. simpl in Hin.
      apply contents_some in Hin; [|done]. congruence.
  - exists (contents (resident A')). split; [done|]. unfold resident. put_simpl. done.
Qed.
(** A deletion forgets the key. *)
Lemma spec_del_ok mx k A t n code A' :
  arc_ok mx A t n → spec_del all_lists k A = (code, A') →
  arc_ok mx A' t n ∧ contents (resident A') = delete k (contents (resident A)).
Proof.
  intros Hok. pose proof Hok as [H1 H2 H3 H4 H5 [Hg1 Hg2] H7 H8]. unfold all_lists. cbn [spec_del].
  pose proof (take_slot_spec k (A LT1)) as HT1. pose proof (take_slot_spec k (A LT2)) as HT2.
  destruct (take_slot k (A LT1)) as [[ov1 rest]|] eqn:E1.
  { intros [= <- <-]. destruct HT1 as (la & lb & HA & -> & Hla). pose proof (take_slot_length _ _ _ _ E1).
    unfold resident in *. put_simpl. rewrite HA in H8. rewrite <-(assoc_L (++)) in H8. simpl in H8. split.
    - split; unfold size_of, resident in *; put_simpl; try done; try lia; [by eapply take_slot_forall|].
      apply tidy_remove in H8. by rewrite <-(assoc_L (++)).
    - rewrite HA, <-!(assoc_L (++)). by apply contents_remove. }
  destruct (take_slot k (A LT2)) as [[ov2 rest]|] eqn:E2.
  { intros [= <- <-]. destruct HT2 as (la & lb & HA & -> & Hla). pose proof (take_slot_length _ _ _ _ E2).
    unfold resident in *. put_simpl. rewrite HA in H8. rewrite (assoc_L (++)) in H8. split.
    - split; unfold size_of, resident in *; put_simpl; try done; try lia.
      apply tidy_remove in H8. by rewrite (assoc_L (++)).
    - rewrite HA, !(assoc_L (++)). apply contents_remove; [done|]. by apply Forall_app. }
  assert (Habs : contents (resident A) = delete k (contents (resident A))).
  { symmetry. apply delete_id, contents_absent; [done|]. by apply Forall_app. }
  destruct (take_slot k (A LB1)) as [[ov3 rest]|] eqn:E3.
  { intros [= <- <-]. pose proof (take_slot_length _ _ _ _ E3). unfold resident in *. put_simpl. split; [|done].
    split; unfold size_of, resident in *; put_simpl; try done; try lia. split; put_simpl; [exact (take_slot_forall _ _ _ _ _ Hg1 E3)|done]. }
  destruct (take_slot k (A LB2)) as [[ov4 rest]|] eqn:E4.
  { intros [= <- <-]. pose proof (take_slot_length _ _ _ _ E4). unfold resident in *. put_simpl. split; [|done].
    split; unfold size_of, resident in *; put_simpl; try done; try lia. split; put_simpl; [done|exact (take_slot_forall _ _ _ _ _ Hg2 E4)]. }
  by intros [= <- <-].
Qed.

Lemma spec_del_code mx k A t n code A' :
  arc_ok mx A t n → spec_del all_lists k A = (code, A') → is_Some (contents (resident A) !! k) → code = 0.
Proof.
  intros Hok. unfold all_lists. cbn [spec_del]. pose proof (take_slot_spec k (A LT1)) as HT1. pose proof (take_slot_spec k (A LT2)) as HT2.
  destruct (take_slot k (A LT1)) as [[? ?]|]; [by intros [= <- _]|]. destruct (take_slot k (A LT2)) as [[? ?]|]; [by intros [= <- _]|].
  intros _. rewrite contents_absent by (first [apply Hok|by apply Forall_app]). by intros [].
Qed.

(** * The cache under ARC *)

(** The calls of the dispatcher: a read enters the pair after a miss, a change of
    the key deletes it. *)
Inductive cache_use : Type :=
  | URead k v
  | UDel k.
Definition run_use (u : cache_use) : M CacheManager cptr :=
  match u with
  | URead k v => read_through (k, v)
  | UDel k => kvs_cache_del (PStr k);; mret PNull
  end.
Fixpoint run_uses (us : list cache_use) : M CacheManager (list cptr) :=
  match us with
  | [] => mret []
  | u :: us' => a ← run_use u; l ← run_uses us'; mret (a :: l)
  end.

(** The same on the four lists. *)
Definition spec_use mx (u : cache_use) A (t : Z) : cptr * arc_lists * Z :=
  match u with
  | URead k v =>
      let '(ov, A', t') := spec_get mx k A t in
      match ov with
      | Some w => (PStr w, A', t')
      | None => (PNull, spec_add mx k v A' t', t')
      end
  | UDel k => (PNull, (spec_del all_lists k A).2, t)
  end.
Fixpoint spec_uses mx (us : list cache_use) A (t : Z) : list cptr * arc_lists * Z :=
  match us with
  | [] => ([], A, t)
  | u :: us' =>
      let '(a, A', t') := spec_use mx u A t in
      let '(l, A'', t'') := spec_uses mx us' A' t' in
      (a :: l, A'', t'')
  end.

(** What any cache may do: a hit answers the pair, a miss enters it and may forget
    others, a deletion forgets the key. *)
Inductive use_step : gmap string string → cache_use → cptr → gmap string string → Prop :=
  | use_hit S k v w : S !! k = Some w → use_step S (URead k v) (PStr w) S
  | use_miss S S0 k v : S !! k = None → S0 ⊆ S → use_step S (URead k v) PNull (<[k := v]> S0)
  | use_del S k : use_step S (UDel k) PNull (delete k S).
Inductive use_steps : gmap string string → list cache_use → list cptr → gmap string string → Prop :=
  | uses_nil S : use_steps S [] [] S
  | uses_cons S u a S1 us rs S2 : use_step S u a S1 → use_steps S1 us rs S2 → use_steps S (u :: us) (a :: rs) S2.

Lemma arc_rep_counters mx c c' A t D ex :
  arc_rep mx c A t D ex → c_policy c' = c_policy c → c_max_items c' = c_max_items c → c_arc c' = c_arc c →
  c_heap c' = c_heap c → arc_rep mx c' A t D ex.
Proof.
  intros [H1 H2 H3 H4 H5 H6 H7] E1 E2 E3 E4. split; [congruence|congruence|by rewrite E3|by rewrite E3| |done|by rewrite E4].
  intros r Hr. rewrite <-H5 by done. destruct r; [done|..]; simpl; by rewrite E3.
Qed.

Lemma wp_cache_get_arc mx c A t n D ex k e Q :
  arc_rep mx c A t D ex → arc_ok mx A t n → n < INT_MAX →
  (∀ ov A' t' c' D', spec_get mx k A t = (ov, A', t') → arc_rep mx c' A' t' D' ex → Q (answer_of ov) e c') →
  wp (kvs_cache_get (PStr k)) e c Q.
Proof.
  intros Hr Hok Hn HQ. pose proof (ok_mx _ _ _ _ Hok) as Hmx. unfold kvs_cache_get. do 2 wp_step.
  rewrite (ar_items _ _ _ _ _ _ Hr). simpl is_null. rewrite (proj2 (Z.eqb_neq mx 0)) by lia. simpl orb. cbv iota.
  do 2 wp_step. rewrite (ar_policy _ _ _ _ _ _ Hr). simpl Z.eqb. cbv iota. wp_step.
  eapply wp_arc_get; [exact Hr|by eapply arc_ok_fits|]. intros ov A' t' c' D' Hs Hr'.
  unfold bump_cache_hit, bump_cache_miss, bump_total_access. wp_step.
  destruct (negb (is_null (answer_of ov).1)); do 4 wp_step; (eapply HQ; [exact Hs|by eapply arc_rep_counters]).
Qed.
Lemma wp_cache_del_arc mx c A t n D ex k e Q :
  arc_rep mx c A t D ex → arc_ok mx A t n → n < INT_MAX →
  (∀ code A' c' D' e', spec_del all_lists k A = (code, A') → arc_rep mx c' A' t D' ex → mallocs e' = mallocs e →
    live e' = live e + arc_blocks A' - arc_blocks A → Q code e' c') →
  wp (kvs_cache_del (PStr k)) e c Q.
Proof.
  intros Hr Hok Hn HQ. pose proof (ok_mx _ _ _ _ Hok) as Hmx. unfold kvs_cache_del. do 2 wp_step.
  rewrite (ar_items _ _ _ _ _ _ Hr). simpl is_null. rewrite (proj2 (Z.eqb_neq mx 0)) by lia. simpl orb. cbv iota.
  do 2 wp_step. rewrite (ar_policy _ _ _ _ _ _ Hr). simpl Z.eqb. cbv iota.
  eapply wp_arc_del; [exact Hr|by eapply arc_ok_fits|apply Hok|]. exact HQ.
Qed.

Lemma wp_run_use mx c A t n D u e :
  arc_rep mx c A t D [] → arc_ok mx A t n → n + 1 < INT_MAX → no_oom e →
  wp (run_use u) e c (λ a e' c', ∃ A' t' D', spec_use mx u A t = (a, A', t') ∧
    use_step (contents (resident A)) u a (contents (resident A')) ∧ arc_rep mx c' A' t' D' [] ∧ arc_ok mx A' t' (n + 2) ∧
    no_oom e' ∧ live e' = live e + arc_blocks A' - arc_blocks A).
Proof.
  intros Hr Hok Hn He. destruct u as [k v|k]; unfold run_use.
  - unfold read_through. simpl fst. simpl snd. wp_step. eapply wp_cache_get_arc; [exact Hr|exact Hok|lia|].
    intros ov A1 t1 c1 D1 Hs Hr1. destruct (spec_get_ok _ _ _ _ _ _ _ _ Hok Hs) as (Hok1 & Hov & Ht1 & Hc1 & Hb1).
    unfold spec_use. rewrite Hs. destruct ov as [w|]; simpl is_null; cbv iota.
    + wp_step. exists A1, t1, D1. split_and!; [done|rewrite Hc1; by constructor|done| |done|lia].
      destruct Hok1. split; try done; lia.
    + wp_step. unfold kvs_cache_lru_add. do 2 wp_step. rewrite (ar_policy _ _ _ _ _ _ Hr1). simpl Z.eqb. cbv iota.
      destruct (spec_add_ok mx k v A1 t1 (n + 1)) as (Hok2 & S & Hsub & Hc2); [done|by rewrite Hc1|].
      eapply wp_arc_add_value; [exact Hr1|by eapply arc_ok_fits|apply Hok1|done|]. intros c2 D2 e2 Hr2 He2 Hl2. wp_step.
      exists (spec_add mx k v A1 t1), t1, D2. split_and!; [done| |done| |done|lia].
      * rewrite Hc2. constructor; [done|]. by rewrite <-Hc1.
      * replace (n + 2) with (n + 1 + 1) by lia. done.
  - wp_step. eapply wp_cache_del_arc; [exact Hr|exact Hok|lia|]. intros code A1 c1 D1 e1 Hs Hr1 Hm1 Hl1. wp_step.
    destruct (spec_del_ok _ _ _ _ _ _ _ Hok Hs) as [Hok1 Hc1]. exists A1, t, D1. unfold spec_use. rewrite Hs.
    split_and!; [done|rewrite Hc1; constructor|done| |unfold no_oom in *; by rewrite Hm1|done].
    destruct Hok1. split; try done; lia.
Qed.
Lemma wp_run_uses mx us c A t n D e :
  arc_rep mx c A t D [] → arc_ok mx A t n → n + 2 * Z.of_nat (length us) < INT_MAX → no_oom e →
  wp (run_uses us) e c (λ rs e' c', ∃ A' t' D', spec_uses mx us A t = (rs, A', t') ∧
    use_steps (contents (resident A)) us rs (contents (resident A')) ∧ arc_rep mx c' A' t' D' [] ∧
    live e' = live e + arc_blocks A' - arc_blocks A).
Proof.
  revert c A t n D e. induction us as [|u us IH]; intros c A t n D e Hr Hok Hn He; cbn [run_uses spec_uses].
  { wp_step. exists A, t, D. split_and!; [done|constructor|done|lia]. }
  simpl length in Hn. wp_step. eapply wp_mono; [eapply (wp_run_use mx); [exact Hr|exact Hok|lia|done]|].
  intros a e1 c1 (A1 & t1 & D1 & Hs1 & Hu1 & Hr1 & Hok1 & He1 & Hl1). wp_step.
  eapply wp_mono; [eapply IH; [exact Hr1|exact Hok1|lia|done]|].
  intros rs e2 c2 (A2 & t2 & D2 & Hs2 & Hu2 & Hr2 & Hl2). wp_step. exists A2, t2, D2.
  rewrite Hs1, Hs2. split_and!; [done|by econstructor|done|lia].
Qed.

(** A new cache that is switched to ARC. *)
Definition arc_start (max_items : Z) : M CacheManager unit :=
  kvs_cache_init max_items;;
  kvs_cache_set_policy EVICT_ARC.
Definition no_slots : arc_lists := λ _, [].
Lemma fresh_arc n c :
  fresh_cache n c → arc_rep n (switched EVICT_ARC c) no_slots (Z.quot n 2) (λ _, []) [].
Proof.
  intros [_ _ Hi Hh _ Hl Ht Hm]. split; simpl; [done..| |constructor|].
  - intros r Hr. rewrite <-(Hl r). by destruct r.
  - rewrite Hh. by split; [constructor|].
Qed.

Lemma wp_arc_start max_items e Q :
  2 * capacity max_items + 1 ≤ INT_MAX → no_oom e →
  (∀ e' c', no_oom e' → live e' = live e + 5 →
    arc_rep (capacity max_items) c' no_slots (Z.quot (capacity max_items) 2) (λ _, []) [] → Q tt e' c') →
  wp (arc_start max_items) e g_cache Q.
Proof.
  intros Hcap He HQ. unfold arc_start, kvs_cache_set_policy. wp_step.
  apply wp_cache_init_fresh; [done..|]. intros e' c' He' Hl Hf. repeat wp_step. apply HQ; [done..|].
  exact (fresh_arc _ _ Hf).
Qed.

(** ** The contract *)

(** [b] more calls keep the number of slots an [int]. *)
Definition arc_holds (b : budget) c (S : gmap string string) : Prop :=
  match b with
  | Some k => ∃ mx A t n D, arc_rep mx c A t D [] ∧ arc_ok mx A t n ∧ n + Z.of_nat k < INT_MAX ∧ S = contents (resident A)
  | None => False
  end.
Lemma arc_ok_weaken mx A t n n' : arc_ok mx A t n → n ≤ n' → arc_ok mx A t n'.
Proof. intros [H1 H2 H3 H4 H5 H6 H7 H8] Hle. split; [done..|lia|done|done|done]. Qed.

Global Program Instance arc_contract : CacheContract EVICT_ARC := {| cache_holds := arc_holds |}.
Next Obligation. intros [k|] c S; [|done]. by intros (mx & A & t & n & D & [Hp _ _ _ _ _ _] & _). Qed.
Next Obligation.
  intros j [k|] c S; [|done]. intros (mx & A & t & n & D & Hr & Hok & Hn & ->). exists mx, A, t, n, D. split_and!; [done..|lia|done].
Qed.
Next Obligation.
  intros [k|] e c S key; [|done]. intros (mx & A & t & n & D & Hr & Hok & Hn & ->).
  eapply wp_cache_get_arc; [exact Hr|exact Hok|lia|]. intros ov A' t' c' D' Hs Hr'.
  destruct (spec_get_ok _ _ _ _ _ _ _ _ Hok Hs) as (Hok' & -> & _ & Hc & _). split_and!; [done| |done..].
  exists mx, A', t', (n + 1), D'. split_and!; [done..|lia|done].
Qed.
Next Obligation.
  intros [k|] e c S key v; [|done]. intros (mx & A & t & n & D & Hr & Hok & Hn & ->) Hk He.
  unfold kvs_cache_lru_add. do 2 wp_step. rewrite (ar_policy _ _ _ _ _ _ Hr). simpl Z.eqb. cbv iota.
  destruct (spec_add_ok mx key v A t n Hok Hk) as (Hok' & S0 & Hsub & Hc).
  eapply wp_arc_add_value; [exact Hr|eapply arc_ok_fits; [exact Hok|lia]|apply Hok|done|]. intros c' D' e' Hr' He' _. split; [done|].
  exists (contents (resident (spec_add mx key v A t))). rewrite Hc. split_and!; [apply lookup_insert_eq|by apply insert_mono|].
  exists mx, (spec_add mx key v A t), t, (n + 1), D'. split_and!; [done..|lia|by rewrite Hc].
Qed.
Next Obligation.
  intros [k|] e c S key; [|done]. intros (mx & A & t & n & D & Hr & Hok & Hn & ->).
  eapply wp_cache_del_arc; [exact Hr|exact Hok|lia|]. intros code A' c' D' e' Hs Hr' Hm _.
  destruct (spec_del_ok _ _ _ _ _ _ _ Hok Hs) as [Hok' Hc]. split_and!; [|exists mx, A', t, n, D'; split_and!; [done..|lia|by rewrite Hc]|done].
  intros Hin. exact (spec_del_code _ _ _ _ _ _ _ Hok Hs Hin).
Qed.

(** C14: Under the ARC policy, any reads and deletions through a new cache return, as
    long as there are fewer than 2^30 of them, and follow the four lists of the
    policy; every hit answers the value that was stored last for the key, a
    deleted key is not served again, and the memory in use is that of the slots. *)
Theorem arc_cache_refines max_items us e :
  2 * capacity max_items + 1 ≤ INT_MAX → no_oom e → 2 * Z.of_nat (length us) < INT_MAX →
  wp (arc_start max_items;; run_uses us) e g_cache (λ rs e' c', ∃ A t D,
    spec_uses (capacity max_items) us no_slots (Z.quot (capacity max_items) 2) = (rs, A, t) ∧
    use_steps ∅ us rs (contents (resident A)) ∧
    arc_rep (capacity max_items) c' A t D [] ∧ live e' = live e + 5 + arc_blocks A).
Proof.
  intros Hcap He Hlen. wp_step. apply wp_arc_start; [done..|]. intros e1 c1 He1 Hl1 Hr1.
  assert (Hpos : 0 < capacity max_items).
  { unfold capacity. destruct (Z.ltb_spec 0 max_items); [done|]. done. }
  eapply wp_mono; [eapply (wp_run_uses _ us _ no_slots _ 0); [exact Hr1| |lia|done]|].
  { split; try done; [|unfold size_of; simpl; lia..]. split; [apply Z.quot_pos; lia|]. apply Z.quot_le_upper_bound; lia. }
  intros rs e2 c2 (A & t & D & Hs & Hu & Hr2 & Hl2). exists A, t, D. split_and!; [done..|].
  change (arc_blocks no_slots) with 0 in Hl2. lia.
Qed.

Lemma arc_cache_refines_witness :
  2 * capacity 2 + 1 ≤ INT_MAX ∧
  wp (arc_start 2;; run_uses [URead "a" "1"; URead "b" "2"; URead "a" "1"; URead "c" "3"; UDel "a"; URead "b" "2"]) env0 g_cache
    (λ rs e' c', ∃ A t D,
      spec_uses (capacity 2) [URead "a" "1"; URead "b" "2"; URead "a" "1"; URead "c" "3"; UDel "a"; URead "b" "2"]
        no_slots (Z.quot (capacity 2) 2) = (rs, A, t) ∧
      use_steps ∅ [URead "a" "1"; URead "b" "2"; URead "a" "1"; URead "c" "3"; UDel "a"; URead "b" "2"] rs (contents (resident A)) ∧
      arc_rep (capacity 2) c' A t D [] ∧ live e' = live env0 + 5 + arc_blocks A).
Proof.
  split; [unfold capacity, INT_MAX; simpl; lia|].
  apply (arc_cache_refines 2); [unfold capacity, INT_MAX; simpl; lia|constructor|unfold INT_MAX; simpl; lia].
Defined.

(** * The capacity *)

(** New keys in turn, each followed by the key before the last. *)
Fixpoint revisits (n : nat) : list cache_use :=
  match n with
  | O => []
  | S m => revisits m ++ [URead (pretty n) "v"; URead (pretty (n - 2)%nat) "v"]
  end.
(** The nodes in T1 and T2. *)
Definition resident_count (c : CacheManager) : Z :=
  match a_t1 (c_arc c), a_t2 (c_arc c) with
  | Some t1, Some t2 => l_size t1 + l_size t2
  | _, _ => 0
  end.

(** A ghost hit moves a node from B1 or B2 to T2 without making room
    (kvs_cache.c:521), and the addition that follows evicts at most one node: a cache
    for two pairs holds 60 nodes after 120 reads. *)
Theorem arc_exceeds_capacity :
  match (arc_start 2;; run_uses (revisits 60)) env0 g_cache with
  | Ret (_, _, c) => resident_count c = 60
  | _ => False
  end.
Proof. vm_compute. reflexivity. Qed.
