(* ===== verification/CachePolicies.v ===== *)
(** The three eviction policies as data, each with its contract, and the cache of a
    new process: it works under LRU, and it is ready for every policy a client may
    switch it to. *)
From S2P Require Import Prelude KvsSpec CacheModel CacheSpec CacheList CacheLru CacheLfu CacheArc.

Local Open Scope Z_scope.

Implicit Types (c : CacheManager) (b : budget).

Inductive eviction : Type := PLru | PLfu | PArc.
Implicit Types (p : eviction).

Definition policy_code p : Z :=
  match p with PLru => EVICT_LRU | PLfu => EVICT_LFU | PArc => EVICT_ARC end.
(** The name in a request, and the one in the answer. *)
Definition policy_word p : string :=
  match p with PLru => "lru" | PLfu => "lfu" | PArc => "arc" end.
Definition policy_title p : string :=
  match p with PLru => "LRU" | PLfu => "LFU" | PArc => "ARC" end.
Definition policy_contract p : CacheContract (policy_code p) :=
  match p with PLru => lru_contract | PLfu => lfu_contract | PArc => arc_contract end.

(** The calls a new cache can take: under ARC the residents are only bounded by the
    number of calls. *)
Definition affords p b : Prop :=
  match p with
  | PArc => match b with Some k => Z.of_nat k < INT_MAX | None => False end
  | _ => True
  end.

Lemma fresh_lru n c c' :
  fresh_cache n c → c_policy c' = EVICT_LRU → c_max_items c' = c_max_items c → c_lru c' = c_lru c →
  c_heap c' = c_heap c → lru_holds c' ∅.
Proof.
  intros [Hb _ Hi Hh _ Hl _ _] Hp E1 E2 E3. exists [], []. split_and!; [|constructor|done].
  split; [done|unfold INT_MAX in *; lia|simpl; lia|]. exists []. split_and!; [constructor| |].
  - rewrite E2, E1, Hi. specialize (Hl LLru). by injection Hl as ->.
  - rewrite E3, Hh. by split; [constructor|].
Qed.
(** A new cache answers nothing, whatever the policy. *)
Lemma fresh_default n c : fresh_cache n c → cache_holds (CacheContract := lru_contract) None c ∅.
Proof. intros Hf. eapply fresh_lru; [exact Hf|apply Hf|done..]. Qed.
Lemma fresh_holds n p b c :
  fresh_cache n c → affords p b →
  cache_holds (CacheContract := policy_contract p) b (switched (policy_code p) c) ∅.
Proof.
  intros Hf Hb. pose proof Hf as [Hn _ Hi Hh Hlfu _ _ _]. destruct p; simpl in *.
  - eapply fresh_lru; [exact Hf|done..].
  - exists ∅. split; [|by rewrite fmap_empty]. apply lfu_state_counters. apply (lfu_state_new _ n); by try apply Hn.
  - destruct b as [k|]; [|done]. exists n, no_slots, (Z.quot n 2), 0, (λ _, []).
    split_and!; [by apply fresh_arc| |lia|done]. split; try done; unfold size_of; simpl; try lia.
    split; [apply Z.quot_pos; lia|apply Z.quot_le_upper_bound; lia].
Qed.
