(* ===== verification/CacheStats.v ===== *)
(** The statistics of the cache and the advice built on them:
    src/cache/kvs_cache.c (the functions under "AI", [kvs_cache_record_access],
    [kvs_cache_get_stats], [kvs_cache_ai_recommend]). *)
From Stdlib Require Import SpecFloat.
From stdpp Require Import pretty.
From S2P Require Import Prelude CText CacheModel.

Local Open Scope Z_scope.

Definition SMOOTH_ALPHA : spec_float := f32_lit 3 10.

(** * Arrays of fixed size *)

Definition arr_at {A} (a : list A) (i : Z) : option A :=
  if decide (0 ≤ i) then a !! Z.to_nat i else None.
Definition arr_put {A} (a : list A) (i : Z) (x : A) : option (list A) :=
  if decide (0 ≤ i < Z.of_nat (length a)) then Some (<[Z.to_nat i := x]> a) else None.

(** ** Field updates of the statistics *)

Definition ai_set_history h i n a := AI h i n (ai_threshold_hit_rate a) (ai_threshold_burst_ratio a)
  (ai_access_by_minute a) (ai_access_by_hour a) (ai_predicted_qps a) (ai_predicted_hit_rate a)
  (ai_detected_pattern a) (ai_pattern_confidence a) (ai_last_minute a) (ai_last_hour a)
  (ai_auto_adjust_enabled a) (ai_last_adjust_time a) (ai_adjust_cooldown a).
Definition ai_set_thresholds t b a := AI (ai_hit_rate_history a) (ai_history_idx a)
  (ai_history_count a) t b (ai_access_by_minute a) (ai_access_by_hour a) (ai_predicted_qps a)
  (ai_predicted_hit_rate a) (ai_detected_pattern a) (ai_pattern_confidence a) (ai_last_minute a)
  (ai_last_hour a) (ai_auto_adjust_enabled a) (ai_last_adjust_time a) (ai_adjust_cooldown a).
Definition ai_set_minutes l m a := AI (ai_hit_rate_history a) (ai_history_idx a)
  (ai_history_count a) (ai_threshold_hit_rate a) (ai_threshold_burst_ratio a) l
  (ai_access_by_hour a) (ai_predicted_qps a) (ai_predicted_hit_rate a) (ai_detected_pattern a)
  (ai_pattern_confidence a) m (ai_last_hour a) (ai_auto_adjust_enabled a)
  (ai_last_adjust_time a) (ai_adjust_cooldown a).
Definition ai_set_hours l h a := AI (ai_hit_rate_history a) (ai_history_idx a)
  (ai_history_count a) (ai_threshold_hit_rate a) (ai_threshold_burst_ratio a)
  (ai_access_by_minute a) l (ai_predicted_qps a) (ai_predicted_hit_rate a) (ai_detected_pattern a)
  (ai_pattern_confidence a) (ai_last_minute a) h (ai_auto_adjust_enabled a)
  (ai_last_adjust_time a) (ai_adjust_cooldown a).
Definition ai_set_analysis p hr q a := AI (ai_hit_rate_history a) (ai_history_idx a)
  (ai_history_count a) (ai_threshold_hit_rate a) (ai_threshold_burst_ratio a)
  (ai_access_by_minute a) (ai_access_by_hour a) q hr p (ai_pattern_confidence a)
  (ai_last_minute a) (ai_last_hour a) (ai_auto_adjust_enabled a) (ai_last_adjust_time a)
  (ai_adjust_cooldown a).

Definition get_ai : M CacheManager AIStats := gets c_ai.
Definition upd_ai (f : AIStats → AIStats) : M CacheManager unit :=
  modify (λ c, c_set_ai (f (c_ai c)) c).

(** * Helpers *)

(** The first [count] samples, at most [HISTORY_SIZE] of them. *)
Definition samples (history : list spec_float) (count : Z) : list spec_float :=
  take (Z.to_nat (Z.min count HISTORY_SIZE)) history.

Definition exponential_smooth (history : list spec_float) (count : Z) (alpha : spec_float)
    : spec_float :=
  if (count =? 0) then zero_float else
  match samples history count with
  | [] => default zero_float (head history)
  | h0 :: hs =>
      foldl (λ prediction h,
        f32_add (f32_mul alpha h) (f32_mul (f32_sub (f32_of_Z 1) alpha) prediction)) h0 hs
  end.

Definition calculate_variance (data : list spec_float) (count : Z) (mean : spec_float)
    : spec_float :=
  if (count <=? 1) then zero_float else
  let sum := foldl (λ sum d, let diff := f32_sub d mean in f32_add sum (f32_mul diff diff))
               zero_float (samples data count) in
  f32_div sum (f32_of_Z (count - 1)).

(** The mean of the samples, and their deviation. *)
Definition history_mean (ai : AIStats) : spec_float :=
  f32_div (foldl f32_add zero_float (samples (ai_hit_rate_history ai) (ai_history_count ai)))
    (f32_of_Z (ai_history_count ai)).
Definition history_dev (ai : AIStats) : spec_float :=
  sqrtf (calculate_variance (ai_hit_rate_history ai) (ai_history_count ai) (history_mean ai)).

(** Sums and maxima of [unsigned long] counters. *)
Definition sum_u64 (l : list Z) : Z := foldl (λ t x, u64 (t + x)) 0 l.
Definition peak (l : list Z) : Z := foldl (λ p x, if (p <? x) then x else p) 0 l.

Definition detect_access_pattern (cm : CacheManager) : AccessPattern :=
  let ai := c_ai cm in
  if (ai_history_count ai <? 5) then PATTERN_STABLE else
  let mean := history_mean ai in
  let std_dev := history_dev ai in
  let peak_qps := peak (c_access_by_second cm) in
  let avg_qps := sum_u64 (c_access_by_second cm) / 60 in
  let burst_ratio :=
    if (0 <? avg_qps) then f32_div (f32_of_Z peak_qps) (f32_of_Z avg_qps) else f32_of_Z 1 in
  if SFltb (f32_of_Z 3) burst_ratio then PATTERN_BURSTY
  else if SFltb std_dev (f32_of_Z 5) && SFltb (f32_of_Z 60) mean then PATTERN_STABLE
  else if SFltb (f32_of_Z 15) std_dev then PATTERN_RANDOM
  else PATTERN_PERIODIC.

Definition update_dynamic_thresholds : M CacheManager unit :=
  ai ← get_ai;
  if (ai_history_count ai <? 3) then mret tt else
  let mean := history_mean ai in
  let std_dev := history_dev ai in
  let t := f32_sub mean std_dev in
  let t := if SFltb t (f32_of_Z 30) then f32_of_Z 30 else t in
  let t := if SFltb (f32_of_Z 70) t then f32_of_Z 70 else t in
  let b := f32_add (f32_of_Z 3) (f32_div std_dev (f32_of_Z 10)) in
  let b := if SFltb (f32_of_Z 8) b then f32_of_Z 8 else b in
  let b := if SFltb b (f32_of_Z 2) then f32_of_Z 2 else b in
  upd_ai (ai_set_thresholds t b).

Definition record_hit_rate_sample (hit_rate : spec_float) : M CacheManager unit :=
  ai ← get_ai;
  h ← some_or_ub (arr_put (ai_hit_rate_history ai) (ai_history_idx ai) hit_rate);
  let idx := Z.rem (ai_history_idx ai + 1) HISTORY_SIZE in
  let count := if (ai_history_count ai <? HISTORY_SIZE) then ai_history_count ai + 1
               else ai_history_count ai in
  upd_ai (ai_set_history h idx count).

(** * Time windows *)

(** [for (i = w - 1; i >= shift; i--) a[i] = a[i - shift]]. *)
Fixpoint shift_up (n : nat) (i shift : Z) (a : list Z) : option (list Z) :=
  match n with
  | O => Some a
  | S n' =>
      if (i <? shift) then Some a else
      match arr_at a (i - shift) with
      | Some x => a' ← arr_put a i x; shift_up n' (i - 1) shift a'
      | None => None
      end
  end.
(** [for (i = 0; i < shift && i < w; i++) a[i] = 0]. *)
Definition clear_front (w shift : Z) (a : list Z) : list Z :=
  let n := Z.to_nat (Z.min shift w) in replicate n 0 ++ drop n a.
(** A window that moved by [shift]; the fuel of the loop is the window, and a
    negative shift leaves the array in its first step. *)
Definition shift_window (w shift : Z) (a : list Z) : option (list Z) :=
  a' ← shift_up (Z.to_nat w) (w - 1) shift a;
  Some (clear_front w shift a').

Definition update_time_windows : M CacheManager unit :=
  now ← current_time_sec;
  ai ← get_ai;
  if (ai_last_minute ai =? 0) then
    upd_ai (λ a, ai_set_hours (ai_access_by_hour a) (now / 3600)
                   (ai_set_minutes (ai_access_by_minute a) (now / 60) a))
  else
  let current_minute := now / 60 in
  let current_hour := now / 3600 in
  (if (ai_last_minute ai <? current_minute) then
     let shift := to_int (current_minute - ai_last_minute ai) in
     l ← (if (MINUTE_WINDOW <=? shift) then mret (replicate (Z.to_nat MINUTE_WINDOW) 0)
          else some_or_ub (shift_window MINUTE_WINDOW shift (ai_access_by_minute ai)));
     upd_ai (ai_set_minutes l current_minute)
   else mret tt);;
  ai ← get_ai;
  if (ai_last_hour ai <? current_hour) then
    let shift := to_int (current_hour - ai_last_hour ai) in
    l ← (if (HOUR_WINDOW <=? shift) then mret (replicate (Z.to_nat HOUR_WINDOW) 0)
         else some_or_ub (shift_window HOUR_WINDOW shift (ai_access_by_hour ai)));
    upd_ai (ai_set_hours l current_hour)
  else mret tt.

(** [a[i]++] on [unsigned long]. *)
Definition arr_bump (a : list Z) (i : Z) : option (list Z) :=
  x ← arr_at a i; arr_put a i (u64 (x + 1)).

Definition hit_rate_of (c : CacheManager) : spec_float :=
  if (0 <? c_total_access c) then
    f32_div (f32_mul (f32_of_Z 100) (f32_of_Z (c_cache_hit c))) (f32_of_Z (c_total_access c))
  else zero_float.

Definition kvs_cache_record_access (key : cptr) : M CacheManager unit :=
  now ← current_time_ms;
  bump_total_access;;
  let second := now / 1000 in
  last ← gets c_last_update_time;
  (if (last =? 0) then modify (c_set_last_update_time second) else mret tt);;
  last ← gets c_last_update_time;
  (if (last <? second) then
     let shift := to_int (second - last) in
     l ← gets c_access_by_second;
     l ← (if (60 <? shift) then mret (replicate 60 0) else some_or_ub (shift_window 60 shift l));
     modify (c_set_access_by_second l);;
     modify (c_set_last_update_time second);;
     c ← get_st;
     record_hit_rate_sample (hit_rate_of c);;
     update_dynamic_thresholds
   else mret tt);;
  let sec_idx := second mod 60 in
  l ← gets c_access_by_second;
  l ← some_or_ub (arr_bump l sec_idx);
  modify (c_set_access_by_second l);;
  update_time_windows;;
  now ← current_time_sec;
  ai ← get_ai;
  l ← some_or_ub (arr_bump (ai_access_by_minute ai) (now / 60 mod MINUTE_WINDOW));
  upd_ai (λ a, ai_set_minutes l (ai_last_minute a) a);;
  now ← current_time_sec;
  ai ← get_ai;
  l ← some_or_ub (arr_bump (ai_access_by_hour ai) (now / 3600 mod HOUR_WINDOW));
  upd_ai (λ a, ai_set_hours l (ai_last_hour a) a).

(** * Reports *)

Definition pattern_name (pattern : AccessPattern) : string :=
  match pattern with
  | PATTERN_STABLE => "Stable"
  | PATTERN_BURSTY => "Bursty"
  | PATTERN_PERIODIC => "Periodic"
  | PATTERN_RANDOM => "Random"
  end.
Definition confidence_name (confidence : Z) : string :=
  if confidence =? CONFIDENCE_HIGH then "High"
  else if confidence =? CONFIDENCE_MEDIUM then "Medium"
  else if confidence =? CONFIDENCE_LOW then "Low"
  else "Unknown".

(** The text after [label], then the end of the line. *)
Definition line (label text : string) : string := label +:+ text +:+ crlf.
Definition lines (l : list string) : string := String.concat "" l.

Definition kvs_cache_get_stats (max_len : nat) : M CacheManager string :=
  c ← get_st;
  let hit_rate := hit_rate_of c in
  let recent_qps := sum_u64 (c_access_by_second c) / 60 in
  let avg_per_minute := sum_u64 (ai_access_by_minute (c_ai c)) / MINUTE_WINDOW in
  sizes ← (if (c_policy c =? EVICT_ARC) then
             s1 ← list_size LT1;
             s2 ← list_size LT2;
             g1 ← list_size LB1;
             g2 ← list_size LB2;
             mret [line "  T1 Size: " (pretty s1 +:+ " (recent)");
                   line "  T2 Size: " (pretty s2 +:+ " (frequent)");
                   line "  B1 Size: " (pretty g1 +:+ " (ghost recent)");
                   line "  B2 Size: " (pretty g2 +:+ " (ghost frequent)");
                   line "  Target T1 Size: " (pretty (a_target_size (c_arc c)))]
           else mret [line "  Cache Size: " (pretty (l_size (c_lru c)))]);
  mret (truncate max_len (lines (
    [line "=== Cache Statistics (Enhanced) ===" "";
     line "  Policy: " (kvs_cache_policy_name (c_policy c));
     line "  Max Items: " (pretty (c_max_items c))] ++ sizes ++
    [line "  Total Access: " (pretty (c_total_access c));
     line "  Cache Hits: " (pretty (c_cache_hit c));
     line "  Cache Miss: " (pretty (c_cache_miss c));
     line "  Hit Rate: " (fmt_f 2 hit_rate +:+ "%");
     line "  Evictions: " (pretty (c_eviction_count c));
     line "  Policy Changes: " (pretty (c_policy_changes c));
     line "  Recent QPS: ~" (pretty recent_qps +:+ "/s");
     line "  Avg Access/Min: ~" (pretty avg_per_minute);
     line "  Detected Pattern: " (pattern_name (ai_detected_pattern (c_ai c)));
     line "  Dynamic Threshold (Hit Rate): " (fmt_f 1 (ai_threshold_hit_rate (c_ai c)) +:+ "%");
     line "  Dynamic Threshold (Burst): " (fmt_f 1 (ai_threshold_burst_ratio (c_ai c)) +:+ "x");
     line "===================================" ""]))).

Record advice := Advice {
  recommended_policy : Z;
  recommended_max : Z;
  confidence : Z;
  reason : string;
  detail : string
}.

(** The decision of [kvs_cache_ai_recommend]; doubling [max_items] may overflow. *)
Definition decide_advice (c : CacheManager) (hit_rate peak_to_avg : spec_float)
    : M CacheManager advice :=
  let ai := c_ai c in
  if SFltb hit_rate (ai_threshold_hit_rate ai) then
    m ← ck_int (c_max_items c * 2);
    mret (Advice EVICT_LFU m CONFIDENCE_HIGH "Low hit rate detected"
            "LFU better identifies persistent hot keys when hit rate is low")
  else if SFltb (ai_threshold_burst_ratio ai) peak_to_avg then
    m ← ck_int (c_max_items c * 2);
    mret (Advice EVICT_ARC m CONFIDENCE_HIGH "Bursty access pattern detected"
            "ARC dual-buffer adapts well to sudden traffic spikes")
  else match ai_detected_pattern ai with
  | PATTERN_PERIODIC =>
      mret (Advice EVICT_ARC (c_max_items c) CONFIDENCE_MEDIUM "Periodic access pattern detected"
              "ARC adapts well to time-varying access patterns")
  | PATTERN_RANDOM =>
      mret (Advice EVICT_LRU (c_max_items c) CONFIDENCE_LOW "Random access pattern detected"
              "LRU provides best overall performance for random access")
  | _ =>
      if (3 <? c_policy_changes c) then
        mret (Advice EVICT_LRU (c_max_items c) CONFIDENCE_MEDIUM "Frequent policy changes detected"
                "Stick with LRU for stability")
      else
        mret (Advice (c_policy c) (c_max_items c) CONFIDENCE_HIGH "Current configuration is optimal"
                "No changes needed - system performing well")
  end.

Definition kvs_cache_ai_recommend (max_len : nat) : M CacheManager string :=
  c ← get_st;
  let peak_qps := peak (c_access_by_second c) in
  let avg_qps := sum_u64 (c_access_by_second c) / 60 in
  let hit_rate := hit_rate_of c in
  let peak_to_avg :=
    if (0 <? avg_qps) then f32_div (f32_of_Z peak_qps) (f32_of_Z avg_qps) else zero_float in
  upd_ai (λ a, ai_set_analysis (detect_access_pattern c)
    (exponential_smooth (ai_hit_rate_history a) (ai_history_count a) SMOOTH_ALPHA)
    (f32_mul (f32_of_Z avg_qps) (f32_lit 11 10)) a);;
  c ← get_st;
  a ← decide_advice c hit_rate peak_to_avg;
  let ai := c_ai c in
  mret (truncate max_len (lines
    [line "=== AI Cache Recommendation (Enhanced) ===" "";
     crlf;
     line "[Current Status]" "";
     line "  Policy: " (kvs_cache_policy_name (c_policy c));
     line "  Hit Rate: " (fmt_f 2 hit_rate +:+ "% (Predicted: " +:+
       fmt_f 1 (ai_predicted_hit_rate ai) +:+ "%)");
     line "  Peak QPS: " (pretty peak_qps +:+ ", Avg QPS: " +:+ pretty avg_qps);
     line "  Peak/Avg Ratio: " (fmt_f 2 peak_to_avg +:+ "x");
     line "  Predicted QPS: " (fmt_f 0 (ai_predicted_qps ai));
     crlf;
     line "[Pattern Analysis]" "";
     line "  Detected Pattern: " (pattern_name (ai_detected_pattern ai));
     line "  Dynamic Hit Rate Threshold: " (fmt_f 1 (ai_threshold_hit_rate ai) +:+ "%");
     line "  Dynamic Burst Threshold: " (fmt_f 1 (ai_threshold_burst_ratio ai) +:+ "x");
     line "  History Samples: " (pretty (ai_history_count ai));
     crlf;
     line "[Recommendation]" "";
     line "  Recommended Policy: " (kvs_cache_policy_name (recommended_policy a));
     line "  Recommended Max Items: " (pretty (recommended_max a));
     line "  Confidence: " (confidence_name (confidence a));
     line "  Reason: " (reason a);
     line "  Detail: " (detail a);
     crlf;
     line "[Actions]" "";
     line "  To apply: POLICY SET " (kvs_cache_policy_name (recommended_policy a));
     line "  To view stats: STATS" "";
     line "=========================================" ""])).
