(* ===== verification/StatsProof.v ===== *)
(** The statistics of the cache: the time windows move as they should, a call of
    [kvs_cache_record_access] never leaves its arrays, and the thresholds stay in
    their ranges (src/cache/kvs_cache.c). *)
From Stdlib Require Import SpecFloat.
From S2P Require Import Prelude CText CacheModel CacheStats.

Local Open Scope Z_scope.

Implicit Types (c : CacheManager) (e : env).

(** * Windows *)

(** The copying loop, from position [i] down: above [i] the elements have moved. *)
Lemma shift_up_spec (w : nat) n i (shift : nat) (a a0 : list Z) :
  length a = w → i < Z.of_nat w → (1 ≤ shift)%nat → i + 1 - Z.of_nat shift ≤ Z.of_nat n →
  (∀ p, (shift ≤ p < w)%nat → i < Z.of_nat p → a !! p = a0 !! (p - shift)%nat) →
  (∀ p, Z.of_nat p ≤ i → a !! p = a0 !! p) → length a0 = w →
  ∃ a', shift_up n i (Z.of_nat shift) a = Some a' ∧ length a' = w ∧
    ∀ p, (shift ≤ p < w)%nat → a' !! p = a0 !! (p - shift)%nat.
Proof.
  revert i a. induction n as [|n IH]; intros i a Hlen Hi Hs Hn Hhi Hlo H0.
  { exists a. split_and!; [done..|]. intros p Hp. apply Hhi; [done|lia]. }
  cbn [shift_up]. destruct (Z.ltb_spec i (Z.of_nat shift)) as [Hlt|Hge].
  { exists a. split_and!; [done..|]. intros p Hp. apply Hhi; [done|lia]. }
  unfold arr_at. rewrite decide_True by lia.
  destruct (lookup_lt_is_Some_2 a (Z.to_nat (i - Z.of_nat shift))) as [x Hx]; [lia|]. rewrite Hx.
  unfold arr_put. rewrite decide_True by lia. cbn [mbind option_bind]. apply IH; try done; try lia.
  - by rewrite length_insert.
  - intros p Hp Hip. destruct (decide (p = Z.to_nat i)) as [->|Hne].
    + rewrite list_lookup_insert_eq by lia. rewrite <-Hx, Hlo by lia. f_equal. lia.
    + rewrite list_lookup_insert_ne by done. apply Hhi; [done|lia].
  - intros p Hp. rewrite list_lookup_insert_ne by lia. apply Hlo. lia.
Qed.

Lemma shift_window_eq (w shift : nat) (a : list Z) :
  length a = w → (1 ≤ shift ≤ w)%nat →
  shift_window (Z.of_nat w) (Z.of_nat shift) a = Some (replicate shift 0 ++ take (w - shift) a).
Proof.
  intros Hlen Hs. unfold shift_window.
  destruct (shift_up_spec w (Z.to_nat (Z.of_nat w)) (Z.of_nat w - 1) shift a a) as (a' & -> & Hl & Ha);
    [done|lia|lia|lia|intros; lia|done|done|].
  cbn [mbind option_bind]. unfold clear_front. rewrite Z.min_l by lia. rewrite Nat2Z.id. do 2 f_equal.
  apply list_eq. intros p. destruct (decide (p < w - shift)%nat) as [Hp|Hp].
  - rewrite lookup_drop, lookup_take_lt by done. rewrite Ha by lia. f_equal. lia.
  - rewrite (lookup_ge_None_2 (drop _ _)), (lookup_ge_None_2 (take _ _)); [done|..].
    + rewrite length_take. lia.
    + rewrite length_drop. lia.
Qed.

(** Moving a window by [shift] seconds, minutes or hours with the two loops of
    the code keeps the newest entries, [shift] positions further on, and clears
    the front. *)
Theorem shift_window_spec w shift (a : list Z) :
  Z.of_nat (length a) = w → 1 ≤ shift ≤ w →
  shift_window w shift a =
    Some (replicate (Z.to_nat shift) 0 ++ take (Z.to_nat (w - shift)) a).
Proof.
  intros <- Hs. rewrite <-(Z2Nat.id shift) at 1 by lia. rewrite shift_window_eq; [|done|lia].
  do 3 f_equal. lia.
Qed.
Lemma shift_window_spec_witness :
  shift_window 5 2 [1; 2; 3; 4; 5] = Some [0; 0; 1; 2; 3].
Proof. apply (shift_window_spec 5 2 [1; 2; 3; 4; 5]); simpl; lia. Defined.

(** * Thresholds *)

Lemma SFcompare_swap x y : SFcompare y x = option_map CompOpp (SFcompare x y).
Proof.
  destruct x as [[]|[]| |[] m e], y as [[]|[]| |[] m' e']; try done; cbn;
    pose proof (Pos.compare_cont_antisym m m' Eq) as Hm; cbn in Hm; rewrite <-Hm;
    rewrite (Z.compare_antisym e e');
    destruct (Z.compare e e'); try done; by destruct (Pos.compare_cont Eq m m').
Qed.
Lemma SFcompare_some x y : x ≠ S754_nan → y ≠ S754_nan → is_Some (SFcompare x y).
Proof. by destruct x as [[]|[]| |[]], y as [[]|[]| |[]]. Qed.
Lemma SFltb_false x y : x ≠ S754_nan → y ≠ S754_nan → SFltb x y = false → SFleb y x = true.
Proof.
  intros Hx Hy. unfold SFltb, SFleb. rewrite (SFcompare_swap x y).
  destruct (SFcompare_some x y Hx Hy) as [[] ->]; done.
Qed.
Lemma SFltb_leb x y : SFltb x y = true → SFleb x y = true.
Proof. unfold SFltb, SFleb. by destruct (SFcompare x y) as [[]|]. Qed.

(** Clamping a number between two bounds, in either order of the tests. *)
Lemma clamp_up lo hi t :
  t ≠ S754_nan → lo ≠ S754_nan → hi ≠ S754_nan → SFleb lo hi = true → SFleb hi hi = true → SFleb lo lo = true →
  SFltb hi lo = false →
  let t := if SFltb t lo then lo else t in
  let t := if SFltb hi t then hi else t in
  SFleb lo t = true ∧ SFleb t hi = true.
Proof.
  intros Ht Hlo Hhi Hlh Hhh Hll Hnlt. cbv zeta. destruct (SFltb t lo) eqn:H1; [by rewrite Hnlt|].
  destruct (SFltb hi t) eqn:H2; [done|]. split; by apply SFltb_false.
Qed.
Lemma clamp_down lo hi t :
  t ≠ S754_nan → lo ≠ S754_nan → hi ≠ S754_nan → SFleb lo hi = true → SFleb hi hi = true → SFleb lo lo = true →
  SFltb hi lo = false →
  let t := if SFltb hi t then hi else t in
  let t := if SFltb t lo then lo else t in
  SFleb lo t = true ∧ SFleb t hi = true.
Proof.
  intros Ht Hlo Hhi Hlh Hhh Hll Hnlt. cbv zeta. destruct (SFltb hi t) eqn:H2; [by rewrite Hnlt|].
  destruct (SFltb t lo) eqn:H1; [done|]. split; by apply SFltb_false.
Qed.

(** Whatever was recorded, the thresholds that an update computes from numbers
    lie between 30 and 70 and between 2 and 8; with fewer than three samples the
    state is unchanged. *)
Theorem thresholds_in_range e c :
  f32_sub (history_mean (c_ai c)) (history_dev (c_ai c)) ≠ S754_nan →
  f32_add (f32_of_Z 3) (f32_div (history_dev (c_ai c)) (f32_of_Z 10)) ≠ S754_nan →
  wp update_dynamic_thresholds e c (λ _ e' c',
    e' = e ∧
    if (ai_history_count (c_ai c) <? 3) then c' = c
    else
      let t := ai_threshold_hit_rate (c_ai c') in
      let b := ai_threshold_burst_ratio (c_ai c') in
      SFleb (f32_of_Z 30) t = true ∧ SFleb t (f32_of_Z 70) = true ∧
      SFleb (f32_of_Z 2) b = true ∧ SFleb b (f32_of_Z 8) = true).
Proof.
  intros Ht Hb. unfold update_dynamic_thresholds, get_ai, upd_ai. wp_step. wp_step.
  destruct (ai_history_count (c_ai c) <? 3); wp_step; [done|]. split; [done|]. cbv zeta.
  destruct (clamp_up (f32_of_Z 30) (f32_of_Z 70) _ Ht) as [Ht1 Ht2]; [done..|].
  destruct (clamp_down (f32_of_Z 2) (f32_of_Z 8) _ Hb) as [Hb1 Hb2]; [done..|]. by split_and!.
Qed.
(** A cache that recorded three samples. *)
Definition sampled : CacheManager :=
  c_set_ai (ai_set_history (f32_of_Z 90 :: f32_of_Z 10 :: f32_of_Z 50 :: replicate 17 zero_float) 3 3
    zero_ai) g_cache.
Lemma thresholds_in_range_witness :
  wp update_dynamic_thresholds (Env [] [] [] [] 0) sampled (λ _ e' c',
    e' = Env [] [] [] [] 0 ∧
    (let t := ai_threshold_hit_rate (c_ai c') in
     let b := ai_threshold_burst_ratio (c_ai c') in
     SFleb (f32_of_Z 30) t = true ∧ SFleb t (f32_of_Z 70) = true ∧
     SFleb (f32_of_Z 2) b = true ∧ SFleb b (f32_of_Z 8) = true)).
Proof. apply (thresholds_in_range (Env [] [] [] [] 0) sampled); vm_compute; discriminate. Defined.

(** * Recording accesses *)

(** The clock runs since the machine started, for less than 68 years. *)
Definition clocks_ok e : Prop := Forall (λ t, 0 ≤ t.1 < 2 ^ 31 ∧ 0 ≤ t.2 < 10 ^ 9) (clocks e).

(** The arrays have their sizes and the positions are inside. *)
Record stats_ok c : Prop := {
  so_seconds : Z.of_nat (length (c_access_by_second c)) = 60;
  so_last : 0 ≤ c_last_update_time c < 2 ^ 31;
  so_minutes : Z.of_nat (length (ai_access_by_minute (c_ai c))) = MINUTE_WINDOW;
  so_hours : Z.of_nat (length (ai_access_by_hour (c_ai c))) = HOUR_WINDOW;
  so_minute : 0 ≤ ai_last_minute (c_ai c) < 2 ^ 31;
  so_hour : 0 ≤ ai_last_hour (c_ai c) < 2 ^ 31;
  so_history : Z.of_nat (length (ai_hit_rate_history (c_ai c))) = HISTORY_SIZE;
  so_idx : 0 ≤ ai_history_idx (c_ai c) < HISTORY_SIZE;
  so_count : 0 ≤ ai_history_count (c_ai c) ≤ HISTORY_SIZE
}.

(** What the statistics do not touch. *)
Definition same_cache c c' : Prop :=
  c_policy c' = c_policy c ∧ c_max_items c' = c_max_items c ∧ c_lru c' = c_lru c ∧ c_lfu c' = c_lfu c ∧
  c_arc c' = c_arc c ∧ c_heap c' = c_heap c ∧ c_cache_hit c' = c_cache_hit c ∧
  c_cache_miss c' = c_cache_miss c.

Lemma wp_clock {S} e (s : S) Q :
  clocks_ok e →
  (∀ t e', 0 ≤ t.1 < 2 ^ 31 → 0 ≤ t.2 < 10 ^ 9 → clocks_ok e' → Q t e' s) →
  wp clock_gettime e s Q.
Proof.
  intros He HQ. unfold wp, clock_gettime, clocks_ok in *. destruct (clocks e) as [|t ts] eqn:Hc.
  - apply HQ; [simpl; lia..|]. by rewrite Hc.
  - apply Forall_cons in He as [[H1 H2] He]. by apply HQ.
Qed.
Lemma u64_small z : 0 ≤ z < 2 ^ 64 → u64 z = z.
Proof. apply Z.mod_small. Qed.
Lemma wp_time_sec {S} e (s : S) Q :
  clocks_ok e → (∀ t e', 0 ≤ t < 2 ^ 31 → clocks_ok e' → Q t e' s) → wp current_time_sec e s Q.
Proof.
  intros He HQ. unfold current_time_sec. wp_step. apply wp_clock; [done|]. intros t e' H1 H2 He'. wp_step.
  rewrite u64_small by lia. by apply HQ.
Qed.
Lemma wp_time_ms {S} e (s : S) Q :
  clocks_ok e → (∀ t e', 0 ≤ t / 1000 < 2 ^ 31 → clocks_ok e' → Q t e' s) → wp current_time_ms e s Q.
Proof.
  intros He HQ. unfold current_time_ms. wp_step. apply wp_clock; [done|]. intros t e' H1 H2 He'. wp_step.
  pose proof (Z.div_pos t.2 1000000) as Hp. pose proof (Z.div_lt_upper_bound t.2 1000000 1000) as Hu.
  rewrite u64_small by lia. apply HQ; [|done]. rewrite Z.div_add_l by lia.
  rewrite (Z.div_small (t.2 / 1000000)) by lia. lia.
Qed.
Lemma to_int_small z : 0 ≤ z < 2 ^ 31 → to_int z = z.
Proof. intros Hz. unfold to_int. rewrite Z.mod_small; lia. Qed.
Lemma arr_bump_some (a : list Z) i : 0 ≤ i < Z.of_nat (length a) → ∃ a', arr_bump a i = Some a' ∧ length a' = length a.
Proof.
  intros Hi. unfold arr_bump, arr_at, arr_put. rewrite decide_True by lia.
  destruct (lookup_lt_is_Some_2 a (Z.to_nat i)) as [x ->]; [lia|]. cbn. rewrite decide_True by done.
  eexists. split; [done|]. apply length_insert.
Qed.
Lemma shift_window_length w shift (a : list Z) :
  Z.of_nat (length a) = w → 1 ≤ shift ≤ w →
  ∃ a', shift_window w shift a = Some a' ∧ Z.of_nat (length a') = w.
Proof.
  intros Ha Hs. subst w. rewrite <-(Z2Nat.id shift) by lia.
  rewrite shift_window_eq; [|done|lia]. eexists. split; [done|].
  rewrite length_app, length_replicate, length_take. lia.
Qed.

(** One statistic changed, the cache did not. *)
Definition counted c c' : Prop := stats_ok c' ∧ same_cache c c' ∧ c_total_access c' = c_total_access c.
Lemma same_cache_trans c1 c2 c3 : same_cache c1 c2 → same_cache c2 c3 → same_cache c1 c3.
Proof. unfold same_cache. intros (-> & -> & -> & -> & -> & -> & -> & ->). done. Qed.
Lemma counted_refl c : stats_ok c → counted c c.
Proof. done. Qed.
Lemma counted_trans c1 c2 c3 : counted c1 c2 → counted c2 c3 → counted c1 c3.
Proof.
  intros (_ & Hs & Ht) (Hok & Hs' & Ht'). split_and!; [done|by eapply same_cache_trans|congruence].
Qed.

Lemma wp_move_window {S} w shift (a : list Z) (far : bool) e (s : S) Q :
  Z.of_nat (length a) = w → (far = false → 1 ≤ shift ≤ w) →
  (∀ l, Z.of_nat (length l) = w → Q l e s) →
  wp (if far then mret (replicate (Z.to_nat w) 0) else some_or_ub (shift_window w shift a)) e s Q.
Proof.
  intros Ha Hs HQ. destruct far.
  - wp_step. apply HQ. rewrite length_replicate. lia.
  - destruct (shift_window_length w shift a Ha (Hs eq_refl)) as (l & -> & Hl). wp_step. by apply HQ.
Qed.
Lemma wp_bump {S} (a : list Z) i e (s : S) Q :
  0 ≤ i < Z.of_nat (length a) → (∀ l, length l = length a → Q l e s) → wp (some_or_ub (arr_bump a i)) e s Q.
Proof. intros Hi HQ. destruct (arr_bump_some a i Hi) as (l & -> & Hl). wp_step. by apply HQ. Qed.

Lemma counted_thresholds t b c : stats_ok c → counted c (c_set_ai (ai_set_thresholds t b (c_ai c)) c).
Proof. intros []. by split_and!. Qed.
Lemma counted_history h i n c :
  stats_ok c → Z.of_nat (length h) = HISTORY_SIZE → 0 ≤ i < HISTORY_SIZE → 0 ≤ n ≤ HISTORY_SIZE →
  counted c (c_set_ai (ai_set_history h i n (c_ai c)) c).
Proof. intros [] ? ? ?. by split_and!. Qed.
Lemma counted_minutes l m c :
  stats_ok c → Z.of_nat (length l) = MINUTE_WINDOW → 0 ≤ m < 2 ^ 31 →
  counted c (c_set_ai (ai_set_minutes l m (c_ai c)) c).
Proof. intros [] ? ?. by split_and!. Qed.
Lemma counted_hours l h c :
  stats_ok c → Z.of_nat (length l) = HOUR_WINDOW → 0 ≤ h < 2 ^ 31 →
  counted c (c_set_ai (ai_set_hours l h (c_ai c)) c).
Proof. intros [] ? ?. by split_and!. Qed.
Lemma counted_seconds l c :
  stats_ok c → Z.of_nat (length l) = 60 → counted c (c_set_access_by_second l c).
Proof. intros [] ?. by split_and!. Qed.
Lemma counted_last t c : stats_ok c → 0 ≤ t < 2 ^ 31 → counted c (c_set_last_update_time t c).
Proof. intros [] ?. by split_and!. Qed.

Lemma wp_thresholds e c Q :
  stats_ok c → (∀ c', counted c c' → Q tt e c') → wp update_dynamic_thresholds e c Q.
Proof.
  intros Hok HQ. unfold update_dynamic_thresholds, get_ai, upd_ai. wp_step. wp_step.
  destruct (ai_history_count (c_ai c) <? 3); wp_step; [by apply HQ|]. by apply HQ, counted_thresholds.
Qed.
Lemma wp_sample h e c Q :
  stats_ok c → (∀ c', counted c c' → Q tt e c') → wp (record_hit_rate_sample h) e c Q.
Proof.
  intros Hok HQ. pose proof Hok as []. unfold record_hit_rate_sample, get_ai, upd_ai, arr_put.
  do 3 wp_step. rewrite decide_True by lia. do 2 wp_step. apply HQ, counted_history; [done|..].
  - by rewrite length_insert.
  - unfold HISTORY_SIZE in *. rewrite Z.rem_mod_nonneg by lia. apply Z.mod_pos_bound. lia.
  - destruct (Z.ltb_spec (ai_history_count (c_ai c)) HISTORY_SIZE); lia.
Qed.
Lemma wp_time_windows e c Q :
  clocks_ok e → stats_ok c → (∀ e' c', clocks_ok e' → counted c c' → Q tt e' c') →
  wp update_time_windows e c Q.
Proof.
  intros He Hok HQ. pose proof Hok as [_ _ Hmin Hhour Hm Hh _ _ _].
  unfold update_time_windows, get_ai, upd_ai. wp_step.
  apply wp_time_sec; [done|]. intros now e1 Hnow He1. do 2 wp_step.
  assert (H60 : 0 ≤ now / 60 < 2 ^ 31) by (split; [apply Z.div_pos; lia|apply Z.div_lt_upper_bound; lia]).
  assert (H3600 : 0 ≤ now / 3600 < 2 ^ 31) by (split; [apply Z.div_pos; lia|apply Z.div_lt_upper_bound; lia]).
  destruct (ai_last_minute (c_ai c) =? 0).
  { wp_step. apply HQ; [done|]. destruct Hok. by split_and!. }
  wp_step.
  assert (Hhours : ∀ c1, counted c c1 → wp (ai ← gets c_ai;
    if (ai_last_hour ai <? now / 3600) then
      let shift := to_int (now / 3600 - ai_last_hour ai) in
      l ← (if (HOUR_WINDOW <=? shift) then mret (replicate (Z.to_nat HOUR_WINDOW) 0)
           else some_or_ub (shift_window HOUR_WINDOW shift (ai_access_by_hour ai)));
      modify (λ c, c_set_ai (ai_set_hours l (now / 3600) (c_ai c)) c)
    else mret tt) e1 c1 Q).
  { intros c1 Hc1. pose proof Hc1 as ([_ _ _ Hl _ Hlast _ _ _] & _). wp_step. wp_step.
    destruct (Z.ltb_spec (ai_last_hour (c_ai c1)) (now / 3600)); [|by wp_step; apply HQ].
    cbv zeta. rewrite to_int_small by lia. wp_step. apply wp_move_window; [done|intros ?%Z.leb_gt; lia|].
    intros l Hlen. wp_step. apply HQ; [done|]. eapply counted_trans; [exact Hc1|].
    apply counted_hours; [apply Hc1|done..]. }
  destruct (Z.ltb_spec (ai_last_minute (c_ai c)) (now / 60)); [|wp_step; by apply Hhours].
  cbv zeta. rewrite to_int_small by lia. wp_step. apply wp_move_window; [done|intros ?%Z.leb_gt; lia|].
  intros l Hlen. wp_step. by apply Hhours, counted_minutes.
Qed.

(** One recorded access. *)
Lemma wp_record_access key e c Q :
  clocks_ok e → stats_ok c →
  (∀ e' c', clocks_ok e' → stats_ok c' → same_cache c c' →
    c_total_access c' = u64 (c_total_access c + 1) → Q tt e' c') →
  wp (kvs_cache_record_access key) e c Q.
Proof.
  intros He Hok HQ. unfold kvs_cache_record_access, bump_total_access, get_ai, upd_ai. wp_step.
  apply wp_time_ms; [done|]. intros now e1 Hsec He1. do 2 wp_step.
  set (c0 := c_set_total_access (u64 (c_total_access c + 1)) c).
  assert (Hok0 : stats_ok c0) by (by destruct Hok). assert (Hc0 : same_cache c c0) by done.
  remember (now / 1000) as second eqn:Es.
  assert (HQ' : ∀ e' c', clocks_ok e' → counted c0 c' → Q tt e' c').
  { intros e' c' He' (Ho & Hs & Ht). apply HQ; [done|done|by eapply same_cache_trans|by rewrite Ht]. }
  do 3 wp_step. apply (wp_mono _ _ _ (λ _ e' c', e' = e1 ∧ counted c0 c')).
  { destruct (c_last_update_time c0 =? 0); wp_step; (split; [done|]); [by apply counted_last|by apply counted_refl]. }
  intros _ ? c1 [-> Hc1]. do 3 wp_step. apply (wp_mono _ _ _ (λ _ e' c', e' = e1 ∧ counted c0 c')).
  { pose proof (proj1 Hc1) as Hok1. destruct (Z.ltb_spec (c_last_update_time c1) second); [|by wp_step].
    pose proof (so_last _ Hok1) as Hlast. rewrite to_int_small by lia. do 2 wp_step. wp_step.
    apply (wp_move_window 60); [apply Hok1|intros ?%Z.ltb_ge; lia|]. intros l Hl. do 2 wp_step.
    assert (Hs1 : counted c0 (c_set_last_update_time second (c_set_access_by_second l c1))).
    { eapply counted_trans; [exact Hc1|]. eapply counted_trans; [by apply counted_seconds|].
      apply counted_last; [by apply counted_seconds|lia]. }
    do 2 wp_step. do 2 wp_step. wp_step. apply wp_sample; [apply Hs1|]. intros c2 Hc2.
    apply wp_thresholds; [apply Hc2|]. intros c3 Hc3. split; [done|].
    eapply counted_trans; [exact Hs1|]. by eapply counted_trans. }
  intros _ ? c2 [-> Hc2]. do 2 wp_step. wp_step. apply wp_bump.
  { rewrite (so_seconds _ (proj1 Hc2)). apply Z.mod_pos_bound. lia. }
  intros l Hl. do 2 wp_step. wp_step.
  assert (Hc3 : counted c0 (c_set_access_by_second l c2)).
  { eapply counted_trans; [exact Hc2|]. apply counted_seconds; [apply Hc2|].
    rewrite Hl. apply Hc2. }
  apply wp_time_windows; [done|apply Hc3|]. intros e4 c4 He4 Hc4. pose proof (counted_trans _ _ _ Hc3 Hc4) as Hc5.
  wp_step. apply wp_time_sec; [done|]. intros t5 e5 Ht5 He5. do 3 wp_step. apply wp_bump.
  { rewrite (so_minutes _ (proj1 Hc5)). apply Z.mod_pos_bound. done. }
  intros l6 Hl6. do 2 wp_step.
  assert (Hc6 : counted c0 (c_set_ai (ai_set_minutes l6 (ai_last_minute (c_ai c4)) (c_ai c4)) c4)).
  { eapply counted_trans; [exact Hc5|]. apply counted_minutes; [apply Hc5| |apply Hc5]. rewrite Hl6. apply Hc5. }
  wp_step. apply wp_time_sec; [done|]. intros t7 e7 Ht7 He7. do 3 wp_step. apply wp_bump.
  { rewrite (so_hours _ (proj1 Hc6)). apply Z.mod_pos_bound. done. }
  intros l8 Hl8. wp_step. apply HQ'; [done|]. eapply counted_trans; [exact Hc6|].
  apply counted_hours; [apply Hc6| |apply Hc6]. rewrite Hl8. apply Hc6.
Qed.
Arguments kvs_cache_record_access : simpl never.

Fixpoint record_all (keys : list cptr) : M CacheManager unit :=
  match keys with
  | [] => mret tt
  | k :: ks => kvs_cache_record_access k;; record_all ks
  end.

(** C38: any number of recorded accesses, at any times a clock of 31 bits can show,
    stays inside the arrays of the statistics, keeps them well formed, counts
    every access, and leaves the cache itself alone. *)
Theorem record_access_safe keys e c :
  clocks_ok e → stats_ok c →
  wp (record_all keys) e c (λ _ _ c',
    stats_ok c' ∧ same_cache c c' ∧
    u64 (c_total_access c') = u64 (c_total_access c + Z.of_nat (length keys))).
Proof.
  revert e c. induction keys as [|k ks IH]; intros e c He Hok; simpl; wp_step.
  { split_and!; [done..|]. by rewrite Z.add_0_r. }
  apply wp_record_access; [done..|]. intros e1 c1 He1 Hok1 Hs1 Ht1.
  eapply wp_mono; [by apply IH|]. intros _ _ c2 (Hok2 & Hs2 & Ht2). split_and!; [done| |].
  - by eapply same_cache_trans.
  - rewrite Ht2, Ht1. unfold u64. rewrite Zplus_mod_idemp_l. f_equal. lia.
Qed.
Lemma record_access_safe_witness :
  wp (record_all [PStr "a"; PStr "b"]) (Env [] [] [(7, 5); (8, 0); (8, 1); (100, 3)] [] 0) g_cache (λ _ _ c',
    stats_ok c' ∧ same_cache g_cache c' ∧ u64 (c_total_access c') = u64 2).
Proof.
  apply (record_access_safe [PStr "a"; PStr "b"]).
  - repeat constructor; simpl; lia.
  - split; unfold MINUTE_WINDOW, HOUR_WINDOW, HISTORY_SIZE; simpl; lia.
Defined.
