(* ===== verification/Rdb.v ===== *)
(** The persistence layer, as the code has it: src/persist/kvs_rdb.c.

    A file is a string of bytes.  Opening, writing and renaming consume verdicts
    of the system (success, a short write, an error); a read of a regular file
    returns the bytes there are.  This file holds the model; RdbProof.v the
    proofs. *)
From S2P Require Import Prelude KvsSpec KvsArray KvsHash RbTree SkipList.

Local Open Scope Z_scope.

Definition RDB_MAGIC : string := "KVSDB".
Definition RDB_VERSION : Z := 1.
Definition RDB_FILENAME : string := "dump.rdb".
Definition ENGINE_ARRAY : Z := 0.
Definition ENGINE_HASH : Z := 1.
Definition ENGINE_RBTREE : Z := 2.
Definition ENGINE_SKIPLIST : Z := 3.

(** * The disk *)

Inductive io_event : Type :=
  | IoOk
  | IoShort (n : nat)
  | IoErr.

(** The files, and the verdicts of the coming calls; an exhausted list means
    success. *)
Record disk := Disk {
  files : gmap string string;
  verdicts : list io_event
}.

(** The four engines and the disk. *)
Record dataset := DS {
  d_array : kvs_array;
  d_rbtree : rbtree;
  d_hash : hashtable;
  d_skip : skiplist;
  d_disk : disk
}.

Definition d_set_array (a : kvs_array) (d : dataset) : dataset :=
  DS a (d_rbtree d) (d_hash d) (d_skip d) (d_disk d).
Definition d_set_rbtree (t : rbtree) (d : dataset) : dataset :=
  DS (d_array d) t (d_hash d) (d_skip d) (d_disk d).
Definition d_set_hash (h : hashtable) (d : dataset) : dataset :=
  DS (d_array d) (d_rbtree d) h (d_skip d) (d_disk d).
Definition d_set_skip (s : skiplist) (d : dataset) : dataset :=
  DS (d_array d) (d_rbtree d) (d_hash d) s (d_disk d).
Definition d_set_disk (k : disk) (d : dataset) : dataset :=
  DS (d_array d) (d_rbtree d) (d_hash d) (d_skip d) k.

Definition in_array {A} : M kvs_array A → M dataset A := zoom d_array d_set_array.
Definition in_rbtree {A} : M rbtree A → M dataset A := zoom d_rbtree d_set_rbtree.
Definition in_hash {A} : M hashtable A → M dataset A := zoom d_hash d_set_hash.
Definition in_skip {A} : M skiplist A → M dataset A := zoom d_skip d_set_skip.
Definition in_disk {A} : M disk A → M dataset A := zoom d_disk d_set_disk.

(** ** System calls *)

Definition next_verdict : M disk io_event := λ e d,
  match verdicts d with
  | v :: vs => Ret (v, e, Disk (files d) vs)
  | [] => Ret (IoOk, e, d)
  end.

(** The first [n] bytes, and the others. *)
Fixpoint str_take (n : nat) (s : string) : string :=
  match n, s with
  | S n', String c s' => String c (str_take n' s')
  | _, _ => EmptyString
  end.
Fixpoint str_drop (n : nat) (s : string) : string :=
  match n, s with
  | S n', String _ s' => str_drop n' s'
  | _, _ => s
  end.

(** [open(name, O_WRONLY | O_CREAT | O_TRUNC)]: whether it succeeds. *)
Definition open_trunc (name : string) : M disk bool :=
  v ← next_verdict;
  match v with
  | IoErr => mret false
  | _ => modify (λ d, Disk (<[name := EmptyString]> (files d)) (verdicts d));; mret true
  end.
(** [open(name, O_RDONLY)]: the contents to read. *)
Definition open_read (name : string) : M disk (option string) :=
  v ← next_verdict;
  match v with
  | IoErr => mret None
  | _ => d ← get_st; mret (files d !! name)
  end.
Definition append (name s : string) : M disk unit :=
  modify (λ d, Disk (<[name := default EmptyString (files d !! name) +:+ s]> (files d)) (verdicts d)).
(** [write] to the end of an open file. *)
Definition write (name s : string) : M disk Z :=
  v ← next_verdict;
  match v with
  | IoErr => mret (-1)
  | IoShort n => append name (str_take n s);; mret (Z.of_nat (String.length (str_take n s)))
  | IoOk => append name s;; mret (Z.of_nat (String.length s))
  end.
Definition unlink (name : string) : M disk unit :=
  modify (λ d, Disk (delete name (files d)) (verdicts d)).
Definition rename (from to : string) : M disk Z :=
  v ← next_verdict;
  match v with
  | IoErr => mret (-1)
  | _ =>
      d ← get_st;
      match files d !! from with
      | Some s => modify (λ d, Disk (<[to := s]> (delete from (files d))) (verdicts d));; mret 0
      | None => mret (-1)
      end
  end.
(** [read] of [n] bytes: the bytes read, and those that remain. *)
Definition read (n : nat) (rest : string) : string * string := (str_take n rest, str_drop n rest).

(** * Integers and strings *)

Definition byte_of (z : Z) : Ascii.ascii := Ascii.ascii_of_N (Z.to_N (z mod 256)).
Definition Z_of_byte (c : Ascii.ascii) : Z := Z.of_N (Ascii.N_of_ascii c).

(** The bytes of [htonl(z)] in memory, and back. *)
Definition be32 (z : Z) : string :=
  String (byte_of (z / 2 ^ 24)) (String (byte_of (z / 2 ^ 16))
    (String (byte_of (z / 2 ^ 8)) (String (byte_of z) EmptyString))).
Definition of_be32 (s : string) : option Z :=
  match s with
  | String a (String b (String c (String d EmptyString))) =>
      Some (Z_of_byte a * 2 ^ 24 + Z_of_byte b * 2 ^ 16 + Z_of_byte c * 2 ^ 8 + Z_of_byte d)
  | _ => None
  end.

Definition rdb_write_int (fd : string) (value : Z) : M disk Z := write fd (be32 value).

(** The value and the remaining bytes, or an error. *)
Definition rdb_read_int (rest : string) : option (Z * string) :=
  let '(b, rest) := read 4 rest in
  match of_be32 b with Some z => Some (to_int z, rest) | None => None end.

Definition rdb_write_string (fd : string) (str : cptr) : M disk Z :=
  s ← deref str;
  let len := to_int (Z.of_nat (String.length s)) in
  r ← rdb_write_int fd len;
  if (r <? 0) then mret (-1) else
  w ← write fd (str_take (Z.to_nat len) s);
  if negb (w =? len) then mret (-1) else mret 0.

(** A buffer read as a C string. *)
Fixpoint c_str (s : string) : string :=
  match s with
  | EmptyString => EmptyString
  | String c s' => if Ascii.eqb c Ascii.zero then EmptyString else String c (c_str s')
  end.

(** The code, what [*str] holds afterwards, and the remaining bytes.  When the
    contents are too short the block is freed and [*str] still points to it. *)
Definition rdb_read_string (rest : string) : M dataset (Z * cptr * string) :=
  match rdb_read_int rest with
  | None => mret (-1, PNull, rest)
  | Some (len, rest) =>
      if (len <=? 0) || (1024 * 1024 <? len) then mret (-1, PNull, rest) else
      ok ← malloc_ok;
      if negb ok then mret (-1, PNull, rest) else
      let '(b, rest) := read (Z.to_nat len) rest in
      if negb (Z.of_nat (String.length b) =? len) then
        free_block;;
        mret (-1, PFreed, rest)
      else mret (0, PStr (c_str b), rest)
  end.

(** * Saving *)

Definition rdb_save_header (fd : string) : M disk Z :=
  w ← write fd RDB_MAGIC;
  if negb (w =? 5) then mret (-1) else
  r ← rdb_write_int fd RDB_VERSION;
  if (r <? 0) then mret (-1) else
  timestamp ← wall_time;
  w ← write fd (be32 (timestamp / 2 ^ 32));
  if negb (w =? 4) then mret (-1) else
  w ← write fd (be32 (timestamp mod 2 ^ 32));
  if negb (w =? 4) then mret (-1) else
  mret 0.

(** One entry; [true] when a write failed. *)
Definition write_entry (fd : string) (engine : Z) (key value : cptr) : M dataset bool :=
  r ← in_disk (rdb_write_int fd engine);
  if (r <? 0) then mret true else
  r ← in_disk (rdb_write_string fd key);
  if (r <? 0) then mret true else
  r ← in_disk (rdb_write_string fd value);
  mret (r <? 0).

(** The loops of [rdb_save]: the count so far goes in, the count or a write
    error ([None]) comes out. *)
Fixpoint save_array (n : nat) (i : Z) (fd : string) (count : Z) : M dataset (option Z) :=
  match n with
  | O => mret (Some count)
  | S n' =>
      it ← in_array (item_at i);
      if negb (is_null (ai_key it)) && negb (is_null (ai_value it)) then
        err ← write_entry fd ENGINE_ARRAY (ai_key it) (ai_value it);
        if err : bool then mret None else
        count ← ck_int (count + 1);
        save_array n' (i + 1) fd count
      else save_array n' (i + 1) fd count
  end.

Fixpoint save_chain (fuel : nat) (node : nptr) (fd : string) (count : Z) : M dataset (option Z) :=
  match fuel with
  | O => out_of_fuel
  | S fuel' =>
      match node with
      | None => mret (Some count)
      | Some _ =>
          n ← in_hash (hload node);
          err ← write_entry fd ENGINE_HASH (hn_key n) (hn_value n);
          if err : bool then mret None else
          count ← ck_int (count + 1);
          save_chain fuel' (hn_next n) fd count
      end
  end.
Fixpoint save_hash (n : nat) (i : Z) (fd : string) (count : Z) : M dataset (option Z) :=
  match n with
  | O => mret (Some count)
  | S n' =>
      node ← in_hash (bucket_at i);
      fuel ← in_hash chain_fuel;
      r ← save_chain fuel node fd count;
      match r with
      | None => mret None
      | Some count => save_hash n' (i + 1) fd count
      end
  end.

(** [save_rbtree_node]: the number of entries written, or -1. *)
Fixpoint save_rbtree_node (fuel : nat) (fd : string) (node : rptr) : M dataset Z :=
  match fuel with
  | O => out_of_fuel
  | S fuel' =>
      nil ← in_rbtree get_nil;
      if ptr_eqb node nil then mret 0 else
      l ← in_rbtree (get_left node);
      left_count ← save_rbtree_node fuel' fd l;
      if (left_count <? 0) then mret (-1) else
      k ← in_rbtree (get_key node);
      r ← (if negb (is_null k) then
             v ← in_rbtree (get_value node);
             err ← write_entry fd ENGINE_RBTREE k v;
             if err : bool then mret None else
             count ← ck_int (left_count + 1);
             mret (Some count)
           else mret (Some left_count));
      match r with
      | None => mret (-1)
      | Some count =>
          r ← in_rbtree (get_right node);
          right_count ← save_rbtree_node fuel' fd r;
          if (right_count <? 0) then mret (-1) else
          ck_int (count + right_count)
      end
  end.

Fixpoint save_skip (fuel : nat) (x : nptr) (fd : string) (count : Z) : M dataset (option Z) :=
  match fuel with
  | O => out_of_fuel
  | S fuel' =>
      next ← in_skip (get_forward x 0);
      if snull next then mret (Some count) else
      n ← in_skip (sload next);
      err ← write_entry fd ENGINE_SKIPLIST (sn_key n) (sn_value n);
      if err : bool then mret None else
      count ← ck_int (count + 1);
      save_skip fuel' next fd count
  end.

(** What is written between the header and the end mark. *)
Definition save_engines (fd : string) : M dataset (option Z) :=
  n ← in_array (gets idx);
  r ← save_array (Z.to_nat n) 0 fd 0;
  match r with
  | None => mret None
  | Some count =>
      n ← in_hash (gets max_slots);
      r ← save_hash (Z.to_nat n) 0 fd count;
      match r with
      | None => mret None
      | Some count =>
          root ← in_rbtree get_root;
          fuel ← in_rbtree rb_fuel;
          rbt_count ← save_rbtree_node fuel fd root;
          if (rbt_count <? 0) then mret None else
          count ← ck_int (count + rbt_count);
          header ← in_skip (gets sk_header);
          fuel ← in_skip skip_fuel;
          save_skip fuel header fd count
      end
  end.

Definition rdb_save (filename : string) : M dataset Z :=
  let tmpfile := str_take 255 (filename +:+ ".tmp") in
  ok ← in_disk (open_trunc tmpfile);
  if negb ok then mret (-1) else
  r ← in_disk (rdb_save_header tmpfile);
  if (r <? 0) then in_disk (unlink tmpfile);; mret (-1) else
  r ← save_engines tmpfile;
  match r with
  | None => in_disk (unlink tmpfile);; mret (-1)
  | Some count =>
      in_disk (rdb_write_int tmpfile (-1));;
      r ← in_disk (rename tmpfile filename);
      if (r <? 0) then in_disk (unlink tmpfile);; mret (-1) else
      mret count
  end.

(** * Loading *)

(** The version and the time stamp, and the bytes after the header. *)
Definition rdb_load_header (rest : string) : option (Z * Z * string) :=
  let '(magic, rest) := read 5 rest in
  if negb (String.eqb magic RDB_MAGIC) then None else
  match rdb_read_int rest with
  | None => None
  | Some (version, rest) =>
      if negb (version =? RDB_VERSION) then None else
      let '(hb, rest) := read 4 rest in
      let '(lb, rest) := read 4 rest in
      match of_be32 hb, of_be32 lb with
      | Some high, Some low => Some (version, Z.lor (Z.shiftl high 32) low, rest)
      | _, _ => None
      end
  end.

Definition load_entry (engine : Z) (key value : cptr) : M dataset Z :=
  if engine =? ENGINE_ARRAY then in_array (kvs_array_set IGlobal key value);; mret 1
  else if engine =? ENGINE_HASH then in_hash (kvs_hash_set IGlobal key value);; mret 1
  else if engine =? ENGINE_RBTREE then in_rbtree (kvs_rbtree_set IGlobal key value);; mret 1
  else if engine =? ENGINE_SKIPLIST then in_skip (kvs_skip_set IGlobal key value);; mret 1
  else mret 0.

(** [if (p) kvs_free(p)]. *)
Definition free_if_set (p : cptr) : M dataset unit := if is_null p then mret tt else kvs_free p.

Fixpoint load_loop (fuel : nat) (rest : string) (count : Z) : M dataset Z :=
  match fuel with
  | O => out_of_fuel
  | S fuel' =>
      match rdb_read_int rest with
      | None => mret count
      | Some (engine, rest) =>
          if (engine =? -1) then mret count else
          '(r, key, rest) ← rdb_read_string rest;
          if (r <? 0) then free_if_set key;; mret count else
          '(r, value, rest) ← rdb_read_string rest;
          if (r <? 0) then free_if_set key;; free_if_set value;; mret count else
          loaded ← load_entry engine key value;
          kvs_free key;;
          kvs_free value;;
          count ← (if (loaded =? 1) then ck_int (count + 1) else mret count);
          load_loop fuel' rest count
      end
  end.

(** Every entry takes at least four bytes. *)
Definition rdb_load (filename : string) : M dataset Z :=
  contents ← in_disk (open_read filename);
  match contents with
  | None => mret 0
  | Some bytes =>
      match rdb_load_header bytes with
      | None => mret (-1)
      | Some (_, _, rest) => load_loop (S (String.length rest)) rest 0
      end
  end.

Definition rdb_save_default : M dataset Z := rdb_save RDB_FILENAME.
Definition rdb_load_default : M dataset Z := rdb_load RDB_FILENAME.
