(* ===== verification/RdbProof.v ===== *)
(** What the persistence layer promises: the bytes a save writes, and that a load
    of those bytes restores the engines. *)
From S2P Require Import Prelude KvsSpec KvsArray KvsHash RbTree RbInv RbProof RbDelete RbEngine SkipList SkipProof Rdb.

Local Open Scope Z_scope.

(** * Bytes *)

Section bytes.
Implicit Types (s t u : string).

Lemma str_app_assoc s t u : (s +:+ t) +:+ u = s +:+ (t +:+ u).
Proof. induction s as [|a s IH]; [done|]. exact (f_equal (String a) IH). Qed.
Lemma str_app_nil s : s +:+ "" = s.
Proof. induction s as [|a s IH]; [done|]. exact (f_equal (String a) IH). Qed.
Lemma str_len_app s t : String.length (s +:+ t) = (String.length s + String.length t)%nat.
Proof. induction s as [|a s IH]; [done|]. exact (f_equal S IH). Qed.
Lemma str_take_app s t : str_take (String.length s) (s +:+ t) = s.
Proof. induction s as [|a s IH]; [by destruct t|]. exact (f_equal (String a) IH). Qed.
Lemma str_drop_app s t : str_drop (String.length s) (s +:+ t) = t.
Proof. induction s as [|a s IH]; [by destruct t|]. exact IH. Qed.
Lemma str_take_all s : str_take (String.length s) s = s.
Proof. rewrite <-(str_app_nil s) at 2. apply str_take_app. Qed.
Lemma read_app s t : read (String.length s) (s +:+ t) = (s, t).
Proof. unfold read. by rewrite str_take_app, str_drop_app. Qed.

Lemma Z_of_byte_of z : Z_of_byte (byte_of z) = z mod 256.
Proof.
  unfold Z_of_byte, byte_of. rewrite Ascii.N_ascii_embedding.
  - rewrite Z2N.id; [done|]. by apply Z.mod_pos_bound.
  - pose proof (Z.mod_pos_bound z 256). lia.
Qed.
Lemma of_be32_be32 z : of_be32 (be32 z) = Some (z mod 2 ^ 32).
Proof.
  unfold of_be32, be32. rewrite !Z_of_byte_of. f_equal.
  change (2 ^ 24) with 16777216. change (2 ^ 16) with 65536. change (2 ^ 8) with 256.
  change (2 ^ 32) with 4294967296. Z.to_euclidean_division_equations. nia.
Qed.
Lemma to_int_mod z : INT_MIN ≤ z ≤ INT_MAX → to_int (z mod 2 ^ 32) = z.
Proof.
  unfold to_int, INT_MIN, INT_MAX. intros Hz.
  rewrite Zplus_mod_idemp_l, Z.mod_small; lia.
Qed.
Lemma to_int_id z : INT_MIN ≤ z ≤ INT_MAX → to_int z = z.
Proof. unfold to_int, INT_MIN, INT_MAX. intros Hz. rewrite Z.mod_small; lia. Qed.

Lemma rdb_read_write_int z rest :
  INT_MIN ≤ z ≤ INT_MAX → rdb_read_int (be32 z +:+ rest) = Some (z, rest).
Proof.
  intros Hz. unfold rdb_read_int. pose proof (read_app (be32 z) rest) as Hr.
  change (String.length (be32 z)) with 4%nat in Hr. rewrite Hr, of_be32_be32.
  by rewrite to_int_mod.
Qed.
End bytes.
Arguments be32 : simpl never.
Arguments rdb_read_int : simpl never.

(** * The format of a dump *)

(** A string, an entry and a block of entries of one engine. *)
Definition enc_str (s : string) : string := be32 (Z.of_nat (String.length s)) +:+ s.
Definition enc_entry (engine : Z) (kv : string * string) : string :=
  be32 engine +:+ enc_str kv.1 +:+ enc_str kv.2.
Fixpoint enc_block (engine : Z) (l : list (string * string)) : string :=
  match l with
  | [] => ""
  | kv :: l' => enc_entry engine kv +:+ enc_block engine l'
  end.
Definition enc_header (timestamp : Z) : string :=
  RDB_MAGIC +:+ be32 RDB_VERSION +:+ be32 (timestamp / 2 ^ 32) +:+ be32 (timestamp mod 2 ^ 32).
(** The four blocks, in the order in which they are written. *)
Definition enc_dump (timestamp : Z) (la lh lr ls : list (string * string)) : string :=
  enc_header timestamp +:+ enc_block ENGINE_ARRAY la +:+ enc_block ENGINE_HASH lh +:+
  enc_block ENGINE_RBTREE lr +:+ enc_block ENGINE_SKIPLIST ls +:+ be32 (-1).

Lemma enc_block_app engine l1 l2 :
  enc_block engine (l1 ++ l2) = enc_block engine l1 +:+ enc_block engine l2.
Proof.
  induction l1 as [|kv l1 IH]; [done|]. simpl. by rewrite IH, str_app_assoc.
Qed.

(** Strings that fit an [int] length. *)
Definition fits (s : string) : Prop := Z.of_nat (String.length s) ≤ INT_MAX.
Definition pair_fits (kv : string * string) : Prop := fits kv.1 ∧ fits kv.2.

(** * Saving *)

(** The state [d] with the contents [c] in the file [fd] and the verdicts [vs]
    to come. *)
Definition with_file (fd c : string) (vs : list io_event) (d : dataset) : dataset :=
  d_set_disk (Disk (<[fd := c]> (files (d_disk d))) vs) d.

(** What is written, piece by piece: the code does not notice when less than the four
    bytes of an integer are written, but it does for the texts (kvs_rdb.c:18). *)
Inductive piece : Type := PInt (z : Z) | PText (t : string).
Fixpoint pieces_text (ps : list piece) : string :=
  match ps with
  | [] => ""
  | PInt z :: ps' => be32 z +:+ pieces_text ps'
  | PText t :: ps' => t +:+ pieces_text ps'
  end.
(** The bytes of [ps], with integers that may be cut short. *)
Inductive cut : list piece → string → Prop :=
  | cut_nil : cut [] ""
  | cut_int z n ps t : cut ps t → cut (PInt z :: ps) (str_take n (be32 z) +:+ t)
  | cut_text u ps t : cut ps t → cut (PText u :: ps) (u +:+ t).
(** A write on this disk writes everything or fails. *)
Definition whole (vs : list io_event) : Prop := Forall (λ v, v = IoOk ∨ v = IoErr) vs.

Definition p_str (s : string) : list piece := [PInt (Z.of_nat (String.length s)); PText s].
Definition p_entry (engine : Z) (kv : string * string) : list piece := PInt engine :: p_str kv.1 ++ p_str kv.2.
Definition p_block (engine : Z) (l : list (string * string)) : list piece := mjoin (p_entry engine <$> l).
Definition p_header (timestamp : Z) : list piece :=
  [PText RDB_MAGIC; PInt RDB_VERSION; PText (be32 (timestamp / 2 ^ 32)); PText (be32 (timestamp mod 2 ^ 32))].
(** A dump without its end mark. *)
Definition p_body (timestamp : Z) (la lh lr ls : list (string * string)) : list piece :=
  p_header timestamp ++ p_block ENGINE_ARRAY la ++ p_block ENGINE_HASH lh ++ p_block ENGINE_RBTREE lr ++ p_block ENGINE_SKIPLIST ls.

Lemma pieces_text_app ps1 ps2 : pieces_text (ps1 ++ ps2) = pieces_text ps1 +:+ pieces_text ps2.
Proof. induction ps1 as [|[z|t] ps1 IH]; [done|..]; simpl; by rewrite IH, str_app_assoc. Qed.
Lemma pieces_entry engine kv : pieces_text (p_entry engine kv) = enc_entry engine kv.
Proof. unfold p_entry, enc_entry, enc_str. simpl. by rewrite str_app_nil, !str_app_assoc. Qed.
Lemma pieces_block engine l : pieces_text (p_block engine l) = enc_block engine l.
Proof.
  induction l as [|kv l IH]; [done|]. change (p_block engine (kv :: l)) with (p_entry engine kv ++ p_block engine l).
  by rewrite pieces_text_app, pieces_entry, IH.
Qed.
Lemma pieces_dump ts la lh lr ls : pieces_text (p_body ts la lh lr ls ++ [PInt (-1)]) = enc_dump ts la lh lr ls.
Proof.
  unfold p_body, enc_dump. rewrite !pieces_text_app, !pieces_block. simpl. unfold enc_header. by rewrite !str_app_assoc, !str_app_nil.
Qed.
Lemma p_block_cons engine kv l : p_block engine (kv :: l) = p_entry engine kv ++ p_block engine l.
Proof. done. Qed.
Lemma p_block_app engine l1 l2 : p_block engine (l1 ++ l2) = p_block engine l1 ++ p_block engine l2.
Proof. unfold p_block. by rewrite fmap_app, join_app. Qed.
Lemma cut_app ps1 ps2 t1 t2 : cut ps1 t1 → cut ps2 t2 → cut (ps1 ++ ps2) (t1 +:+ t2).
Proof. intros H H2. induction H; [done|..]; simpl; rewrite str_app_assoc; by constructor. Qed.

(** What a sequence of writes did to the file, as far as the code can tell ([ok]): the
    pieces were added, whole if the disk does not write less than it is told to; a disk
    that does not fail is no reason to give up. *)
Record progress (vs : list io_event) (c : string) (ps : list piece) (c' : string) (vs' : list io_event) (ok : Prop) : Prop := {
  pg_ok : vs = [] → vs' = [] ∧ ok;
  pg_whole : whole vs → whole vs';
  pg_file : ok → ∃ t, c' = c +:+ t ∧ cut ps t ∧ (whole vs → t = pieces_text ps)
}.

Section saving.
Implicit Types (d : dataset) (fd c s : string) (kv : string * string) (l : list (string * string))
  (vs : list io_event).

Lemma count_succ (z : Z) (n : nat) : z + Z.of_nat (S n) = z + 1 + Z.of_nat n.
Proof. lia. Qed.

Lemma progress_nil vs c (ok : Prop) : ok → progress vs c [] c vs ok.
Proof. intros Hok. split; [done|done|]. intros _. exists "". rewrite str_app_nil. split_and!; [done|constructor|done]. Qed.
Lemma progress_trans vs c ps1 c1 vs1 (P : Prop) ps2 c2 vs2 (R : Prop) :
  progress vs c ps1 c1 vs1 P → P → progress vs1 c1 ps2 c2 vs2 R → progress vs c (ps1 ++ ps2) c2 vs2 R.
Proof.
  intros [A1 B1 C1] HP [A2 B2 C2]. split; [intros [H _]%A1; by apply A2|auto|]. intros HR.
  destruct (C1 HP) as (t1 & -> & Hc1 & Hw1), (C2 HR) as (t2 & -> & Hc2 & Hw2). exists (t1 +:+ t2).
  split_and!; [by rewrite str_app_assoc|by apply cut_app|]. intros Hw. by rewrite pieces_text_app, Hw1, Hw2 by auto.
Qed.
Lemma progress_err vs c ps1 c1 vs1 (P : Prop) ps2 c2 (R : Prop) :
  progress vs c ps1 c1 vs1 P → ¬ P → ¬ R → progress vs c ps2 c2 vs1 R.
Proof. intros [A B _] HP HR. split; [by intros [_ ?]%A|done|done]. Qed.
Lemma progress_iff vs c ps c' vs' (P R : Prop) : progress vs c ps c' vs' P → P → R → progress vs c ps c' vs' R.
Proof. intros [A B C] HP HR. split; [intros [? _]%A; done|done|auto]. Qed.

(** A call that failed: the disk did. *)
Ltac write_failed := eapply progress_err; [eassumption|first [done|lia|naive_solver]..].

(** Running a sequence on the disk. *)
Lemma wp_in_disk_bind {A B} (m : M disk A) (k : A → M disk B) e d Q :
  wp (x ← in_disk m; in_disk (k x)) e d Q → wp (in_disk (m ≫= k)) e d Q.
Proof.
  unfold wp, in_disk, zoom, mbind, M_bind. destruct (m e (d_disk d)) as [[[a e'] k']| |]; [|done..].
  simpl. by destruct (k a e' k') as [[[b e''] k'']| |].
Qed.
Lemma wp_in_disk_ret {A} (a : A) e d Q : Q a e d → wp (in_disk (mret a)) e d Q.
Proof. unfold wp, in_disk, zoom. simpl. by destruct d. Qed.

Lemma str_take_whole n s : String.length (str_take n s) = String.length s → str_take n s = s.
Proof. revert s. induction n as [|n IH]; intros [|a s]; simpl; try done. intros [= H]. by rewrite IH. Qed.
Lemma whole_tail v vs : whole (v :: vs) → whole vs.
Proof. by intros [_ ?]%Forall_cons. Qed.
Lemma wp_verdict fd s c vs d e (Q : Z → env → dataset → Prop) :
  (∀ vs', (vs = [] → vs' = []) → (whole vs → whole vs') → Q (Z.of_nat (String.length s)) e (with_file fd (c +:+ s) vs' d)) →
  (∀ n vs', vs ≠ [] → ¬ whole vs → Q (Z.of_nat (String.length (str_take n s))) e (with_file fd (c +:+ str_take n s) vs' d)) →
  (∀ vs', vs ≠ [] → (whole vs → whole vs') → Q (-1) e (with_file fd c vs' d)) →
  wp (in_disk (write fd s)) e (with_file fd c vs d) Q.
Proof.
  intros Hok Hshort Herr. apply wp_zoom. unfold write. wp_step. unfold wp at 1, next_verdict.
  assert (Happ : ∀ u vs', d_set_disk (Disk (<[fd := default "" (<[fd := c]> (files (d_disk d)) !! fd) +:+ u]>
    (<[fd := c]> (files (d_disk d)))) vs') (with_file fd c vs d) = with_file fd (c +:+ u) vs' d).
  { intros u vs'. rewrite lookup_insert_eq, insert_insert_eq. done. }
  destruct vs as [|[|n|] vs']; simpl; unfold append; repeat wp_step; simpl; rewrite ?Happ.
  - by apply Hok.
  - apply Hok; [done|apply whole_tail].
  - apply Hshort; [done|]. intros [[?|?] _]%Forall_cons; done.
  - apply Herr; [done|apply whole_tail].
Qed.
Lemma wp_write fd s c vs d e Q :
  (∀ r c' vs', progress vs c [PText s] c' vs' (r = Z.of_nat (String.length s)) → Q r e (with_file fd c' vs' d)) →
  wp (in_disk (write fd s)) e (with_file fd c vs d) Q.
Proof.
  intros HQ. assert (Hc : cut [PText s] (s +:+ "")) by repeat constructor. rewrite str_app_nil in Hc.
  apply wp_verdict; [intros vs' H1 H2|intros n vs' H1 H2|intros vs' H1 H2]; apply HQ.
  - split; [auto|done|]. intros _. exists s. split_and!; [done..|]. intros _. simpl. by rewrite str_app_nil.
  - split; [done|done|]. intros Hl. exists s. rewrite str_take_whole by lia. split_and!; [done..|]. by intros ?%H2.
  - split; [done|done|lia].
Qed.
Lemma wp_write_int fd z c vs d e Q :
  (∀ r c' vs', progress vs c [PInt z] c' vs' (0 ≤ r) → Q r e (with_file fd c' vs' d)) →
  wp (in_disk (rdb_write_int fd z)) e (with_file fd c vs d) Q.
Proof.
  intros HQ. assert (Hc : ∀ n, cut [PInt z] (str_take n (be32 z))).
  { intros n. pose proof (cut_int z n [] "" cut_nil) as H. by rewrite str_app_nil in H. }
  unfold rdb_write_int. apply wp_verdict; [intros vs' H1 H2|intros n vs' H1 H2|intros vs' H1 H2]; apply HQ.
  - split; [split; [auto|lia]|done|]. intros _. exists (be32 z). split_and!; [done|exact (Hc 4%nat)|].
    intros _. simpl. by rewrite str_app_nil.
  - split; [done|done|]. intros _. exists (str_take n (be32 z)). split_and!; [done..|]. by intros ?%H2.
  - split; [done|done|lia].
Qed.
(** The end mark, whose write is not looked at. *)
Lemma wp_write_end fd c vs d e Q :
  (∀ r n vs', (vs = [] → vs' = []) → (whole vs → n = 0%nat ∨ n = 4%nat) → (vs = [] → n = 4%nat) →
    Q r e (with_file fd (c +:+ str_take n (be32 (-1))) vs' d)) →
  wp (in_disk (rdb_write_int fd (-1))) e (with_file fd c vs d) Q.
Proof.
  intros HQ. unfold rdb_write_int. apply wp_verdict; [intros vs' H1 H2|intros n vs' H1 H2|intros vs' H1 H2].
  - apply (HQ _ 4%nat vs'); auto.
  - apply HQ; done.
  - rewrite <-(str_app_nil c). apply (HQ _ 0%nat vs'); [done|auto|done].
Qed.
Lemma wp_write_string fd s c vs d e Q :
  fits s →
  (∀ r c' vs', progress vs c (p_str s) c' vs' (r = 0) → r ≤ 0 → Q r e (with_file fd c' vs' d)) →
  wp (in_disk (rdb_write_string fd (PStr s))) e (with_file fd c vs d) Q.
Proof.
  unfold fits. intros Hs HQ. unfold rdb_write_string. apply wp_in_disk_bind. wp_step.
  apply wp_in_disk_ret. rewrite to_int_id by (unfold INT_MIN; lia).
  apply wp_in_disk_bind. wp_step. apply wp_write_int. intros r c1 vs1 Hp1.
  destruct (Z.ltb_spec r 0).
  { apply wp_in_disk_ret, HQ; [|done]. write_failed. }
  apply wp_in_disk_bind. wp_step. apply wp_write. rewrite Nat2Z.id, str_take_all.
  intros w c2 vs2 Hp2. pose proof (progress_trans _ _ _ _ _ _ _ _ _ _ Hp1 ltac:(lia) Hp2) as Hp.
  destruct (Z.eqb_spec w (Z.of_nat (String.length s))) as [Hw|Hw]; apply wp_in_disk_ret, HQ; try done.
  - by eapply progress_iff.
  - write_failed.
Qed.
Lemma wp_write_entry fd engine kv c vs d e Q :
  pair_fits kv →
  (∀ err c' vs', progress vs c (p_entry engine kv) c' vs' (err = false) →
    Q err e (with_file fd c' vs' d)) →
  wp (write_entry fd engine (PStr kv.1) (PStr kv.2)) e (with_file fd c vs d) Q.
Proof.
  intros [Hk Hv] HQ. unfold write_entry. wp_step. apply wp_write_int. intros r1 c1 vs1 Hp1.
  destruct (Z.ltb_spec r1 0); [wp_step; apply HQ; write_failed|].
  wp_step. apply wp_write_string; [done|]. intros r2 c2 vs2 Hp2 Hr2.
  pose proof (progress_trans _ _ _ _ _ _ _ _ _ _ Hp1 ltac:(lia) Hp2) as Hp12.
  destruct (Z.ltb_spec r2 0); [wp_step; apply HQ; write_failed|].
  wp_step. apply wp_write_string; [done|]. intros r3 c3 vs3 Hp3 Hr3.
  pose proof (progress_trans _ _ _ _ _ _ _ _ _ _ Hp12 ltac:(lia) Hp3) as Hp. wp_step. apply HQ.
  destruct (Z.ltb_spec r3 0); [write_failed|]. eapply progress_iff; [exact Hp|lia|done].
Qed.
Arguments write_entry : simpl never.

(** What a loop that writes the block [s] of [n] entries answers. *)
Definition counted (count : Z) (n : nat) (r : option Z) : Prop :=
  r = None ∨ r = Some (count + Z.of_nat n).

(** Reading the engines does not depend on the file. *)
Lemma wp_read_array {A} (m : M kvs_array A) fd c vs d e Q :
  wp m e (d_array d) (λ a e' u, u = d_array d ∧ e' = e ∧ Q a e (with_file fd c vs d)) →
  wp (in_array m) e (with_file fd c vs d) Q.
Proof.
  intros Hm. apply wp_zoom. eapply wp_mono; [exact Hm|]. intros a e' u (-> & -> & HQ). exact HQ.
Qed.
Lemma wp_read_hash {A} (m : M hashtable A) fd c vs d e Q :
  wp m e (d_hash d) (λ a e' u, u = d_hash d ∧ e' = e ∧ Q a e (with_file fd c vs d)) →
  wp (in_hash m) e (with_file fd c vs d) Q.
Proof.
  intros Hm. apply wp_zoom. eapply wp_mono; [exact Hm|]. intros a e' u (-> & -> & HQ). exact HQ.
Qed.
Lemma wp_read_rbtree {A} (m : M rbtree A) fd c vs d e Q :
  wp m e (d_rbtree d) (λ a e' u, u = d_rbtree d ∧ e' = e ∧ Q a e (with_file fd c vs d)) →
  wp (in_rbtree m) e (with_file fd c vs d) Q.
Proof.
  intros Hm. apply wp_zoom. eapply wp_mono; [exact Hm|]. intros a e' u (-> & -> & HQ). exact HQ.
Qed.
Lemma wp_read_skip {A} (m : M skiplist A) fd c vs d e Q :
  wp m e (d_skip d) (λ a e' u, u = d_skip d ∧ e' = e ∧ Q a e (with_file fd c vs d)) →
  wp (in_skip m) e (with_file fd c vs d) Q.
Proof.
  intros Hm. apply wp_zoom. eapply wp_mono; [exact Hm|]. intros a e' u (-> & -> & HQ). exact HQ.
Qed.

(** ** The array *)

Lemma wp_save_array n i t fd c vs d e count Q :
  table (d_array d) = Some t → Forall item_ok t → (i + n ≤ length t)%nat →
  Forall pair_fits (entries (take n (drop i t))) → 0 ≤ count →
  count + Z.of_nat (length (entries (take n (drop i t)))) ≤ INT_MAX →
  (∀ r c' vs', progress vs c (p_block ENGINE_ARRAY (entries (take n (drop i t)))) c' vs' (r ≠ None) →
    counted count (length (entries (take n (drop i t)))) r → Q r e (with_file fd c' vs' d)) →
  wp (save_array n (Z.of_nat i) fd count) e (with_file fd c vs d) Q.
Proof.
  intros Ht Hok. revert i c vs count. induction n as [|n IH]; intros i c vs count Hlen Hfit Hc Hmax HQ.
  { simpl. wp_step. apply HQ; [by apply progress_nil|]. right. by rewrite Z.add_0_r. }
  destruct (lookup_lt_is_Some_2 t i) as [it Hit]; [lia|].
  rewrite (drop_S t it i Hit) in *. simpl take in *. simpl save_array. wp_step.
  apply wp_read_array. unfold item_at. wp_steps. rewrite decide_True by lia. rewrite Nat2Z.id, Hit.
  simpl. wp_step. split_and!; [done..|].
  assert (Hnext : Z.of_nat i + 1 = Z.of_nat (S i)) by lia. rewrite Hnext.
  destruct (Forall_lookup_1 _ _ _ _ Hok Hit) as [->|(k & v & ->)]; simpl.
  - apply (IH (S i)); try done. lia.
  - change (entries (Item (PStr k) (PStr v) :: take n (drop (S i) t)))
      with ((k, v) :: entries (take n (drop (S i) t))) in *.
    rewrite length_cons in *. apply Forall_cons in Hfit as [Hf Hfit].
    wp_step. apply (wp_write_entry _ _ (k, v)); [done|]. intros err c1 vs1 Hp1.
    destruct err; [wp_step; apply HQ; [write_failed|by left]|]. wp_step.
    apply wp_ck_int; [unfold INT_MIN; lia|]. apply (IH (S i)); try done; try lia.
    intros r c2 vs2 Hp2 Hr. apply HQ; [by eapply progress_trans|]. unfold counted. by rewrite count_succ.
Qed.
Arguments save_array : simpl never.

(** ** The hash table *)

Lemma wp_save_chain fuel p b fd c vs d e count Q :
  chain (hheap (d_hash d)) p b → (length b < fuel)%nat → Forall pair_fits b.*2 → 0 ≤ count →
  count + Z.of_nat (length b) ≤ INT_MAX →
  (∀ r c' vs', progress vs c (p_block ENGINE_HASH b.*2) c' vs' (r ≠ None) →
    counted count (length b) r → Q r e (with_file fd c' vs' d)) →
  wp (save_chain fuel p fd count) e (with_file fd c vs d) Q.
Proof.
  revert p b c vs count. induction fuel as [|fuel IH]; intros p b c vs count Hch Hlen Hfit Hc Hmax HQ; [lia|].
  destruct b as [|[x [k v]] b]; simpl in Hch.
  { subst p. simpl. wp_step. apply HQ; [by apply progress_nil|]. right. by rewrite Z.add_0_r. }
  destruct Hch as (-> & nx & Hx & Hch). simpl save_chain. rewrite fmap_cons in *.
  apply Forall_cons in Hfit as [Hf Hfit]. rewrite length_cons in *. wp_step.
  apply wp_read_hash. eapply wp_hload; [exact Hx|]. split_and!; [done..|]. simpl.
  wp_step. apply (wp_write_entry _ _ (k, v)); [done|]. intros err c1 vs1 Hp1.
  destruct err; [wp_step; apply HQ; [write_failed|by left]|]. wp_step.
  apply wp_ck_int; [unfold INT_MIN; lia|]. apply (IH nx b); try done; try lia.
  intros r c2 vs2 Hp2 Hr. apply HQ; [by eapply progress_trans|]. unfold counted. by rewrite count_succ.
Qed.
Arguments save_chain : simpl never.

Lemma wp_save_hash n i ns bs fd c vs d e count Q :
  hash_wf (d_hash d) ns bs → (i + n = length bs)%nat → 0 ≤ count →
  Forall pair_fits (mjoin bs).*2 → count + Z.of_nat (length (mjoin (drop i bs))) ≤ INT_MAX →
  (∀ r c' vs', progress vs c (p_block ENGINE_HASH (mjoin (drop i bs)).*2) c' vs' (r ≠ None) →
    counted count (length (mjoin (drop i bs))) r → Q r e (with_file fd c' vs' d)) →
  wp (save_hash n (Z.of_nat i) fd count) e (with_file fd c vs d) Q.
Proof.
  intros Hwf. revert i c vs count. induction n as [|n IH]; intros i c vs count Hlen Hc Hfit Hmax HQ.
  { simpl. wp_step. rewrite drop_ge in HQ by lia. apply HQ; [by apply progress_nil|]. right. by rewrite Z.add_0_r. }
  pose proof (hw_blen _ _ _ Hwf) as Hbl.
  destruct (bucket_chain _ _ _ i Hwf) as (p & b & Hp & Hb & Hch & Hfuel); [unfold MAX_TABLE_SIZE in *; lia|].
  rewrite (drop_S bs b i Hb) in *. simpl mjoin in *. rewrite length_app in *.
  rewrite fmap_app, p_block_app in HQ. simpl save_hash. wp_step. apply wp_read_hash.
  eapply wp_bucket_at; [apply Hwf|exact Hp|]. split_and!; [done..|]. wp_step.
  apply wp_read_hash. unfold chain_fuel. repeat wp_step. split_and!; [done..|].
  wp_step. eapply wp_save_chain; [exact Hch|exact Hfuel| |done|lia|].
  { destruct (mjoin_insert bs i b Hb) as (rest & Hperm & _).
    rewrite Hperm, fmap_app, Forall_app in Hfit. apply Hfit. }
  intros r c1 vs1 Hp1 Hr1. assert (Hnext : Z.of_nat i + 1 = Z.of_nat (S i)) by lia. rewrite Hnext.
  destruct Hr1 as [->| ->].
  { wp_step. apply HQ; [write_failed|by left]. }
  apply IH; [lia|lia|done|lia|]. intros r c2 vs2 Hp2 Hr2. apply HQ; [by eapply progress_trans|].
  unfold counted. by rewrite Nat2Z.inj_add, Z.add_assoc.
Qed.
Arguments save_hash : simpl never.

(** ** The red-black tree *)

Lemma wp_save_rbtree_node fuel nil nn ex ctx t fd c vs d e Q :
  foc nil nn ex (d_rbtree d) ctx t → (tsize t < fuel)%nat → Forall pair_fits (inorder t) →
  Z.of_nat (length (inorder t)) ≤ INT_MAX →
  (∀ r c' vs', progress vs c (p_block ENGINE_RBTREE (inorder t)) c' vs' (r ≠ -1) →
    r = -1 ∨ r = Z.of_nat (length (inorder t)) → Q r e (with_file fd c' vs' d)) →
  wp (save_rbtree_node fuel fd (tptr nil t)) e (with_file fd c vs d) Q.
Proof.
  revert ctx t c vs Q. induction fuel as [|fuel IH]; intros ctx t c vs Q Hs Hf Hfit Hmax HQ; [lia|].
  simpl. wp_step. apply wp_read_rbtree. rb_step. rewrite (fo_nil _ _ _ _ _ _ Hs). split_and!; [done..|].
  destruct t as [|x co k v l r]; simpl in *.
  { rewrite ptr_eqb_refl. wp_step. apply HQ; [by apply progress_nil|by right]. }
  rewrite (node_not_nil nil L _ _ _ _ _ _ _ _ _ _ Hs).
  rewrite length_app, length_cons in *. apply Forall_app in Hfit as [Hfl [Hkv Hfr]%Forall_cons].
  wp_step. apply wp_read_rbtree. eapply (wp_foc_child nil L); [exact Hs|]. split_and!; [done..|].
  wp_step. eapply (IH (Fr L x co k v r :: ctx) l); [view Hs|lia|done|lia|].
  intros r1 c1 vs1 Hp1 [->| ->].
  { change (-1 <? 0) with true. cbv iota. wp_step. apply HQ; [write_failed|by left]. }
  rewrite (proj2 (Z.ltb_ge _ _)) by lia. wp_step.
  apply wp_read_rbtree. eapply (wp_node_key nil L); [exact Hs|]. split_and!; [done..|]. simpl is_null. cbv iota beta delta [negb].
  do 2 wp_step. apply wp_read_rbtree. eapply (wp_node_value nil L); [exact Hs|]. split_and!; [done..|].
  wp_step. apply (wp_write_entry _ _ (k, v)); [done|]. intros err c2 vs2 Hp2.
  pose proof (progress_trans _ _ _ _ _ _ _ _ _ _ Hp1 ltac:(lia) Hp2) as Hp12.
  destruct err; [repeat wp_step; apply HQ; [write_failed|by left]|]. wp_step.
  apply wp_ck_int; [unfold INT_MIN; lia|]. do 2 wp_step.
  apply wp_read_rbtree. eapply (wp_foc_child nil R x co k v r l); [exact Hs|]. split_and!; [done..|]. wp_step.
  eapply (IH (Fr R x co k v l :: ctx) r); [view Hs|lia|done|lia|].
  intros r3 c3 vs3 Hp3 Hr3. pose proof (progress_trans _ _ _ _ _ _ _ _ _ _ Hp12 eq_refl Hp3) as Hp.
  destruct Hr3 as [->| ->].
  { change (-1 <? 0) with true. cbv iota. wp_step. apply HQ; [write_failed|by left]. }
  rewrite (proj2 (Z.ltb_ge _ _)) by lia. apply wp_ck_int; [unfold INT_MIN; lia|]. apply HQ; [|right; lia].
  rewrite p_block_app, p_block_cons. rewrite <-(assoc_L (++)) in Hp. eapply progress_iff; [exact Hp|lia|lia].
Qed.
Arguments save_rbtree_node : simpl never.

(** ** The skip list *)

Lemma wp_save_skip fuel L1 a L fd c vs d e count Q :
  heap_is (sk_heap (d_skip d)) (cells (L1 ++ a :: L) []) →
  Forall (λ b, linked b ∧ (0 < en_cap b)%nat) (a :: L) → (length L < fuel)%nat →
  Forall pair_fits (kv <$> L) → 0 ≤ count → count + Z.of_nat (length L) ≤ INT_MAX →
  (∀ r c' vs', progress vs c (p_block ENGINE_SKIPLIST (kv <$> L)) c' vs' (r ≠ None) →
    counted count (length L) r → Q r e (with_file fd c' vs' d)) →
  wp (save_skip fuel (Some (en_loc a)) fd count) e (with_file fd c vs d) Q.
Proof.
  revert L1 a L c vs count.
  induction fuel as [|fuel IH]; intros L1 a L c vs count Hh Hl Hf Hfit Hc Hmax HQ; [lia|].
  simpl. wp_step. apply wp_read_skip. apply Forall_cons in Hl as [[Ha Hca] Hl].
  change 0 with (Z.of_nat 0) at 1. eapply (wp_list_forward L1 a L 0 []); [exact Hh| |].
  { destruct Ha as [_ ->]. lia. }
  split_and!; [done..|]. destruct L as [|b L]; simpl next.
  { simpl snull. cbv iota. wp_step. apply HQ; [by apply progress_nil|]. right. by rewrite Z.add_0_r. }
  pose proof Hl as [[Hb Hcb] _]%Forall_cons. rewrite linked_at, bool_decide_true by done.
  simpl snull. cbv iota. wp_step. apply wp_read_skip.
  eapply (wp_list_load (L1 ++ [a]) b L []); [by rewrite <-(assoc_L (++))|]. split_and!; [done..|]. simpl sn_key. simpl sn_value.
  rewrite fmap_cons in Hfit, HQ. apply Forall_cons in Hfit as [Hkv Hfit]. rewrite length_cons in *.
  wp_step. apply (wp_write_entry _ _ (kv b)); [done|]. intros err c1 vs1 Hp1.
  destruct err; [wp_step; apply HQ; [write_failed|by left]|]. wp_step.
  apply wp_ck_int; [unfold INT_MIN; lia|].
  apply (IH (L1 ++ [a]) b L); [by rewrite <-(assoc_L (++))|done|lia|done|lia|lia|].
  intros r c2 vs2 Hp2 Hr. apply HQ; [by eapply progress_trans|]. unfold counted. by rewrite count_succ.
Qed.
Arguments save_skip : simpl never.

(** ** The whole file *)

(** The pairs of the map, in some order. *)
Definition lists (l : list (string * string)) (m : gmap string string) : Prop :=
  NoDup l.*1 ∧ m = list_to_map l.

Lemma lists_length l m : lists l m → length l = size m.
Proof. intros [Hnd ->]. symmetry. by apply map_size_list_to_map. Qed.
Lemma lists_fit (P : string * string → Prop) l m :
  lists l m → map_Forall (λ k v, P (k, v)) m → Forall P l.
Proof.
  intros [Hnd ->] Hm. apply Forall_forall. intros [k v] Hin.
  apply (Hm k v). by apply elem_of_list_to_map.
Qed.

(** The engines hold the four maps. *)
Record ds_rep d (ma mh mr ms : gmap string string) : Prop := {
  dr_array : array_rep (d_array d) ma;
  dr_hash : hash_state (d_hash d) mh;
  dr_rbtree : rb_rep (d_rbtree d) mr;
  dr_skip : skip_rep (d_skip d) ms
}.
Definition total_pairs (ma mh mr ms : gmap string string) : Z :=
  Z.of_nat (size ma + size mh + size mr + size ms).
Definition all_pairs (P : string * string → Prop) (ma mh mr ms : gmap string string) : Prop :=
  Forall (λ m : gmap string string, map_Forall (λ k v, P (k, v)) m) [ma; mh; mr; ms].

Lemma entries_below_idx t hw : table_ok t hw → entries (take (Z.to_nat hw) t) = entries t.
Proof.
  intros Hok. rewrite <-(take_drop (Z.to_nat hw) t) at 2. unfold entries. rewrite omap_app.
  assert (Hnil : omap item_kv (drop (Z.to_nat hw) t) = []); [|by rewrite Hnil, app_nil_r].
  assert (Hall : Forall (λ it, it = null_item) (drop (Z.to_nat hw) t)).
  { apply Forall_lookup. intros i it Hi. rewrite lookup_drop in Hi.
    eapply (tab_above _ _ Hok); [|exact Hi]. lia. }
  induction Hall as [|it its -> _ IH]; [done|]. exact IH.
Qed.

Lemma wp_save_engines fd c vs d ma mh mr ms e Q :
  ds_rep d ma mh mr ms → all_pairs pair_fits ma mh mr ms → total_pairs ma mh mr ms ≤ INT_MAX →
  (∀ la lh lr ls r c' vs', lists la ma → lists lh mh → lists lr mr → lists ls ms →
    progress vs c (p_block ENGINE_ARRAY la ++ p_block ENGINE_HASH lh ++
      p_block ENGINE_RBTREE lr ++ p_block ENGINE_SKIPLIST ls) c' vs' (r ≠ None) →
    (r = None ∨ r = Some (total_pairs ma mh mr ms)) → Q r e (with_file fd c' vs' d)) →
  wp (save_engines fd) e (with_file fd c vs d) Q.
Proof.
  intros [(t & Ht & Hok & _ & Hma) [(ns & bs & Hwf & Hmh) _] (nil & nn & tr & (Hs & _ & Hso) & Hmr)
    (hd & L & Hw & Hms)] Hfit Hmax HQ.
  apply Forall_cons in Hfit as [Hfa [Hfh [Hfr [Hfs _]%Forall_cons]%Forall_cons]%Forall_cons].
  assert (Hla : lists (entries t) ma) by (split; [apply Hok|done]).
  assert (Hlh : lists (mjoin bs).*2 mh) by (split; [apply Hwf|done]).
  assert (Hlr : lists (inorder tr) mr) by (split; [by apply sorted_nodup|done]).
  assert (Hls : lists (kv <$> L) ms) by (split; [apply sorted_nodup, Hw|done]).
  pose proof (lists_fit _ _ _ Hla Hfa) as Hpa. pose proof (lists_fit _ _ _ Hlh Hfh) as Hph.
  pose proof (lists_fit _ _ _ Hlr Hfr) as Hpr. pose proof (lists_fit _ _ _ Hls Hfs) as Hps.
  unfold total_pairs in *. rewrite <-(lists_length _ _ Hla), <-(lists_length _ _ Hlh),
    <-(lists_length _ _ Hlr), <-(lists_length _ _ Hls) in *. rewrite !length_fmap in *.
  specialize (λ r c' vs', HQ _ _ _ _ r c' vs' Hla Hlh Hlr Hls).
  unfold save_engines. wp_step. apply wp_read_array. wp_step. split_and!; [done..|]. wp_step.
  pose proof (entries_below_idx _ _ Hok) as Hent. pose proof (tab_len _ _ Hok). pose proof (tab_hw _ _ Hok).
  apply (wp_save_array _ 0 t); [done|apply Hok|lia|rewrite drop_0, Hent; done|lia|rewrite drop_0, Hent; lia|].
  rewrite drop_0, Hent. intros r1 c1 vs1 Hp1 [->| ->].
  { wp_step. apply HQ; [write_failed|by left]. }
  wp_step. apply wp_read_hash. wp_step. split_and!; [done..|]. rewrite (hw_slots _ _ _ Hwf). wp_step.
  apply (wp_save_hash _ 0 ns bs); [done|by rewrite (hw_blen _ _ _ Hwf)|lia|done|rewrite drop_0; lia|].
  rewrite drop_0. intros r2 c2 vs2 Hp2 Hr2. pose proof (progress_trans _ _ _ _ _ _ _ _ _ _ Hp1 ltac:(done) Hp2) as Hp12.
  destruct Hr2 as [->| ->].
  { wp_step. apply HQ; [write_failed|by left]. }
  wp_step. apply wp_read_rbtree. rb_step. rewrite (fo_root _ _ _ _ _ _ Hs).
  split_and!; [done..|]. wp_step. apply wp_read_rbtree. unfold rb_fuel. repeat wp_step. split_and!; [done..|].
  pose proof (foc_size _ _ _ _ _ _ Hs) as Hsz. simpl in Hsz. wp_step.
  eapply wp_save_rbtree_node; [exact Hs|lia|done|lia|].
  intros r3 c3 vs3 Hp3 Hr3. pose proof (progress_trans _ _ _ _ _ _ _ _ _ _ Hp12 ltac:(done) Hp3) as Hp13.
  destruct Hr3 as [->| ->].
  { change (-1 <? 0) with true. cbv iota. wp_step. apply HQ; [write_failed|by left]. }
  rewrite (proj2 (Z.ltb_ge _ _)) by lia. wp_step. apply wp_ck_int; [unfold INT_MIN; lia|].
  wp_step. apply wp_read_skip. wp_step. rewrite (sw_header _ _ _ Hw). split_and!; [done..|].
  wp_step. apply wp_read_skip. unfold skip_fuel. repeat wp_step. split_and!; [done..|].
  pose proof (heap_is_size _ _ (sw_heap _ _ _ Hw)) as Hsk. rewrite length_cells in Hsk. simpl in Hsk.
  apply (wp_save_skip _ [] (hd_entry hd) L); [exact (sw_heap _ _ _ Hw)| |lia|done|lia|lia|].
  { constructor; [split; [done|simpl; lia]|]. eapply Forall_impl; [exact (sw_nodes _ _ _ Hw)|]. naive_solver. }
  intros r4 c4 vs4 Hp4 Hr4. pose proof (progress_trans _ _ _ _ _ _ _ _ _ _ Hp13 ltac:(lia) Hp4) as Hp.
  rewrite <-!(assoc_L (++)) in Hp. apply HQ; [exact Hp|].
  destruct Hr4 as [->| ->]; [by left|right]. f_equal. lia.
Qed.
Arguments save_engines : simpl never.

Lemma wp_save_header fd vs d e Q :
  (∀ ts r e' c' vs', mallocs e' = mallocs e → live e' = live e →
    progress vs "" (p_header ts) c' vs' (r = 0) → r ≤ 0 → Q r e' (with_file fd c' vs' d)) →
  wp (in_disk (rdb_save_header fd)) e (with_file fd "" vs d) Q.
Proof.
  intros HQ. unfold rdb_save_header. apply wp_in_disk_bind. wp_step. apply wp_write.
  intros w1 c1 vs1 Hp1. change (Z.of_nat (String.length RDB_MAGIC)) with 5 in Hp1.
  destruct (Z.eqb_spec w1 5) as [e0|]; [|apply wp_in_disk_ret, (HQ 0); try done; write_failed].
  apply wp_in_disk_bind. wp_step. apply wp_write_int.
  intros w2 c2 vs2 Hp2. pose proof (progress_trans _ _ _ _ _ _ _ _ _ _ Hp1 e0 Hp2) as Hp12.
  destruct (Z.ltb_spec w2 0); [apply wp_in_disk_ret, (HQ 0); try done; write_failed|].
  apply wp_in_disk_bind. wp_step.
  apply (wp_mono _ _ _ (λ _ e' d', mallocs e' = mallocs e ∧ live e' = live e ∧ d' = with_file fd c2 vs2 d)).
  { apply wp_zoom. unfold wp, wall_time. by destruct (walls e). }
  intros ts e' d' (Hm & Hl & ->). apply wp_in_disk_bind. wp_step. apply wp_write.
  intros w3 c3 vs3 Hp3. pose proof (progress_trans _ _ _ _ _ _ _ _ _ _ Hp12 ltac:(lia) Hp3) as Hp13.
  change (Z.of_nat (String.length (be32 (ts / 2 ^ 32)))) with 4 in Hp13.
  destruct (Z.eqb_spec w3 4) as [e1|]; [|apply wp_in_disk_ret, (HQ 0); try done; write_failed].
  apply wp_in_disk_bind. wp_step. apply wp_write.
  intros w4 c4 vs4 Hp4. pose proof (progress_trans _ _ _ _ _ _ _ _ _ _ Hp13 e1 Hp4) as Hp.
  change (Z.of_nat (String.length (be32 (ts mod 2 ^ 32)))) with 4 in Hp.
  destruct (Z.eqb_spec w4 4); [|apply wp_in_disk_ret, (HQ 0); try done; write_failed].
  apply wp_in_disk_ret, (HQ ts); try done. by eapply progress_iff.
Qed.
Arguments rdb_save_header : simpl never.

(** What a save leaves behind, whatever the disk does.  The engines and every other file
    are untouched.  When it answers -1 the file is as it was.  When it answers the number of
    pairs, every name of an engine's pair, every text and the header have been written:
    the file is the dump up to bytes of integers that a short write has dropped, and to
    the end mark, whose write nobody looks at.  On a disk that writes everything or
    fails, only the end mark may be missing; on a disk that does not fail, the save
    succeeds and the file is the dump. *)
Definition tmp_name (filename : string) : string := str_take 255 (filename +:+ ".tmp").
Record save_post filename d ma mh mr ms (r : Z) (d' : dataset) : Prop := {
  sp_code : r = -1 ∨ r = total_pairs ma mh mr ms;
  sp_engines : d' = d_set_disk (d_disk d') d;
  sp_others f : f ≠ tmp_name filename → f ≠ filename → files (d_disk d') !! f = files (d_disk d) !! f;
  sp_failed : r = -1 → filename ≠ tmp_name filename →
    files (d_disk d') !! filename = files (d_disk d) !! filename;
  sp_published : r ≠ -1 → ∃ ts la lh lr ls body n,
    lists la ma ∧ lists lh mh ∧ lists lr mr ∧ lists ls ms ∧
    files (d_disk d') !! filename = Some (body +:+ str_take n (be32 (-1))) ∧
    cut (p_body ts la lh lr ls) body ∧
    (whole (verdicts (d_disk d)) → body = pieces_text (p_body ts la lh lr ls) ∧ (n = 0%nat ∨ n = 4%nat)) ∧
    (verdicts (d_disk d) = [] → n = 4%nat);
  sp_saved : verdicts (d_disk d) = [] → r = total_pairs ma mh mr ms ∧ verdicts (d_disk d') = []
}.

Lemma save_post_saved filename d ma mh mr ms r d' :
  save_post filename d ma mh mr ms r d' → verdicts (d_disk d) = [] →
  r = total_pairs ma mh mr ms ∧ verdicts (d_disk d') = [] ∧
  ∃ ts la lh lr ls, lists la ma ∧ lists lh mh ∧ lists lr mr ∧ lists ls ms ∧
    files (d_disk d') !! filename = Some (enc_dump ts la lh lr ls).
Proof.
  intros [_ _ _ _ Hp Hs] Hv. destruct (Hs Hv) as [Hr Hv']. split_and!; [done..|].
  destruct Hp as (ts & la & lh & lr & ls & body & n & Ha & Hh & Hrb & Hsk & Hf & _ & Hw & Hn).
  { unfold total_pairs in Hr. lia. }
  exists ts, la, lh, lr, ls. split_and!; [done..|]. rewrite Hf, (Hn Hv). rewrite Hv in Hw.
  destruct Hw as [-> _]; [by constructor|]. by rewrite <-pieces_dump, pieces_text_app.
Qed.

(** The ways to fail: the temporary file is removed. *)
Lemma wp_save_fail filename c vs vs' ps (P : Prop) c' ma mh mr ms d e :
  progress (verdicts (d_disk d)) c ps c' vs P → ¬ P →
  wp (in_disk (unlink (tmp_name filename));; mret (-1)) e (with_file (tmp_name filename) c' vs' d)
    (λ r e' d', mallocs e' = mallocs e ∧ live e' = live e ∧ save_post filename d ma mh mr ms r d').
Proof.
  intros Hp HP. wp_step. apply wp_zoom. unfold unlink. repeat wp_step. split_and!; [done..|]. split.
  - by left.
  - done.
  - intros f Hf _. simpl. by rewrite lookup_delete_ne, lookup_insert_ne.
  - intros _ Hf. simpl. by rewrite lookup_delete_ne, lookup_insert_ne.
  - done.
  - by intros [_ ?]%(pg_ok _ _ _ _ _ _ Hp).
Qed.

Lemma wp_open_trunc fd d e Q :
  (∀ vs, verdicts (d_disk d) ≠ [] → Q false e (d_set_disk (Disk (files (d_disk d)) vs) d)) →
  (∀ vs, (verdicts (d_disk d) = [] → vs = []) ∧ (whole (verdicts (d_disk d)) → whole vs) → Q true e (with_file fd "" vs d)) →
  wp (in_disk (open_trunc fd)) e d Q.
Proof.
  intros Hno Hyes. apply wp_zoom. unfold open_trunc. wp_step. unfold wp at 1, next_verdict.
  unfold with_file in Hyes. destruct (d_disk d) as [fs [|[|n|] vs]]; simpl in *; repeat wp_step; simpl;
    first [apply Hyes; split; solve [done|apply whole_tail]|by apply Hno].
Qed.

Lemma wp_rename fd filename c vs d e Q :
  (∀ vs', (vs = [] → False) → Q (-1) e (with_file fd c vs' d)) →
  (∀ vs', (vs = [] → vs' = []) → Q 0 e
    (d_set_disk (Disk (<[filename := c]> (delete fd (files (d_disk d)))) vs') d)) →
  wp (in_disk (rename fd filename)) e (with_file fd c vs d) Q.
Proof.
  intros Hno Hyes. apply wp_zoom. unfold rename. wp_step. unfold wp at 1, next_verdict.
  destruct vs as [|[|n|] vs]; simpl; repeat wp_step; simpl; rewrite ?lookup_insert_eq; repeat wp_step; simpl;
    rewrite ?delete_insert_eq; first [by apply Hyes|by apply Hno].
Qed.

Lemma wp_rdb_save filename d ma mh mr ms e :
  ds_rep d ma mh mr ms → all_pairs pair_fits ma mh mr ms → total_pairs ma mh mr ms ≤ INT_MAX →
  wp (rdb_save filename) e d (λ r e' d',
    mallocs e' = mallocs e ∧ live e' = live e ∧ save_post filename d ma mh mr ms r d').
Proof.
  intros Hr Hfit Hmax. unfold rdb_save. fold (tmp_name filename). wp_step.
  apply wp_open_trunc; intros vs Hvs; simpl negb; cbv iota.
  { wp_step. split_and!; [done..|]. split; [by left|done|done|done|done|done]. }
  wp_step. apply wp_save_header. intros ts r1 e1 c1 vs1 Hm1 Hl1 Hp1 Hr1.
  rewrite <-Hm1, <-Hl1. assert (Hpre : progress (verdicts (d_disk d)) "" (p_header ts) c1 vs1 (r1 = 0)).
  { destruct Hp1 as [A B C]. destruct Hvs as [H1 H2]. split; [auto|auto|]. intros H. destruct (C H) as (t & ? & ? & Ht). exists t. auto. }
  destruct (Z.ltb_spec r1 0).
  { eapply wp_save_fail; [exact Hpre|lia]. }
  wp_step. eapply wp_save_engines; [exact Hr|done|done|].
  intros la lh lr ls r2 c2 vs2 Hla Hlh Hlr Hls Hp2 Hr2.
  pose proof (progress_trans _ _ _ _ _ _ _ _ _ _ Hpre ltac:(lia) Hp2) as Hp. fold (p_body ts la lh lr ls) in Hp.
  destruct Hr2 as [->| ->]; [eapply wp_save_fail; [exact Hp|naive_solver]|].
  wp_step. apply wp_write_end. intros r3 n vs3 Hv3 Hn Hn0.
  wp_step. apply wp_rename; intros vs4 Hvs4.
  { change (-1 <? 0) with true. cbv iota. eapply (wp_save_fail _ "" [] _ [] False); [|tauto].
    split; [|by constructor|done]. intros H'. destruct (pg_ok _ _ _ _ _ _ Hp H') as [Hv2 _]. by destruct (Hvs4 (Hv3 Hv2)). }
  change (0 <? 0) with false. cbv iota. wp_step. split_and!; [done..|].
  assert (Htot : 0 ≤ total_pairs ma mh mr ms) by (unfold total_pairs; lia).
  destruct (pg_file _ _ _ _ _ _ Hp ltac:(done)) as (body & -> & Hcut & Hwhole).
  split; [by right|done| |lia| |].
  - intros f Hf Hff. simpl. by rewrite lookup_insert_ne, lookup_delete_ne.
  - intros _. exists ts, la, lh, lr, ls, body, n. split_and!; try done.
    + simpl. by rewrite lookup_insert_eq.
    + intros Hw. split; [by apply Hwhole|]. by apply Hn, (pg_whole _ _ _ _ _ _ Hp).
    + intros Hv. by apply Hn0, (pg_ok _ _ _ _ _ _ Hp).
  - intros Hv. destruct (pg_ok _ _ _ _ _ _ Hp Hv) as [Hv2 _]. split; [done|]. simpl. auto.
Qed.
End saving.

(** * Loading *)

(** The strings a dump can carry: not empty, at most a megabyte, without a NUL. *)
Definition storable (s : string) : Prop :=
  0 < Z.of_nat (String.length s) ≤ 1024 * 1024 ∧ c_str s = s.
#[export] Instance storable_dec s : Decision (storable s).
Proof. unfold storable. apply _. Defined.
Definition pair_storable (kv : string * string) : Prop := storable kv.1 ∧ storable kv.2.

Lemma storable_fits s : storable s → fits s.
Proof. unfold storable, fits, INT_MAX. lia. Qed.

Lemma wp_read_string s rest e d Q :
  storable s → no_oom e → Q (0, PStr s, rest) (after_malloc e) d →
  wp (rdb_read_string (enc_str s +:+ rest)) e d Q.
Proof.
  intros [Hs Hc] He HQ. unfold rdb_read_string, enc_str. rewrite str_app_assoc.
  rewrite rdb_read_write_int by (unfold INT_MIN, INT_MAX; lia).
  rewrite (proj2 (Z.leb_gt _ _)), (proj2 (Z.ltb_ge _ _)) by lia. simpl orb. cbv iota.
  wp_step. wp_step. rewrite no_oom_fails by done. cbv iota beta delta [negb].
  rewrite Nat2Z.id, read_app, Z.eqb_refl. wp_step. by rewrite Hc.
Qed.
Arguments rdb_read_string : simpl never.

Section load_block.
Context {S : Type} (ops : kv_ops S) `{!KVEngine ops} (engine : Z).
Context (get : dataset → S) (set : S → dataset → dataset).
Hypothesis get_set : ∀ s d, get (set s d) = s.
Hypothesis set_set : ∀ s s' d, set s (set s' d) = set s d.
Hypothesis set_get : ∀ d, set (get d) d = d.
Hypothesis load_entry_is : ∀ k v,
  load_entry engine k v = (zoom get set (kv_set ops k v);; mret 1).
Hypothesis engine_ok : 0 ≤ engine ≤ 3.

Definition loadable (kv : string * string) : Prop := pair_storable kv ∧ kv_key_ok kv.1.

(** A block of entries of one engine is inserted into it. *)
Lemma wp_load_block l fuel rest count e d m Q :
  kv_rep (get d) m → NoDup l.*1 → (∀ k, k ∈ l.*1 → m !! k = None) → Forall loadable l →
  (∀ c, kv_cap = Some c → Z.of_nat (size m + length l) ≤ c) → no_oom e →
  0 ≤ count → count + Z.of_nat (length l) ≤ INT_MAX →
  (∀ e' s, no_oom e' → live e' = live e + kv_blocks * Z.of_nat (length l) →
    kv_rep s (list_to_map l ∪ m) →
    wp (load_loop fuel rest (count + Z.of_nat (length l))) e' (set s d) Q) →
  wp (load_loop (length l + fuel) (enc_block engine l +:+ rest) count) e d Q.
Proof.
  revert count e d m. induction l as [|[k v] l IH]; intros count e d m Hr Hnd Hfresh Hl Hcap He Hc Hmax HQ.
  { simpl length in *. rewrite <-(set_get d). specialize (HQ e (get d) He).
    rewrite Z.add_0_r in HQ. apply HQ; [lia|]. simpl. by rewrite (left_id_L ∅ (∪)). }
  rewrite fmap_cons in Hnd. apply NoDup_cons in Hnd as [Hk Hnd].
  apply Forall_cons in Hl as [[[Hsk Hsv] Hkok] Hl]. simpl in Hsk, Hsv, Hkok, Hk.
  cbn [length Nat.add load_loop enc_block]. unfold enc_entry. rewrite !str_app_assoc.
  cbn [fst snd].
  rewrite rdb_read_write_int by (unfold INT_MIN, INT_MAX; lia).
  rewrite (proj2 (Z.eqb_neq _ _)) by lia.
  wp_step. apply wp_read_string; [done|done|]. change (0 <? 0) with false. cbv iota.
  wp_step. apply wp_read_string; [done|by apply no_oom_after|]. change (0 <? 0) with false. cbv iota.
  rewrite load_entry_is. do 2 wp_step. apply wp_zoom.
  assert (Hmk : m !! k = None) by (apply Hfresh; by left).
  assert (Hroom : has_room kv_cap m).
  { unfold has_room. destruct kv_cap as [c|]; [|done]. specialize (Hcap c eq_refl). simpl in Hcap. lia. }
  assert (He2 : no_oom (after_malloc (after_malloc e))) by (by do 2 apply no_oom_after).
  eapply wp_mono; [eapply kv_set_law; [exact Hr|done|by eapply kv_set_pre_law]|].
  intros r e' s' (He' & Hpos & m' & Hpost & Hb & Hr'). specialize (He' He2). specialize (Hpos He2 Hroom).
  destruct Hpost as [(_ & [x Hx] & _)|[(_ & _ & ->)|[Hneg _]]]; [congruence| |lia].
  repeat wp_step. change (1 =? 1) with true. cbv iota. apply wp_ck_int; [unfold INT_MIN; simpl in Hmax; lia|].
  unfold pair_blocks in Hb. rewrite map_size_insert_None in Hb by done.
  rewrite !live_after_malloc, !no_oom_fails in Hb by (done || by apply no_oom_after).
  apply (IH _ _ _ (<[k := v]> m)); try done; try lia.
  - by rewrite get_set.
  - intros k' Hk'. rewrite lookup_insert_ne; [apply Hfresh; by right|]. by intros ->.
  - intros c Hcc. rewrite map_size_insert_None by done. specialize (Hcap c Hcc). simpl in Hcap. lia.
  - simpl in Hmax. lia.
  - intros e2 s2 He2' Hl2 Hr2. rewrite set_set, <-count_succ. apply HQ; [done| |].
    + rewrite Hl2. simpl length. simpl live. lia.
    + simpl. rewrite <-insert_union_l, insert_union_r; [done|]. by apply not_elem_of_list_to_map_1.
Qed.
End load_block.

(** ** The whole file *)

Lemma rdb_load_header_app ts rest :
  ∃ stamp, rdb_load_header (enc_header ts +:+ rest) = Some (RDB_VERSION, stamp, rest).
Proof.
  unfold rdb_load_header, enc_header. rewrite !str_app_assoc.
  pose proof (read_app RDB_MAGIC) as H5. change (String.length RDB_MAGIC) with 5%nat in H5.
  assert (H4 : ∀ z s, read 4 (be32 z +:+ s) = (be32 z, s)) by (intros; apply (read_app (be32 z))).
  rewrite H5. change (negb (String.eqb RDB_MAGIC RDB_MAGIC)) with false. cbv iota.
  rewrite rdb_read_write_int by done. change (negb (RDB_VERSION =? RDB_VERSION)) with false. cbv iota.
  rewrite !H4, !of_be32_be32. by eexists.
Qed.

Definition all_loadable (ma mh mr ms : gmap string string) : Prop :=
  all_pairs pair_storable ma mh mr ms ∧ map_Forall (λ k _, hash_key_ok k) mh.

Lemma all_loadable_fits ma mh mr ms : all_loadable ma mh mr ms → all_pairs pair_fits ma mh mr ms.
Proof.
  intros [H _]. unfold all_pairs in *. eapply Forall_impl; [exact H|]. intros m Hm k v Hkv.
  destruct (Hm k v Hkv). split; by apply storable_fits.
Qed.

Lemma length_enc_block engine l :
  (length l ≤ String.length (enc_block engine l))%nat.
Proof.
  induction l as [|kv l IH]; [done|]. simpl. unfold enc_entry.
  rewrite !str_len_app. change (String.length (be32 engine)) with 4%nat. lia.
Qed.

(** A load of the four blocks into empty engines. *)
Lemma wp_rdb_load filename bytes ts la lh lr ls d ma mh mr ms e :
  files (d_disk d) !! filename = Some bytes → verdicts (d_disk d) = [] →
  bytes = enc_dump ts la lh lr ls →
  lists la ma → lists lh mh → lists lr mr → lists ls ms → all_loadable ma mh mr ms →
  Z.of_nat (size ma) ≤ KVS_ARRAY_SIZE → total_pairs ma mh mr ms ≤ INT_MAX → no_oom e →
  ds_rep d ∅ ∅ ∅ ∅ →
  wp (rdb_load filename) e d (λ r e' d',
    r = total_pairs ma mh mr ms ∧ no_oom e' ∧ d_disk d' = d_disk d ∧ ds_rep d' ma mh mr ms).
Proof.
  intros Hf Hv -> Hla Hlh Hlr Hls [Hst Hhk] Hna Hmax He [Ha Hh Hr Hs].
  apply Forall_cons in Hst as [Hfa [Hfh [Hfr [Hfs _]%Forall_cons]%Forall_cons]%Forall_cons].
  pose proof (lists_fit _ _ _ Hla Hfa) as Hpa. pose proof (lists_fit _ _ _ Hlh Hfh) as Hph.
  pose proof (lists_fit _ _ _ Hlr Hfr) as Hpr. pose proof (lists_fit _ _ _ Hls Hfs) as Hps.
  pose proof (lists_fit (λ kv, hash_key_ok kv.1) _ _ Hlh Hhk) as Hkh.
  unfold rdb_load. wp_step.
  apply (wp_mono _ _ _ (λ o e' d', o = Some (enc_dump ts la lh lr ls) ∧ e' = e ∧ d' = d)).
  { apply wp_zoom. unfold open_read. wp_step. unfold wp at 1, next_verdict. rewrite Hv. repeat wp_step.
    by destruct d. }
  intros o e1 d1 (-> & -> & ->). unfold enc_dump.
  destruct (rdb_load_header_app ts (enc_block ENGINE_ARRAY la +:+ enc_block ENGINE_HASH lh +:+
    enc_block ENGINE_RBTREE lr +:+ enc_block ENGINE_SKIPLIST ls +:+ be32 (-1))) as [stamp ->].
  match goal with |- wp (load_loop (S ?n) _ _) _ _ _ =>
    assert (Hfuel : ∃ f, S n = (length la + (length lh + (length lr + (length ls + S f))))%nat) end.
  { rewrite !str_len_app. pose proof (length_enc_block ENGINE_ARRAY la).
    pose proof (length_enc_block ENGINE_HASH lh). pose proof (length_enc_block ENGINE_RBTREE lr).
    pose proof (length_enc_block ENGINE_SKIPLIST ls).
    match goal with |- ∃ f, S ?n = _ =>
      exists (n - (length la + length lh + length lr + length ls))%nat end. lia. }
  destruct Hfuel as [f ->]. unfold total_pairs in *.
  rewrite <-(lists_length _ _ Hla), <-(lists_length _ _ Hlh), <-(lists_length _ _ Hlr),
    <-(lists_length _ _ Hls) in *.
  apply (wp_load_block array_ops ENGINE_ARRAY d_array d_set_array) with (m := ∅);
    [done|done|by intros []|done|done|exact Ha|apply Hla|done| | |done|lia|lia|].
  { eapply Forall_impl; [exact Hpa|]. done. }
  { intros c [= <-]. rewrite map_size_empty. lia. }
  intros e1 s1 He1 _ Hr1.
  apply (wp_load_block hash_ops ENGINE_HASH d_hash d_set_hash) with (m := ∅);
    [done|done|by intros []|done|done|exact Hh|apply Hlh|done| | |done|lia|lia|].
  { apply Forall_and. by split. }
  { intros c [= <-]. rewrite map_size_empty. lia. }
  intros e2 s2 He2 _ Hr2.
  apply (wp_load_block rbtree_ops ENGINE_RBTREE d_rbtree d_set_rbtree) with (m := ∅);
    [done|done|by intros []|done|done|exact Hr|apply Hlr|done| |done|done|lia|lia|].
  { eapply Forall_impl; [exact Hpr|]. done. }
  intros e3 s3 He3 _ Hr3.
  apply (wp_load_block skip_ops ENGINE_SKIPLIST d_skip d_set_skip) with (m := ∅);
    [done|done|by intros []|done|done|exact Hs|apply Hls|done| |done|done|lia|lia|].
  { eapply Forall_impl; [exact Hps|]. done. }
  intros e4 s4 He4 _ Hr4. cbn [load_loop].
  pose proof (rdb_read_write_int (-1) "") as Hend. rewrite str_app_nil in Hend.
  rewrite Hend by done. change (-1 =? -1) with true. cbv iota. wp_step.
  rewrite (right_id_L ∅ (∪)) in Hr1, Hr2, Hr3, Hr4.
  split_and!; [lia|done|done|].
  split; simpl; [by rewrite (proj2 Hla)|by rewrite (proj2 Hlh)|by rewrite (proj2 Hlr)|by rewrite (proj2 Hls)].
Qed.

(** * The theorems *)

Lemma length_omap_le {A B} (f : A → option B) l : (length (omap f l) ≤ length l)%nat.
Proof. induction l as [|x l IH]; [done|]. csimpl. destruct (f x); simpl; lia. Qed.
Lemma array_rep_fits a m : array_rep a m → Z.of_nat (size m) ≤ KVS_ARRAY_SIZE.
Proof.
  intros (t & _ & Hok & _ & ->). rewrite map_size_list_to_map by apply Hok.
  rewrite <-(tab_len _ _ Hok). apply inj_le, length_omap_le.
Qed.

(** Concrete engines: the array and the tree hold one pair, the others none. *)
Definition one_pair : gmap string string := {[ "k" := "v" ]}.
Definition no_faults : env := Env [] [] [] [] 0.

Lemma engine_with {S} (ops : kv_ops S) `{!KVEngine ops} (create : M S Z) s k v :
  kv_key_ok k → has_room kv_cap ∅ →
  wp create no_faults s (λ _ e' s', no_oom e' ∧ kv_rep s' ∅) →
  ∃ s', kv_rep s' (<[k := v]> ∅).
Proof.
  intros Hk Hroom Hc. apply wp_run in Hc as (z & e1 & s1 & _ & He1 & Hr1).
  pose proof (kv_set_law e1 s1 ∅ k v Hr1 Hk (kv_set_pre_law _ _ _ Hr1 He1 Hroom)) as Hset.
  apply wp_run in Hset as (r & e2 & s2 & _ & _ & Hpos & m' & Hpost & _ & Hr2).
  specialize (Hpos He1 Hroom). destruct Hpost as [(_ & [x Hx] & _)|[(_ & _ & ->)|[Hneg _]]]; [done| |lia].
  by exists s2.
Qed.

Definition engines_empty (d : dataset) : Prop := ds_rep d ∅ ∅ ∅ ∅.

(** C17: a save never changes the engines or another file, whatever the disk does
    (failing or short writes, a failed open or rename).  It returns -1 and the old file is
    intact, or it returns the number of pairs and has replaced the file at once by a dump
    of them in which every text has been written whole: only bytes of integers, at a
    short write, and the end mark, at any failure, may be missing, since the code does
    not notice that.  On a disk that writes everything it is told or fails, only the end
    mark may be missing; on a disk that does not fail, nothing is.  (The texts are shorter
    than 2 GB, and the file's name is not so long that its ".tmp" is cut off.) *)
Theorem rdb_save_atomic filename d ma mh mr ms e :
  ds_rep d ma mh mr ms → all_pairs pair_fits ma mh mr ms → total_pairs ma mh mr ms ≤ INT_MAX →
  wp (rdb_save filename) e d (λ r e' d',
    live e' = live e ∧ save_post filename d ma mh mr ms r d').
Proof.
  intros Hr Hf Hm. eapply wp_mono; [by apply wp_rdb_save|]. by intros r e' d' (_ & ? & ?).
Qed.

(** C18: what a save wrote, a load restores: when no key or value is empty, longer than a
    megabyte or holds a NUL ([rdb_empty_value_lost] is what an empty value does), and the
    disk does not fail, and the keys of the hash table are ones it can index, loading the
    dump into new engines gives back the four maps and
    reports as many pairs as the save did. *)
Theorem rdb_roundtrip filename d ma mh mr ms e :
  ds_rep d ma mh mr ms → all_loadable ma mh mr ms → total_pairs ma mh mr ms ≤ INT_MAX →
  verdicts (d_disk d) = [] →
  wp (rdb_save filename) e d (λ r _ d',
    r = total_pairs ma mh mr ms ∧
    ∀ e0 d0, no_oom e0 → engines_empty d0 → d_disk d0 = d_disk d' →
      wp (rdb_load filename) e0 d0 (λ r' _ d1, r' = r ∧ ds_rep d1 ma mh mr ms)).
Proof.
  intros Hr Hl Hmax Hv. eapply wp_mono; [apply wp_rdb_save; [exact Hr|by apply all_loadable_fits|done]|].
  intros r e' d' (_ & _ & Hs). destruct (save_post_saved _ _ _ _ _ _ _ _ Hs Hv) as (-> & Hv' & ts & la & lh & lr & ls & Ha & Hh & Hrb & Hsk & Hf).
  split; [done|]. intros e0 d0 He0 Hd0 Hdisk. rewrite <-Hdisk in Hf, Hv'.
  eapply wp_mono; [eapply wp_rdb_load; try done; apply (array_rep_fits (d_array d)), Hr|].
  intros r' e1 d1 (-> & _ & _ & Hd1). done.
Qed.

(** The dataset of the witnesses. *)
Lemma sample_dataset (fs : gmap string string) :
  ∃ d, ds_rep d one_pair ∅ one_pair ∅ ∧ d_disk d = Disk fs [].
Proof.
  destruct (engine_with array_ops (kvs_array_create IGlobal) global_array "k" "v") as [a Ha]; [done|done| |].
  { eapply wp_mono; [by apply wp_array_create|]. simpl. intros r e' s' (He & _ & _ & Hr).
    split; [apply He; constructor|exact Hr]. }
  destruct (engine_with rbtree_ops (kvs_rbtree_create IGlobal) global_rbtree "k" "v") as [t Ht]; [done|done| |].
  { eapply wp_mono; [by apply wp_rb_create|]. simpl. intros r e' s' (He & _ & _ & Hr).
    split; [apply He; constructor|exact Hr]. }
  pose proof (wp_hash_create no_faults) as Hh. apply wp_run in Hh as (? & ? & h & _ & _ & _ & _ & Hh).
  pose proof (wp_skip_create no_faults) as Hs. apply wp_run in Hs as (? & ? & s & _ & _ & Hs & _).
  destruct Hs as (_ & _ & Hs); [constructor|]. by exists (DS a t h s (Disk fs [])).
Qed.
Lemma sample_loadable : all_loadable one_pair ∅ one_pair ∅.
Proof.
  split; [|apply map_Forall_empty].
  repeat (apply Forall_cons; split); try apply map_Forall_empty; try done;
    apply map_Forall_singleton; vm_compute; intuition discriminate.
Qed.

Lemma rdb_save_atomic_witness :
  ∃ d, ds_rep d one_pair ∅ one_pair ∅ ∧
    wp (rdb_save "dump.rdb") no_faults d (λ r e' d',
      live e' = live no_faults ∧ save_post "dump.rdb" d one_pair ∅ one_pair ∅ r d').
Proof.
  destruct (sample_dataset ∅) as (d & Hd & _). exists d. split; [exact Hd|].
  apply (rdb_save_atomic "dump.rdb" d one_pair ∅ one_pair ∅ no_faults Hd);
    [apply all_loadable_fits, sample_loadable|by vm_compute].
Defined.

Lemma rdb_roundtrip_witness :
  ∃ d, ds_rep d one_pair ∅ one_pair ∅ ∧
    wp (rdb_save "dump.rdb") no_faults d (λ r _ d',
      r = 2 ∧ ∀ e0 d0, no_oom e0 → engines_empty d0 → d_disk d0 = d_disk d' →
        wp (rdb_load "dump.rdb") e0 d0 (λ r' _ d1, r' = r ∧ ds_rep d1 one_pair ∅ one_pair ∅)).
Proof.
  destruct (sample_dataset ∅) as (d & Hd & Hk). exists d. split; [exact Hd|].
  apply (rdb_roundtrip "dump.rdb" d one_pair ∅ one_pair ∅ no_faults Hd sample_loadable);
    [by vm_compute|by rewrite Hk].
Defined.

(** ** What a damaged or unusual file does *)

(** Reading the start of a load: the header is skipped. *)
Lemma load_after_header filename ts rest d e :
  files (d_disk d) !! filename = Some (enc_header ts +:+ rest) → verdicts (d_disk d) = [] →
  rdb_load filename e d = load_loop (S (String.length rest)) rest 0 e d.
Proof.
  intros Hf Hv. unfold rdb_load, open_read, in_disk, zoom, mbind, M_bind, next_verdict.
  rewrite Hv. simpl. rewrite Hf. destruct (rdb_load_header_app ts rest) as [stamp ->]. by destruct d.
Qed.



(** An empty value (or key) is written by a save but refused by a load, which
    then stops: of a dump whose first pair has an empty value nothing is restored,
    although the file is complete. *)
Theorem rdb_empty_value_lost filename ts k la lh lr ls d e :
  files (d_disk d) !! filename = Some (enc_dump ts ((k, "") :: la) lh lr ls) →
  verdicts (d_disk d) = [] → no_oom e → storable k →
  wp (rdb_load filename) e d (λ r e' d', r = 0 ∧ d' = d ∧ live e' = live e).
Proof.
  intros Hf Hv He Hk. unfold wp at 1. rewrite (load_after_header _ _ _ _ _ Hf Hv).
  match goal with |- context [load_loop ?n ?s 0 e d] => change (wp (load_loop n s 0) e d
    (λ r e' d', r = 0 ∧ d' = d ∧ live e' = live e)) end.
  cbn [load_loop enc_block]. unfold enc_entry. rewrite !str_app_assoc. cbn [fst snd].
  rewrite rdb_read_write_int by done. change (ENGINE_ARRAY =? -1) with false. cbv iota.
  wp_step. apply wp_read_string; [done|done|]. change (0 <? 0) with false. cbv iota.
  wp_step. unfold rdb_read_string, enc_str. rewrite !str_app_assoc, rdb_read_write_int by done.
  simpl orb. cbv iota. wp_step. change (-1 <? 0) with true. cbv iota.
  unfold free_if_set. simpl is_null. cbv iota. repeat wp_step. split_and!; [done..|].
  simpl. rewrite live_after_malloc, no_oom_fails by done. lia.
Qed.

Definition dump_of_empty : string := enc_dump 0 [("k", ""); ("m", "n")] [] [] [].
Lemma rdb_empty_value_lost_witness :
  let d := DS global_array global_rbtree global_hash global_skip
    (Disk {[ "dump.rdb" := dump_of_empty ]} []) in
  wp (rdb_load "dump.rdb") no_faults d (λ r e' d', r = 0 ∧ d' = d ∧ live e' = live no_faults).
Proof.
  intros d. apply (rdb_empty_value_lost "dump.rdb" 0 "k" [("m", "n")] [] [] [] d no_faults);
    [reflexivity|reflexivity|constructor|vm_compute; intuition discriminate].
Defined.
