(* ===== verification/Vector.v ===== *)
(** The vector engine, as the code has it: src/engine/kvs_vector.c.

    Vectors are lists of binary32 numbers; reading past the end of one is
    undefined behaviour.  The nodes live in a heap, the index is an array of
    node pointers; deletion only marks a node. *)
From Stdlib Require Import SpecFloat.
From stdpp Require Import pretty.
From S2P Require Import Prelude CText.

Local Open Scope Z_scope.

Definition MAX_DIM : Z := 1536.
Definition MAX_ELEMENTS : Z := 100000.
Definition M_MAX : Z := 32.
Definition EF_SEARCH : Z := 128.
Definition MAX_LAYERS : Z := 16.
(** [LAYER_DECAY] as a [float]. *)
Definition LAYER_DECAY : spec_float := f32_lit 253 10000.

(** * Data *)

Record HNSWNode := HNode {
  h_id : Z;
  h_level : Z;
  h_vector : list spec_float;
  h_dim : Z;
  h_key : cptr;
  h_is_deleted : Z;
  h_delete_time : Z;
  h_forward : list nptr;
  h_distances : list Z;
  h_neighbors_count : list Z
}.

Record HNSWIndex := HIndex {
  x_dim : Z;
  x_size : Z;
  x_deleted_count : Z;
  x_max_size : Z;
  x_max_level : Z;
  x_enterpoint_id : Z;
  x_ml : spec_float;
  x_nodes : list nptr;
  x_level_counts : option (list Z)
}.

(** [vec->index]: null, the index, or the address of a freed index. *)
Inductive iptr : Type :=
  | XNull
  | XIndex (x : HNSWIndex)
  | XFreed.
Definition inull (p : iptr) : bool := match p with XNull => true | _ => false end.

(** [kvs_vector_t], with the heap of the nodes. *)
Record kvs_vector := Vec {
  v_index : iptr;
  v_dim : Z;
  v_count : Z;
  v_max_size : Z;
  v_heap : gmap loc HNSWNode
}.

Definition global_vector : kvs_vector := Vec XNull 0 0 0 ∅.

Definition h_set_id z n := HNode z (h_level n) (h_vector n) (h_dim n) (h_key n) (h_is_deleted n)
  (h_delete_time n) (h_forward n) (h_distances n) (h_neighbors_count n).
Definition h_set_deleted z t n := HNode (h_id n) (h_level n) (h_vector n) (h_dim n) (h_key n) z
  t (h_forward n) (h_distances n) (h_neighbors_count n).
Definition h_set_forward l n := HNode (h_id n) (h_level n) (h_vector n) (h_dim n) (h_key n)
  (h_is_deleted n) (h_delete_time n) l (h_distances n) (h_neighbors_count n).
Definition h_set_neighbors l n := HNode (h_id n) (h_level n) (h_vector n) (h_dim n) (h_key n)
  (h_is_deleted n) (h_delete_time n) (h_forward n) (h_distances n) l.

Definition x_set_size z x := HIndex (x_dim x) z (x_deleted_count x) (x_max_size x) (x_max_level x)
  (x_enterpoint_id x) (x_ml x) (x_nodes x) (x_level_counts x).
Definition x_set_deleted_count z x := HIndex (x_dim x) (x_size x) z (x_max_size x) (x_max_level x)
  (x_enterpoint_id x) (x_ml x) (x_nodes x) (x_level_counts x).
Definition x_set_max_level z x := HIndex (x_dim x) (x_size x) (x_deleted_count x) (x_max_size x) z
  (x_enterpoint_id x) (x_ml x) (x_nodes x) (x_level_counts x).
Definition x_set_enterpoint z x := HIndex (x_dim x) (x_size x) (x_deleted_count x) (x_max_size x)
  (x_max_level x) z (x_ml x) (x_nodes x) (x_level_counts x).
Definition x_set_nodes l x := HIndex (x_dim x) (x_size x) (x_deleted_count x) (x_max_size x)
  (x_max_level x) (x_enterpoint_id x) (x_ml x) l (x_level_counts x).

Definition v_set_index x v := Vec x (v_dim v) (v_count v) (v_max_size v) (v_heap v).
Definition v_set_count z v := Vec (v_index v) (v_dim v) z (v_max_size v) (v_heap v).
Definition v_set_heap h v := Vec (v_index v) (v_dim v) (v_count v) (v_max_size v) h.

(** * Access *)

Definition get_index : M kvs_vector HNSWIndex :=
  p ← gets v_index;
  match p with XIndex x => mret x | _ => ub end.
Definition upd_index (f : HNSWIndex → HNSWIndex) : M kvs_vector unit :=
  x ← get_index;
  modify (v_set_index (XIndex (f x))).
Definition vload (p : nptr) : M kvs_vector HNSWNode :=
  match p with
  | Some x => h ← gets v_heap; some_or_ub (h !! x)
  | None => ub
  end.
Definition vstore (p : nptr) (f : HNSWNode → HNSWNode) : M kvs_vector unit :=
  match p with
  | Some x =>
      n ← vload p;
      modify (λ v, v_set_heap (<[x := f n]> (v_heap v)) v)
  | None => ub
  end.
(** [index->nodes[i]]. *)
Definition node_at (i : Z) : M kvs_vector nptr :=
  x ← get_index;
  if decide (0 ≤ i) then some_or_ub (x_nodes x !! Z.to_nat i) else ub.
Definition put_node (i : Z) (p : nptr) : M kvs_vector unit :=
  x ← get_index;
  if decide (0 ≤ i < Z.of_nat (length (x_nodes x))) then
    upd_index (x_set_nodes (<[Z.to_nat i := p]> (x_nodes x)))
  else ub.
(** [node->forward[level]]. *)
Definition forward_at (p : nptr) (level : Z) : M kvs_vector nptr :=
  n ← vload p;
  if decide (0 ≤ level) then some_or_ub (h_forward n !! Z.to_nat level) else ub.
Definition put_forward (p : nptr) (level : Z) (q : nptr) : M kvs_vector unit :=
  n ← vload p;
  if decide (0 ≤ level < Z.of_nat (length (h_forward n))) then
    vstore p (λ n, h_set_forward (<[Z.to_nat level := q]> (h_forward n)) n)
  else ub.

Definition vnull (p : nptr) : bool := match p with None => true | Some _ => false end.
(** The fuel of the walks along a layer. *)
Definition vec_fuel : M kvs_vector nat := h ← gets v_heap; mret (S (size h)).

(** * Distances *)

(** The sum over the first [dim] coordinates; past the end is undefined behaviour. *)
Fixpoint sum_coords (f : spec_float → spec_float → spec_float) (n : nat) (a b : list spec_float)
    (acc : spec_float) : option spec_float :=
  match n with
  | O => Some acc
  | S n' =>
      match a, b with
      | x :: a', y :: b' => sum_coords f n' a' b' (f32_add acc (f x y))
      | _, _ => None
      end
  end.
Definition square_diff (x y : spec_float) : spec_float := let d := f32_sub x y in f32_mul d d.

Definition euclidean_distance (a b : list spec_float) (dim : Z) : option spec_float :=
  sqrtf <$> sum_coords square_diff (Z.to_nat dim) a b f32_zero.
Definition dot_product (a b : list spec_float) (dim : Z) : option spec_float :=
  sum_coords f32_mul (Z.to_nat dim) a b f32_zero.
(** [1e-6], compared as a double. *)
Definition small_norm (x : spec_float) : bool :=
  SFltb x (f64_scale false 1 10 (-6)).
Definition cosine_similarity (a b : list spec_float) (dim : Z) : option spec_float :=
  dot ← dot_product a b dim;
  na ← dot_product a a dim;
  nb ← dot_product b b dim;
  let norm_a := sqrtf na in
  let norm_b := sqrtf nb in
  Some (if small_norm norm_a || small_norm norm_b then f32_zero
        else f32_div dot (f32_mul norm_a norm_b)).

(** * Levels *)

(** [(float)exp(-level * ml)] for the decay factor above, level 0 to 15. *)
Definition thresholds : list spec_float :=
  S754_finite false 8388608 (-23) ::
  ((λ m, S754_finite false m (-24)) <$>
     [16358077; 15949409; 15550951; 15162447; 14783649; 14414314; 14054207; 13703096; 13360756;
      13026969; 12701521; 12384204; 12074814; 11773153; 11479029]%positive).
Definition threshold_at (level : Z) : spec_float := default f32_zero (thresholds !! Z.to_nat level).

Definition uniform {S} : M S spec_float :=
  r ← rand; mret (f32_div (f32_of_Z r) (f32_of_Z RAND_MAX)).
Fixpoint random_level_loop {S} (fuel : nat) (level : Z) (r : spec_float) : M S Z :=
  match fuel with
  | O => out_of_fuel
  | S fuel' =>
      if SFltb r (threshold_at level) && (level <? MAX_LAYERS - 1) then
        r ← uniform;
        random_level_loop fuel' (level + 1) r
      else mret level
  end.
Definition random_level {S} : M S Z :=
  r ← uniform;
  random_level_loop (Z.to_nat MAX_LAYERS) 0 r.

(** * Nodes *)

(** [if (p) free(p)] of blocks that were allocated or not. *)
Definition free_if {S} (ok : bool) : M S unit := if ok then free_block else mret tt.

Definition hnsw_create_node (id : Z) (vector : list spec_float) (dim level : Z) (key : cptr)
    : M kvs_vector nptr :=
  ok ← malloc_ok;
  if negb ok then mret None else
  ok ← malloc_ok;
  if negb ok then free_block;; mret None else
  (if decide (Z.of_nat (length vector) < dim) then ub else mret tt);;
  k ← (if is_null key then mret PNull else kvs_strdup key);
  okf ← malloc_ok;
  okd ← malloc_ok;
  okn ← malloc_ok;
  if negb okf || negb okd || negb okn then
    free_if okf;; free_if okd;; free_if okn;;
    free_block;;
    kvs_free k;;
    free_block;;
    mret None
  else
    h ← gets v_heap;
    let x := fresh (dom h) in
    let n := Z.to_nat (level + 1) in
    modify (λ v, v_set_heap (<[x := HNode id level (take (Z.to_nat dim) vector) dim k 0 0
      (replicate n None) (replicate n 0) (replicate n 0)]> (v_heap v)) v);;
    mret (Some x).

Definition hnsw_free_node (p : nptr) : M kvs_vector unit :=
  match p with
  | None => mret tt
  | Some x =>
      n ← vload p;
      free_block;;
      kvs_free (h_key n);;
      free_block;; free_block;; free_block;;
      modify (λ v, v_set_heap (delete x (v_heap v)) v);;
      free_block
  end.

(** * Search *)

(** The searches along one layer that nothing calls.  [greedy_search] steps to the next
    node as long as it is nearer. *)
Fixpoint greedy_walk (fuel : nat) (query : list spec_float) (level : Z) (curr : nptr) (best_dist : spec_float)
    : M kvs_vector (nptr * spec_float) :=
  match fuel with
  | O => out_of_fuel
  | S fuel' =>
      next ← forward_at curr level;
      if vnull next then mret (curr, best_dist) else
      n ← vload next;
      x ← get_index;
      dist ← some_or_ub (euclidean_distance query (h_vector n) (x_dim x));
      if SFltb dist best_dist then greedy_walk fuel' query level next dist else mret (curr, best_dist)
  end.
Definition greedy_search (query : list spec_float) (level : Z) : M kvs_vector nptr :=
  x ← get_index;
  curr ← node_at (x_enterpoint_id x);
  c ← vload curr;
  best_dist ← some_or_ub (euclidean_distance query (h_vector c) (x_dim x));
  fuel ← vec_fuel;
  r ← greedy_walk fuel query level curr best_dist;
  let '(curr, best_dist) := r in
  next ← forward_at curr level;
  if vnull next then mret curr else
  n ← vload next;
  x ← get_index;
  dist ← some_or_ub (euclidean_distance query (h_vector n) (x_dim x));
  mret (if SFltb dist best_dist then next else curr).
(** On distances; larger ones come first. *)
Definition compare_result (da db : spec_float) : Z :=
  if SFltb db da then -1 else if SFltb da db then 1 else 0.
(** [search_layer] goes to the end of the layer and stores the last node but one where
    the caller wants it. *)
Fixpoint layer_end (fuel : nat) (query : list spec_float) (level : Z) (prev curr : nptr) (best_dist : spec_float)
    : M kvs_vector (nptr * nptr) :=
  match fuel with
  | O => out_of_fuel
  | S fuel' =>
      next ← forward_at curr level;
      if vnull next then mret (prev, curr) else
      n ← vload next;
      x ← get_index;
      dist ← some_or_ub (euclidean_distance query (h_vector n) (x_dim x));
      layer_end fuel' query level curr next (if SFltb dist best_dist then dist else best_dist)
  end.
Definition search_layer (ep : nptr) (query : list spec_float) (level : Z) (wanted : bool) : M kvs_vector (option nptr) :=
  c ← vload ep;
  x ← get_index;
  best_dist ← some_or_ub (euclidean_distance query (h_vector c) (x_dim x));
  fuel ← vec_fuel;
  r ← layer_end fuel query level None ep best_dist;
  let '(prev, curr) := r in
  if negb wanted then mret None else
  ok ← malloc_ok;
  if ok : bool then mret (Some (if vnull prev then curr else prev)) else ub.

(** The walk along one layer of [search_hnsw]. *)
Fixpoint layer_walk (fuel : nat) (query : list spec_float) (level : Z) (curr : nptr)
    (best_dist : spec_float) : M kvs_vector nptr :=
  match fuel with
  | O => out_of_fuel
  | S fuel' =>
      next ← forward_at curr level;
      if vnull next then mret curr else
      n ← vload next;
      if negb (h_is_deleted n =? 0) then mret curr else
      dist ← some_or_ub (euclidean_distance query (h_vector n) (h_dim n));
      if SFltb dist best_dist then layer_walk fuel' query level next dist else mret curr
  end.
(** From [level] down to 1. *)
Fixpoint layers_down (n : nat) (query : list spec_float) (level : Z) (curr : nptr)
    : M kvs_vector nptr :=
  match n with
  | O => mret curr
  | S n' =>
      c ← vload curr;
      if (h_level c <? level) then layers_down n' query (level - 1) curr else
  x ← get_index;
  best_dist ← some_or_ub (euclidean_distance query (h_vector c) (x_dim x));
  fuel ← vec_fuel;
  curr ← layer_walk fuel query level curr best_dist;
  layers_down n' query (level - 1) curr
  end.

(** The candidates: every live node but [curr], at most [EF_SEARCH] of them. *)
Fixpoint collect (n : nat) (i : Z) (query : list spec_float) (curr : nptr)
    (winners : list (nptr * spec_float)) : M kvs_vector (list (nptr * spec_float)) :=
  match n with
  | O => mret winners
  | S n' =>
      if negb (Z.of_nat (length winners) <? EF_SEARCH) then mret winners else
      p ← node_at i;
      if vnull p then collect n' (i + 1) query curr winners else
      nd ← vload p;
      if negb (h_is_deleted nd =? 0) then collect n' (i + 1) query curr winners else
      if negb (vnull curr) && bool_decide (p = curr) then collect n' (i + 1) query curr winners else
      dist ← some_or_ub (euclidean_distance query (h_vector nd) (h_dim nd));
      collect n' (i + 1) query curr (winners ++ [(p, dist)])
  end.

(** The exchange sort: position [i] against every later one. *)
Fixpoint exchange_row (n : nat) (i j : nat) (l : list (nptr * spec_float))
    : list (nptr * spec_float) :=
  match n with
  | O => l
  | S n' =>
      let l' := match l !! i, l !! j with
                | Some a, Some b => if SFltb b.2 a.2 then <[j := a]> (<[i := b]> l) else l
                | _, _ => l
                end in
      exchange_row n' i (S j) l'
  end.
Fixpoint exchange_rows (n i : nat) (l : list (nptr * spec_float)) : list (nptr * spec_float) :=
  match n with
  | O => l
  | S n' => exchange_rows n' (S i) (exchange_row (length l - S i) i (S i) l)
  end.
Definition exchange_sort (l : list (nptr * spec_float)) : list (nptr * spec_float) :=
  exchange_rows (pred (length l)) 0 l.

Fixpoint result_ids (l : list (nptr * spec_float)) : M kvs_vector (list (Z * spec_float)) :=
  match l with
  | [] => mret []
  | (p, d) :: l' =>
      n ← vload p;
      r ← result_ids l';
      mret ((h_id n, d) :: r)
  end.

(** [search_hnsw]: the ids and distances it stores in the caller's arrays. *)
Definition search_hnsw (query : list spec_float) (k : Z) : M kvs_vector (list (Z * spec_float)) :=
  x ← get_index;
  if (x_size x =? 0) || (x_enterpoint_id x <? 0) || (x_size x <=? x_enterpoint_id x) then mret [] else
  curr ← node_at (x_enterpoint_id x);
  curr ← (if vnull curr then mret None else
          c ← vload curr;
          mret (if negb (h_is_deleted c =? 0) then None else curr));
  curr ← (if vnull curr then mret None
          else layers_down (Z.to_nat (x_max_level x)) query (x_max_level x) curr);
  winners ← collect (Z.to_nat (x_size x)) 0 query curr [];
  winners ← (if vnull curr then mret winners else
             c ← vload curr;
             if (h_is_deleted c =? 0) && (Z.of_nat (length winners) <? EF_SEARCH) then
               d ← some_or_ub (euclidean_distance query (h_vector c) (h_dim c));
               mret (winners ++ [(curr, d)])
             else mret winners);
  result_ids (take (Z.to_nat k) (exchange_sort winners)).

(** * Insertion *)

(** The greedy walk of [insert_hnsw] along one layer: [prev] and [candidate]. *)
Fixpoint insert_walk (fuel : nat) (vector : list spec_float) (level : Z) (prev candidate : nptr)
    (new_dist : spec_float) : M kvs_vector (nptr * nptr) :=
  match fuel with
  | O => out_of_fuel
  | S fuel' =>
      next ← forward_at candidate level;
      c ← vload candidate;
      if vnull next || negb (level <=? h_level c) then mret (prev, candidate) else
      n ← vload next;
  x ← get_index;
  next_dist ← some_or_ub (euclidean_distance vector (h_vector n) (x_dim x));
  if SFltb next_dist new_dist then insert_walk fuel' vector level candidate next next_dist
  else mret (prev, candidate)
  end.
(** [node->neighbors_count[level]++], capped. *)
Definition bump_neighbors (p : nptr) (level : Z) : M kvs_vector unit :=
  n ← vload p;
  c ← (if decide (0 ≤ level) then some_or_ub (h_neighbors_count n !! Z.to_nat level) else ub);
  let c := if (M_MAX <? c + 1) then M_MAX else c + 1 in
  vstore p (λ n, h_set_neighbors (<[Z.to_nat level := c]> (h_neighbors_count n)) n).

Fixpoint link_layers (n : nat) (level : Z) (curr new_node : nptr) : M kvs_vector unit :=
  match n with
  | O => mret tt
  | S n' =>
      nn ← vload new_node;
      if (h_level nn <? level) then link_layers n' (level - 1) curr new_node else
      c ← vload curr;
      if (h_level c <? level) then link_layers n' (level - 1) curr new_node else
  x ← get_index;
  new_dist ← some_or_ub (euclidean_distance (h_vector nn) (h_vector c) (x_dim x));
  fuel ← vec_fuel;
  '(prev, candidate) ← insert_walk fuel (h_vector nn) level None curr new_dist;
  let prev := if vnull prev then candidate else prev in
  f ← forward_at prev level;
  put_forward new_node level f;;
  put_forward prev level new_node;;
  bump_neighbors new_node level;;
  link_layers n' (level - 1) curr new_node
  end.

Definition insert_hnsw (new_node : nptr) : M kvs_vector Z :=
  x ← get_index;
  if (x_max_size x <=? x_size x) then mret (-1) else
  let id := x_size x in
  vstore new_node (h_set_id id);;
  put_node id new_node;;
  upd_index (x_set_size (id + 1));;
  nn ← vload new_node;
  if (id + 1 =? 1) then
    upd_index (x_set_enterpoint 0);;
    upd_index (x_set_max_level (h_level nn));;
    mret 0
  else
  x ← get_index;
  (if (x_max_level x <? h_level nn) then upd_index (x_set_max_level (h_level nn)) else mret tt);;
  x ← get_index;
  curr ← node_at (x_enterpoint_id x);
  link_layers (Z.to_nat (x_max_level x + 1)) (x_max_level x) curr new_node;;
  mret 0.

(** * The interface *)

Definition kvs_vector_create (vec : instance) : M kvs_vector Z :=
  if inst_null vec then mret (-1) else
  modify (λ v, Vec (v_index v) MAX_DIM 0 MAX_ELEMENTS (v_heap v));;
  ok ← malloc_ok;
  if negb ok then modify (v_set_index XNull);; mret (-1) else
  ok ← malloc_ok;
  if negb ok then
    (* vec->index keeps the freed address *)
    free_block;; modify (v_set_index XFreed);; mret (-1)
  else
  okc ← malloc_ok;
  modify (v_set_index (XIndex (HIndex MAX_DIM 0 0 MAX_ELEMENTS 0 0 LAYER_DECAY
    (replicate (Z.to_nat MAX_ELEMENTS) None)
    (if okc : bool then Some (replicate (Z.to_nat MAX_LAYERS) 0) else None))));;
  wall_time;;
  mret 0.

Definition kvs_vector_destroy (vec : instance) : M kvs_vector unit :=
  if inst_null vec then mret tt else
  p ← gets v_index;
  if inull p then mret tt else
  x ← get_index;
  for_up (R := unit) (Z.to_nat (x_size x)) 0 (λ i,
    p ← node_at i;
    (if vnull p then mret tt else hnsw_free_node p;; put_node i None);;
    mret None);;
  free_block;;
  (match x_level_counts x with Some _ => free_block | None => mret tt end);;
  free_block;;
  modify (v_set_index XNull);;
  modify (v_set_count 0).

(** The coordinates read from the tokens after the dimension. *)
Fixpoint read_coords (n : nat) (tokens : list string) : option (list spec_float) :=
  match n with
  | O => Some []
  | S n' =>
      match tokens with
      | [] => None
      | t :: ts =>
          match read_coords n' ts with
          | Some l => Some (f32_of_f64 (atof t) :: l)
          | None => None
          end
      end
  end.

(** The live node with the key among the first [n] nodes from index [i]. *)
Fixpoint find_key (n : nat) (i : Z) (key : cptr) : M kvs_vector nptr :=
  match n with
  | O => mret None
  | S n' =>
      p ← node_at i;
      if vnull p then find_key n' (i + 1) key else
      nd ← vload p;
      if negb (h_is_deleted nd =? 0) || is_null (h_key nd) then find_key n' (i + 1) key else
      nk ← deref (h_key nd);
      k ← deref key;
      if (strcmp nk k =? 0) then mret p else find_key n' (i + 1) key
  end.

(** Marking a node as deleted. *)
Definition mark_deleted (p : nptr) : M kvs_vector unit :=
  t ← wall_time;
  vstore p (h_set_deleted 1 (t mod 2 ^ 64));;
  x ← get_index;
  upd_index (x_set_deleted_count (x_deleted_count x + 1));;
  modify (λ v, v_set_count (v_count v - 1) v).

Definition kvs_vector_set (vec : instance) (key value : cptr) : M kvs_vector Z :=
  if inst_null vec then mret (-1) else
  p ← gets v_index;
  if inull p || is_null key || is_null value then mret (-1) else
  x ← get_index;
  s ← deref value;
  match words s with
  | [] => mret (-1)
  | t :: ts =>
      vdim ← gets v_dim;
      let dim := atoi t in
      let dim := if (dim <=? 0) || (MAX_DIM <? dim) then vdim else dim in
      ok ← malloc_ok;
      if negb ok then mret (-1) else
      match read_coords (Z.to_nat dim) ts with
      | None => free_block;; mret (-1)
      | Some vector =>
          level ← random_level;
          node ← hnsw_create_node (x_size x) vector dim level key;
          free_block;;
          if vnull node then mret (-1) else
          r ← insert_hnsw node;
          if (r <? 0) then hnsw_free_node node;; mret (-1) else
          x ← get_index;
          old ← find_key (Z.to_nat (x_size x - 1)) 0 key;
          (if vnull old then mret tt else mark_deleted old);;
          modify (λ v, v_set_count (v_count v + 1) v);;
          mret 0
      end
  end.

(** The text of a vector: [buffer] holds [s], the next piece goes to [offset]. *)
Fixpoint print_coords (l : list spec_float) (s : string) (offset : Z) : string :=
  match l with
  | [] => s
  | x :: l' =>
      if (offset <? 8192 - 50) then
        let piece := fmt_f 4 x +:+ (match l' with [] => "]" | _ => "," end) in
        print_coords l' (s +:+ truncate (Z.to_nat (8192 - offset)) piece)
          (offset + Z.of_nat (String.length piece))
      else s
  end.
Definition print_node (n : HNSWNode) (key : string) : string :=
  let head := "key=" +:+ key +:+ ",id=" +:+ pretty (h_id n) +:+ ",dim=" +:+ pretty (h_dim n) +:+
              ",level=" +:+ pretty (h_level n) +:+ ",vec=[" in
  print_coords (take (Z.to_nat (h_dim n)) (h_vector n)) (truncate (Z.to_nat 8192) head)
    (Z.of_nat (String.length head)).

Definition kvs_vector_get (vec : instance) (key : cptr) : M kvs_vector cptr :=
  if inst_null vec then mret PNull else
  p ← gets v_index;
  if inull p || is_null key then mret PNull else
  x ← get_index;
  p ← find_key (Z.to_nat (x_size x)) 0 key;
  if vnull p then mret PNull else
  n ← vload p;
  k ← deref (h_key n);
  mret (PStr (print_node n k)).

(** The dimension of the first live node, 0 if there is none. *)
Fixpoint first_dim (n : nat) (i : Z) : M kvs_vector Z :=
  match n with
  | O => mret 0
  | S n' =>
      p ← node_at i;
      if vnull p then first_dim n' (i + 1) else
      nd ← vload p;
      if (h_is_deleted nd =? 0) then mret (h_dim nd) else first_dim n' (i + 1)
  end.

(** The result count is the length of the list; [None] is the answer -1. *)
Definition kvs_vector_search (vec : instance) (key : cptr) (k : Z) (query_str : cptr)
    : M kvs_vector (option (list (Z * spec_float))) :=
  if inst_null vec then mret None else
  p ← gets v_index;
  if inull p || is_null key || is_null query_str then mret None else
  x ← get_index;
  if (x_size x =? 0) then mret (Some []) else
  dim ← first_dim (Z.to_nat (x_size x)) 0;
  if (dim <=? 0) then mret (Some []) else
  ok ← malloc_ok;
  if negb ok then mret None else
  s ← deref query_str;
  let coords := (λ t, f32_of_f64 (atof t)) <$> take (Z.to_nat dim) (words s) in
  let query := coords ++ replicate (Z.to_nat dim - length coords) f32_zero in
  r ← search_hnsw query k;
  free_block;;
  mret (Some r).

Definition kvs_vector_del (vec : instance) (key : cptr) : M kvs_vector Z :=
  if inst_null vec then mret (-1) else
  p ← gets v_index;
  if inull p || is_null key then mret (-1) else
  x ← get_index;
  p ← find_key (Z.to_nat (x_size x)) 0 key;
  if vnull p then mret (-2) else
  mark_deleted p;;
  mret 0.

Definition kvs_vector_exist (vec : instance) (key : cptr) : M kvs_vector Z :=
  if inst_null vec then mret (-1) else
  p ← gets v_index;
  if inull p || is_null key then mret (-1) else
  x ← get_index;
  p ← find_key (Z.to_nat (x_size x)) 0 key;
  mret (if vnull p then 1 else 0).

Definition kvs_vector_count (vec : instance) : M kvs_vector Z :=
  if inst_null vec then mret 0 else
  p ← gets v_index;
  if inull p then mret 0 else
  x ← get_index;
  ck_int (x_size x - x_deleted_count x).

Definition kvs_vector_dim (vec : instance) : M kvs_vector Z :=
  if inst_null vec then mret 0 else
  p ← gets v_index;
  if inull p then mret 0 else
  x ← get_index;
  mret (x_dim x).

Definition kvs_vector_get_key_by_id (vec : instance) (id : Z) : M kvs_vector cptr :=
  if inst_null vec then mret PNull else
  p ← gets v_index;
  if inull p then mret PNull else
  x ← get_index;
  if (id <? 0) || (x_size x <=? id) then mret PNull else
  p ← node_at id;
  if vnull p then mret PNull else
  n ← vload p;
  mret (if negb (h_is_deleted n =? 0) then PNull else h_key n).
