(* ===== verification/VectorProof.v ===== *)
(** The vector engine on vectors of the full dimension: the operations of
    src/engine/kvs_vector.c refine a finite map from keys to vectors; and what
    happens to vectors of a smaller dimension. *)
From Stdlib Require Import SpecFloat.
From S2P Require Import Prelude CText Vector.

Local Open Scope Z_scope.

(** * Comparing distances *)

Lemma SFltb_irrefl x : SFltb x x = false.
Proof.
  unfold SFltb. destruct x as [[]|[]| |[] m e]; try done; cbn; rewrite Z.compare_refl;
    by rewrite (Pos.compare_cont_refl m Eq).
Qed.
Lemma SFltb_trans x y z : SFltb x y = true → SFltb y z = true → SFltb x z = true.
Proof.
  unfold SFltb. destruct x as [[]|[]| |[] m e], y as [[]|[]| |[] m' e'], z as [[]|[]| |[] m'' e'']; try done;
    cbn; repeat match goal with |- context [Pos.compare_cont Eq ?a ?b] =>
      change (Pos.compare_cont Eq a b) with (Pos.compare a b) end;
    destruct (Z.compare_spec e e') as [->|?|?], (Z.compare_spec e' e'') as [->|?|?]; try done;
    rewrite ?Z.compare_refl; try (rewrite (proj2 (Z.compare_lt_iff _ _)) by lia; done);
    try (rewrite (proj2 (Z.compare_gt_iff _ _)) by lia; done);
    destruct (Pos.compare_spec m m') as [->|?|?], (Pos.compare_spec m' m'') as [->|?|?]; try done;
    rewrite ?Pos.compare_refl; try done;
    first [rewrite (proj2 (Pos.compare_lt_iff _ _)) by lia; done
          |rewrite (proj2 (Pos.compare_gt_iff _ _)) by lia; done].
Qed.

Lemma sum_coords_some f n a b acc :
  (n ≤ length a)%nat → (n ≤ length b)%nat → is_Some (sum_coords f n a b acc).
Proof.
  revert a b acc. induction n as [|n IH]; intros a b acc Ha Hb; [by eexists|].
  destruct a as [|x a], b as [|y b]; simpl in *; try lia. apply IH; lia.
Qed.
Lemma sum_coords_none f n a b acc :
  (length a < n)%nat ∨ (length b < n)%nat → sum_coords f n a b acc = None.
Proof.
  revert a b acc. induction n as [|n IH]; intros a b acc H; [lia|].
  destruct a as [|x a], b as [|y b]; simpl in *; try done. apply IH. lia.
Qed.
Definition full (a : list spec_float) : Prop := Z.of_nat (length a) = MAX_DIM.
Lemma distance_full a b : full a → full b → is_Some (euclidean_distance a b MAX_DIM).
Proof.
  unfold full, euclidean_distance. intros Ha Hb.
  destruct (sum_coords_some square_diff (Z.to_nat MAX_DIM) a b f32_zero) as [d ->]; [lia|lia|]. by eexists.
Qed.

(** * The graph of the layers *)

Implicit Types (h : gmap loc HNSWNode) (locs : list loc) (v : kvs_vector) (e : env).

(** What an insertion leaves as it is in the other nodes. *)
Definition core (n : HNSWNode) := (h_id n, h_level n, h_vector n, h_dim n, h_key n, h_is_deleted n).
Definition same_core h h' : Prop := core <$> h' = core <$> h.

(** A node takes part in the layers from 0 to its level. *)
Record node_ok h locs (n : HNSWNode) : Prop := {
  no_level : 0 ≤ h_level n < MAX_LAYERS;
  no_forward : Z.of_nat (length (h_forward n)) = h_level n + 1;
  no_counts : Z.of_nat (length (h_neighbors_count n)) = h_level n + 1;
  no_vector : full (h_vector n);
  no_closed j y : h_forward n !! j = Some (Some y) →
    y ∈ locs ∧ ∃ ny, h !! y = Some ny ∧ Z.of_nat j ≤ h_level ny
}.
Definition graph_ok h locs : Prop := ∀ x, x ∈ locs → ∃ n, h !! x = Some n ∧ node_ok h locs n.

Lemma core_lookup h h' x n : same_core h h' → h !! x = Some n → ∃ n', h' !! x = Some n' ∧ core n' = core n.
Proof.
  intros Hs Hx. pose proof (f_equal (lookup x) Hs) as H. rewrite !lookup_fmap, Hx in H.
  destruct (h' !! x) as [n'|]; [|done]. exists n'. split; [done|]. simpl in H. congruence.
Qed.
Lemma same_core_insert h x n n' : h !! x = Some n → core n' = core n → same_core h (<[x := n']> h).
Proof.
  intros Hx Hc. unfold same_core. rewrite fmap_insert, Hc. apply insert_id. by rewrite lookup_fmap, Hx.
Qed.
Lemma same_core_trans h1 h2 h3 : same_core h1 h2 → same_core h2 h3 → same_core h1 h3.
Proof. unfold same_core. congruence. Qed.

(** Changing one node: its place and its vector stay, its pointers lead to nodes of
    the layer. *)
Lemma graph_ok_insert h locs x n n' :
  graph_ok h locs → h !! x = Some n → h_level n' = h_level n → h_vector n' = h_vector n →
  length (h_forward n') = length (h_forward n) → length (h_neighbors_count n') = length (h_neighbors_count n) →
  (∀ j y, h_forward n' !! j = Some (Some y) → y ∈ locs ∧ ∃ ny, h !! y = Some ny ∧ Z.of_nat j ≤ h_level ny) →
  (x ∈ locs → node_ok h locs n) →
  graph_ok (<[x := n']> h) locs.
Proof.
  intros Hg Hx Hlv Hvec Hf Hn Hcl Hok y Hy.
  assert (Hlift : ∀ y0 ny0 (j : nat), h !! y0 = Some ny0 → Z.of_nat j ≤ h_level ny0 →
    ∃ ny, <[x := n']> h !! y0 = Some ny ∧ Z.of_nat j ≤ h_level ny).
  { intros y0 ny0 j Hy0 Hj. destruct (decide (y0 = x)) as [->|Hne].
    - exists n'. rewrite lookup_insert_eq. split; [done|congruence].
    - exists ny0. by rewrite lookup_insert_ne. }
  destruct (decide (y = x)) as [->|Hne].
  - exists n'. rewrite lookup_insert_eq. split; [done|]. specialize (Hok Hy) as [H1 H2 H3 H4 H5].
    split; [by rewrite Hlv|by rewrite Hf, Hlv|by rewrite Hn, Hlv|by rewrite Hvec|].
    intros j z Hz. destruct (Hcl j z Hz) as (Hin & nz & Hnz & Hj). split; [done|]. by eapply Hlift.
  - destruct (Hg y Hy) as (ny & Hny & [H1 H2 H3 H4 H5]). exists ny. rewrite lookup_insert_ne by done.
    split; [done|]. split; [done..|]. intros j z Hz. destruct (H5 j z Hz) as (Hin & nz & Hnz & Hj).
    split; [done|]. by eapply Hlift.
Qed.

(** * Access rules *)

Lemma wp_vload x n e v Q : v_heap v !! x = Some n → Q n e v → wp (vload (Some x)) e v Q.
Proof. intros Hx HQ. simpl. wp_step. wp_step. by rewrite Hx. Qed.
Lemma wp_vstore x f n e v Q :
  v_heap v !! x = Some n → Q tt e (v_set_heap (<[x := f n]> (v_heap v)) v) → wp (vstore (Some x) f) e v Q.
Proof. intros Hx HQ. simpl. wp_step. wp_step. wp_step. rewrite Hx. do 2 wp_step. exact HQ. Qed.
Lemma wp_get_index x e v Q : v_index v = XIndex x → Q x e v → wp get_index e v Q.
Proof. intros Hx HQ. unfold get_index. do 2 wp_step. by rewrite Hx. Qed.
Lemma wp_upd_index f x e v Q :
  v_index v = XIndex x → Q tt e (v_set_index (XIndex (f x)) v) → wp (upd_index f) e v Q.
Proof. intros Hx HQ. unfold upd_index. wp_step. eapply wp_get_index; [done|]. by wp_step. Qed.
Lemma wp_forward_at x n level e v Q :
  v_heap v !! x = Some n → 0 ≤ level < Z.of_nat (length (h_forward n)) →
  (∀ p, h_forward n !! Z.to_nat level = Some p → Q p e v) → wp (forward_at (Some x) level) e v Q.
Proof.
  intros Hx Hl HQ. unfold forward_at. wp_step. eapply wp_vload; [done|]. rewrite decide_True by lia.
  destruct (lookup_lt_is_Some_2 (h_forward n) (Z.to_nat level)) as [p Hp]; [lia|].
  eapply wp_some; [done|]. by apply HQ.
Qed.
Lemma wp_hnsw_put_forward x n level p e v Q :
  v_heap v !! x = Some n → 0 ≤ level < Z.of_nat (length (h_forward n)) →
  Q tt e (v_set_heap (<[x := h_set_forward (<[Z.to_nat level := p]> (h_forward n)) n]> (v_heap v)) v) →
  wp (put_forward (Some x) level p) e v Q.
Proof.
  intros Hx Hl HQ. unfold put_forward. wp_step. eapply wp_vload; [done|]. rewrite decide_True by done.
  eapply wp_vstore; [done|]. exact HQ.
Qed.
Arguments vload : simpl never.
Arguments vstore : simpl never.
Arguments forward_at : simpl never.
Arguments put_forward : simpl never.

(** * Walking along a layer *)

(** The distance to the vector of a node. *)
Definition dist_to h (vector : list spec_float) (y : loc) : spec_float :=
  match h !! y with
  | Some n => default f32_zero (euclidean_distance vector (h_vector n) MAX_DIM)
  | None => f32_zero
  end.
(** The nodes that are nearer than [d]: the walk only moves to such a node. *)
Definition nearer h vector locs (d : spec_float) : list loc := filter (λ y, SFltb (dist_to h vector y) d = true) locs.

Lemma nearer_step h vector locs y d :
  y ∈ locs → SFltb (dist_to h vector y) d = true →
  (length (nearer h vector locs (dist_to h vector y)) < length (nearer h vector locs d))%nat.
Proof.
  intros Hy Hlt. unfold nearer. induction locs as [|z locs IH]; [by apply not_elem_of_nil in Hy|].
  assert (Hsub : (length (filter (λ y0, SFltb (dist_to h vector y0) (dist_to h vector y) = true) locs) ≤
    length (filter (λ y0, SFltb (dist_to h vector y0) d = true) locs))%nat).
  { clear -Hlt. induction locs as [|w locs IH]; [done|]. rewrite !filter_cons.
    destruct (decide (SFltb (dist_to h vector w) (dist_to h vector y) = true)) as [H1|H1].
    - rewrite decide_True by (by eapply SFltb_trans). simpl. lia.
    - destruct (decide (SFltb (dist_to h vector w) d = true)); simpl; lia. }
  rewrite !filter_cons. apply elem_of_cons in Hy as [->|Hy].
  - rewrite decide_False by (by rewrite SFltb_irrefl). rewrite decide_True by done. simpl. lia.
  - destruct (decide (SFltb (dist_to h vector z) (dist_to h vector y) = true)) as [H1|H1].
    + rewrite decide_True by (by eapply SFltb_trans). simpl. specialize (IH Hy). lia.
    + specialize (IH Hy). destruct (decide (SFltb (dist_to h vector z) d = true)); simpl; lia.
Qed.
Lemma nearer_length h vector locs d : (length (nearer h vector locs d) ≤ length locs)%nat.
Proof. apply length_filter. Qed.

(** In layer [level]: a node of the graph that takes part in it. *)
Definition in_layer h locs (level : Z) (y : loc) : Prop :=
  y ∈ locs ∧ ∃ n, h !! y = Some n ∧ node_ok h locs n ∧ level ≤ h_level n.
Lemma in_layer_next h locs level y n p :
  graph_ok h locs → in_layer h locs level y → h !! y = Some n → 0 ≤ level →
  h_forward n !! Z.to_nat level = Some (Some p) → in_layer h locs level p.
Proof.
  intros Hg (Hy & n' & Hn' & Hok & Hl) Hn H0 Hf. rewrite Hn in Hn'. injection Hn' as <-.
  destruct (no_closed _ _ _ Hok _ _ Hf) as (Hp & np & Hnp & Hj). destruct (Hg p Hp) as (np' & Hnp' & Hok').
  rewrite Hnp in Hnp'. injection Hnp' as <-. split; [done|]. exists np. split_and!; [done..|lia].
Qed.

Lemma wp_insert_walk fuel vector level prev cand x locs e v Q :
  v_index v = XIndex x → x_dim x = MAX_DIM → graph_ok (v_heap v) locs → full vector → 0 ≤ level →
  in_layer (v_heap v) locs level cand →
  (∀ p, prev = Some p → in_layer (v_heap v) locs level p) →
  (length (nearer (v_heap v) vector locs (dist_to (v_heap v) vector cand)) < fuel)%nat →
  (∀ prev' cand', in_layer (v_heap v) locs level cand' →
    (∀ p, prev' = Some p → in_layer (v_heap v) locs level p) → Q (prev', Some cand') e v) →
  wp (insert_walk fuel vector level prev (Some cand) (dist_to (v_heap v) vector cand)) e v Q.
Proof.
  intros Hx Hdim Hg Hv H0. revert prev cand. induction fuel as [|fuel IH]; intros prev cand Hc Hp Hf HQ; [lia|].
  cbn [insert_walk]. pose proof Hc as (_ & n & Hn & Hok & Hl). wp_step.
  eapply wp_forward_at; [exact Hn|rewrite (no_forward _ _ _ Hok); lia|]. intros q Hq. wp_step.
  eapply wp_vload; [exact Hn|]. rewrite (proj2 (Z.leb_le _ _)) by done. destruct q as [q|]; simpl vnull; cbv iota beta delta [orb negb].
  - pose proof (in_layer_next _ _ _ _ _ _ Hg Hc Hn H0 Hq) as Hcq. pose proof Hcq as (Hqin & nq & Hnq & Hokq & _).
    wp_step. eapply wp_vload; [exact Hnq|]. wp_step. eapply wp_get_index; [exact Hx|]. rewrite Hdim.
    destruct (distance_full vector (h_vector nq)) as [dq Hdq]; [done|apply Hokq|]. rewrite Hdq. do 2 wp_step.
    assert (Hd : dq = dist_to (v_heap v) vector q) by (unfold dist_to; by rewrite Hnq, Hdq).
    rewrite Hd. destruct (SFltb (dist_to (v_heap v) vector q) (dist_to (v_heap v) vector cand)) eqn:Hlt.
    + apply IH; [done| |pose proof (nearer_step _ _ _ _ _ Hqin Hlt); lia|done].
      by intros p [= <-].
    + wp_step. by apply HQ.
  - wp_step. by apply HQ.
Qed.
Arguments insert_walk : simpl never.

Lemma in_layer_core h h' locs level y :
  graph_ok h' locs → same_core h h' → in_layer h locs level y → in_layer h' locs level y.
Proof.
  intros Hg Hs (Hy & n & Hn & _ & Hl). destruct (core_lookup _ _ _ _ Hs Hn) as (n' & Hn' & Hc).
  destruct (Hg y Hy) as (n2 & Hn2 & Hok2). rewrite Hn' in Hn2. injection Hn2 as <-.
  split; [done|]. exists n'. split_and!; [done..|]. injection Hc as _ -> _ _ _ _. done.
Qed.
Lemma set_heap_twice h1 h2 v : v_set_heap h2 (v_set_heap h1 v) = v_set_heap h2 v.
Proof. done. Qed.
Lemma set_heap_id v : v_set_heap (v_heap v) v = v.
Proof. by destruct v. Qed.

(** Setting the pointer of one node to a node of the layer. *)
Lemma wp_link x level p locs e v Q :
  graph_ok (v_heap v) locs → in_layer (v_heap v) locs level x → 0 ≤ level →
  (∀ y, p = Some y → in_layer (v_heap v) locs level y) →
  (∀ h', graph_ok h' locs → same_core (v_heap v) h' → size h' = size (v_heap v) → Q tt e (v_set_heap h' v)) →
  wp (put_forward (Some x) level p) e v Q.
Proof.
  intros Hg (Hx & n & Hn & Hok & Hl) H0 Hp HQ.
  eapply wp_hnsw_put_forward; [exact Hn|rewrite (no_forward _ _ _ Hok); lia|]. apply HQ.
  - eapply graph_ok_insert; [done|exact Hn|done|done|simpl; apply length_insert|done| |done].
    intros j y Hj. simpl in Hj. destruct (decide (j = Z.to_nat level)) as [->|Hne].
    + rewrite list_lookup_insert_eq in Hj by (apply Nat2Z.inj_lt; rewrite (no_forward _ _ _ Hok); lia). injection Hj as ->.
      destruct (Hp y eq_refl) as (Hy & ny & Hny & _ & Hly). split; [done|]. exists ny. split; [done|lia].
    + rewrite list_lookup_insert_ne in Hj by done. by eapply no_closed.
  - by eapply same_core_insert.
  - apply map_size_insert_Some. by eexists.
Qed.
Lemma wp_bump_neighbors x level locs e v Q :
  graph_ok (v_heap v) locs → in_layer (v_heap v) locs level x → 0 ≤ level →
  (∀ h', graph_ok h' locs → same_core (v_heap v) h' → size h' = size (v_heap v) → Q tt e (v_set_heap h' v)) →
  wp (bump_neighbors (Some x) level) e v Q.
Proof.
  intros Hg (Hx & n & Hn & Hok & Hl) H0 HQ. unfold bump_neighbors. wp_step. eapply wp_vload; [exact Hn|]. wp_step.
  rewrite decide_True by done.
  destruct (lookup_lt_is_Some_2 (h_neighbors_count n) (Z.to_nat level)) as [c Hc];
    [apply Nat2Z.inj_lt; rewrite (no_counts _ _ _ Hok); lia|]. rewrite Hc. wp_step.
  eapply wp_vstore; [exact Hn|]. apply HQ.
  - eapply graph_ok_insert; [done|exact Hn|done|done|done|simpl; apply length_insert| |done].
    intros j y Hj. by eapply no_closed.
  - by eapply same_core_insert.
  - apply map_size_insert_Some. by eexists.
Qed.
Arguments bump_neighbors : simpl never.

Lemma wp_link_layers n curr new x locs e v Q :
  v_index v = XIndex x → x_dim x = MAX_DIM → graph_ok (v_heap v) locs → (length locs ≤ size (v_heap v))%nat →
  curr ∈ locs → new ∈ locs →
  (∀ h', graph_ok h' locs → same_core (v_heap v) h' → Q tt e (v_set_heap h' v)) →
  wp (link_layers n (Z.of_nat n - 1) (Some curr) (Some new)) e v Q.
Proof.
  intros Hx Hdim. revert v Hx. induction n as [|n IH]; intros v Hx Hg Hsz Hcurr Hnew HQ.
  { cbn [link_layers]. wp_step. rewrite <-(set_heap_id v). by apply HQ. }
  cbn [link_layers]. replace (Z.of_nat (S n) - 1) with (Z.of_nat n) by lia.
  destruct (Hg new Hnew) as (nn & Hnn & Hokn). destruct (Hg curr Hcurr) as (c & Hc & Hokc).
  wp_step. eapply wp_vload; [exact Hnn|].
  destruct (Z.ltb_spec (h_level nn) (Z.of_nat n)); [by apply IH|]. wp_step. eapply wp_vload; [exact Hc|].
  destruct (Z.ltb_spec (h_level c) (Z.of_nat n)); [by apply IH|]. wp_step. eapply wp_get_index; [exact Hx|].
  rewrite Hdim. destruct (distance_full (h_vector nn) (h_vector c)) as [d Hd]; [apply Hokn|apply Hokc|].
  assert (Hdt : d = dist_to (v_heap v) (h_vector nn) curr) by (unfold dist_to; by rewrite Hc, Hd).
  rewrite Hd. do 2 wp_step. unfold vec_fuel. do 4 wp_step. rewrite Hdt.
  assert (Hlc : in_layer (v_heap v) locs (Z.of_nat n) curr) by (split; [done|]; by exists c).
  assert (Hln : in_layer (v_heap v) locs (Z.of_nat n) new) by (split; [done|]; by exists nn).
  wp_step. eapply wp_insert_walk; [exact Hx|done|exact Hg|apply Hokn|lia|exact Hlc|done| |].
  { pose proof (nearer_length (v_heap v) (h_vector nn) locs (dist_to (v_heap v) (h_vector nn) curr)). lia. }
  intros prev cand Hcand Hprev.
  assert (Hpv : ∃ pv, (if vnull prev then Some cand else prev) = Some pv ∧ in_layer (v_heap v) locs (Z.of_nat n) pv).
  { destruct prev as [p|]; [exists p|exists cand]; simpl; auto. }
  destruct Hpv as (pv & -> & Hpv). pose proof Hpv as (_ & np & Hnp & Hokp & Hlp). wp_step.
  eapply wp_forward_at; [exact Hnp|rewrite (no_forward _ _ _ Hokp); lia|]. intros f Hf. wp_step.
  eapply wp_link; [exact Hg|exact Hln|lia| |].
  { intros y ->. eapply in_layer_next; [exact Hg|exact Hpv|exact Hnp|lia|exact Hf]. }
  intros h1 Hg1 Hs1 Hz1. wp_step. eapply wp_link; [exact Hg1|by eapply in_layer_core|lia| |].
  { intros y [= <-]. by eapply in_layer_core. }
  intros h2 Hg2 Hs2 Hz2. rewrite set_heap_twice. simpl v_heap in *. wp_step.
  pose proof (same_core_trans _ _ _ Hs1 Hs2) as Hs12.
  eapply wp_bump_neighbors; [exact Hg2|by eapply in_layer_core|lia|].
  intros h3 Hg3 Hs3 Hz3. rewrite set_heap_twice. simpl v_heap in *.
  apply (IH (v_set_heap h3 v)); [done|done|simpl; congruence|done|done|].
  intros h4 Hg4 Hs4. rewrite set_heap_twice. apply HQ; [done|]. simpl in Hs4.
  eapply same_core_trans; [exact Hs12|]. by eapply same_core_trans.
Qed.
Arguments link_layers : simpl never.

(** * The engine as a map *)

(** The vectors in the order of insertion: key, coordinates, and whether it was
    deleted since. *)
Abbreviation vrecord := (string * list spec_float * bool)%type.
Implicit Types (es : list vrecord) (k : string).

Definition lives es : list (string * list spec_float) :=
  omap (λ r : vrecord, if r.2 then None else Some r.1) es.

Record index_ok (x : HNSWIndex) locs es : Prop := {
  io_dim : x_dim x = MAX_DIM;
  io_size : x_size x = Z.of_nat (length locs);
  io_deleted : x_deleted_count x = Z.of_nat (length locs) - Z.of_nat (length (lives es));
  io_max : x_max_size x = MAX_ELEMENTS;
  io_level : 0 ≤ x_max_level x < MAX_LAYERS;
  io_enter : x_enterpoint_id x = 0;
  io_nodes : x_nodes x = (Some <$> locs) ++ replicate (Z.to_nat MAX_ELEMENTS - length locs) None;
  io_fits : Z.of_nat (length locs) ≤ MAX_ELEMENTS;
  io_counts : is_Some (x_level_counts x)
}.
(** The node at position [i]. *)
Definition records (h : gmap loc HNSWNode) (i : nat) (x : loc) (r : vrecord) : Prop :=
  ∃ lvl, (core <$> h) !! x = Some (Z.of_nat i, lvl, r.1.2, MAX_DIM, PStr r.1.1, if r.2 then 1 else 0).

Record vec_rep v locs es : Prop := {
  vr_index : ∃ x, v_index v = XIndex x ∧ index_ok x locs es;
  vr_dim : v_dim v = MAX_DIM;
  vr_graph : graph_ok (v_heap v) locs;
  vr_dom : dom (v_heap v) = list_to_set locs;
  vr_nodup : NoDup locs;
  vr_length : length es = length locs;
  vr_records i x r : locs !! i = Some x → es !! i = Some r → records (v_heap v) i x r
}.
(** At most one live vector per key between two operations. *)
Definition vmap es : gmap string (list spec_float) := list_to_map (lives es).

Lemma records_node h i x r :
  records h i x r → ∃ n, h !! x = Some n ∧ h_id n = Z.of_nat i ∧ h_vector n = r.1.2 ∧ h_dim n = MAX_DIM ∧
    h_key n = PStr r.1.1 ∧ h_is_deleted n = if r.2 then 1 else 0.
Proof.
  intros [lvl H]. rewrite lookup_fmap in H. destruct (h !! x) as [n|]; [|done]. simpl in H.
  injection H as <- <- <- <- <- <-. exists n. by split_and!.
Qed.
Lemma records_core h h' i x r : same_core h h' → records h i x r → records h' i x r.
Proof. intros Hs [lvl H]. exists lvl. by rewrite Hs. Qed.

Lemma wp_node_at v locs es i x e Q :
  vec_rep v locs es → locs !! i = Some x → Q (Some x) e v → wp (node_at (Z.of_nat i)) e v Q.
Proof.
  intros Hr Hi HQ. destruct (vr_index _ _ _ Hr) as (ix & Hx & Hok). unfold node_at. wp_step.
  eapply wp_get_index; [exact Hx|]. rewrite decide_True by lia. rewrite (io_nodes _ _ _ Hok), Nat2Z.id.
  rewrite lookup_app_l by (rewrite length_fmap; by eapply lookup_lt_Some). by rewrite list_lookup_fmap, Hi.
Qed.
Arguments node_at : simpl never.

(** ** Finding a key *)

Definition alive_at es (i : nat) k (vec : list spec_float) : Prop := es !! i = Some (k, vec, false).

Lemma wp_find_key n i k v locs es e Q :
  vec_rep v locs es → (i + n ≤ length locs)%nat →
  (∀ j x vec, (i ≤ j < i + n)%nat → locs !! j = Some x → alive_at es j k vec → Q (Some x) e v) →
  ((∀ j vec, (i ≤ j < i + n)%nat → ¬ alive_at es j k vec) → Q None e v) →
  wp (find_key n (Z.of_nat i) (PStr k)) e v Q.
Proof.
  intros Hr. revert i. induction n as [|n IH]; intros i Hi Hyes Hno; cbn [find_key].
  { wp_step. apply Hno. intros j vec Hj. lia. }
  destruct (lookup_lt_is_Some_2 locs i) as [x Hx]; [lia|].
  destruct (lookup_lt_is_Some_2 es i) as [[[k' vec] del] He]; [rewrite (vr_length _ _ _ Hr); lia|].
  destruct (records_node _ _ _ _ (vr_records _ _ _ Hr _ _ _ Hx He)) as (nd & Hnd & _ & _ & _ & Hk & Hdel). simpl in Hk, Hdel.
  assert (Hskip : ¬ (del = false ∧ k' = k) → wp (find_key n (Z.of_nat i + 1) (PStr k)) e v Q).
  { intros Hne. replace (Z.of_nat i + 1) with (Z.of_nat (S i)) by lia. apply IH; [lia| |].
    - intros j y w Hj. apply Hyes. lia.
    - intros Hnone. apply Hno. intros j w Hj Hal. destruct (decide (j = i)) as [->|Hji].
      + apply Hne. unfold alive_at in Hal. rewrite He in Hal. by injection Hal as -> -> ->.
      + apply (Hnone j w); [lia|done]. }
  wp_step. eapply wp_node_at; [exact Hr|exact Hx|]. simpl vnull. cbv iota. wp_step. eapply wp_vload; [exact Hnd|].
  rewrite Hdel, Hk. destruct del; simpl Z.eqb; simpl is_null; cbv iota beta delta [orb negb].
  - apply Hskip. by intros [? _].
  - do 4 wp_step. rewrite strcmp_eqb. destruct (String.eqb_spec k' k) as [->|Hne].
    + wp_step. eapply (Hyes i); [lia|exact Hx|]. exact He.
    + apply Hskip. by intros [_ ?].
Qed.
Arguments find_key : simpl never.

(** ** Deleting *)

Lemma lives_app es1 es2 : lives (es1 ++ es2) = lives es1 ++ lives es2.
Proof. apply omap_app. Qed.
Lemma lives_length es : (length (lives es) ≤ length es)%nat.
Proof. induction es as [|[r []] es IH]; csimpl; lia. Qed.

(** Marking the record at a position. *)
Lemma mark_lives es i k vec :
  alive_at es i k vec →
  ∃ l1 l2, i = length l1 ∧ lives es = lives l1 ++ (k, vec) :: lives l2 ∧
    lives (<[i := (k, vec, true)]> es) = lives l1 ++ lives l2.
Proof.
  intros Hi. apply list_elem_of_split_length in Hi as (l1 & l2 & -> & ->). exists l1, l2.
  rewrite insert_app_r_alt, Nat.sub_diag, !lives_app by lia. done.
Qed.
Lemma mark_map es i k vec :
  alive_at es i k vec → NoDup (lives es).*1 →
  let es' := <[i := (k, vec, true)]> es in
  NoDup (lives es').*1 ∧ vmap es !! k = Some vec ∧ vmap es' = delete k (vmap es).
Proof.
  intros Hi Hnd es'. destruct (mark_lives _ _ _ _ Hi) as (l1 & l2 & _ & Hes & Hes'). unfold vmap, es'.
  rewrite Hes' in *. rewrite Hes in *.
  assert (Hp : lives l1 ++ (k, vec) :: lives l2 ≡ₚ (k, vec) :: lives l1 ++ lives l2) by (by rewrite Permutation_middle).
  pose proof Hnd as Hnd'. rewrite Hp, fmap_cons in Hnd'. apply NoDup_cons in Hnd' as [Hk Hnd'].
  rewrite (list_to_map_proper _ _ Hnd Hp). simpl. split_and!; [done|apply lookup_insert_eq|].
  symmetry. apply delete_insert_id. by apply not_elem_of_list_to_map_1.
Qed.
Lemma lives_none es k : (∀ j vec, (j < length es)%nat → ¬ alive_at es j k vec) → vmap es !! k = None.
Proof.
  intros H. apply not_elem_of_list_to_map_1. intros Hin. apply list_elem_of_fmap in Hin as ([k' vec] & -> & Hin).
  unfold lives in Hin. apply list_elem_of_omap in Hin as ([r del] & Hin & Hr). destruct del; [done|].
  simpl in Hr. injection Hr as ->. apply list_elem_of_lookup in Hin as [j Hj].
  apply (H j vec); [by eapply lookup_lt_Some|done].
Qed.

(** The state after [mark_deleted] but for the counter of the manager. *)
Lemma wp_mark_deleted i x k vec v locs es e Q :
  vec_rep v locs es → locs !! i = Some x → alive_at es i k vec →
  (∀ e' v', mallocs e' = mallocs e → live e' = live e → vec_rep v' locs (<[i := (k, vec, true)]> es) → Q tt e' v') →
  wp (mark_deleted (Some x)) e v Q.
Proof.
  intros Hr Hi Hal HQ. pose proof Hr as [(ix & Hx & Hok) Hdim Hg Hdom Hnd Hlen Hrec].
  destruct (records_node _ _ _ _ (Hrec _ _ _ Hi Hal)) as (n & Hn & Hid & Hvec & Hnd' & Hk & Hdel).
  assert (Hll : length (lives es) = S (length (lives (<[i := (k, vec, true)]> es)))).
  { destruct (mark_lives _ _ _ _ Hal) as (l1 & l2 & _ & -> & ->). rewrite !length_app. simpl. lia. }
  unfold mark_deleted. wp_step. unfold wall_time, wp at 1.
  set (v1 := v_set_heap (<[x := h_set_deleted 1 (match walls e with t :: _ => t mod 2 ^ 64 | [] => 0 mod 2 ^ 64 end) n]> (v_heap v)) v).
  assert (Hrest : ∀ e', mallocs e' = mallocs e → live e' = live e →
    wp (x ← get_index;
        upd_index (x_set_deleted_count (x_deleted_count x + 1));;
        modify (λ v, v_set_count (v_count v - 1) v)) e' v1 Q).
  { intros e' Hm Hl. wp_step. eapply wp_get_index; [exact Hx|]. wp_step. eapply wp_upd_index; [exact Hx|]. wp_step.
    apply HQ; [done..|]. split; simpl.
    - eexists. split; [done|]. destruct Hok. split; simpl; try done. lia.
    - done.
    - destruct (Hg x) as (n' & Hn' & Hokn); [by eapply list_elem_of_lookup_2|]. rewrite Hn in Hn'. injection Hn' as <-.
      eapply graph_ok_insert; [done|exact Hn|done..| |done]. intros j y Hj. by eapply no_closed.
    - rewrite dom_insert_L, Hdom. assert (x ∈ locs) by (by eapply list_elem_of_lookup_2). set_solver.
    - done.
    - by rewrite length_insert.
    - intros j y r Hj Hr'. unfold records. rewrite fmap_insert. destruct (decide (y = x)) as [->|Hyx].
      + assert (j = i) as -> by (by eapply (NoDup_lookup locs)). rewrite lookup_insert_eq.
        rewrite list_lookup_insert_eq in Hr' by (unfold alive_at in Hal; by eapply lookup_lt_Some). injection Hr' as <-.
        exists (h_level n). unfold core. simpl. by rewrite Hid, Hvec, Hnd', Hk.
      + rewrite lookup_insert_ne by done. rewrite list_lookup_insert_ne in Hr' by (intros <-; congruence). by eapply Hrec. }
  destruct (walls e) as [|t ts]; (wp_step; eapply wp_vstore; [exact Hn|]; by apply Hrest).
Qed.
Arguments mark_deleted : simpl never.

(** ** Creating a node *)

Lemma wp_uniform {St} (e : env) (s : St) (Q : spec_float → env → St → Prop) :
  (∀ r e', mallocs e' = mallocs e → live e' = live e → Q r e' s) → wp uniform e s Q.
Proof.
  intros HQ. unfold uniform. wp_step. unfold rand, wp at 1.
  destruct (rands e) as [|r rs]; wp_step; by apply HQ.
Qed.
Lemma wp_random_level_loop {St} fuel level r (e : env) (s : St) (Q : Z → env → St → Prop) :
  0 ≤ level < MAX_LAYERS → MAX_LAYERS - level ≤ Z.of_nat fuel →
  (∀ level' e', 0 ≤ level' < MAX_LAYERS → mallocs e' = mallocs e → live e' = live e → Q level' e' s) →
  wp (random_level_loop fuel level r) e s Q.
Proof.
  revert level r e. induction fuel as [|fuel IH]; intros level r e Hl Hf HQ; [lia|]. cbn [random_level_loop].
  destruct (SFltb r (threshold_at level)); simpl; [|wp_step; by apply HQ].
  destruct (Z.ltb_spec level (MAX_LAYERS - 1)); [|wp_step; by apply HQ].
  wp_step. apply wp_uniform. intros r' e' Hm Hv. apply IH; [lia|lia|].
  intros l e2 ? Hm2 Hv2. apply HQ; [done|congruence|congruence].
Qed.
(** The level of a node is one of the 16 layers, and is found with the fuel given. *)
Lemma wp_random_level {St} (e : env) (s : St) (Q : Z → env → St → Prop) :
  (∀ level e', 0 ≤ level < MAX_LAYERS → mallocs e' = mallocs e → live e' = live e → Q level e' s) →
  wp random_level e s Q.
Proof.
  intros HQ. unfold random_level. wp_step. apply wp_uniform. intros r e' Hm Hv.
  apply wp_random_level_loop; [done|done|]. intros l e2 ? Hm2 Hv2. apply HQ; [done|congruence|congruence].
Qed.
Arguments random_level : simpl never.

(** With memory: a fresh node that is in no chain, and six blocks. *)
Definition fresh_node (id level : Z) (vector : list spec_float) k : HNSWNode :=
  HNode id level vector MAX_DIM (PStr k) 0 0 (replicate (Z.to_nat (level + 1)) None)
    (replicate (Z.to_nat (level + 1)) 0) (replicate (Z.to_nat (level + 1)) 0).
Lemma wp_create_any_node id vector dim level k e v Q :
  no_oom e → Z.of_nat (length vector) = dim →
  (∀ x e', x ∉ dom (v_heap v) → no_oom e' → live e' = live e + 6 →
    Q (Some x) e' (v_set_heap (<[x := HNode id level vector dim (PStr k) 0 0 (replicate (Z.to_nat (level + 1)) None)
      (replicate (Z.to_nat (level + 1)) 0) (replicate (Z.to_nat (level + 1)) 0)]> (v_heap v)) v)) →
  wp (hnsw_create_node id vector dim level (PStr k)) e v Q.
Proof.
  intros He Hv HQ. unfold hnsw_create_node.
  pose proof (no_oom_fails _ He) as F0. pose proof (no_oom_after _ He) as H1.
  pose proof (no_oom_fails _ H1) as F1. pose proof (no_oom_after _ H1) as H2.
  pose proof (no_oom_fails _ H2) as F2. pose proof (no_oom_after _ H2) as H3.
  pose proof (no_oom_fails _ H3) as F3. pose proof (no_oom_after _ H3) as H4.
  pose proof (no_oom_fails _ H4) as F4. pose proof (no_oom_after _ H4) as H5.
  pose proof (no_oom_fails _ H5) as F5. pose proof (no_oom_after _ H5) as H6.
  do 2 wp_step. rewrite F0. simpl negb. cbv iota. do 2 wp_step. rewrite F1. simpl negb. cbv iota.
  wp_step. rewrite decide_False by lia. wp_step. simpl is_null. cbv iota. do 2 wp_step. rewrite F2.
  do 6 wp_step. rewrite F3, F4, F5. simpl negb. simpl orb. cbv iota. do 5 wp_step.
  rewrite take_ge by lia. apply HQ; [apply is_fresh|done|]. rewrite !live_after_malloc, F0, F1, F2, F3, F4, F5. lia.
Qed.
Lemma wp_hnsw_create_node id vector level k e v Q :
  no_oom e → full vector →
  (∀ x e', x ∉ dom (v_heap v) → no_oom e' → live e' = live e + 6 →
    Q (Some x) e' (v_set_heap (<[x := fresh_node id level vector k]> (v_heap v)) v)) →
  wp (hnsw_create_node id vector MAX_DIM level (PStr k)) e v Q.
Proof. apply wp_create_any_node. Qed.
Arguments hnsw_create_node : simpl never.

(** ** Inserting *)

Lemma put_node_wp i p x e v Q :
  v_index v = XIndex x → 0 ≤ i < Z.of_nat (length (x_nodes x)) →
  Q tt e (v_set_index (XIndex (x_set_nodes (<[Z.to_nat i := p]> (x_nodes x)) x)) v) → wp (put_node i p) e v Q.
Proof.
  intros Hx Hi HQ. unfold put_node. wp_step. eapply wp_get_index; [done|]. rewrite decide_True by done.
  eapply wp_upd_index; [done|]. exact HQ.
Qed.
Lemma index_nodes_length x locs es : index_ok x locs es → Z.of_nat (length (x_nodes x)) = MAX_ELEMENTS.
Proof.
  intros Hok. rewrite (io_nodes _ _ _ Hok), length_app, length_fmap, length_replicate. pose proof (io_fits _ _ _ Hok).
  unfold MAX_ELEMENTS in *. lia.
Qed.
Lemma index_nodes_snoc locs y :
  (length locs < Z.to_nat MAX_ELEMENTS)%nat →
  <[length locs := Some y]> ((Some <$> locs) ++ replicate (Z.to_nat MAX_ELEMENTS - length locs) None) =
  (Some <$> (locs ++ [y])) ++ replicate (Z.to_nat MAX_ELEMENTS - length (locs ++ [y])) None.
Proof.
  intros Hl. rewrite insert_app_r_alt by (by rewrite length_fmap). rewrite length_fmap, Nat.sub_diag, length_app. simpl.
  replace (Z.to_nat MAX_ELEMENTS - length locs)%nat with (S (Z.to_nat MAX_ELEMENTS - (length locs + 1))) by lia.
  rewrite fmap_app, <-app_assoc. done.
Qed.

Lemma graph_ok_alloc h locs y n :
  graph_ok h locs → dom h = list_to_set locs → y ∉ dom h → 0 ≤ h_level n < MAX_LAYERS → full (h_vector n) →
  Z.of_nat (length (h_forward n)) = h_level n + 1 → Z.of_nat (length (h_neighbors_count n)) = h_level n + 1 →
  (∀ j z, h_forward n !! j ≠ Some (Some z)) →
  graph_ok (<[y := n]> h) (locs ++ [y]).
Proof.
  intros Hg Hdom Hy Hl Hv Hf Hc Hnone z [Hz|Hz]%elem_of_app; [|apply list_elem_of_singleton in Hz as ->].
  - destruct (Hg z Hz) as (nz & Hnz & [H1 H2 H3 H4 H5]). exists nz.
    assert (Hne : ∀ w nw, h !! w = Some nw → w ≠ y) by (intros w nw Hw ->; apply Hy; by apply elem_of_dom_2 in Hw).
    rewrite lookup_insert_ne by (symmetry; by eapply Hne). split; [done|]. split; [done..|].
    intros j w Hw. destruct (H5 j w Hw) as (Hin & nw & Hnw & Hj). split; [by apply elem_of_app; left|].
    exists nw. rewrite lookup_insert_ne by (symmetry; by eapply Hne). done.
  - exists n. rewrite lookup_insert_eq. split; [done|]. split; [done..|]. intros j w Hw. by destruct (Hnone j w).
Qed.
Lemma fresh_forward_none id level vec k j z : h_forward (fresh_node id level vec k) !! j ≠ Some (Some z).
Proof. simpl. intros [H _]%lookup_replicate. done. Qed.

(** The representation only looks at the cores of the nodes and at the chains. *)
Lemma vec_rep_core v locs es h' :
  vec_rep v locs es → graph_ok h' locs → same_core (v_heap v) h' → vec_rep (v_set_heap h' v) locs es.
Proof.
  intros [Hi Hd Hg Hdom Hnd Hlen Hrec] Hg' Hs. split; [done|done|done| |done|done|].
  - simpl. rewrite <-Hdom. rewrite <-(dom_fmap_L core h'), Hs. apply dom_fmap_L.
  - intros i x r Hx Hr. eapply records_core; [exact Hs|]. by apply Hrec.
Qed.
(** A record is added at the end. *)
Lemma vec_rep_snoc v locs es y id level vec k x' :
  vec_rep v locs es → y ∉ dom (v_heap v) → 0 ≤ level < MAX_LAYERS → full vec →
  id = Z.of_nat (length locs) → index_ok x' (locs ++ [y]) (es ++ [(k, vec, false)]) →
  vec_rep (v_set_index (XIndex x') (v_set_heap (<[y := fresh_node id level vec k]> (v_heap v)) v))
    (locs ++ [y]) (es ++ [(k, vec, false)]).
Proof.
  intros [Hi Hd Hg Hdom Hnd Hlen Hrec] Hy Hl Hv -> Hx. split; simpl.
  - by exists x'.
  - done.
  - apply graph_ok_alloc; [done|done|done|done|done|simpl; rewrite length_replicate; lia|simpl; rewrite length_replicate; lia|].
    apply fresh_forward_none.
  - rewrite dom_insert_L, Hdom, list_to_set_app_L. set_solver.
  - apply NoDup_app. split_and!; [done| |apply NoDup_singleton]. intros z Hz Hzy. apply list_elem_of_singleton in Hzy as ->.
    apply Hy. rewrite Hdom. by apply elem_of_list_to_set.
  - rewrite !length_app. simpl. lia.
  - intros i z r Hz Hr. unfold records. rewrite fmap_insert. apply lookup_app_Some in Hz as [Hz|[Hge Hz]].
    + rewrite lookup_insert_ne.
      * rewrite lookup_app_l in Hr by (rewrite Hlen; by eapply lookup_lt_Some). by eapply Hrec.
      * intros <-. apply Hy. rewrite Hdom. apply elem_of_list_to_set. by eapply list_elem_of_lookup_2.
    + apply list_lookup_singleton_Some in Hz as [Hi0 ->]. assert (i = length locs) as -> by lia.
      rewrite lookup_app_r in Hr by lia. rewrite Hlen, Nat.sub_diag in Hr. injection Hr as <-.
      exists level. by rewrite lookup_insert_eq.
Qed.
Lemma index_ok_snoc x locs es y k vec ml :
  index_ok x locs es → Z.of_nat (length locs) < MAX_ELEMENTS → 0 ≤ ml < MAX_LAYERS →
  index_ok (x_set_max_level ml (x_set_size (x_size x + 1)
    (x_set_nodes (<[Z.to_nat (x_size x) := Some y]> (x_nodes x)) x))) (locs ++ [y]) (es ++ [(k, vec, false)]).
Proof.
  intros [H1 H2 H3 H4 H5 H6 H7 H8 H9] Hlt Hml. split; simpl; try done.
  - rewrite length_app. simpl. lia.
  - rewrite length_app, lives_app, length_app. simpl. lia.
  - rewrite H2, Nat2Z.id, H7. apply index_nodes_snoc. lia.
  - rewrite length_app. simpl. lia.
Qed.
Lemma vec_rep_size v locs es : vec_rep v locs es → size (v_heap v) = length locs.
Proof.
  intros Hr. rewrite <-size_dom, (vr_dom _ _ _ Hr). apply size_list_to_set. apply (vr_nodup _ _ _ Hr).
Qed.

Lemma wp_insert_hnsw v locs es y id level vec k e Q :
  vec_rep v locs es → Z.of_nat (length locs) < MAX_ELEMENTS → y ∉ dom (v_heap v) →
  0 ≤ level < MAX_LAYERS → full vec →
  (∀ v', vec_rep v' (locs ++ [y]) (es ++ [(k, vec, false)]) → Q 0 e v') →
  wp (insert_hnsw (Some y)) e (v_set_heap (<[y := fresh_node id level vec k]> (v_heap v)) v) Q.
Proof.
  intros Hr Hlt Hy Hl Hv HQ. pose proof (vr_index _ _ _ Hr) as (x & Hx & Hok).
  pose proof (index_nodes_length _ _ _ Hok) as Hnl. pose proof (io_size _ _ _ Hok) as Hsz.
  unfold insert_hnsw. wp_step. eapply wp_get_index; [exact Hx|]. rewrite (io_max _ _ _ Hok).
  rewrite (proj2 (Z.leb_gt _ _)) by lia. wp_step.
  eapply wp_vstore; [apply lookup_insert_eq|]. wp_step. eapply put_node_wp; [exact Hx|lia|]. wp_step.
  eapply wp_upd_index; [done|]. wp_step. simpl v_heap. rewrite insert_insert_eq.
  change (h_set_id (x_size x) (fresh_node id level vec k)) with (fresh_node (x_size x) level vec k).
  eapply wp_vload; [apply lookup_insert_eq|]. simpl h_level.
  assert (Hrep : ∀ ml, 0 ≤ ml < MAX_LAYERS → vec_rep (v_set_index (XIndex (x_set_max_level ml (x_set_size (x_size x + 1)
    (x_set_nodes (<[Z.to_nat (x_size x) := Some y]> (x_nodes x)) x))))
    (v_set_heap (<[y := fresh_node (x_size x) level vec k]> (v_heap v)) v)) (locs ++ [y]) (es ++ [(k, vec, false)])).
  { intros ml Hml. apply vec_rep_snoc; try done. by apply index_ok_snoc. }
  destruct (Z.eqb_spec (x_size x + 1) 1) as [H1|H1].
  - wp_step. eapply wp_upd_index; [done|]. wp_step. eapply wp_upd_index; [done|]. wp_step. apply HQ.
    specialize (Hrep level Hl). pose proof (io_enter _ _ _ Hok) as He. destruct x; simpl in *. by subst.
  - destruct locs as [|c locs]; [simpl in Hsz; lia|].
    set (ml := if x_max_level x <? level then level else x_max_level x).
    assert (Hml : 0 ≤ ml < MAX_LAYERS).
    { unfold ml. pose proof (io_level _ _ _ Hok). by destruct (x_max_level x <? level). }
    specialize (Hrep ml Hml). wp_step. eapply wp_get_index; [done|]. wp_step.
    match type of Hrep with vec_rep ?v0 _ _ => set (v1 := v0) in Hrep end.
    assert (Hrest : wp (x ← get_index; curr ← node_at (x_enterpoint_id x);
        link_layers (Z.to_nat (x_max_level x + 1)) (x_max_level x) curr (Some y);; mret 0) e v1 Q).
    { wp_step. eapply wp_get_index; [done|]. wp_step. simpl x_enterpoint_id. rewrite (io_enter _ _ _ Hok).
      eapply (wp_node_at v1 _ _ 0); [exact Hrep|done|]. simpl x_max_level. wp_step.
      replace ml with (Z.of_nat (Z.to_nat (ml + 1)) - 1) at 2 by lia.
      eapply wp_link_layers with (locs := (c :: locs) ++ [y]); [done|apply Hok|apply Hrep| |by left|apply elem_of_app; right; by left|].
      { by rewrite (vec_rep_size _ _ _ Hrep). }
      intros h' Hg' Hs'. wp_step. apply HQ. by apply vec_rep_core. }
    simpl x_max_level. unfold v1, ml in Hrest. destruct (x_max_level x <? level).
    + eapply wp_upd_index; [done|]. exact Hrest.
    + wp_step. destruct x; exact Hrest.
Qed.
Arguments insert_hnsw : simpl never.

(** * The operations *)

(** Reading the text of a vector: the dimension, then as many coordinates; a
    dimension that is out of range stands for the full one. *)
Definition read_dim (t : string) : Z := if (atoi t <=? 0) || (MAX_DIM <? atoi t) then MAX_DIM else atoi t.
Definition read_vector (s : string) : option (list spec_float) :=
  match words s with
  | [] => None
  | t :: ts => read_coords (Z.to_nat (read_dim t)) ts
  end.
Lemma read_dim_range t : 0 < read_dim t ≤ MAX_DIM.
Proof.
  unfold read_dim. destruct (Z.leb_spec (atoi t) 0); simpl; [done|].
  destruct (Z.ltb_spec MAX_DIM (atoi t)); [done|lia].
Qed.
Lemma read_coords_length n ts l : read_coords n ts = Some l → length l = n.
Proof.
  revert ts l. induction n as [|n IH]; intros ts l; simpl; [by intros [= <-]|].
  destruct ts as [|t ts]; [done|]. destruct (read_coords n ts) as [l'|] eqn:Hl; [|done]. intros [= <-].
  simpl. f_equal. by eapply IH.
Qed.

Definition vec_holds v (n : nat) (m : gmap string (list spec_float)) : Prop :=
  ∃ locs es, vec_rep v locs es ∧ NoDup (lives es).*1 ∧ m = vmap es ∧ length locs = n.

Lemma vec_rep_count c v locs es : vec_rep v locs es → vec_rep (v_set_count c v) locs es.
Proof. by intros []. Qed.
Lemma snoc_map es k vec :
  NoDup (lives es).*1 → vmap es !! k = None →
  NoDup (lives (es ++ [(k, vec, false)])).*1 ∧ vmap (es ++ [(k, vec, false)]) = <[k := vec]> (vmap es).
Proof.
  intros Hnd Hk. unfold vmap in *. rewrite lives_app. change (lives [(k, vec, false)]) with [(k, vec)].
  apply not_elem_of_list_to_map_2 in Hk.
  assert (Hp : lives es ++ [(k, vec)] ≡ₚ (k, vec) :: lives es) by (by rewrite Permutation_app_comm).
  assert (Hnd2 : NoDup (lives es ++ [(k, vec)]).*1) by (rewrite Hp, fmap_cons; by apply NoDup_cons).
  split; [done|]. by rewrite (list_to_map_proper _ _ Hnd2 Hp).
Qed.
(** [find_key] on all the nodes looks the key up in the map. *)
Lemma wp_find_key_all n k v locs es e Q :
  vec_rep v locs es → n = length locs →
  (∀ i x vec, locs !! i = Some x → alive_at es i k vec → Q (Some x) e v) →
  (vmap es !! k = None → Q None e v) →
  wp (find_key n 0 (PStr k)) e v Q.
Proof.
  intros Hr -> Hyes Hno. apply (wp_find_key _ 0%nat _ _ locs es); [done|lia| |].
  - intros j x vec _. apply Hyes.
  - intros Hnone. apply Hno, lives_none. intros j vec Hj. apply Hnone. rewrite (vr_length _ _ _ Hr) in Hj. lia.
Qed.
Lemma insert_snoc es i k vec (r : vrecord) :
  alive_at es i k vec → <[i := (k, vec, true)]> (es ++ [r]) = <[i := (k, vec, true)]> es ++ [r].
Proof. intros Hi. apply insert_app_l. unfold alive_at in Hi. by eapply lookup_lt_Some. Qed.

Lemma wp_vector_set k s v n m e Q :
  vec_holds v n m → no_oom e → Z.of_nat n < MAX_ELEMENTS →
  (∀ vec e' v', read_vector s = Some vec → full vec → no_oom e' → live e' = live e + 6 →
    vec_holds v' (S n) (<[k := vec]> m) → Q 0 e' v') →
  (∀ e', read_vector s = None → no_oom e' → live e' = live e → Q (-1) e' v) →
  (∀ vec, read_vector s = Some vec → full vec) →
  wp (kvs_vector_set IGlobal (PStr k) (PStr s)) e v Q.
Proof.
  intros (locs & es & Hr & Hnd & -> & Hn) He Hlt Hyes Hno Hfull.
  pose proof (vr_index _ _ _ Hr) as (x & Hx & Hok). pose proof (vr_dim _ _ _ Hr) as Hdim.
  unfold kvs_vector_set. simpl inst_null. cbv iota. do 2 wp_step. rewrite Hx. simpl inull. simpl is_null. rewrite !orb_false_l. cbv iota.
  wp_step. eapply wp_get_index; [exact Hx|]. do 2 wp_step. unfold read_vector in *.
  destruct (words s) as [|t ts]; [wp_step; by apply Hno|].
  do 2 wp_step. cbv zeta. rewrite Hdim. fold (read_dim t). do 2 wp_step. rewrite (no_oom_fails _ He). simpl negb. cbv iota.
  destruct (read_coords (Z.to_nat (read_dim t)) ts) as [vec|] eqn:Hc.
  2:{ do 3 wp_step. apply Hno; [done|by apply no_oom_live, no_oom_after|]. simpl. rewrite live_after_malloc, no_oom_fails by done. lia. }
  pose proof (Hfull vec eq_refl) as Hv. assert (Hrd : read_dim t = MAX_DIM).
  { pose proof (read_coords_length _ _ _ Hc). pose proof (read_dim_range t). unfold full in Hv. lia. }
  rewrite Hrd. wp_step. apply wp_random_level. intros level e1 Hlevel Hm1 Hl1. wp_step.
  assert (He1 : no_oom e1) by (unfold no_oom; rewrite Hm1; by apply no_oom_after).
  apply wp_hnsw_create_node; [done|done|]. intros y e2 Hy He2 Hl2. do 2 wp_step. simpl vnull. cbv iota. wp_step.
  eapply wp_insert_hnsw; [exact Hr|lia|done|done|done|]. intros v2 Hr2. change (0 <? 0) with false. cbv iota. wp_step.
  pose proof (vr_index _ _ _ Hr2) as (x2 & Hx2 & Hok2). eapply wp_get_index; [exact Hx2|]. wp_step.
  pose proof (io_size _ _ _ Hok2) as Hs2. rewrite length_app in Hs2. simpl in Hs2.
  replace (Z.to_nat (x_size x2 - 1)) with (length locs) by lia.
  rewrite live_after_malloc, no_oom_fails in Hl1 by done.
  pose proof (vr_length _ _ _ Hr) as Hlen.
  eapply (wp_find_key _ 0%nat); [exact Hr2|rewrite length_app; lia| |].
  - intros j z w Hj Hz Hal. unfold alive_at in Hal. rewrite lookup_app_l in Hal by lia.
    destruct (mark_map _ _ _ _ Hal Hnd) as (Hnd' & Hkw & Hm').
    simpl vnull. cbv iota. wp_step. eapply (wp_mark_deleted j); [exact Hr2|exact Hz|unfold alive_at; rewrite lookup_app_l by lia; exact Hal|].
    intros e3 v3 Hm3 Hl3 Hr3. do 3 wp_step. rewrite insert_snoc in Hr3 by exact Hal.
    destruct (snoc_map (<[j := (k, w, true)]> es) k vec) as [Hnd3 Hmap3]; [done|rewrite Hm'; apply lookup_delete_eq|].
    apply (Hyes vec); [done|done|unfold no_oom; by rewrite Hm3|simpl in *; lia|].
    exists (locs ++ [y]), (<[j := (k, w, true)]> es ++ [(k, vec, false)]). split_and!; [by apply vec_rep_count|done| |].
    + rewrite Hmap3, Hm'. by rewrite insert_delete_eq.
    + rewrite length_app. simpl. lia.
  - intros Hnone. assert (Hk : vmap es !! k = None).
    { apply lives_none. intros j w Hj Hal. apply (Hnone j w); [lia|]. unfold alive_at. by rewrite lookup_app_l by lia. }
    destruct (snoc_map es k vec Hnd Hk) as [Hnd3 Hmap3]. simpl vnull. cbv iota. do 4 wp_step.
    apply (Hyes vec); [done|done|done|simpl in *; lia|].
    exists (locs ++ [y]), (es ++ [(k, vec, false)]). split_and!; [by apply vec_rep_count|done..|].
    rewrite length_app. simpl. lia.
Qed.
Arguments kvs_vector_set : simpl never.

(** The lookup every other operation starts with. *)
Ltac vec_open :=
  match goal with
  | Hr : vec_rep ?v _ _ |- _ =>
      let x := fresh "ix" in let Hx := fresh "Hx" in let Hok := fresh "Hok" in
      pose proof (vr_index _ _ _ Hr) as (x & Hx & Hok);
      simpl inst_null; cbv iota; do 2 wp_step; rewrite Hx; simpl inull; simpl is_null;
      rewrite ?orb_false_l; cbv iota; wp_step; eapply wp_get_index; [exact Hx|]; rewrite ?(io_size _ _ _ Hok), ?Nat2Z.id
  end.

Definition vector_text k (id level : Z) (vec : list spec_float) : string := print_node (fresh_node id level vec k) k.

Lemma alive_map es i k vec : alive_at es i k vec → NoDup (lives es).*1 → vmap es !! k = Some vec.
Proof. intros Hi Hnd. by destruct (mark_map _ _ _ _ Hi Hnd) as (_ & ? & _). Qed.

Lemma wp_vector_get k v n m e Q :
  vec_holds v n m →
  (∀ vec id level, m !! k = Some vec → 0 ≤ id < Z.of_nat n → 0 ≤ level < MAX_LAYERS →
    Q (PStr (vector_text k id level vec)) e v) →
  (m !! k = None → Q PNull e v) →
  wp (kvs_vector_get IGlobal (PStr k)) e v Q.
Proof.
  intros (locs & es & Hr & Hnd & -> & <-) Hyes Hno. unfold kvs_vector_get. vec_open. wp_step.
  eapply wp_find_key_all; [exact Hr|done| |].
  - intros i x vec Hi Hal. simpl vnull. cbv iota. wp_step.
    destruct (records_node _ _ _ _ (vr_records _ _ _ Hr _ _ _ Hi Hal)) as (nd & Hn & Hid & Hv & Hd & Hk & _).
    destruct (vr_graph _ _ _ Hr x) as (nd' & Hn' & Hno'); [by eapply list_elem_of_lookup_2|].
    rewrite Hn in Hn'. injection Hn' as <-.
    eapply wp_vload; [exact Hn|]. rewrite Hk. do 3 wp_step.
    assert (Htext : print_node nd k = vector_text k (Z.of_nat i) (h_level nd) vec).
    { unfold vector_text, print_node. simpl in *. by rewrite Hid, Hv, Hd. }
    simpl fst in *. rewrite Htext. apply Hyes; [by eapply alive_map| |apply Hno'].
    apply lookup_lt_Some in Hi. lia.
  - intros Hk. simpl vnull. cbv iota. wp_step. by apply Hno.
Qed.
Lemma wp_vector_exist k v n m e Q :
  vec_holds v n m → Q (match m !! k with Some _ => 0 | None => 1 end) e v → wp (kvs_vector_exist IGlobal (PStr k)) e v Q.
Proof.
  intros (locs & es & Hr & Hnd & -> & <-) HQ. unfold kvs_vector_exist. vec_open. wp_step.
  eapply wp_find_key_all; [exact Hr|done| |].
  - intros i x vec Hi Hal. wp_step. by rewrite (alive_map _ _ _ _ Hal Hnd) in HQ.
  - intros Hk. wp_step. by rewrite Hk in HQ.
Qed.
Lemma wp_vector_del k v n m e Q :
  vec_holds v n m → no_oom e →
  (∀ e' v', is_Some (m !! k) → no_oom e' → live e' = live e → vec_holds v' n (delete k m) → Q 0 e' v') →
  (m !! k = None → Q (-2) e v) →
  wp (kvs_vector_del IGlobal (PStr k)) e v Q.
Proof.
  intros (locs & es & Hr & Hnd & -> & <-) He Hyes Hno. unfold kvs_vector_del. vec_open. wp_step.
  eapply wp_find_key_all; [exact Hr|done| |].
  - intros i x vec Hi Hal. simpl vnull. cbv iota. wp_step.
    eapply wp_mark_deleted; [exact Hr|exact Hi|exact Hal|]. intros e' v' Hm Hl Hr'. wp_step.
    destruct (mark_map _ _ _ _ Hal Hnd) as (Hnd' & Hk & Hmap).
    apply Hyes; [by eexists|unfold no_oom; by rewrite Hm|done|]. exists locs, (<[i := (k, vec, true)]> es). by split_and!.
  - intros Hk. simpl vnull. cbv iota. wp_step. by apply Hno.
Qed.
Lemma wp_vector_count v n m e Q :
  vec_holds v n m → Q (Z.of_nat (size m)) e v → wp (kvs_vector_count IGlobal) e v Q.
Proof.
  intros (locs & es & Hr & Hnd & -> & <-) HQ. unfold kvs_vector_count. vec_open.
  unfold vmap in HQ. rewrite map_size_list_to_map in HQ by done. rewrite (io_deleted _ _ _ Hok).
  pose proof (io_fits _ _ _ Hok). pose proof (lives_length es). pose proof (vr_length _ _ _ Hr).
  apply wp_ck_int; [unfold INT_MIN, INT_MAX, MAX_ELEMENTS in *; lia|].
  replace (Z.of_nat (length locs) - _) with (Z.of_nat (length (lives es))) by lia. done.
Qed.

(** ** The first and the last call *)

Lemma index_ok_empty lc :
  index_ok (HIndex MAX_DIM 0 0 MAX_ELEMENTS 0 0 LAYER_DECAY (replicate (Z.to_nat MAX_ELEMENTS) None) (Some lc)) [] [].
Proof.
  split; cbn [x_dim x_size x_deleted_count x_max_size x_max_level x_enterpoint_id x_nodes x_level_counts];
    [reflexivity..|done|reflexivity| |done|by eexists].
  cbn [length fmap list_fmap app]. by rewrite Nat.sub_0_r.
Qed.
Lemma wp_kvs_vector_create v e Q :
  no_oom e → v_heap v = ∅ →
  (∀ e' v', no_oom e' → live e' = live e + 3 → vec_holds v' 0 ∅ → Q 0 e' v') →
  wp (kvs_vector_create IGlobal) e v Q.
Proof.
  intros He Hh HQ. unfold kvs_vector_create. simpl inst_null. cbv iota.
  pose proof (no_oom_fails _ He) as F0. pose proof (no_oom_after _ He) as H1.
  pose proof (no_oom_fails _ H1) as F1. pose proof (no_oom_after _ H1) as H2.
  pose proof (no_oom_fails _ H2) as F2. pose proof (no_oom_after _ H2) as H3.
  do 4 wp_step. rewrite F0. simpl negb. cbv iota. do 2 wp_step. rewrite F1. simpl negb. cbv iota.
  do 2 wp_step. rewrite F2. simpl negb. cbv iota. do 2 wp_step. wp_step.
  assert (Hlive : live (after_malloc (after_malloc (after_malloc e))) = live e + 3).
  { rewrite !live_after_malloc, F0, F1, F2. lia. }
  match goal with |- wp wall_time ?e0 ?v0 _ => assert (Hr : vec_rep v0 [] []) end.
  { split; cbn [v_index v_dim v_heap v_set_index]; [|reflexivity| | |apply NoDup_nil_2|reflexivity|intros i x r [=]].
    - eexists. split; [reflexivity|]. apply index_ok_empty.
    - intros x Hx. by apply not_elem_of_nil in Hx.
    - by rewrite Hh, dom_empty_L. }
  unfold wall_time, wp at 1.
  destruct (walls _); (wp_step; apply HQ; [exact H3|exact Hlive|]; exists [], []; split_and!; [exact Hr|apply NoDup_nil_2|done|done]).
Qed.

(** One step of the loop of [kvs_vector_destroy]. *)
Lemma wp_hnsw_free_node x n k e v Q :
  v_heap v !! x = Some n → h_key n = PStr k →
  (∀ e', live e' = live e - 6 → Q tt e' (v_set_heap (delete x (v_heap v)) v)) →
  wp (hnsw_free_node (Some x)) e v Q.
Proof.
  intros Hx Hk HQ. unfold hnsw_free_node. wp_step. eapply wp_vload; [exact Hx|]. rewrite Hk.
  do 12 wp_step. apply HQ. simpl. lia.
Qed.
Arguments hnsw_free_node : simpl never.

(** The state after the nodes before position [i] are freed. *)
Record freeing locs es (i : nat) v : Prop := {
  fr_index : ∃ x, v_index v = XIndex x ∧
    x_nodes x = replicate i None ++ (Some <$> drop i locs) ++ replicate (Z.to_nat MAX_ELEMENTS - length locs) None;
  fr_dom : dom (v_heap v) = list_to_set (drop i locs);
  fr_keys x : x ∈ drop i locs → ∃ n k, v_heap v !! x = Some n ∧ h_key n = PStr k
}.
Lemma freeing_step locs es i x v Q e :
  freeing locs es i v → NoDup locs → locs !! i = Some x →
  (∀ e' v', live e' = live e - 6 → freeing locs es (S i) v' → Q tt e' v') →
  wp (hnsw_free_node (Some x);; put_node (Z.of_nat i) None) e v Q.
Proof.
  intros [(ix & Hx & Hn) Hdom Hkeys] Hnd Hi HQ. rewrite (drop_S _ _ _ Hi) in *.
  assert (Hnd' : NoDup (x :: drop (S i) locs)).
  { rewrite <-(drop_S _ _ _ Hi). rewrite <-(take_drop i locs) in Hnd. by apply NoDup_app in Hnd as (_ & _ & ?). }
  apply NoDup_cons in Hnd' as [Hxn _].
  destruct (Hkeys x) as (n & k & Hxh & Hk); [by left|]. wp_step. eapply wp_hnsw_free_node; [exact Hxh|exact Hk|].
  intros e' Hl. eapply put_node_wp; [exact Hx| |].
  { rewrite Hn, !length_app, length_replicate. simpl. lia. }
  apply HQ; [done|]. split; cbn [v_index v_heap v_set_index v_set_heap].
  - eexists. split; [reflexivity|]. cbn [x_nodes x_set_nodes]. rewrite Hn, Nat2Z.id, insert_app_r_alt by (by rewrite length_replicate).
    rewrite length_replicate, Nat.sub_diag, replicate_S_end, <-app_assoc. reflexivity.
  - rewrite dom_delete_L, Hdom. set_solver.
  - intros y Hy. destruct (Hkeys y) as (ny & ky & Hny & Hky); [by right|]. exists ny, ky.
    rewrite lookup_delete_ne by (intros ->; done). done.
Qed.
Lemma freeing_start v locs es : vec_rep v locs es → freeing locs es 0 v.
Proof.
  intros Hr. pose proof (vr_index _ _ _ Hr) as (x & Hx & Hok). split; rewrite ?drop_0.
  - exists x. split; [done|]. rewrite (io_nodes _ _ _ Hok). done.
  - apply Hr.
  - intros y Hy. apply list_elem_of_lookup in Hy as [i Hi].
    destruct (lookup_lt_is_Some_2 es i) as [r Hri]; [rewrite (vr_length _ _ _ Hr); by eapply lookup_lt_Some|].
    destruct (records_node _ _ _ _ (vr_records _ _ _ Hr _ _ _ Hi Hri)) as (n & Hn & _ & _ & _ & Hk & _). eauto.
Qed.

(** Nothing is left, and every block is given back. *)
Definition vec_gone v : Prop := v_index v = XNull ∧ v_count v = 0 ∧ v_heap v = ∅.
Lemma wp_vector_destroy v n m e Q :
  vec_holds v n m →
  (∀ e' v', live e' = live e - 6 * Z.of_nat n - 3 → vec_gone v' → Q tt e' v') →
  wp (kvs_vector_destroy IGlobal) e v Q.
Proof.
  intros (locs & es & Hr & _ & _ & <-) HQ. unfold kvs_vector_destroy.
  pose proof (vr_index _ _ _ Hr) as (ix & Hx & Hok). simpl inst_null. cbv iota. do 2 wp_step. rewrite Hx. simpl inull. cbv iota.
  wp_step. eapply wp_get_index; [exact Hx|]. rewrite (io_size _ _ _ Hok), Nat2Z.id. wp_step.
  destruct (io_counts _ _ _ Hok) as [lc Hlc]. rewrite Hlc.
  apply (wp_for_up (λ i e' v', ∃ j : nat, i = Z.of_nat j ∧ (j ≤ length locs)%nat ∧ freeing locs es j v' ∧
    live e' = live e - 6 * Z.of_nat j)).
  - exists 0%nat. split_and!; [done|lia|by apply freeing_start|lia].
  - intros i e1 v1 Hi (j & -> & Hj & Hf & Hl). destruct (lookup_lt_is_Some_2 locs j) as [y Hy]; [lia|].
    wp_step. pose proof Hf as [(x1 & Hx1 & Hn1) _ _]. unfold node_at. wp_step. eapply wp_get_index; [exact Hx1|].
    rewrite decide_True by lia. rewrite Nat2Z.id. eapply wp_some.
    { rewrite Hn1, lookup_app_r by (by rewrite length_replicate). rewrite length_replicate, Nat.sub_diag.
      by rewrite (drop_S _ _ _ Hy). }
    simpl vnull. cbv iota. wp_step. eapply freeing_step; [exact Hf|apply Hr|exact Hy|].
    intros e2 v2 Hl2 Hf2. wp_step. exists (S j). split_and!; [lia|lia|done|lia].
  - intros e1 v1 (j & Hj & _ & Hf & Hl). assert (j = length locs) as -> by lia. do 9 wp_step.
    apply HQ; [simpl; lia|]. split_and!; [done|done|]. simpl. apply dom_empty_inv_L.
    rewrite (fr_dom _ _ _ _ Hf), drop_all. done.
Qed.

(** * The life of the engine *)

Inductive vec_op : Type :=
  | VSet k (s : string)
  | VGet k
  | VDel k
  | VExist k
  | VCount.
Inductive vec_answer : Type :=
  | VCode (r : Z)
  | VText (p : cptr).
Definition vec_run (o : vec_op) : M kvs_vector vec_answer :=
  match o with
  | VSet k s => r ← kvs_vector_set IGlobal (PStr k) (PStr s); mret (VCode r)
  | VGet k => r ← kvs_vector_get IGlobal (PStr k); mret (VText r)
  | VDel k => r ← kvs_vector_del IGlobal (PStr k); mret (VCode r)
  | VExist k => r ← kvs_vector_exist IGlobal (PStr k); mret (VCode r)
  | VCount => r ← kvs_vector_count IGlobal; mret (VCode r)
  end.
Fixpoint vec_run_all (os : list vec_op) : M kvs_vector (list vec_answer) :=
  match os with
  | [] => mret []
  | o :: os' => a ← vec_run o; l ← vec_run_all os'; mret (a :: l)
  end.
Definition vec_lifecycle (os : list vec_op) : M kvs_vector (list vec_answer) :=
  kvs_vector_create IGlobal;;
  l ← vec_run_all os;
  kvs_vector_destroy IGlobal;;
  mret l.

(** The abstract specification: a map from keys to vectors.  The number and the
    level that the text of a vector shows are not determined by it. *)
Inductive vec_step : vec_op → gmap string (list spec_float) → vec_answer → gmap string (list spec_float) → Prop :=
  | step_set k s vec m : read_vector s = Some vec → vec_step (VSet k s) m (VCode 0) (<[k := vec]> m)
  | step_set_bad k s m : read_vector s = None → vec_step (VSet k s) m (VCode (-1)) m
  | step_get k vec id level m :
      m !! k = Some vec → 0 ≤ id < MAX_ELEMENTS → 0 ≤ level < MAX_LAYERS →
      vec_step (VGet k) m (VText (PStr (vector_text k id level vec))) m
  | step_get_none k m : m !! k = None → vec_step (VGet k) m (VText PNull) m
  | step_del k m : is_Some (m !! k) → vec_step (VDel k) m (VCode 0) (delete k m)
  | step_del_none k m : m !! k = None → vec_step (VDel k) m (VCode (-2)) m
  | step_exist k m : vec_step (VExist k) m (VCode (match m !! k with Some _ => 0 | None => 1 end)) m
  | step_count m : vec_step VCount m (VCode (Z.of_nat (size m))) m.
Inductive vec_steps : list vec_op → gmap string (list spec_float) → list vec_answer → Prop :=
  | steps_nil m : vec_steps [] m []
  | steps_cons o os m a m' l : vec_step o m a m' → vec_steps os m' l → vec_steps (o :: os) m (a :: l).

(** The vectors after a sequence of operations. *)
Definition vec_effect (o : vec_op) (m : gmap string (list spec_float)) : gmap string (list spec_float) :=
  match o with
  | VSet k s => match read_vector s with Some vec => <[k := vec]> m | None => m end
  | VDel k => delete k m
  | _ => m
  end.
Fixpoint vec_contents (os : list vec_op) (m : gmap string (list spec_float)) : gmap string (list spec_float) :=
  match os with
  | [] => m
  | o :: os' => vec_contents os' (vec_effect o m)
  end.
Lemma vec_step_effect o m a m' : vec_step o m a m' → m' = vec_effect o m.
Proof.
  destruct 1 as [k s vec m Hs|k s m Hs| | | |k m Hk| |]; simpl; rewrite ?Hs; try done. by rewrite delete_id.
Qed.

(** The vectors that are stored have the full dimension. *)
Definition vec_op_ok (o : vec_op) : Prop :=
  match o with
  | VSet _ s => match read_vector s with Some vec => full vec | None => True end
  | _ => True
  end.

Lemma wp_vec_run o v n m e :
  vec_holds v n m → no_oom e → vec_op_ok o → Z.of_nat n < MAX_ELEMENTS →
  wp (vec_run o) e v (λ a e' v', ∃ n' m', vec_step o m a m' ∧ vec_holds v' n' m' ∧ no_oom e' ∧
    (n' ≤ S n)%nat ∧ live e' = live e + 6 * (Z.of_nat n' - Z.of_nat n)).
Proof.
  intros Hv He Ho Hn. destruct o as [k s|k|k|k|]; simpl in Ho; unfold vec_run; wp_step.
  - eapply wp_vector_set; [exact Hv|done|done| | |].
    + intros vec e' v' Hs _ He' Hl Hv'. wp_step. exists (S n), (<[k := vec]> m). split_and!; [by constructor|done..|lia].
    + intros e' Hs He' Hl. wp_step. exists n, m. split_and!; [by constructor|done|done|lia|lia].
    + intros vec Hs. by rewrite Hs in Ho.
  - eapply wp_vector_get; [exact Hv| |].
    + intros vec id level Hk Hid Hl. wp_step. exists n, m. split_and!; [constructor; [done|lia|done]|done|done|lia|lia].
    + intros Hk. wp_step. exists n, m. split_and!; [by constructor|done|done|lia|lia].
  - eapply wp_vector_del; [exact Hv|done| |].
    + intros e' v' Hk He' Hl Hv'. wp_step. exists n, (delete k m). split_and!; [by constructor|done|done|lia|lia].
    + intros Hk. wp_step. exists n, m. split_and!; [by constructor|done|done|lia|lia].
  - eapply wp_vector_exist; [exact Hv|]. wp_step. exists n, m. split_and!; [by constructor|done|done|lia|lia].
  - eapply wp_vector_count; [exact Hv|]. wp_step. exists n, m. split_and!; [by constructor|done|done|lia|lia].
Qed.
Lemma wp_vec_run_all os v n m e :
  vec_holds v n m → no_oom e → Forall vec_op_ok os → Z.of_nat (n + length os) ≤ MAX_ELEMENTS →
  wp (vec_run_all os) e v (λ l e' v', vec_steps os m l ∧ no_oom e' ∧ ∃ n', vec_holds v' n' (vec_contents os m) ∧
    (n' ≤ n + length os)%nat ∧ live e' = live e + 6 * (Z.of_nat n' - Z.of_nat n)).
Proof.
  revert v n m e. induction os as [|o os IH]; intros v n m e Hv He Hos Hn; cbn [vec_run_all].
  { wp_step. split_and!; [constructor|done|]. exists n. split_and!; [done|lia|lia]. }
  apply Forall_cons in Hos as [Ho Hos]. simpl length in Hn. wp_step.
  eapply wp_mono; [eapply wp_vec_run; [exact Hv|done|done|lia]|].
  intros a e1 v1 (n1 & m1 & Hs & Hv1 & He1 & Hn1 & Hl1). wp_step.
  eapply wp_mono; [eapply IH; [exact Hv1|done|done|lia]|].
  intros l e2 v2 (Hss & He2 & n2 & Hv2 & Hn2 & Hl2). wp_step. split_and!; [by econstructor|done|].
  exists n2. rewrite (vec_step_effect _ _ _ _ Hs) in Hv2. simpl length. split_and!; [done|lia|lia].
Qed.

(** C15: A life of the vector engine, from [kvs_vector_create] to
    [kvs_vector_destroy], on vectors of the full dimension of 1536 coordinates:
    every call returns, the answers are those of a finite map from keys to
    vectors, and every block of memory is given back. *)
Theorem vector_lifecycle_refines os e :
  no_oom e → Forall vec_op_ok os → Z.of_nat (length os) ≤ MAX_ELEMENTS →
  wp (vec_lifecycle os) e global_vector (λ l e' v',
    vec_steps os ∅ l ∧ live e' = live e ∧ vec_gone v').
Proof.
  intros He Hos Hn. unfold vec_lifecycle. wp_step. apply wp_kvs_vector_create; [done|done|].
  intros e1 v1 He1 Hl1 Hv1. wp_step. eapply wp_mono; [by eapply wp_vec_run_all|].
  intros l e2 v2 (Hs & _ & n & Hv2 & _ & Hl2). wp_step. eapply wp_vector_destroy; [exact Hv2|].
  intros e3 v3 Hl3 Hg. wp_step. split_and!; [done|lia|done].
Qed.

(** A text of the full dimension. *)
Definition full_text (c : string) : string :=
  "1536" +:+ String.concat "" (replicate 1536 (" " +:+ c)).
Lemma vector_lifecycle_refines_witness :
  vec_op_ok (VSet "a" (full_text "0.5")) ∧
  wp (vec_lifecycle [VSet "a" (full_text "0.5"); VSet "b" (full_text "-2e3"); VSet "a" (full_text "1"); VDel "b"; VCount])
    (Env [] [] [] [] 0) global_vector (λ l e' v',
      vec_steps [VSet "a" (full_text "0.5"); VSet "b" (full_text "-2e3"); VSet "a" (full_text "1"); VDel "b"; VCount] ∅ l ∧
      live e' = 0 ∧ vec_gone v').
Proof.
  assert (H1 : vec_op_ok (VSet "a" (full_text "0.5"))) by (vm_compute; reflexivity).
  split; [exact H1|]. apply vector_lifecycle_refines; [constructor| |vm_compute; discriminate].
  repeat (apply Forall_cons; split); [exact H1|vm_compute; reflexivity|vm_compute; reflexivity|exact I|exact I|apply Forall_nil; exact I].
Defined.

(** C39: [random_level] returns whatever numbers [rand] yields, after at most 15 more
    draws, with the number of one of the 16 layers, and touches nothing else. *)
Theorem random_level_returns (e : env) (v : kvs_vector) :
  wp random_level e v (λ level e' v', 0 ≤ level < MAX_LAYERS ∧ v' = v ∧ live e' = live e).
Proof. apply wp_random_level. auto. Qed.

(** ** Short vectors *)

Definition short (a : list spec_float) : Prop := Z.of_nat (length a) < MAX_DIM.
Lemma distance_short a b : short a ∨ short b → euclidean_distance a b MAX_DIM = None.
Proof. unfold short, euclidean_distance. intros H. rewrite sum_coords_none; [done|lia]. Qed.
Lemma link_layers_short n y z ny nz x e v :
  v_index v = XIndex x → x_dim x = MAX_DIM → v_heap v !! y = Some ny → v_heap v !! z = Some nz →
  0 ≤ h_level ny → 0 ≤ h_level nz → short (h_vector ny) ∨ short (h_vector nz) → (0 < n)%nat →
  link_layers n (Z.of_nat n - 1) (Some y) (Some z) e v = UB.
Proof.
  intros Hx Hd Hy Hz Hly Hlz Hs. induction n as [|n IH]; [lia|]. intros _. cbn [link_layers].
  replace (Z.of_nat (S n) - 1) with (Z.of_nat n) by lia.
  apply ub_after. eapply wp_vload; [exact Hz|]. destruct (Z.ltb_spec (h_level nz) (Z.of_nat n)); [apply IH; lia|].
  apply ub_after. eapply wp_vload; [exact Hy|]. destruct (Z.ltb_spec (h_level ny) (Z.of_nat n)); [apply IH; lia|].
  apply ub_after. eapply wp_get_index; [exact Hx|]. rewrite Hd, distance_short by tauto. done.
Qed.

(** An index that has room, whose first node, where every insertion starts, has the
    vector [vec]. *)
Definition begun v (vec : list spec_float) : Prop := ∃ x y n,
  v_index v = XIndex x ∧ x_dim x = MAX_DIM ∧ 0 < x_size x < x_max_size x ∧
  Z.of_nat (length (x_nodes x)) = x_max_size x ∧ 0 ≤ x_max_level x ∧ x_enterpoint_id x = 0 ∧
  x_nodes x !! 0%nat = Some (Some y) ∧ v_heap v !! y = Some n ∧ 0 ≤ h_level n ∧ h_vector n = vec ∧ v_dim v = MAX_DIM.
Lemma insert_hnsw_short z nz vec e v :
  begun v vec → z ∉ dom (v_heap v) → 0 ≤ h_level nz → short vec ∨ short (h_vector nz) →
  insert_hnsw (Some z) e (v_set_heap (<[z := nz]> (v_heap v)) v) = UB.
Proof.
  intros (x & y & n & Hx & Hd & Hsz & Hnl & Hml & Hen & Hy & Hn & Hl & Hv & _) Hz Hlz Hs.
  assert (Hzy : z ≠ y) by (intros ->; apply Hz; by apply elem_of_dom_2 in Hn).
  unfold insert_hnsw. apply ub_after. eapply wp_get_index; [exact Hx|]. rewrite (proj2 (Z.leb_gt _ _)) by lia.
  apply ub_after. eapply wp_vstore; [apply lookup_insert_eq|]. apply ub_after. eapply put_node_wp; [exact Hx|lia|].
  apply ub_after. eapply wp_upd_index; [done|]. apply ub_after. simpl v_heap. rewrite insert_insert_eq.
  eapply wp_vload; [apply lookup_insert_eq|]. rewrite (proj2 (Z.eqb_neq _ _)) by lia.
  apply ub_after. eapply wp_get_index; [done|]. apply ub_after.
  set (ml := if x_max_level x <? h_level nz then h_level nz else x_max_level x).
  assert (Hrest : ∀ x', x_dim x' = MAX_DIM → x_max_level x' = ml → x_enterpoint_id x' = 0 →
    x_nodes x' = <[Z.to_nat (x_size x) := Some z]> (x_nodes x) →
    (x ← get_index; curr ← node_at (x_enterpoint_id x);
     link_layers (Z.to_nat (x_max_level x + 1)) (x_max_level x) curr (Some z);; mret 0) e
      (v_set_index (XIndex x') (v_set_heap (<[z := h_set_id (x_size x) nz]> (v_heap v)) v)) = UB).
  { intros x' H1 H2 H3 H4. apply ub_after. eapply wp_get_index; [done|]. apply ub_after. unfold node_at. wp_step.
    eapply wp_get_index; [done|]. rewrite H3, decide_True, H4 by lia. rewrite list_lookup_insert_ne by lia. change (Z.to_nat 0) with 0%nat. rewrite Hy. wp_step.
    apply ub_bind. rewrite H2. assert (Hmlp : 0 ≤ ml) by (unfold ml; destruct (_ <? _); lia).
    replace ml with (Z.of_nat (Z.to_nat (ml + 1)) - 1) at 2 by lia.
    eapply (link_layers_short _ y z n (h_set_id (x_size x) nz)); [done|done| |apply lookup_insert_eq|done|done| |lia].
    - cbn. by rewrite lookup_insert_ne.
    - cbn. by rewrite Hv. }
  cbn [x_max_level x_set_size x_set_nodes]. change (h_level (h_set_id (x_size x) nz)) with (h_level nz).
  unfold ml in Hrest. destruct (x_max_level x <? h_level nz).
  - eapply wp_upd_index; [done|]. by apply Hrest.
  - wp_step. by apply Hrest.
Qed.
Lemma read_vector_length s vec : read_vector s = Some vec → 0 < Z.of_nat (length vec) ≤ MAX_DIM.
Proof.
  unfold read_vector. destruct (words s) as [|t ts]; [done|]. intros H%read_coords_length.
  pose proof (read_dim_range t). lia.
Qed.
(** A vector on an index that has begun: the distance is undefined. *)
Lemma set_short k s vec vec1 e v :
  begun v vec1 → no_oom e → read_vector s = Some vec → short vec1 ∨ short vec →
  kvs_vector_set IGlobal (PStr k) (PStr s) e v = UB.
Proof.
  intros Hb He Hr Hs. pose proof Hb as (x & y & n & Hx & _ & _ & _ & _ & _ & _ & _ & _ & _ & Hdim).
  unfold kvs_vector_set. simpl inst_null. cbv iota. apply ub_after. wp_step. rewrite Hx. simpl inull. simpl is_null. rewrite !orb_false_l. cbv iota.
  apply ub_after. eapply wp_get_index; [exact Hx|]. apply ub_after. wp_step. unfold read_vector in Hr.
  destruct (words s) as [|t ts]; [done|]. apply ub_after. wp_step. cbv zeta. rewrite Hdim. fold (read_dim t).
  apply ub_after. wp_step. rewrite (no_oom_fails _ He). simpl negb. cbv iota. rewrite Hr.
  pose proof (read_coords_length _ _ _ Hr) as Hlen. pose proof (read_dim_range t).
  apply ub_after. apply wp_random_level. intros level e1 Hlevel Hm1 _. apply ub_after.
  assert (He1 : no_oom e1) by (unfold no_oom; rewrite Hm1; by apply no_oom_after).
  apply wp_create_any_node; [done|lia|]. intros z e2 Hz He2 _. apply ub_after. wp_step. simpl vnull. cbv iota.
  apply ub_bind. eapply insert_hnsw_short; [exact Hb|done|simpl; lia|done].
Qed.
(** The first vector of an index may have any length. *)
Lemma insert_hnsw_first z nz e v Q :
  vec_rep v [] [] → z ∉ dom (v_heap v) → 0 ≤ h_level nz →
  (∀ v', begun v' (h_vector nz) → (∃ x, v_index v' = XIndex x ∧ x_size x = 1) → Q 0 e v') →
  wp (insert_hnsw (Some z)) e (v_set_heap (<[z := nz]> (v_heap v)) v) Q.
Proof.
  intros Hr Hz Hl HQ. pose proof (vr_index _ _ _ Hr) as (x & Hx & Hok).
  pose proof (index_nodes_length _ _ _ Hok) as Hnl. pose proof (io_size _ _ _ Hok) as Hsz. change (x_size x = 0) in Hsz.
  unfold insert_hnsw. wp_step. eapply wp_get_index; [exact Hx|]. rewrite (io_max _ _ _ Hok), Hsz. change (MAX_ELEMENTS <=? 0) with false. cbv iota. wp_step.
  eapply wp_vstore; [apply lookup_insert_eq|]. wp_step. eapply put_node_wp; [exact Hx|unfold MAX_ELEMENTS in *; lia|]. wp_step.
  eapply wp_upd_index; [done|]. wp_step. simpl v_heap. rewrite insert_insert_eq.
  eapply wp_vload; [apply lookup_insert_eq|]. change (0 + 1 =? 1) with true. cbv iota.
  wp_step. eapply wp_upd_index; [done|]. wp_step. eapply wp_upd_index; [done|]. wp_step. apply HQ; [|by eexists].
  eexists _, z, _. split_and!; [reflexivity|exact (io_dim _ _ _ Hok)|cbn; lia|cbn; rewrite (io_max _ _ _ Hok); unfold MAX_ELEMENTS; lia
    |cbn; rewrite length_insert, (io_max _ _ _ Hok); exact Hnl|exact Hl|reflexivity| |apply lookup_insert_eq|exact Hl|reflexivity|apply Hr].
  apply list_lookup_insert_eq. unfold MAX_ELEMENTS in Hnl. lia.
Qed.
Lemma set_first k s vec e v Q :
  vec_rep v [] [] → no_oom e → read_vector s = Some vec →
  (∀ e' v', begun v' vec → no_oom e' → Q 0 e' v') → wp (kvs_vector_set IGlobal (PStr k) (PStr s)) e v Q.
Proof.
  intros Hv He Hr HQ. pose proof (vr_index _ _ _ Hv) as (x & Hx & Hok). pose proof (vr_dim _ _ _ Hv) as Hdim.
  unfold kvs_vector_set. simpl inst_null. cbv iota. do 2 wp_step. rewrite Hx. simpl inull. simpl is_null. rewrite !orb_false_l. cbv iota.
  wp_step. eapply wp_get_index; [exact Hx|]. do 2 wp_step. unfold read_vector in Hr.
  destruct (words s) as [|t ts]; [done|]. do 2 wp_step. cbv zeta. rewrite Hdim. fold (read_dim t).
  do 2 wp_step. rewrite (no_oom_fails _ He). simpl negb. cbv iota. rewrite Hr.
  pose proof (read_coords_length _ _ _ Hr) as Hlen. pose proof (read_dim_range t).
  wp_step. apply wp_random_level. intros level e1 Hlevel Hm1 _. wp_step.
  assert (He1 : no_oom e1) by (unfold no_oom; rewrite Hm1; by apply no_oom_after).
  apply wp_create_any_node; [done|lia|]. intros z e2 Hz He2 _. do 2 wp_step. simpl vnull. cbv iota. wp_step.
  eapply insert_hnsw_first; [exact Hv|done|simpl; lia|]. intros v' Hb (x' & Hx' & Hs'). change (0 <? 0) with false. cbv iota.
  wp_step. eapply wp_get_index; [exact Hx'|]. wp_step. rewrite Hs'. change (Z.to_nat (1 - 1)) with 0%nat. unfold find_key. wp_step. simpl vnull. cbv iota. do 4 wp_step.
  apply HQ; [exact Hb|done].
Qed.
(** An index that has held vectors of the full dimension. *)
Lemma vec_rep_begun v locs es :
  vec_rep v locs es → locs ≠ [] → Z.of_nat (length locs) < MAX_ELEMENTS → ∃ vec, begun v vec.
Proof.
  intros Hr Hne Hlt. destruct locs as [|y locs]; [done|]. pose proof (vr_index _ _ _ Hr) as (x & Hx & Hok).
  destruct (vr_graph _ _ _ Hr y) as (n & Hn & Hno); [by left|]. exists (h_vector n), x, y, n.
  pose proof (index_nodes_length _ _ _ Hok). pose proof (io_level _ _ _ Hok). pose proof (no_level _ _ _ Hno).
  pose proof (io_max _ _ _ Hok) as Hm. pose proof (io_size _ _ _ Hok) as Hs. simpl length in *.
  split_and!; try done; try apply Hok; try apply Hr; try lia. by rewrite (io_nodes _ _ _ Hok).
Qed.

(** Two more vectors, of which one is short. *)
Lemma two_short k1 s1 w1 k2 s2 w2 v n m e :
  vec_holds v n m → no_oom e → Z.of_nat n + 2 ≤ MAX_ELEMENTS →
  read_vector s1 = Some w1 → read_vector s2 = Some w2 → short w1 ∨ short w2 →
  (kvs_vector_set IGlobal (PStr k1) (PStr s1);; kvs_vector_set IGlobal (PStr k2) (PStr s2)) e v = UB.
Proof.
  intros Hv He Hn H1 H2 Hs. destruct n as [|n].
  - destruct Hv as (locs & es & Hr & _ & _ & Hlen). apply nil_length_inv in Hlen as ->.
    pose proof (vr_length _ _ _ Hr) as Hes. apply nil_length_inv in Hes as ->.
    apply ub_after. eapply set_first; [exact Hr|done|exact H1|]. intros e' v' Hb He'. by eapply set_short.
  - assert (Hb : ∀ v' n' m', vec_holds v' (S n') m' → Z.of_nat (S n') < MAX_ELEMENTS → ∃ vec, begun v' vec).
    { intros v' n' m' (locs & es & Hr & _ & _ & Hlen) Hlt. eapply vec_rep_begun; [exact Hr|by intros ->|lia]. }
    destruct (Z.eq_dec (Z.of_nat (length w1)) MAX_DIM) as [Hf|Hf].
    + apply ub_after. eapply wp_vector_set; [exact Hv|done|lia| |by rewrite H1|by rewrite H1; intros ? [= <-]].
      intros vec e' v' Hvec _ He' _ Hv'. destruct (Hb v' (S n) _ Hv') as [w Hw]; [lia|].
      eapply set_short; [exact Hw|done|exact H2|]. right. destruct Hs as [Hs|Hs]; [unfold short in Hs; lia|done].
    + destruct (Hb v n m Hv) as [w Hw]; [lia|]. apply ub_bind. eapply set_short; [exact Hw|done|exact H1|]. right.
      pose proof (read_vector_length _ _ H1). unfold short. lia.
Qed.

(** C40: The distance loop runs over the dimension of the index, 1536, whatever the
    dimension of the stored vectors (kvs_vector.c:408).  Whatever was done with vectors of
    the full dimension, storing two more of which one has fewer coordinates reads past
    the end of a block. *)
Theorem short_vectors_undefined os k1 s1 w1 k2 s2 w2 e :
  no_oom e → Forall vec_op_ok os → Z.of_nat (length os) + 2 ≤ MAX_ELEMENTS →
  read_vector s1 = Some w1 → read_vector s2 = Some w2 →
  Z.of_nat (length w1) < MAX_DIM ∨ Z.of_nat (length w2) < MAX_DIM →
  (kvs_vector_create IGlobal;; vec_run_all os;; kvs_vector_set IGlobal (PStr k1) (PStr s1);;
   kvs_vector_set IGlobal (PStr k2) (PStr s2)) e global_vector = UB.
Proof.
  intros He Hos Hn H1 H2 Hs. apply ub_after. apply wp_kvs_vector_create; [done|done|]. intros e1 x1 He1 _ Hx1.
  apply ub_after. eapply wp_mono; [eapply wp_vec_run_all; [exact Hx1|done|done|lia]|]. cbv beta.
  intros _ e2 x2 (_ & He2 & n & Hx2 & Hle & _). eapply two_short; [exact Hx2|done|simpl in Hle; lia|exact H1|exact H2|exact Hs].
Qed.
Lemma short_vectors_undefined_witness :
  (kvs_vector_create IGlobal;; vec_run_all [VSet "c" (full_text "0.5"); VCount];;
   kvs_vector_set IGlobal (PStr "a") (PStr "3 1.0 2.0 3.0");;
   kvs_vector_set IGlobal (PStr "b") (PStr "3 4.0 5.0 6.0")) (Env [] [] [] [] 0) global_vector = UB.
Proof.
  eapply short_vectors_undefined; [constructor| |vm_compute; discriminate|vm_compute; reflexivity|vm_compute; reflexivity|].
  - apply Forall_cons_2; [vm_compute; reflexivity|]. apply Forall_cons_2; [exact I|]. apply Forall_nil_2.
  - left. vm_compute. reflexivity.
Defined.
