(* ===== verification/VectorSearch.v ===== *)
(** The search of the vector engine: the exchange sort sorts, and as long as at
    most 128 vectors are stored the search finds exactly the nearest ones,
    whatever the layers look like. *)
From Stdlib Require Import SpecFloat.
From S2P Require Import Prelude CText Vector VectorProof.

Local Open Scope Z_scope.

Implicit Types (h : gmap loc HNSWNode) (locs : list loc) (v : kvs_vector) (e : env) (es : list vrecord) (k : string).

(** * The exchange sort *)

(** No later distance is smaller. *)
Definition by_distance {A} (a b : A * spec_float) : Prop := SFltb b.2 a.2 = false.

Lemma exchange_row_spec (rest pre : list (nptr * spec_float)) a mid :
  Forall (by_distance a) mid →
  ∃ a' mid', exchange_row (length rest) (length pre) (length pre + S (length mid)) (pre ++ a :: mid ++ rest) = pre ++ a' :: mid' ∧
    a' :: mid' ≡ₚ a :: mid ++ rest ∧ Forall (by_distance a') mid'.
Proof.
  revert a mid. induction rest as [|b rest IH]; intros a mid Ha; simpl.
  { exists a, mid. by rewrite app_nil_r. }
  assert (Hi : (pre ++ a :: mid ++ b :: rest) !! length pre = Some a) by (by apply list_lookup_middle).
  assert (Hj : (pre ++ a :: mid ++ b :: rest) !! (length pre + S (length mid))%nat = Some b).
  { rewrite lookup_app_r by lia. replace (length pre + S (length mid) - length pre)%nat with (S (length mid)) by lia.
    by apply list_lookup_middle. }
  rewrite Hi, Hj. destruct (SFltb b.2 a.2) eqn:Hlt.
  - assert (Hswap : <[(length pre + S (length mid))%nat := a]> (<[length pre := b]> (pre ++ a :: mid ++ b :: rest)) =
        pre ++ b :: (mid ++ [a]) ++ rest).
    { rewrite !insert_app_r_alt, Nat.sub_diag by lia.
      replace (length pre + S (length mid) - length pre)%nat with (S (length mid)) by lia.
      simpl. rewrite insert_app_r_alt, Nat.sub_diag by lia. simpl. by rewrite <-app_assoc. }
    rewrite Hswap. destruct (IH b (mid ++ [a])) as (a' & mid' & Heq & Hp & Hs).
    { apply Forall_app. split.
      - eapply Forall_impl; [exact Ha|]. intros x Hx. unfold by_distance in *.
        destruct (SFltb x.2 b.2) eqn:Hxb; [|done]. by rewrite (SFltb_trans _ _ _ Hxb Hlt) in Hx.
      - apply Forall_singleton. unfold by_distance. destruct (SFltb a.2 b.2) eqn:Hab; [|done].
        pose proof (SFltb_trans _ _ _ Hlt Hab) as Hbb. by rewrite SFltb_irrefl in Hbb. }
    exists a', mid'. rewrite length_app in Heq. simpl in Heq.
    replace (S (length pre + S (length mid)))%nat with (length pre + S (length mid + 1))%nat by lia.
    split_and!; [done| |done]. rewrite Hp. rewrite <-app_assoc. simpl. rewrite <-!Permutation_middle. apply Permutation_swap.
  - destruct (IH a (mid ++ [b])) as (a' & mid' & Heq & Hp & Hs); [apply Forall_app; split; [done|by apply Forall_singleton]|].
    exists a', mid'. rewrite length_app, <-app_assoc in Heq. simpl in Heq.
    replace (S (length pre + S (length mid)))%nat with (length pre + S (length mid + 1))%nat by lia.
    split_and!; [done| |done]. by rewrite Hp, <-app_assoc.
Qed.
Lemma exchange_rows_spec (n : nat) (pre suf : list (nptr * spec_float)) :
  n = pred (length suf) →
  ∃ suf', exchange_rows n (length pre) (pre ++ suf) = pre ++ suf' ∧ suf' ≡ₚ suf ∧ StronglySorted by_distance suf'.
Proof.
  revert pre suf. induction n as [|n IH]; intros pre suf Hn; cbn [exchange_rows].
  { exists suf. split_and!; [done..|]. destruct suf as [|a [|b suf]]; simpl in Hn; [constructor| |lia].
    apply StronglySorted_cons. split; [by constructor|constructor]. }
  destruct suf as [|a rest]; simpl in Hn; [lia|].
  destruct (exchange_row_spec rest pre a []) as (a' & mid' & Heq & Hp & Hs); [constructor|]. simpl in Heq, Hp.
  rewrite length_app. simpl. replace (length pre + S (length rest) - S (length pre))%nat with (length rest) by lia.
  replace (length pre + 1)%nat with (S (length pre)) in Heq by lia. rewrite Heq.
  destruct (IH (pre ++ [a']) mid') as (suf' & Heq' & Hp' & Hs').
  { apply Permutation_length in Hp. simpl in Hp. lia. }
  rewrite length_app, <-app_assoc in Heq'. simpl in Heq'. rewrite Nat.add_1_r in Heq'. rewrite Heq'.
  exists (a' :: suf'). rewrite <-app_assoc. split_and!; [done|by rewrite Hp'|].
  apply StronglySorted_cons. split; [by rewrite Hp'|done].
Qed.
Lemma exchange_sort_spec l : exchange_sort l ≡ₚ l ∧ StronglySorted by_distance (exchange_sort l).
Proof. destruct (exchange_rows_spec (pred (length l)) [] l) as (l' & Heq & Hp & Hs); [done|]. unfold exchange_sort. simpl in Heq. by rewrite Heq. Qed.

(** * Walking down the layers *)

(** A node that may be met on the way: it belongs to the graph and was not deleted. *)
Definition alive_node (v : kvs_vector) (locs : list loc) (y : loc) : Prop :=
  y ∈ locs ∧ ∃ n, v_heap v !! y = Some n ∧ h_is_deleted n = 0.
Lemma rep_node v locs es (y : loc) :
  vec_rep v locs es → y ∈ locs → ∃ (i : nat) (r : vrecord) (n : HNSWNode), locs !! i = Some y ∧ es !! i = Some r ∧ v_heap v !! y = Some n ∧
    h_id n = Z.of_nat i ∧ h_vector n = r.1.2 ∧ h_dim n = MAX_DIM ∧ h_key n = PStr r.1.1 ∧
    h_is_deleted n = (if r.2 then 1 else 0) ∧ node_ok (v_heap v) locs n.
Proof.
  intros Hr Hy. destruct (vr_graph _ _ _ Hr y Hy) as (n & Hn & Hok). apply list_elem_of_lookup in Hy as [i Hi].
  destruct (lookup_lt_is_Some_2 es i) as [r Hri]; [rewrite (vr_length _ _ _ Hr); by eapply lookup_lt_Some|].
  destruct (records_node _ _ _ _ (vr_records _ _ _ Hr _ _ _ Hi Hri)) as (n' & Hn' & H1 & H2 & H3 & H4 & H5).
  rewrite Hn in Hn'. injection Hn' as <-. exists i, r, n. by split_and!.
Qed.

Lemma wp_layer_walk fuel query level curr v locs es e Q :
  vec_rep v locs es → full query → 0 ≤ level → in_layer (v_heap v) locs level curr → alive_node v locs curr →
  (length (nearer (v_heap v) query locs (dist_to (v_heap v) query curr)) < fuel)%nat →
  (∀ curr', alive_node v locs curr' → Q (Some curr') e v) →
  wp (layer_walk fuel query level (Some curr) (dist_to (v_heap v) query curr)) e v Q.
Proof.
  intros Hr Hq H0. revert curr. induction fuel as [|fuel IH]; intros curr Hc Ha Hf HQ; [lia|]. cbn [layer_walk].
  pose proof Hc as (_ & n & Hn & Hok & Hl). wp_step.
  eapply wp_forward_at; [exact Hn|rewrite (no_forward _ _ _ Hok); lia|]. intros p Hp.
  destruct p as [p|]; simpl vnull; cbv iota; [|wp_step; by apply HQ].
  pose proof (in_layer_next _ _ _ _ _ _ (vr_graph _ _ _ Hr) Hc Hn H0 Hp) as Hcp. pose proof Hcp as (Hpin & _).
  destruct (rep_node _ _ _ _ Hr Hpin) as (i & r & np & _ & _ & Hnp & _ & _ & Hdim & _ & Hdel & Hokp).
  wp_step. eapply wp_vload; [exact Hnp|]. destruct (Z.eqb_spec (h_is_deleted np) 0) as [Hd0|Hd0]; simpl negb; cbv iota; [|wp_step; by apply HQ].
  rewrite Hdim. destruct (distance_full query (h_vector np)) as [d Hd]; [done|apply Hokp|]. rewrite Hd. do 2 wp_step.
  assert (Hdt : d = dist_to (v_heap v) query p) by (unfold dist_to; by rewrite Hnp, Hd).
  rewrite Hdt. destruct (SFltb (dist_to (v_heap v) query p) (dist_to (v_heap v) query curr)) eqn:Hlt; [|wp_step; by apply HQ].
  apply IH; [done| |pose proof (nearer_step _ _ _ _ _ Hpin Hlt); lia|done]. split; [done|]. by exists np.
Qed.
Lemma wp_layers_down n query curr v locs es e Q :
  vec_rep v locs es → full query → alive_node v locs curr →
  (∀ curr', alive_node v locs curr' → Q (Some curr') e v) →
  wp (layers_down n query (Z.of_nat n) (Some curr)) e v Q.
Proof.
  intros Hr Hq. revert curr. induction n as [|n IH]; intros curr Ha HQ; cbn [layers_down]; [wp_step; by apply HQ|].
  replace (Z.of_nat (S n) - 1) with (Z.of_nat n) by lia. pose proof Ha as (Hin & c & Hc & Hdel).
  destruct (vr_graph _ _ _ Hr _ Hin) as (c' & Hc' & Hok). rewrite Hc in Hc'. injection Hc' as <-.
  pose proof (vr_index _ _ _ Hr) as (x & Hx & Hxok). wp_step. eapply wp_vload; [exact Hc|].
  destruct (Z.ltb_spec (h_level c) (Z.of_nat (S n))); [by apply IH|]. wp_step. eapply wp_get_index; [exact Hx|].
  rewrite (io_dim _ _ _ Hxok). destruct (distance_full query (h_vector c)) as [d Hd]; [done|apply Hok|]. rewrite Hd. do 2 wp_step.
  assert (Hdt : d = dist_to (v_heap v) query curr) by (unfold dist_to; by rewrite Hc, Hd).
  unfold vec_fuel. do 4 wp_step. rewrite Hdt. wp_step. eapply wp_layer_walk; [exact Hr|done|lia| |done| |].
  - split; [done|]. by exists c.
  - pose proof (nearer_length (v_heap v) query locs (dist_to (v_heap v) query curr)).
    rewrite (vec_rep_size _ _ _ Hr). lia.
  - intros curr' Ha'. by apply IH.
Qed.
Arguments layers_down : simpl never.

(** * The greedy search *)

(** In its layer, no farther than [y], and its next node is not nearer. *)
Definition greedy_stop (v : kvs_vector) (locs : list loc) query level (y curr : loc) : Prop :=
  let dist := dist_to (v_heap v) query in
  in_layer (v_heap v) locs level curr ∧ SFltb (dist y) (dist curr) = false ∧
  ∀ n p, v_heap v !! curr = Some n → h_forward n !! Z.to_nat level = Some (Some p) → SFltb (dist p) (dist curr) = false.
(** The next node of the layer and its distance. *)
Lemma wp_greedy_next {A} level curr v locs es query (stop : A) (go : nptr → spec_float → M kvs_vector A) e Q :
  vec_rep v locs es → full query → 0 ≤ level → in_layer (v_heap v) locs level curr →
  ((∀ n p, v_heap v !! curr = Some n → h_forward n !! Z.to_nat level ≠ Some (Some p)) → Q stop e v) →
  (∀ n p, v_heap v !! curr = Some n → h_forward n !! Z.to_nat level = Some (Some p) → in_layer (v_heap v) locs level p →
    wp (go (Some p) (dist_to (v_heap v) query p)) e v Q) →
  wp (next ← forward_at (Some curr) level;
      if vnull next then mret stop else
      n ← vload next;
      x ← get_index;
      dist ← some_or_ub (euclidean_distance query (h_vector n) (x_dim x));
      go next dist) e v Q.
Proof.
  intros Hr Hq H0 Hc Hstop Hgo. pose proof Hc as (_ & n & Hn & Hok & Hl). wp_step.
  eapply wp_forward_at; [exact Hn|rewrite (no_forward _ _ _ Hok); lia|]. intros [p|] Hp; simpl vnull; cbv iota.
  2:{ wp_step. apply Hstop. intros n' p Hn' Hp'. congruence. }
  pose proof (in_layer_next _ _ _ _ _ _ (vr_graph _ _ _ Hr) Hc Hn H0 Hp) as Hcp. pose proof Hcp as (_ & np & Hnp & Hokp & _).
  pose proof (vr_index _ _ _ Hr) as (x & Hx & Hxok). wp_step. eapply wp_vload; [exact Hnp|]. wp_step.
  eapply wp_get_index; [exact Hx|]. rewrite (io_dim _ _ _ Hxok).
  destruct (distance_full query (h_vector np)) as [d Hd]; [done|apply Hokp|]. rewrite Hd. do 2 wp_step.
  specialize (Hgo n p Hn Hp Hcp). unfold dist_to in Hgo. rewrite Hnp, Hd in Hgo. exact Hgo.
Qed.
Lemma wp_greedy_walk fuel query level curr v locs es e Q :
  vec_rep v locs es → full query → 0 ≤ level → in_layer (v_heap v) locs level curr →
  (length (nearer (v_heap v) query locs (dist_to (v_heap v) query curr)) < fuel)%nat →
  (∀ curr', greedy_stop v locs query level curr curr' → Q (Some curr', dist_to (v_heap v) query curr') e v) →
  wp (greedy_walk fuel query level (Some curr) (dist_to (v_heap v) query curr)) e v Q.
Proof.
  intros Hr Hq H0. revert curr. induction fuel as [|fuel IH]; intros curr Hc Hf HQ; [lia|]. cbn [greedy_walk].
  eapply wp_greedy_next; [done..| |].
  - intros Hno. apply HQ. split_and!; [done|by rewrite SFltb_irrefl|]. intros n p Hn Hp. by destruct (Hno n p).
  - intros n p Hn Hp Hcp. destruct (SFltb (dist_to _ _ p) (dist_to _ _ curr)) eqn:Hlt.
    + apply IH; [done|pose proof (nearer_step _ _ _ _ _ (proj1 Hcp) Hlt); lia|]. intros curr' (H1 & H2 & H3). apply HQ.
      split_and!; [done| |done]. destruct (SFltb (dist_to _ _ curr) (dist_to _ _ curr')) eqn:H; [|done].
      by rewrite (SFltb_trans _ _ _ Hlt H) in H2.
    + wp_step. apply HQ. split_and!; [done|by rewrite SFltb_irrefl|]. intros n' p' Hn' Hp'. congruence.
Qed.
(** The greedy search returns, without undefined behaviour, a node of the layer where it
    is right to stop: its second look at the next node finds nothing more. *)
Theorem greedy_search_stops query level c v locs es e :
  vec_rep v (c :: locs) es → full query → 0 ≤ level → in_layer (v_heap v) (c :: locs) level c →
  wp (greedy_search query level) e v (λ r e' v', e' = e ∧ v' = v ∧
    ∃ curr, r = Some curr ∧ greedy_stop v (c :: locs) query level c curr).
Proof.
  intros Hr Hq H0 Hc. pose proof (vr_index _ _ _ Hr) as (x & Hx & Hok). pose proof Hc as (_ & n & Hn & Hnok & _).
  unfold greedy_search, vec_fuel. wp_step. eapply wp_get_index; [exact Hx|]. wp_step. rewrite (io_enter _ _ _ Hok).
  apply (wp_node_at v _ _ 0 c _ _ Hr); [done|]. wp_step. eapply wp_vload; [exact Hn|]. rewrite (io_dim _ _ _ Hok).
  destruct (distance_full query (h_vector n)) as [d Hd]; [done|apply Hnok|]. rewrite Hd. do 6 wp_step.
  assert (Hdt : d = dist_to (v_heap v) query c) by (unfold dist_to; by rewrite Hn, Hd). rewrite Hdt. wp_step.
  eapply wp_greedy_walk; [exact Hr|done|done|done| |].
  { pose proof (nearer_length (v_heap v) query (c :: locs) (dist_to (v_heap v) query c)). rewrite (vec_rep_size _ _ _ Hr). lia. }
  intros curr Hs. pose proof Hs as (Hl & _ & Hmin).
  eapply (wp_greedy_next level curr v (c :: locs) es query (Some curr)
    (λ next dist, mret (if SFltb dist (dist_to (v_heap v) query curr) then next else Some curr))); [done..| |].
  - intros _. split_and!; [done..|]. by exists curr.
  - intros n' p Hn' Hp _. wp_step. split_and!; [done..|]. exists curr. split; [|done]. by rewrite (Hmin n' p Hn' Hp).
Qed.

(** * The candidates *)

Definition distance_to (query vec : list spec_float) : spec_float :=
  default f32_zero (euclidean_distance query vec MAX_DIM).
(** The live nodes but one, with their distances. *)
Definition live_but (query : list spec_float) (curr : nptr) (l : list (loc * vrecord)) : list (nptr * spec_float) :=
  omap (λ p : loc * vrecord, if p.2.2 then None else
    if bool_decide (Some p.1 = curr) then None else Some (Some p.1, distance_to query p.2.1.2)) l.

Lemma live_but_cons query curr x (r : vrecord) l :
  live_but query curr ((x, r) :: l) =
  (if r.2 || bool_decide (Some x = curr) then [] else [(Some x, distance_to query r.1.2)]) ++ live_but query curr l.
Proof. unfold live_but. simpl. by destruct (r.2), (bool_decide (Some x = curr)). Qed.

Lemma wp_collect n i query curr winners v locs es e Q :
  vec_rep v locs es → full query → (i + n = length locs)%nat →
  Z.of_nat (length winners + length (live_but query curr (drop i (zip locs es)))) ≤ EF_SEARCH →
  Q (winners ++ live_but query curr (drop i (zip locs es))) e v →
  wp (collect n (Z.of_nat i) query curr winners) e v Q.
Proof.
  intros Hr Hq. assert (Hzip : length (zip locs es) = length locs) by (rewrite length_zip, (vr_length _ _ _ Hr); lia).
  revert i winners. induction n as [|n IH]; intros i winners Hin Hlen HQ; cbn [collect].
  { wp_step. rewrite drop_ge, app_nil_r in HQ by lia. done. }
  destruct (lookup_lt_is_Some_2 locs i) as [y Hy]; [lia|].
  assert (Hyin : y ∈ locs) by (by eapply list_elem_of_lookup_2).
  destruct (lookup_lt_is_Some_2 es i) as [[[kk vec] del] Hri]; [rewrite (vr_length _ _ _ Hr); lia|].
  assert (Hz : zip locs es !! i = Some (y, (kk, vec, del))) by (by apply lookup_zip_Some).
  rewrite (drop_S _ _ _ Hz), live_but_cons in Hlen, HQ. simpl in Hlen, HQ.
  destruct (Z.ltb_spec (Z.of_nat (length winners)) EF_SEARCH) as [Hlt|Hge]; simpl negb; cbv iota.
  2:{ wp_step. replace winners with (winners ++ []) at 1 by (by rewrite app_nil_r).
      match goal with |- Q (_ ++ []) _ _ => idtac end.
      match type of HQ with Q (_ ++ ?t) _ _ => destruct t; [done|simpl in Hlen; lia] end. }
  destruct (records_node _ _ _ _ (vr_records _ _ _ Hr _ _ _ Hy Hri)) as (nd & Hn & _ & Hv & Hd & _ & Hdel). simpl in Hv, Hdel.
  destruct (vr_graph _ _ _ Hr y Hyin) as (n' & Hn' & Hok). rewrite Hn in Hn'. injection Hn' as <-.
  assert (Hskip : ∀ w, Z.of_nat (length w + length (live_but query curr (drop (S i) (zip locs es)))) ≤ EF_SEARCH →
    Q (w ++ live_but query curr (drop (S i) (zip locs es))) e v → wp (collect n (Z.of_nat i + 1) query curr w) e v Q).
  { intros w Hw HQw. replace (Z.of_nat i + 1) with (Z.of_nat (S i)) by lia. apply IH; [lia|done|done]. }
  wp_step. eapply wp_node_at; [exact Hr|exact Hy|]. simpl vnull. cbv iota. wp_step. eapply wp_vload; [exact Hn|].
  rewrite Hdel. destruct del; simpl Z.eqb; simpl negb; cbv iota; [by apply Hskip|].
  assert (Hcond : negb (vnull curr) && bool_decide (Some y = curr) = bool_decide (Some y = curr)).
  { destruct curr as [c|]; [done|]. by rewrite (bool_decide_false (Some y = None)). }
  rewrite Hcond. destruct (bool_decide (Some y = curr)) eqn:Hbd; [by apply Hskip|]. wp_step.
  rewrite Hd, Hv. destruct (distance_full query vec) as [d Hdist]; [done|rewrite <-Hv; apply Hok|]. rewrite Hdist. wp_step.
  unfold distance_to in HQ. rewrite Hdist in HQ. simpl in HQ.
  apply Hskip; [rewrite length_app; simpl in *; lia|]. by rewrite <-(assoc_L (++)).
Qed.
Arguments collect : simpl never.

(** Leaving one live node out and adding it at the end gives all of them. *)
Lemma live_but_absent query c l : c ∉ l.*1 → live_but query (Some c) l = live_but query None l.
Proof.
  induction l as [|[x r] l IH]; [done|]. rewrite fmap_cons. intros Hc. apply not_elem_of_cons in Hc as [Hne Hc].
  rewrite !live_but_cons, IH by done. simpl in Hne.
  rewrite (bool_decide_false (Some x = Some c)), (bool_decide_false (Some x = None)) by congruence. done.
Qed.
Lemma live_but_split query c r l :
  NoDup l.*1 → (c, r) ∈ l → r.2 = false →
  live_but query None l ≡ₚ live_but query (Some c) l ++ [(Some c, distance_to query r.1.2)].
Proof.
  intros Hnd Hin Hr. induction l as [|[x r'] l IH]; [by apply not_elem_of_nil in Hin|].
  rewrite fmap_cons in Hnd. apply NoDup_cons in Hnd as [Hx Hnd]. rewrite !live_but_cons.
  rewrite (bool_decide_false (Some x = None)), orb_false_r by done. apply elem_of_cons in Hin as [Heq|Hin].
  - injection Heq as <- <-. rewrite Hr, bool_decide_true, live_but_absent by done. simpl. by rewrite Permutation_cons_append.
  - assert (x ≠ c) as Hne by (intros ->; apply Hx; by apply (list_elem_of_fmap_2 fst) in Hin).
    rewrite (bool_decide_false (Some x = Some c)), orb_false_r by congruence. rewrite IH by done. by rewrite (assoc_L (++)).
Qed.

Definition candidate_ok v locs (p : nptr * spec_float) : Prop := ∃ x, p.1 = Some x ∧ alive_node v locs x.
Definition node_of v (p : nptr) : option HNSWNode := x ← p; v_heap v !! x.
Definition id_of v (p : nptr * spec_float) : Z * spec_float := (default 0 (h_id <$> node_of v p.1), p.2).
Definition key_of v (p : nptr * spec_float) : cptr * spec_float := (default PNull (h_key <$> node_of v p.1), p.2).

Lemma wp_result_ids l v locs e Q :
  Forall (candidate_ok v locs) l → Q (id_of v <$> l) e v → wp (result_ids l) e v Q.
Proof.
  revert Q. induction l as [|[p d] l IH]; intros Q Hl HQ; cbn [result_ids]; [by wp_step|].
  apply Forall_cons in Hl as [(x & Hp & _ & n & Hn & _) Hl]. simpl in Hp. subst p. wp_step. eapply wp_vload; [exact Hn|].
  wp_step. apply IH; [done|]. wp_step. rewrite fmap_cons in HQ. unfold id_of at 1 in HQ. simpl in HQ. by rewrite Hn in HQ.
Qed.
Arguments result_ids : simpl never.

Lemma live_but_ok v locs es query :
  vec_rep v locs es → Forall (candidate_ok v locs) (live_but query None (zip locs es)).
Proof.
  intros Hr. apply Forall_forall. intros p Hp. unfold live_but in Hp. apply list_elem_of_omap in Hp as ([x r] & Hin & Hp).
  simpl in Hp. destruct (r.2) eqn:Hdel; [done|]. injection Hp as <-. exists x. split; [done|].
  apply list_elem_of_lookup in Hin as [i Hi]. apply lookup_zip_Some in Hi as [Hx Hri].
  destruct (records_node _ _ _ _ (vr_records _ _ _ Hr _ _ _ Hx Hri)) as (n & Hn & _ & _ & _ & _ & Hd).
  split; [by eapply list_elem_of_lookup_2|]. exists n. by rewrite Hdel in Hd.
Qed.
Lemma live_but_length query curr locs es :
  length es = length locs → (length (live_but query curr (zip locs es)) ≤ length (lives es))%nat.
Proof.
  revert locs. induction es as [|[r del] es IH]; intros [|x locs] Hlen; simpl in Hlen; try lia; [done|].
  simpl zip. rewrite live_but_cons, length_app. specialize (IH locs ltac:(lia)). unfold lives in *. csimpl.
  destruct del; simpl; [lia|]. destruct (bool_decide _); simpl; lia.
Qed.

(** [search_hnsw] finds the nearest of all the live vectors. *)
Lemma wp_search_hnsw query (k : Z) v locs es e Q :
  vec_rep v locs es → full query → Z.of_nat (length (lives es)) ≤ EF_SEARCH →
  (∀ l, l ≡ₚ live_but query None (zip locs es) → StronglySorted by_distance l → Q (id_of v <$> take (Z.to_nat k) l) e v) →
  wp (search_hnsw query k) e v Q.
Proof.
  intros Hr Hq Hef HQ. pose proof (vr_index _ _ _ Hr) as (x & Hx & Hok). pose proof (vr_length _ _ _ Hr) as Hlen.
  assert (Hfin : ∀ l, l ≡ₚ live_but query None (zip locs es) → wp (result_ids (take (Z.to_nat k) (exchange_sort l))) e v Q).
  { intros l Hl. destruct (exchange_sort_spec l) as [Hp Hs].
    apply wp_result_ids with (locs := locs); [|apply HQ; [by rewrite Hp|done]]. apply Forall_take.
    rewrite Hp, Hl. by eapply live_but_ok. }
  unfold search_hnsw. wp_step. eapply wp_get_index; [exact Hx|]. rewrite (io_enter _ _ _ Hok), (io_size _ _ _ Hok).
  destruct locs as [|c locs]; [apply wp_ret; specialize (HQ []); rewrite take_nil in HQ; apply HQ; [done|constructor]|].
  change (length (c :: locs)) with (S (length locs)). rewrite (proj2 (Z.eqb_neq _ _)) by lia.
  rewrite (proj2 (Z.ltb_ge _ _)), (proj2 (Z.leb_gt _ _)) by lia. simpl orb. cbv iota. wp_step.
  apply (wp_node_at v _ _ 0 c _ _ Hr); [done|]. simpl vnull. cbv iota. do 2 wp_step.
  destruct (rep_node _ _ _ c Hr) as (i & r & n & Hi & Hri & Hn & _ & _ & _ & _ & Hdel & _); [by left|].
  eapply wp_vload; [exact Hn|]. wp_step. assert (Hnat : Z.to_nat (Z.of_nat (S (length locs))) = length (c :: locs)) by (simpl; lia).
  assert (Hlb : ∀ curr, (length (live_but query curr (zip (c :: locs) es)) ≤ length (lives es))%nat) by (intros; by apply live_but_length).
  destruct (Z.eqb_spec (h_is_deleted n) 0) as [Hd|Hd]; simpl negb; cbv iota; simpl vnull; cbv iota; wp_step.
  - pose proof (io_level _ _ _ Hok) as Hml. replace (x_max_level x) with (Z.of_nat (Z.to_nat (x_max_level x))) at 2 by lia.
    eapply wp_layers_down; [exact Hr|done|split; [by left|by exists n]|]. intros curr (Hcin & nc & Hnc & Hdc).
    destruct (rep_node _ _ _ _ Hr Hcin) as (j & rc & nc' & Hj & Hrj & Hnc' & _ & Hvc & Hdimc & _ & Hdelc & Hokc).
    rewrite Hnc in Hnc'. injection Hnc' as <-. assert (Hrc : rc.2 = false) by (destruct (rc.2); [lia|done]).
    assert (Hsplit : live_but query None (zip (c :: locs) es) ≡ₚ live_but query (Some curr) (zip (c :: locs) es) ++ [(Some curr, distance_to query rc.1.2)]).
    { apply live_but_split; [|eapply (list_elem_of_lookup_2 _ j), lookup_zip_Some; by split|done].
      rewrite fst_zip by lia. apply Hr. }
    rewrite Hnat. wp_step. apply (wp_collect _ 0 _ _ _ _ (c :: locs) es); [exact Hr|done|done| |].
    { rewrite drop_0. pose proof (Hlb (Some curr)). simpl length at 1. lia. }
    rewrite drop_0, app_nil_l. simpl vnull. cbv iota. wp_step. wp_step. eapply wp_vload; [exact Hnc|]. rewrite Hdc.
    pose proof (Permutation_length Hsplit) as Hpl. rewrite length_app in Hpl. simpl length in Hpl. pose proof (Hlb None).
    change (length (c :: locs)) with (S (length locs)) in *.
    rewrite (proj2 (Z.ltb_lt _ _)) by (simpl in *; lia). simpl andb. cbv iota. wp_step. rewrite Hdimc, Hvc.
    destruct (distance_full query rc.1.2) as [d Hdist]; [done|rewrite <-Hvc; apply Hokc|]. rewrite Hdist. do 2 wp_step.
    apply Hfin. rewrite Hsplit. unfold distance_to. by rewrite Hdist.
  - do 2 wp_step. rewrite Hnat. apply (wp_collect _ 0 _ _ _ _ (c :: locs) es); [exact Hr|done|done| |].
    { rewrite drop_0. pose proof (Hlb None). simpl length at 1. lia. }
    rewrite drop_0, app_nil_l. simpl vnull. cbv iota. do 2 wp_step. by apply Hfin.
Qed.
Arguments search_hnsw : simpl never.

(** * The search of the engine *)

Lemma first_dim_spec n i v locs es e Q :
  vec_rep v locs es → (i + n = length locs)%nat →
  (lives (drop i es) = [] → Q 0 e v) → (lives (drop i es) ≠ [] → Q MAX_DIM e v) →
  wp (first_dim n (Z.of_nat i)) e v Q.
Proof.
  intros Hr. revert i. induction n as [|n IH]; intros i Hin Hno Hyes; cbn [first_dim].
  { wp_step. apply Hno. rewrite drop_ge; [done|]. rewrite (vr_length _ _ _ Hr). lia. }
  destruct (lookup_lt_is_Some_2 locs i) as [y Hy]; [lia|].
  destruct (lookup_lt_is_Some_2 es i) as [[r del] Hri]; [rewrite (vr_length _ _ _ Hr); lia|].
  destruct (records_node _ _ _ _ (vr_records _ _ _ Hr _ _ _ Hy Hri)) as (nd & Hn & _ & _ & Hd & _ & Hdel). simpl in Hdel.
  rewrite (drop_S _ _ _ Hri) in *. wp_step. eapply wp_node_at; [exact Hr|exact Hy|]. simpl vnull. cbv iota.
  wp_step. eapply wp_vload; [exact Hn|]. rewrite Hdel, Hd. unfold lives in *. csimpl in *.
  destruct del; simpl Z.eqb; cbv iota.
  - replace (Z.of_nat i + 1) with (Z.of_nat (S i)) by lia. apply IH; [lia|done|done].
  - wp_step. by apply Hyes.
Qed.

(** The query as the code reads it: missing coordinates are zero. *)
Definition read_query (s : string) : list spec_float :=
  let coords := (λ t, f32_of_f64 (atof t)) <$> take (Z.to_nat MAX_DIM) (words s) in
  coords ++ replicate (Z.to_nat MAX_DIM - length coords) f32_zero.
Lemma read_query_full s : full (read_query s).
Proof.
  unfold full, read_query. rewrite length_app, length_replicate, length_fmap, length_take.
  set (m := Z.to_nat MAX_DIM). assert (Z.of_nat m = MAX_DIM) by done. lia.
Qed.

Lemma wp_vector_search key (k : Z) s v locs es e Q :
  vec_rep v locs es → no_oom e → Z.of_nat (length (lives es)) ≤ EF_SEARCH →
  (∀ l e', l ≡ₚ live_but (read_query s) None (zip locs es) → StronglySorted by_distance l →
    no_oom e' → live e' = live e → Q (Some (id_of v <$> take (Z.to_nat k) l)) e' v) →
  wp (kvs_vector_search IGlobal (PStr key) k (PStr s)) e v Q.
Proof.
  intros Hr He Hef HQ. unfold kvs_vector_search. vec_open.
  assert (Hnone : lives es = [] → Q (Some []) e v).
  { intros Hl. specialize (HQ [] e). rewrite take_nil in HQ. apply HQ; [|constructor|done|done].
    pose proof (live_but_length (read_query s) None locs es (vr_length _ _ _ Hr)) as Hle.
    rewrite Hl in Hle. simpl in Hle. by destruct (live_but _ _ _); [|simpl in Hle; lia]. }
  destruct (Z.eqb_spec (Z.of_nat (length locs)) 0) as [H0|H0].
  { wp_step. apply Hnone. pose proof (vr_length _ _ _ Hr). by destruct es; [|simpl in *; lia]. }
  wp_step. eapply (first_dim_spec _ 0); [exact Hr|done| |]; rewrite drop_0; intros Hl.
  - apply wp_ret. by apply Hnone.
  - change (MAX_DIM <=? 0) with false. cbv iota. do 2 wp_step. rewrite no_oom_fails by done. simpl negb. cbv iota.
    do 2 wp_step. cbv zeta. fold (read_query s). wp_step.
    eapply wp_search_hnsw; [exact Hr|apply read_query_full|done|]. intros l Hp Hs. do 3 wp_step.
    apply HQ; [done|done|by apply no_oom_live, no_oom_after|]. simpl. rewrite live_after_malloc, no_oom_fails by done. lia.
Qed.

(** Each result with the key of its node, as the VSEARCH command shows it. *)
Fixpoint with_keys (l : list (Z * spec_float)) : M kvs_vector (list (cptr * spec_float)) :=
  match l with
  | [] => mret []
  | (id, d) :: l' =>
      key ← kvs_vector_get_key_by_id IGlobal id;
      r ← with_keys l';
      mret ((key, d) :: r)
  end.
Lemma wp_with_keys l v locs es e Q :
  vec_rep v locs es → Forall (candidate_ok v locs) l → Q (key_of v <$> l) e v → wp (with_keys (id_of v <$> l)) e v Q.
Proof.
  intros Hr. revert Q. induction l as [|[p d] l IH]; intros Q Hl HQ; [by apply wp_ret|].
  apply Forall_cons in Hl as [(x & Hp & Hx & n & Hn & Hd) Hl]. simpl in Hp. subst p.
  destruct (rep_node _ _ _ _ Hr Hx) as (i & r & n' & Hi & Hri & Hn' & Hid & _ & _ & Hk & _ & _).
  rewrite Hn in Hn'. injection Hn' as <-. rewrite fmap_cons. unfold id_of at 1. simpl fst. simpl snd. unfold node_of.
  change (Some x ≫= λ y, v_heap v !! y) with (v_heap v !! x). rewrite Hn. simpl default. rewrite Hid. cbn [with_keys].
  wp_step. unfold kvs_vector_get_key_by_id. pose proof (lookup_lt_Some _ _ _ Hi) as Hlt. vec_open.
  rewrite (proj2 (Z.ltb_ge _ _)), (proj2 (Z.leb_gt _ _)) by lia. simpl orb. cbv iota. wp_step.
  eapply wp_node_at; [exact Hr|exact Hi|]. simpl vnull. cbv iota. wp_step. eapply wp_vload; [exact Hn|]. wp_step.
  rewrite Hd. simpl Z.eqb. simpl negb. cbv iota. wp_step. apply IH; [done|]. wp_step.
  rewrite fmap_cons in HQ. unfold key_of at 1 in HQ. simpl fst in HQ. unfold node_of in HQ.
  change (Some x ≫= λ y, v_heap v !! y) with (v_heap v !! x) in HQ. rewrite Hn in HQ. done.
Qed.

(** The keys and distances of the live vectors. *)
Definition key_dist (query : list spec_float) (p : string * list spec_float) : cptr * spec_float :=
  (PStr p.1, distance_to query p.2).
Lemma live_but_keys v locs es query :
  vec_rep v locs es → key_of v <$> live_but query None (zip locs es) = key_dist query <$> lives es.
Proof.
  intros Hr. assert (Hrec : ∀ i x r, locs !! i = Some x → es !! i = Some r → h_key <$> v_heap v !! x = Some (PStr r.1.1)).
  { intros i x r Hi Hri. destruct (records_node _ _ _ _ (vr_records _ _ _ Hr _ _ _ Hi Hri)) as (n & Hn & _ & _ & _ & Hk & _).
    rewrite Hn. simpl. by rewrite Hk. }
  pose proof (vr_length _ _ _ Hr) as Hlen. clear Hr. revert locs Hrec Hlen.
  induction es as [|[[k vec] del] es IH]; intros [|x locs] Hrec Hlen; simpl in Hlen; try lia; [done|].
  simpl zip. rewrite live_but_cons, fmap_app, IH; [|intros i y r Hi Hri; by apply (Hrec (S i))|lia].
  rewrite (bool_decide_false (Some x = None)), orb_false_r by done. unfold lives. csimpl.
  destruct del; [done|]. unfold key_of. simpl. specialize (Hrec 0%nat x _ eq_refl eq_refl).
  destruct (v_heap v !! x); [|done]. simpl in *. by injection Hrec as ->.
Qed.

Definition search_keys (key : string) (k : Z) (s : string) : M kvs_vector (option (list (cptr * spec_float))) :=
  r ← kvs_vector_search IGlobal (PStr key) k (PStr s);
  match r with
  | Some l => l' ← with_keys l; mret (Some l')
  | None => mret None
  end.
Lemma sorted_keys v l : StronglySorted by_distance l → StronglySorted by_distance (key_of v <$> l).
Proof.
  induction 1 as [|p l _ IH Hp]; [constructor|]. rewrite fmap_cons. apply StronglySorted_cons. split; [|done].
  by apply Forall_fmap.
Qed.

(** C16: After any operations on vectors of the full dimension of 1536 coordinates (shorter
    ones are [short_vectors_undefined]) that leave at most 128 vectors, [kvs_vector_search] answers with the [k] nearest of all of them, nearest
    first: the layers, the deleted nodes and the random levels do not matter. *)
Theorem vector_search_exact os key (k : Z) s e :
  no_oom e → Forall vec_op_ok os → Z.of_nat (length os) ≤ MAX_ELEMENTS →
  Z.of_nat (size (vec_contents os ∅)) ≤ EF_SEARCH →
  wp (kvs_vector_create IGlobal;; vec_run_all os;; search_keys key k s) e global_vector (λ r _ _,
    ∃ l, r = Some (take (Z.to_nat k) l) ∧ StronglySorted by_distance l ∧
      l ≡ₚ key_dist (read_query s) <$> map_to_list (vec_contents os ∅)).
Proof.
  intros He Hos Hn Hsz. wp_step. apply wp_kvs_vector_create; [done|done|].
  intros e1 v1 He1 Hl1 Hv1. wp_step. eapply wp_mono; [by eapply wp_vec_run_all|].
  intros a e2 v2 (_ & He2 & n & (locs & es & Hr & Hnd & Hm & _) & _). unfold search_keys. wp_step.
  rewrite Hm in *. unfold vmap in *. rewrite map_size_list_to_map in Hsz by done.
  eapply wp_vector_search; [exact Hr|done|done|]. intros l e3 Hp Hs _ _. wp_step.
  eapply wp_with_keys; [exact Hr|apply Forall_take; rewrite Hp; by eapply live_but_ok|]. wp_step.
  exists (key_of v2 <$> l). split_and!; [by rewrite fmap_take|by apply sorted_keys|].
  rewrite Hp, (live_but_keys _ _ _ _ Hr). by rewrite map_to_list_to_map.
Qed.

Lemma vector_search_exact_witness :
  Z.of_nat (size (vec_contents [VSet "a" (full_text "1"); VSet "b" (full_text "2"); VDel "a"] ∅)) ≤ EF_SEARCH ∧
  wp (kvs_vector_create IGlobal;; vec_run_all [VSet "a" (full_text "1"); VSet "b" (full_text "2"); VDel "a"];; search_keys "q" 10 "1 2 3")
    (Env [] [] [] [] 0) global_vector (λ r _ _,
      ∃ l, r = Some (take (Z.to_nat 10) l) ∧ StronglySorted by_distance l ∧
        l ≡ₚ key_dist (read_query "1 2 3") <$> map_to_list (vec_contents [VSet "a" (full_text "1"); VSet "b" (full_text "2"); VDel "a"] ∅)).
Proof.
  assert (Hsz : Z.of_nat (size (vec_contents [VSet "a" (full_text "1"); VSet "b" (full_text "2"); VDel "a"] ∅)) ≤ EF_SEARCH)
    by (vm_compute; discriminate).
  split; [exact Hsz|]. apply vector_search_exact; [constructor| |vm_compute; discriminate|exact Hsz].
  repeat (apply Forall_cons; split); [vm_compute; reflexivity|vm_compute; reflexivity|exact I|apply Forall_nil; exact I].
Defined.
