(* ===== verification/Protocol.v ===== *)
(** The command dispatcher, as the code has it: src/common/kvstore.c
    ([kvs_split_token] to [dest_kvengine]).

    The response buffer of the callers has [RESPONSE_MAX_LEN] bytes; printing
    past its end is undefined behaviour.  A call answers with the text left in
    the buffer and the length it returns. *)
From Stdlib Require Import SpecFloat.
From stdpp Require Import pretty.
From S2P Require Import Prelude CText KvsSpec KvsArray KvsHash RbTree SkipList CacheModel CacheStats Vector Rdb.

Local Open Scope Z_scope.

Definition RESPONSE_MAX_LEN : Z := 1024.
Definition KVS_MAX_TOKENS : nat := 128.

(** * The state of the server *)

(** The engines with the disk, the vectors, the cache; the background saves that
    were started and have not finished, each with the engines as they were at the
    fork; and the namespace of the connection being served. *)
Record store := Store {
  st_data : dataset;
  st_vector : kvs_vector;
  st_cache : CacheManager;
  st_children : list dataset;
  st_ns : cptr
}.
Definition s_set_data d s := Store d (st_vector s) (st_cache s) (st_children s) (st_ns s).
Definition s_set_vector v s := Store (st_data s) v (st_cache s) (st_children s) (st_ns s).
Definition s_set_cache c s := Store (st_data s) (st_vector s) c (st_children s) (st_ns s).
Definition s_set_children l s := Store (st_data s) (st_vector s) (st_cache s) l (st_ns s).
Definition s_set_ns p s := Store (st_data s) (st_vector s) (st_cache s) (st_children s) p.

Definition in_data {A} : M dataset A → M store A := zoom st_data s_set_data.
Definition in_vector {A} : M kvs_vector A → M store A := zoom st_vector s_set_vector.
Definition in_cache {A} : M CacheManager A → M store A := zoom st_cache s_set_cache.

(** The operations of an engine, on the whole state. *)
Definition lift_ops {S} (lift : ∀ A, M S A → M store A) (ops : kv_ops S) : kv_ops store :=
  KvOps (λ k v, lift _ (kv_set ops k v)) (λ k, lift _ (kv_get ops k)) (λ k, lift _ (kv_del ops k))
        (λ k v, lift _ (kv_mod ops k v)) (λ k, lift _ (kv_exist ops k)).
Definition array_store : kv_ops store := lift_ops (λ A m, in_data (in_array m)) array_ops.
Definition rbtree_store : kv_ops store := lift_ops (λ A m, in_data (in_rbtree m)) rbtree_ops.
Definition hash_store : kv_ops store := lift_ops (λ A m, in_data (in_hash m)) hash_ops.
Definition skip_store : kv_ops store := lift_ops (λ A m, in_data (in_skip m)) skip_ops.

(** * Responses *)

Record reply := Reply { r_text : string; r_length : Z }.

(** [sprintf(response, ...)]. *)
Definition say (s : string) : M store reply :=
  if decide (Z.of_nat (String.length s) < RESPONSE_MAX_LEN)
  then mret (Reply s (Z.of_nat (String.length s))) else ub.
(** [snprintf(response, RESPONSE_MAX_LEN, ...)]: the length is that of the whole text. *)
Definition say_n (s : string) : M store reply :=
  mret (Reply (truncate (Z.to_nat RESPONSE_MAX_LEN) s) (Z.of_nat (String.length s))).

Definition OK_MSG : string := "OK" +:+ crlf.
Definition ERROR_MSG : string := "ERROR" +:+ crlf.
Definition EXIST_MSG : string := "EXIST" +:+ crlf.
Definition NO_EXIST_MSG : string := "NO EXIST" +:+ crlf.

(** * Tokens *)

Definition quote : Ascii.ascii := Ascii.ascii_of_nat 34.
Definition space : Ascii.ascii := Ascii.ascii_of_nat 32.

(** The bytes up to the first [stop], and what follows it (or the end). *)
Fixpoint until (stop : Ascii.ascii) (s : string) : string * string :=
  match s with
  | EmptyString => (EmptyString, EmptyString)
  | String c s' =>
      if Ascii.eqb c stop then (EmptyString, s')
      else let '(t, r) := until stop s' in (String c t, r)
  end.
Fixpoint skip_spaces (s : string) : string :=
  match s with
  | String c s' => if Ascii.eqb c space then skip_spaces s' else s
  | EmptyString => EmptyString
  end.
(** [room] tokens can still be stored; the fuel bounds the bytes left. *)
Fixpoint split_from (fuel : nat) (room : nat) (p : string) : list string :=
  match fuel with
  | O => []
  | S fuel' =>
      match skip_spaces p with
      | EmptyString => []
      | String c p' =>
          let '(t, r) := if Ascii.eqb c quote then until quote p' else until space (String c p') in
          t :: match room with
               | O | S O => []
               | S room' => split_from fuel' room' r
               end
      end
  end.
Definition kvs_split_token (msg : string) : list string :=
  split_from (S (String.length msg)) KVS_MAX_TOKENS msg.

(** [join_tokens]: the bytes written to [dst], [offset] of them so far. *)
Fixpoint join_from (tokens : list string) (first : bool) (dst : string) (dst_size : Z) : string :=
  match tokens with
  | [] => dst
  | t :: ts =>
      let offset := Z.of_nat (String.length dst) in
      if negb (offset <? dst_size - 1) then dst else
      let dst := if first then dst else dst +:+ " " in
      let offset := Z.of_nat (String.length dst) in
      let tlen := Z.of_nat (String.length t) in
      let tlen := if (dst_size <=? offset + tlen) then dst_size - offset - 1 else tlen in
      join_from ts false (dst +:+ str_take (Z.to_nat tlen) t) dst_size
  end.
Definition join_tokens (tokens : list string) (start : nat) (dst_size : Z) : string :=
  join_from (drop start tokens) true "" dst_size.

(** [strcat] of the tokens into a buffer; past its end is undefined behaviour. *)
Fixpoint cat_from (tokens : list string) (first : bool) (dst : string) : string :=
  match tokens with
  | [] => dst
  | t :: ts => cat_from ts false ((if first then dst else dst +:+ " ") +:+ t)
  end.
Definition cat_tokens (tokens : list string) (start : nat) (dst_size : Z) : M store string :=
  let s := cat_from (drop start tokens) true "" in
  if decide (Z.of_nat (String.length s) < dst_size) then mret s else ub.

(** [tokens[i]]: the array is null beyond the tokens found. *)
Definition token (tokens : list string) (i : nat) : cptr :=
  match tokens !! i with Some t => PStr t | None => PNull end.
Definition is_token (tokens : list string) (i : nat) (s : string) : bool :=
  match tokens !! i with Some t => strcmp t s =? 0 | None => false end.

(** * Namespaces *)

(** [snprintf] of a null [key] is undefined behaviour. *)
Definition make_namespaced_key (namespace key : cptr) (buf_size : Z) : M store cptr :=
  plain ← (if is_null namespace then mret true else
           ns ← deref namespace;
           mret (String.eqb ns "" || (strcmp ns "default" =? 0)));
  if plain : bool then mret key else
  ns ← deref namespace;
  k ← deref key;
  mret (PStr (truncate (Z.to_nat buf_size) (ns +:+ ":" +:+ k))).
Definition actual_key (key : cptr) : M store cptr :=
  ns ← gets st_ns;
  make_namespaced_key ns key 256.

(** * Commands *)

Inductive kvs_cmd : Type :=
  | CMD_SET | CMD_GET | CMD_DEL | CMD_MOD | CMD_EXIST
  | CMD_RSET | CMD_RGET | CMD_RDEL | CMD_RMOD | CMD_REXIST
  | CMD_HSET | CMD_HGET | CMD_HDEL | CMD_HMOD | CMD_HEXIST
  | CMD_SSET | CMD_SGET | CMD_SDEL | CMD_SMOD | CMD_SEXIST
  | CMD_VSET | CMD_VGET | CMD_VSEARCH | CMD_VDEL | CMD_VCOUNT
  | CMD_POLICY | CMD_STATS | CMD_RECOMMEND
  | CMD_NAMESPACE | CMD_NS
  | CMD_SAVE | CMD_BGSAVE | CMD_LASTSAVE
  | CMD_COUNT.
Global Instance kvs_cmd_eq_dec : EqDecision kvs_cmd.
Proof. solve_decision. Defined.

Definition command : list (string * kvs_cmd) :=
  [("SET", CMD_SET); ("GET", CMD_GET); ("DEL", CMD_DEL); ("MOD", CMD_MOD); ("EXIST", CMD_EXIST);
   ("RSET", CMD_RSET); ("RGET", CMD_RGET); ("RDEL", CMD_RDEL); ("RMOD", CMD_RMOD); ("REXIST", CMD_REXIST);
   ("HSET", CMD_HSET); ("HGET", CMD_HGET); ("HDEL", CMD_HDEL); ("HMOD", CMD_HMOD); ("HEXIST", CMD_HEXIST);
   ("SSET", CMD_SSET); ("SGET", CMD_SGET); ("SDEL", CMD_SDEL); ("SMOD", CMD_SMOD); ("SEXIST", CMD_SEXIST);
   ("VSET", CMD_VSET); ("VGET", CMD_VGET); ("VSEARCH", CMD_VSEARCH); ("VDEL", CMD_VDEL);
   ("VCOUNT", CMD_VCOUNT); ("POLICY", CMD_POLICY); ("STATS", CMD_STATS); ("RECOMMEND", CMD_RECOMMEND);
   ("NAMESPACE", CMD_NAMESPACE); ("NS", CMD_NS); ("SAVE", CMD_SAVE); ("BGSAVE", CMD_BGSAVE);
   ("LASTSAVE", CMD_LASTSAVE)].
Fixpoint find_cmd (t : string) (l : list (string * kvs_cmd)) : kvs_cmd :=
  match l with
  | [] => CMD_COUNT
  | (name, c) :: l' => if (strcmp t name =? 0) then c else find_cmd t l'
  end.

(** The commands whose value is the rest of the line. *)
Definition takes_value (c : kvs_cmd) : bool :=
  match c with
  | CMD_SET | CMD_MOD | CMD_HSET | CMD_HMOD | CMD_RSET | CMD_RMOD | CMD_SSET | CMD_SMOD => true
  | _ => false
  end.

(** ** The five commands of an engine *)

Section engine_commands.
Context (ops : kv_ops store).

Definition cmd_set (key value : cptr) : M store reply :=
  k ← actual_key key;
  ret ← kv_set ops k value;
  say (if (ret <? 0) then ERROR_MSG else if (ret =? 0) then OK_MSG else EXIST_MSG).

(** The cache is asked first; a value found in the engine goes into the cache. *)
Definition cmd_get (key : cptr) : M store reply :=
  k ← actual_key key;
  cached ← in_cache (kvs_cache_get k);
  if negb (is_null cached.1) then
    s ← deref cached.1;
    say_n (s +:+ crlf)
  else
  result ← kv_get ops k;
  if is_null result then say NO_EXIST_MSG else
  s ← deref result;
  in_cache (kvs_cache_lru_add k result (to_int (Z.of_nat (String.length s) + 1)));;
  say_n (s +:+ crlf).

Definition cmd_del (key : cptr) : M store reply :=
  k ← actual_key key;
  ret ← kv_del ops k;
  if (ret <? 0) then say ERROR_MSG
  else if (ret =? 0) then in_cache (kvs_cache_del k);; say OK_MSG
  else say NO_EXIST_MSG.

Definition cmd_mod (key value : cptr) : M store reply :=
  k ← actual_key key;
  ret ← kv_mod ops k value;
  if (ret <? 0) then say ERROR_MSG
  else if (ret =? 0) then in_cache (kvs_cache_del k);; say OK_MSG
  else say NO_EXIST_MSG.

Definition cmd_exist (key : cptr) : M store reply :=
  k ← actual_key key;
  ret ← kv_exist ops k;
  say (if (ret =? 0) then EXIST_MSG else NO_EXIST_MSG).
End engine_commands.

(** The cases of the dispatcher, engine by engine; [None] is another case. *)
Definition array_command (cmd : kvs_cmd) (key value : cptr) : option (M store reply) :=
  match cmd with
  | CMD_SET => Some (cmd_set array_store key value)
  | CMD_GET => Some (cmd_get array_store key)
  | CMD_DEL => Some (cmd_del array_store key)
  | CMD_MOD => Some (cmd_mod array_store key value)
  | CMD_EXIST => Some (cmd_exist array_store key)
  | _ => None
  end.
Definition rbtree_command (cmd : kvs_cmd) (key value : cptr) : option (M store reply) :=
  match cmd with
  | CMD_RSET => Some (cmd_set rbtree_store key value)
  | CMD_RGET => Some (cmd_get rbtree_store key)
  | CMD_RDEL => Some (cmd_del rbtree_store key)
  | CMD_RMOD => Some (cmd_mod rbtree_store key value)
  | CMD_REXIST => Some (cmd_exist rbtree_store key)
  | _ => None
  end.
Definition hash_command (cmd : kvs_cmd) (key value : cptr) : option (M store reply) :=
  match cmd with
  | CMD_HSET => Some (cmd_set hash_store key value)
  | CMD_HGET => Some (cmd_get hash_store key)
  | CMD_HDEL => Some (cmd_del hash_store key)
  | CMD_HMOD => Some (cmd_mod hash_store key value)
  | CMD_HEXIST => Some (cmd_exist hash_store key)
  | _ => None
  end.
Definition skip_command (cmd : kvs_cmd) (key value : cptr) : option (M store reply) :=
  match cmd with
  | CMD_SSET => Some (cmd_set skip_store key value)
  | CMD_SGET => Some (cmd_get skip_store key)
  | CMD_SDEL => Some (cmd_del skip_store key)
  | CMD_SMOD => Some (cmd_mod skip_store key value)
  | CMD_SEXIST => Some (cmd_exist skip_store key)
  | _ => None
  end.

(** ** Vectors *)

Definition cmd_vset (tokens : list string) (key : cptr) : M store reply :=
  k ← actual_key key;
  ret ← (if (4 <=? length tokens)%nat then
           s ← cat_tokens tokens 2 8192;
           in_vector (kvs_vector_set IGlobal k (PStr s))
         else mret (-1));
  say (if (ret <? 0) then ERROR_MSG else OK_MSG).
Definition cmd_vget (key : cptr) : M store reply :=
  k ← actual_key key;
  result ← in_vector (kvs_vector_get IGlobal k);
  if is_null result then say NO_EXIST_MSG else
  s ← deref result;
  say_n (s +:+ crlf).

(** The lines of the results: [text] is in the buffer, [length] was returned so
    far; once it exceeds the size of the buffer the next [snprintf] gets an
    address past its end. *)
Fixpoint print_results (l : list (Z * spec_float)) (text : string) (len : Z) : M store reply :=
  match l with
  | [] => mret (Reply text len)
  | (id, dist) :: l' =>
      rkey ← in_vector (kvs_vector_get_key_by_id IGlobal id);
      s ← (if is_null rkey then mret "(unknown)" else deref rkey);
      if decide (RESPONSE_MAX_LEN < len) then ub else
      let piece := s +:+ " " +:+ fmt_f 4 dist +:+ crlf in
      print_results l' (text +:+ truncate (Z.to_nat (RESPONSE_MAX_LEN - len)) piece)
        (len + Z.of_nat (String.length piece))
  end.
Definition cmd_vsearch (tokens : list string) (key : cptr) : M store reply :=
  k ← actual_key key;
  if (5 <=? length tokens)%nat then
    kt ← deref (token tokens 2);
    let n := atoi kt in
    let n := if (n <=? 0) || (100 <? n) then 10 else n in
    q ← cat_tokens tokens 4 8192;
    r ← in_vector (kvs_vector_search IGlobal k n (PStr q));
    match r with
    | None | Some [] => say ("EMPTY" +:+ crlf)
    | Some l => print_results l ("RESULT" +:+ crlf) (Z.of_nat (String.length ("RESULT" +:+ crlf)))
    end
  else say ERROR_MSG.
Definition cmd_vdel (key : cptr) : M store reply :=
  k ← actual_key key;
  ret ← in_vector (kvs_vector_del IGlobal k);
  say (if (ret =? 0) then OK_MSG else NO_EXIST_MSG).
Definition cmd_vcount : M store reply :=
  vcount ← in_vector (kvs_vector_count IGlobal);
  say (pretty vcount +:+ crlf).
Definition vector_command (cmd : kvs_cmd) (tokens : list string) (key : cptr) : option (M store reply) :=
  match cmd with
  | CMD_VSET => Some (cmd_vset tokens key)
  | CMD_VGET => Some (cmd_vget key)
  | CMD_VSEARCH => Some (cmd_vsearch tokens key)
  | CMD_VDEL => Some (cmd_vdel key)
  | CMD_VCOUNT => Some cmd_vcount
  | _ => None
  end.

(** ** The cache *)

Definition cmd_policy (tokens : list string) : M store reply :=
  if (3 <=? length tokens)%nat && is_token tokens 1 "SET" then
    if is_token tokens 2 "lru" then
      in_cache (kvs_cache_set_policy EVICT_LRU);; say ("Policy set to LRU" +:+ crlf)
    else if is_token tokens 2 "lfu" then
      in_cache (kvs_cache_set_policy EVICT_LFU);; say ("Policy set to LFU" +:+ crlf)
    else if is_token tokens 2 "arc" then
      in_cache (kvs_cache_set_policy EVICT_ARC);; say ("Policy set to ARC" +:+ crlf)
    else
      t ← deref (token tokens 2);
      say ("Unknown policy: " +:+ t +:+ " (use lru|lfu|arc)" +:+ crlf)
  else
    policy ← in_cache kvs_cache_get_policy;
    say ("Current policy: " +:+ kvs_cache_policy_name policy +:+ crlf).
Definition cache_command (cmd : kvs_cmd) (tokens : list string) : option (M store reply) :=
  match cmd with
  | CMD_POLICY => Some (cmd_policy tokens)
  | CMD_STATS => Some (s ← in_cache (kvs_cache_get_stats (Z.to_nat 1024)); say s)
  | CMD_RECOMMEND => Some (s ← in_cache (kvs_cache_ai_recommend (Z.to_nat 1024)); say s)
  | _ => None
  end.

(** ** The namespace *)

(** [strncpy(namespace, t, 63); namespace[63] = 0]; a null namespace is undefined
    behaviour. *)
Definition set_namespace (t : string) : M store unit :=
  ns ← gets st_ns;
  if is_null ns then ub else modify (s_set_ns (PStr (str_take 63 t))).
Definition cmd_namespace (tokens : list string) : M store reply :=
  if (2 <=? length tokens)%nat && is_token tokens 1 "SET" && (3 <=? length tokens)%nat then
    t ← deref (token tokens 2);
    set_namespace t;;
    ns ← gets st_ns; ns ← deref ns;
    say ("Namespace set to: " +:+ ns +:+ crlf)
  else if (2 <=? length tokens)%nat && is_token tokens 1 "RESET" then
    set_namespace "default";;
    say ("Namespace reset to: default" +:+ crlf)
  else if (length tokens =? 2)%nat then
    t ← deref (token tokens 1);
    set_namespace t;;
    ns ← gets st_ns; ns ← deref ns;
    say ("Namespace set to: " +:+ ns +:+ crlf)
  else
    ns ← gets st_ns;
    s ← (if is_null ns then mret "default" else deref ns);
    say ("Current namespace: " +:+ s +:+ crlf).

(** ** Persistence *)

Definition cmd_save : M store reply :=
  ret ← in_data rdb_save_default;
  if (0 <=? ret) then say ("OK: Saved " +:+ pretty ret +:+ " keys to dump.rdb" +:+ crlf)
  else say ("ERROR: Failed to save" +:+ crlf).

(** A number the operating system supplies (a process id, a time stamp). *)
Definition sys_reading {S} : M S Z := wall_time.

(** [fork]: the parent goes on, the child will save the engines as they are now. *)
Definition cmd_bgsave : M store reply :=
  t ← sys_reading;
  let pid := to_int t in
  if (0 <? pid) then
    modify (λ s, s_set_children (st_data s :: st_children s) s);;
    say ("Background saving started (pid: " +:+ pretty pid +:+ ")" +:+ crlf)
  else say ("ERROR: Fork failed" +:+ crlf).
(** The work of a child: it shares the disk and nothing else. *)
Definition child_save (snapshot : dataset) : M store unit :=
  in_data (λ e d, match rdb_save_default e (d_set_disk (d_disk d) snapshot) with
                  | Ret (_, e', d') => Ret (tt, e', d_set_disk (d_disk d') d)
                  | UB => UB
                  | OutOfFuel => OutOfFuel
                  end).
Definition run_child : M store unit :=
  l ← gets st_children;
  match l with
  | [] => mret tt
  | snapshot :: rest => child_save snapshot;; modify (s_set_children rest)
  end.

Definition cmd_lastsave : M store reply :=
  d ← gets st_data;
  match files (d_disk d) !! RDB_FILENAME with
  | Some _ =>
      mtime ← sys_reading;
      say ("Last save: " +:+ pretty mtime +:+ " (timestamp)" +:+ crlf)
  | None => say ("No dump file found" +:+ crlf)
  end.

(** * The dispatcher *)

Definition kvs_filter_protocol (tokens : list string) : M store reply :=
  match tokens with
  | [] => mret (Reply "" (-1))
  | t0 :: _ =>
      let cmd := find_cmd t0 command in
      let count := length tokens in
      let key := token tokens 1 in
      let value := if (3 <? count)%nat && takes_value cmd
                   then PStr (join_tokens tokens 2 8192) else token tokens 2 in
      if takes_value cmd && ((count <? 3)%nat || is_null value) then
        say ("ERROR: command requires key and value" +:+ crlf)
      else
      match array_command cmd key value with Some m => m | None =>
      match rbtree_command cmd key value with Some m => m | None =>
      match hash_command cmd key value with Some m => m | None =>
      match skip_command cmd key value with Some m => m | None =>
      match vector_command cmd tokens key with Some m => m | None =>
      match cache_command cmd tokens with Some m => m | None =>
      match cmd with
      | CMD_NAMESPACE | CMD_NS => cmd_namespace tokens
      | CMD_SAVE => cmd_save
      | CMD_BGSAVE => cmd_bgsave
      | CMD_LASTSAVE => cmd_lastsave
      | _ => say ("Unknown command" +:+ crlf)
      end end end end end end end
  end.

(** Line ends become spaces, in the first [length] bytes. *)
Fixpoint strip_newlines (n : nat) (s : string) : string :=
  match n, s with
  | S n', String c s' =>
      String (if Ascii.eqb c CR || Ascii.eqb c LF then space else c) (strip_newlines n' s')
  | _, _ => s
  end.

(** [msg] is the text of the request up to its NUL; null is [None]. *)
Definition kvs_protocol (msg : option string) (length : Z) : M store reply :=
  match msg with
  | None => mret (Reply "" (-1))
  | Some m =>
      if (length <=? 0) then mret (Reply "" (-1)) else
      let tokens := kvs_split_token (strip_newlines (Z.to_nat length) m) in
      match tokens with
      | [] => say ("Unknown command" +:+ crlf)
      | _ =>
          result ← kvs_filter_protocol tokens;
          if (r_length result <? 0) then say ERROR_MSG else mret result
      end
  end.

(** * Start and end *)

Definition init_kvengine : M store Z :=
  in_data (in_array (put_st global_array));;
  in_data (in_array (kvs_array_create IGlobal));;
  in_data (in_rbtree (put_st global_rbtree));;
  in_data (in_rbtree (kvs_rbtree_create IGlobal));;
  in_data (in_hash (put_st global_hash));;
  in_data (in_hash (kvs_hash_create IGlobal));;
  in_data (in_skip (put_st global_skip));;
  in_data (in_skip (kvs_skip_create IGlobal));;
  in_vector (kvs_vector_create IGlobal);;
  in_cache (kvs_cache_init 1000);;
  in_data rdb_load_default;;
  mret 0.

Definition dest_kvengine : M store unit :=
  in_data (in_array (kvs_array_destroy IGlobal));;
  in_data (in_rbtree (kvs_rbtree_destroy IGlobal));;
  in_data (in_hash (kvs_hash_destroy IGlobal));;
  in_data (in_skip (kvs_skip_destroy IGlobal));;
  in_cache kvs_cache_destroy;;
  in_vector (kvs_vector_destroy IGlobal).

(** The process before [init_kvengine], with the files on disk. *)
Definition boot_store (fs : gmap string string) : store :=
  Store (DS global_array global_rbtree global_hash global_skip (Disk fs []))
        global_vector g_cache [] (PStr "default").
