(* ===== verification/Requests.v ===== *)
(** The text of a request: the tokens [kvs_split_token] finds, the values
    [join_tokens] builds, and the keys [make_namespaced_key] forms
    (src/common/kvstore.c). *)
From S2P Require Import Prelude CText KvsSpec CacheModel Rdb RdbProof Protocol.

Local Open Scope Z_scope.

Implicit Types (t r : string) (ts : list string).

(** * A printer of requests *)

Fixpoint has (c : Ascii.ascii) (s : string) : bool :=
  match s with
  | EmptyString => false
  | String d s' => Ascii.eqb d c || has c s'
  end.
(** A token can be sent as it is, or it needs quotes. *)
Definition plain (t : string) : bool :=
  match t with
  | EmptyString => false
  | String c _ => negb (Ascii.eqb c quote) && negb (has space t)
  end.
Definition render_token (t : string) : string :=
  if plain t then t else String quote (t +:+ String quote "").
Fixpoint render_line (ts : list string) : string :=
  match ts with
  | [] => ""
  | [t] => render_token t
  | t :: ts' => render_token t +:+ String space (render_line ts')
  end.
(** No quoting can send a token that needs quotes and holds one. *)
Definition sendable (t : string) : Prop := plain t = true ∨ has quote t = false.
(** The line ends of a request are not part of its tokens. *)
Definition one_line (t : string) : Prop := has CR t = false ∧ has LF t = false.

(** * Scanning *)

Lemma has_app c s t : has c (s +:+ t) = has c s || has c t.
Proof.
  induction s as [|a s IH]; [done|]. change (String a s +:+ t) with (String a (s +:+ t)).
  simpl. by rewrite IH, orb_assoc.
Qed.
Lemma until_found stop t r : has stop t = false → until stop (t +:+ String stop r) = (t, r).
Proof.
  induction t as [|a t IH]; intros Ht.
  - simpl. by rewrite Ascii.eqb_refl.
  - simpl in Ht. apply orb_false_iff in Ht as [Ha Ht].
    change (String a t +:+ String stop r) with (String a (t +:+ String stop r)). simpl.
    by rewrite Ha, IH.
Qed.
Lemma until_end stop t : has stop t = false → until stop t = (t, "").
Proof.
  induction t as [|a t IH]; intros Ht; [done|]. simpl in Ht. apply orb_false_iff in Ht as [Ha Ht].
  simpl. by rewrite Ha, IH.
Qed.
Lemma skip_spaces_plain t : plain t = true → skip_spaces t = t.
Proof.
  destruct t as [|c t]; [done|]. simpl. rewrite negb_orb, !andb_true_iff, !negb_true_iff.
  intros (_ & -> & _). done.
Qed.
Lemma skip_spaces_plain_app t r : plain t = true → skip_spaces (t +:+ r) = t +:+ r.
Proof.
  destruct t as [|c t]; [done|]. simpl plain. rewrite negb_orb, !andb_true_iff, !negb_true_iff.
  intros (_ & Hc & _). change (String c t +:+ r) with (String c (t +:+ r)). simpl. by rewrite Hc.
Qed.

(** What [split_from] does with the text after a token. *)
Definition next (fuel room : nat) (p : string) : list string :=
  match room with
  | O | S O => []
  | S room' => split_from fuel room' p
  end.
Lemma split_quoted fuel room t r :
  has quote t = false →
  split_from (S fuel) room (String quote (t +:+ String quote r)) = t :: next fuel room r.
Proof.
  intros Ht. cbn [split_from skip_spaces]. change (Ascii.eqb quote space) with false.
  change (Ascii.eqb quote quote) with true. cbv iota. by rewrite until_found.
Qed.
Lemma split_plain fuel room c p t r :
  Ascii.eqb c quote = false → Ascii.eqb c space = false → until space (String c p) = (t, r) →
  split_from (S fuel) room (String c p) = t :: next fuel room r.
Proof. intros Hq Hs Hu. cbn [split_from skip_spaces]. by rewrite Hs, Hq, Hu. Qed.
Lemma next_space fuel room r : next fuel room (String space r) = next fuel room r.
Proof. destruct room as [|[|room]], fuel; reflexivity. Qed.

Lemma split_token_end fuel room t :
  sendable t → split_from (S fuel) room (render_token t) = t :: next fuel room "".
Proof.
  intros Ht. unfold render_token. destruct (plain t) eqn:Hp.
  - destruct t as [|c t]; [done|]. unfold plain in Hp. rewrite andb_true_iff, !negb_true_iff in Hp.
    destruct Hp as [Hq Hs]. apply split_plain; [done| |by apply until_end].
    simpl in Hs. by apply orb_false_iff in Hs as [-> _].
  - destruct Ht as [|Ht]; [congruence|]. by apply split_quoted.
Qed.
Lemma split_token_more fuel room t r :
  sendable t → split_from (S fuel) room (render_token t +:+ String space r) = t :: next fuel room r.
Proof.
  intros Ht. unfold render_token. destruct (plain t) eqn:Hp.
  - destruct t as [|c t]; [done|]. unfold plain in Hp. rewrite andb_true_iff, !negb_true_iff in Hp.
    destruct Hp as [Hq Hs].
    change (String c t +:+ String space r) with (String c (t +:+ String space r)).
    apply split_plain; [done| |by apply (until_found _ (String c t))].
    simpl in Hs. by apply orb_false_iff in Hs as [-> _].
  - destruct Ht as [|Ht]; [congruence|].
    change (String quote (t +:+ String quote "") +:+ String space r)
      with (String quote ((t +:+ String quote "") +:+ String space r)).
    rewrite str_app_assoc. change (String quote "" +:+ String space r) with (String quote (String space r)).
    rewrite split_quoted by done. by rewrite next_space.
Qed.

Lemma split_render ts fuel room :
  Forall sendable ts → (length ts ≤ fuel)%nat → (length ts ≤ room)%nat →
  split_from fuel room (render_line ts) = ts.
Proof.
  intros Hts. revert fuel room. induction Hts as [|t ts Ht Hts IH]; intros fuel room Hf Hr.
  { by destruct fuel. }
  destruct fuel as [|fuel]; [simpl in Hf; lia|]. simpl in Hf, Hr.
  destruct ts as [|u ts].
  - cbn [render_line]. rewrite split_token_end by done. f_equal. by destruct room as [|[|room]], fuel.
  - change (render_line (t :: u :: ts)) with (render_token t +:+ String space (render_line (u :: ts))).
    rewrite split_token_more by done. f_equal. destruct room as [|[|room]]; [simpl in Hr; lia..|].
    unfold next. apply IH; simpl in *; lia.
Qed.

Lemma length_render_token t : (1 ≤ String.length (render_token t))%nat.
Proof.
  unfold render_token. destruct (plain t) eqn:Hp; [|simpl; lia]. destruct t; [done|]. simpl. lia.
Qed.
Lemma length_render_line ts : (length ts ≤ String.length (render_line ts))%nat.
Proof.
  induction ts as [|t ts IH]; [done|]. pose proof (length_render_token t).
  destruct ts as [|u ts]; [simpl; lia|].
  change (render_line (t :: u :: ts)) with (render_token t +:+ String space (render_line (u :: ts))).
  rewrite str_len_app. simpl String.length in *. simpl length in *. lia.
Qed.

(** * Properties of the tokenizer *)

(** C29: the tokenizer inverts the printer of requests: any list of at most 128
    tokens, with spaces or empty, comes back from the line that quotes those
    tokens that need it. *)
Theorem split_token_roundtrip ts :
  Forall sendable ts → (length ts ≤ KVS_MAX_TOKENS)%nat → kvs_split_token (render_line ts) = ts.
Proof.
  intros Hts Hlen. apply split_render; [done| |done]. pose proof (length_render_line ts). lia.
Qed.
Lemma split_token_roundtrip_witness :
  kvs_split_token (render_line ["SET"; "a key"; ""; "v"]) = ["SET"; "a key"; ""; "v"].
Proof.
  apply split_token_roundtrip; [|unfold KVS_MAX_TOKENS; simpl; lia].
  repeat constructor; solve [by left|by right].
Defined.

Lemma until_length stop s :
  (String.length (until stop s).1 + String.length (until stop s).2 ≤ String.length s)%nat.
Proof.
  induction s as [|c s IH]; [done|]. simpl. destruct (Ascii.eqb c stop); [simpl; lia|].
  destruct (until stop s) as [t r]. simpl in *. lia.
Qed.
Lemma skip_spaces_length s : (String.length (skip_spaces s) ≤ String.length s)%nat.
Proof. induction s as [|c s IH]; [done|]. simpl. destruct (Ascii.eqb c space); simpl; lia. Qed.

Definition total_length ts : nat := sum_list_with String.length ts.

Lemma split_from_bound fuel room p :
  (length (split_from fuel room p) ≤ max 1 room)%nat ∧
  (total_length (split_from fuel room p) ≤ String.length p)%nat.
Proof.
  revert room p. induction fuel as [|fuel IH]; intros room p; [simpl; lia|]. cbn [split_from].
  pose proof (skip_spaces_length p) as Hl. destruct (skip_spaces p) as [|c p']; [simpl; lia|].
  assert (Hu : ∃ t r, (if Ascii.eqb c quote then until quote p' else until space (String c p')) = (t, r)
    ∧ (String.length t + String.length r ≤ String.length p)%nat).
  { destruct (Ascii.eqb c quote).
    - pose proof (until_length quote p'). destruct (until quote p') as [t r]. exists t, r. simpl in *.
      split; [done|lia].
    - pose proof (until_length space (String c p')). destruct (until space (String c p')) as [t r].
      exists t, r. simpl String.length in *. split; [done|simpl in *; lia]. }
  destruct Hu as (t & r & -> & Htr). simpl.
  destruct room as [|[|room]]; simpl; [lia..|]. destruct (IH (S room) r). simpl in *. lia.
Qed.

(** No request overruns the token array: at most 128 tokens are stored, and
    together they are no longer than the request. *)
Theorem split_token_bounds msg :
  (length (kvs_split_token msg) ≤ KVS_MAX_TOKENS)%nat ∧
  (total_length (kvs_split_token msg) ≤ String.length msg)%nat.
Proof.
  unfold kvs_split_token.
  by destruct (split_from_bound (S (String.length msg)) KVS_MAX_TOKENS msg) as [H1 H2].
Qed.

(** * Values of several tokens *)

Lemma str_take_length n s : (String.length (str_take n s) ≤ n)%nat.
Proof. revert n. induction s as [|c s IH]; intros [|n]; simpl; try lia. specialize (IH n). lia. Qed.
Lemma join_from_bound ts first dst dst_size :
  Z.of_nat (String.length dst) < dst_size →
  Z.of_nat (String.length (join_from ts first dst dst_size)) < dst_size.
Proof.
  revert first dst. induction ts as [|t ts IH]; intros first dst Hd; [done|]. cbn [join_from].
  destruct (Z.ltb_spec (Z.of_nat (String.length dst)) (dst_size - 1)) as [Hlt|]; [|done].
  cbv iota beta delta [negb]. apply IH.
  assert (Hs : Z.of_nat (String.length (if first then dst else dst +:+ " ")) < dst_size).
  { destruct first; [lia|]. rewrite str_len_app. simpl String.length. lia. }
  rewrite str_len_app. match goal with |- context [str_take ?n t] => pose proof (str_take_length n t) end.
  destruct (Z.leb_spec dst_size (Z.of_nat (String.length (if first then dst else dst +:+ " ")) +
    Z.of_nat (String.length t))); lia.
Qed.
Lemma cat_from_length ts first dst : (String.length dst ≤ String.length (cat_from ts first dst))%nat.
Proof.
  revert first dst. induction ts as [|t ts IH]; intros first dst; [done|]. cbn [cat_from].
  etrans; [|apply IH]. destruct first; rewrite !str_len_app; lia.
Qed.
Lemma join_cat ts first dst dst_size :
  Z.of_nat (String.length (cat_from ts first dst)) < dst_size - 1 →
  join_from ts first dst dst_size = cat_from ts first dst.
Proof.
  revert first dst. induction ts as [|t ts IH]; intros first dst Hc; [done|]. cbn [join_from cat_from] in *.
  pose proof (cat_from_length ts false ((if first then dst else dst +:+ " ") +:+ t)) as Hl.
  rewrite str_len_app in Hl.
  assert (String.length dst ≤ String.length (if first then dst else dst +:+ " "))%nat.
  { destruct first; [done|]. rewrite str_len_app. lia. }
  rewrite (proj2 (Z.ltb_lt _ _)) by lia. cbv iota beta delta [negb].
  rewrite (proj2 (Z.leb_gt _ _)) by lia. rewrite Nat2Z.id, str_take_all. by apply IH.
Qed.

(** The value of several tokens never overruns its buffer of [dst_size]
    bytes, and it is the concatenation of the tokens with a space between them
    whenever that fits. *)
Theorem join_tokens_spec ts start dst_size :
  0 < dst_size →
  Z.of_nat (String.length (join_tokens ts start dst_size)) < dst_size ∧
  (Z.of_nat (String.length (cat_from (drop start ts) true "")) < dst_size - 1 →
   join_tokens ts start dst_size = cat_from (drop start ts) true "").
Proof.
  intros Hd. split; [by apply join_from_bound|]. intros Hc. by apply join_cat.
Qed.
Lemma join_tokens_spec_witness :
  Z.of_nat (String.length (join_tokens ["SET"; "k"; "a"; "b"] 2 8192)) < 8192 ∧
  (Z.of_nat (String.length (cat_from (drop 2 ["SET"; "k"; "a"; "b"]) true "")) < 8192 - 1 →
   join_tokens ["SET"; "k"; "a"; "b"] 2 8192 = "a b").
Proof. apply (join_tokens_spec ["SET"; "k"; "a"; "b"] 2 8192). lia. Defined.

(** * Keys of a namespace *)

(** The key of a namespace, as the engines and the cache see it. *)
Definition full_key (ns k : string) : string :=
  if String.eqb ns "" || String.eqb ns "default" then k
  else truncate (Z.to_nat 256) (ns +:+ ":" +:+ k).

Lemma wp_actual_key ns k e (s : store) Q :
  st_ns s = PStr ns → Q (PStr (full_key ns k)) e s → wp (actual_key (PStr k)) e s Q.
Proof.
  intros Hns HQ. unfold actual_key, make_namespaced_key, full_key in *. wp_step. wp_step. rewrite Hns.
  wp_steps. rewrite strcmp_eqb. destruct (String.eqb ns "" || String.eqb ns "default"); by wp_steps.
Qed.
Arguments actual_key : simpl never.

Definition colon : Ascii.ascii := Ascii.ascii_of_nat 58.
(** A namespace that has a name of its own. *)
Definition named (ns : string) : Prop := ns ≠ "" ∧ ns ≠ "default".
(** The key fits in the buffer of [kvs_filter_protocol]. *)
Definition key_fits (ns k : string) : Prop := (String.length ns + 1 + String.length k ≤ 255)%nat.

Lemma substring_all n s : (String.length s ≤ n)%nat → String.substring 0 n s = s.
Proof.
  revert n. induction s as [|c s IH]; intros n Hn; [by destruct n|].
  destruct n as [|n]; [simpl in Hn; lia|]. simpl in *. f_equal. apply IH. lia.
Qed.
Lemma substring_app n s t : String.length s = n → String.substring 0 n (s +:+ t) = s.
Proof. intros <-. induction s as [|c s IH]; [by destruct t|]. exact (f_equal (String c) IH). Qed.
Lemma full_key_default k : full_key "default" k = k.
Proof. done. Qed.
Lemma full_key_named ns k :
  named ns → full_key ns k = truncate (Z.to_nat 256) (ns +:+ String colon k).
Proof.
  intros [H1 H2]. unfold full_key. apply String.eqb_neq in H1, H2. by rewrite H1, H2.
Qed.
Lemma full_key_fits ns k : named ns → key_fits ns k → full_key ns k = ns +:+ String colon k.
Proof.
  intros Hn Hf. rewrite full_key_named by done. apply substring_all. rewrite str_len_app.
  unfold key_fits in Hf. simpl String.length at 2. change (pred (Z.to_nat 256)) with 255%nat. lia.
Qed.
Lemma wp_make_key ns k e (s : store) Q :
  Q (PStr (full_key ns k)) e s → wp (make_namespaced_key (PStr ns) (PStr k) 256) e s Q.
Proof.
  intros HQ. unfold make_namespaced_key, full_key in *. wp_steps. rewrite strcmp_eqb.
  destruct (String.eqb ns "" || String.eqb ns "default"); by wp_steps.
Qed.

Lemma full_key_inj ns1 ns2 k1 k2 :
  named ns1 → named ns2 → has colon ns1 = false → has colon ns2 = false →
  key_fits ns1 k1 → key_fits ns2 k2 → full_key ns1 k1 = full_key ns2 k2 → ns1 = ns2 ∧ k1 = k2.
Proof.
  intros Hn1 Hn2 Hc1 Hc2 Hf1 Hf2. rewrite !full_key_fits by done. intros Heq.
  pose proof (until_found colon ns1 k1 Hc1) as H1. rewrite Heq, until_found in H1 by done.
  by injection H1 as -> ->.
Qed.

(** Two namespaces with names of their own and without a colon never share a
    key, as long as the keys fit in the buffer of 256 bytes. *)
Theorem namespaces_isolated ns1 ns2 k1 k2 e (s : store) :
  named ns1 → named ns2 → has colon ns1 = false → has colon ns2 = false →
  key_fits ns1 k1 → key_fits ns2 k2 →
  wp (make_namespaced_key (PStr ns1) (PStr k1) 256) e s (λ p1 e1 s1,
    wp (make_namespaced_key (PStr ns2) (PStr k2) 256) e1 s1 (λ p2 e2 s2,
      e2 = e ∧ s2 = s ∧ (p1 = p2 ↔ ns1 = ns2 ∧ k1 = k2))).
Proof.
  intros Hn1 Hn2 Hc1 Hc2 Hf1 Hf2. do 2 apply wp_make_key. split_and!; [done..|].
  split; [|by intros [-> ->]]. intros [= Heq]. by apply full_key_inj.
Qed.
Lemma namespaces_isolated_witness :
  wp (make_namespaced_key (PStr "users") (PStr "a:b") 256) (Env [] [] [] [] 0) (boot_store ∅) (λ p1 e1 s1,
    wp (make_namespaced_key (PStr "posts") (PStr "a:b") 256) e1 s1 (λ p2 e2 s2,
      e2 = Env [] [] [] [] 0 ∧ s2 = boot_store ∅ ∧ (p1 = p2 ↔ "users" = "posts" ∧ "a:b" = "a:b"))).
Proof.
  apply (namespaces_isolated "users" "posts" "a:b" "a:b"); try reflexivity; try (split; discriminate);
    unfold key_fits; simpl; lia.
Defined.

(** The limits of that isolation.  A key of a named namespace is also a key of
    the default one, and keys that agree on the bytes that fit are one key. *)
Theorem namespaces_overlap ns k k1 k2 e (s : store) :
  named ns → key_fits ns k → key_fits ns k1 → (String.length ns + 1 + String.length k1 = 255)%nat →
  wp (make_namespaced_key (PStr ns) (PStr k) 256) e s (λ p1 _ _,
    wp (make_namespaced_key (PStr "default") (PStr (ns +:+ ":" +:+ k)) 256) e s (λ p2 _ _, p1 = p2)) ∧
  wp (make_namespaced_key (PStr ns) (PStr k1) 256) e s (λ p1 _ _,
    wp (make_namespaced_key (PStr ns) (PStr (k1 +:+ k2)) 256) e s (λ p2 _ _, p1 = p2)).
Proof.
  intros Hn Hf Hf1 Hlen. split; do 2 apply wp_make_key.
  - by rewrite full_key_fits, full_key_default.
  - rewrite full_key_fits, full_key_named by done. f_equal.
    change (String colon (k1 +:+ k2)) with (String colon k1 +:+ k2). rewrite <-str_app_assoc.
    symmetry. apply substring_app. rewrite str_len_app. simpl String.length at 2.
    change (pred (Z.to_nat 256)) with 255%nat. lia.
Qed.
Lemma namespaces_overlap_witness :
  let ns := "users" in
  let k1 := zeros 249 in
  wp (make_namespaced_key (PStr ns) (PStr "k") 256) (Env [] [] [] [] 0) (boot_store ∅) (λ p1 _ _,
    wp (make_namespaced_key (PStr "default") (PStr (ns +:+ ":" +:+ "k")) 256) (Env [] [] [] [] 0)
      (boot_store ∅) (λ p2 _ _, p1 = p2)) ∧
  wp (make_namespaced_key (PStr ns) (PStr k1) 256) (Env [] [] [] [] 0) (boot_store ∅) (λ p1 _ _,
    wp (make_namespaced_key (PStr ns) (PStr (k1 +:+ "x")) 256) (Env [] [] [] [] 0)
      (boot_store ∅) (λ p2 _ _, p1 = p2)).
Proof.
  intros ns k1. apply (namespaces_overlap ns "k" k1 "x");
    [split; discriminate|unfold key_fits; vm_compute; lia..].
Defined.
