(* ===== verification/Dispatch.v ===== *)
(** The commands of one engine, with the cache in front of it: as long as no other
    engine holds the keys of its commands and the eviction policy stays, every
    answer is the one the engine's map gives.  The theorems
    are proved against the contracts [KVEngine] and [CacheContract]. *)
From S2P Require Import Prelude CText KvsSpec KvsArray KvsHash RbTree RbEngine SkipList SkipProof CacheModel CacheSpec CacheLru Rdb RdbProof Protocol Requests.

Local Open Scope Z_scope.

(** * An engine inside the store *)

Class EngineSlot {S : Type} (lift : ∀ A, M S A → M store A) := {
  sl_get : store → S;
  sl_set : S → store → store;
  sl_lift A (m : M S A) e s (Q : A → env → store → Prop) :
    wp m e (sl_get s) (λ a e' u, Q a e' (sl_set u s)) → wp (lift A m) e s Q;
  sl_get_set u s : sl_get (sl_set u s) = u;
  sl_set_get s : sl_set (sl_get s) s = s;
  sl_cache_set u s : st_cache (sl_set u s) = st_cache s;
  sl_ns_set u s : st_ns (sl_set u s) = st_ns s;
  sl_get_cache c s : sl_get (s_set_cache c s) = sl_get s
}.

Definition lift_array A (m : M kvs_array A) : M store A := in_data (in_array m).
Definition lift_rbtree A (m : M rbtree A) : M store A := in_data (in_rbtree m).
Definition lift_hash A (m : M hashtable A) : M store A := in_data (in_hash m).
Definition lift_skip A (m : M skiplist A) : M store A := in_data (in_skip m).

Global Program Instance array_slot : EngineSlot lift_array := {|
  sl_get s := d_array (st_data s); sl_set u s := s_set_data (d_set_array u (st_data s)) s |}.
Global Program Instance rbtree_slot : EngineSlot lift_rbtree := {|
  sl_get s := d_rbtree (st_data s); sl_set u s := s_set_data (d_set_rbtree u (st_data s)) s |}.
Global Program Instance hash_slot : EngineSlot lift_hash := {|
  sl_get s := d_hash (st_data s); sl_set u s := s_set_data (d_set_hash u (st_data s)) s |}.
Global Program Instance skip_slot : EngineSlot lift_skip := {|
  sl_get s := d_skip (st_data s); sl_set u s := s_set_data (d_set_skip u (st_data s)) s |}.
Solve All Obligations with
  (intros; first [done | by match goal with s : store |- _ => destruct s as [[]] end
                       | unfold lift_array, lift_rbtree, lift_hash, lift_skip; by do 2 apply wp_zoom]).

(** * The commands of an engine as data *)

Definition run_command (ops : kv_ops store) (o : kv_op) : M store reply :=
  match o with
  | OpSet k v => cmd_set ops (PStr k) (PStr v)
  | OpGet k => cmd_get ops (PStr k)
  | OpDel k => cmd_del ops (PStr k)
  | OpMod k v => cmd_mod ops (PStr k) (PStr v)
  | OpExist k => cmd_exist ops (PStr k)
  end.
Fixpoint run_commands (ops : kv_ops store) (os : list kv_op) : M store (list reply) :=
  match os with
  | [] => mret []
  | o :: os' =>
      a ← run_command ops o;
      rest ← run_commands ops os';
      mret (a :: rest)
  end.

(** The same operation on the keys of a namespace. *)
Definition in_ns (ns : string) (o : kv_op) : kv_op :=
  match o with
  | OpSet k v => OpSet (full_key ns k) v
  | OpGet k => OpGet (full_key ns k)
  | OpDel k => OpDel (full_key ns k)
  | OpMod k v => OpMod (full_key ns k) v
  | OpExist k => OpExist (full_key ns k)
  end.
Definition text (s : string) : reply := Reply s (Z.of_nat (String.length s)).
(** A value as an answer: the text is cut to the buffer, the length is not. *)
Definition value_reply (v : string) : reply :=
  Reply (truncate (Z.to_nat RESPONSE_MAX_LEN) (v +:+ crlf)) (Z.of_nat (String.length (v +:+ crlf))).

(** What the client is told, given the answer of the abstract map. *)
Definition reply_of (o : kv_op) (a : kv_answer) : reply :=
  match o, a with
  | OpSet _ _, ACode r => text (if (r =? 0) then OK_MSG else EXIST_MSG)
  | OpGet _, AValue (PStr v) => value_reply v
  | OpGet _, _ => text NO_EXIST_MSG
  | OpExist _, ACode r => text (if (r =? 0) then EXIST_MSG else NO_EXIST_MSG)
  | _, ACode r => text (if (r =? 0) then OK_MSG else NO_EXIST_MSG)
  | _, _ => text ERROR_MSG
  end.

(** What the clients should see: the abstract map, command by command. *)
Fixpoint replies (ns : string) (os : list kv_op) (m : gmap string string) : list reply :=
  match os with
  | [] => []
  | o :: os' =>
      let '(a, m') := spec_step (in_ns ns o) m in
      reply_of o a :: replies ns os' m'
  end.

Section coherence.
Context {S : Type} (ops : kv_ops S) `{!KVEngine ops}.
Context (lift : ∀ A, M S A → M store A) `{!EngineSlot lift}.
Context (policy : Z) `{!CacheContract policy}.
(** The pairs of other engines, which the cache holds too. *)
Context (others : gmap string string).
(** What the commands of the engine leave alone. *)
Context (frame : store → Prop).
Context (frame_set : ∀ u s, frame s → frame (sl_set u s)).
Context (frame_cache : ∀ c s, frame s → frame (s_set_cache c s)).
Implicit Types (b : budget) (s : store) (m C : gmap string string) (ns k v : string).

(** The engine holds [m], and every cached pair is a pair of [m] or of another engine. *)
Record coherent b ns m s : Prop := {
  co_ns : st_ns s = PStr ns;
  co_rep : kv_rep (sl_get s) m;
  co_cache : ∃ C, cache_holds b (st_cache s) C ∧ C ⊆ m ∪ others;
  co_frame : frame s
}.

Lemma coherent_engine b b' ns m m' C u s :
  coherent b ns m s → cache_holds b' (st_cache s) C → C ⊆ m' ∪ others → kv_rep u m' → coherent b' ns m' (sl_set u s).
Proof.
  intros [Hns _ _ Hf] HC HCm Hr. split; [by rewrite sl_ns_set|by rewrite sl_get_set| |by apply frame_set].
  exists C. by rewrite sl_cache_set.
Qed.
Lemma coherent_cache b ns m C c s :
  st_ns s = PStr ns → kv_rep (sl_get s) m → cache_holds b c C → C ⊆ m ∪ others → frame s →
  coherent b ns m (s_set_cache c s).
Proof. intros Hns Hr HC HCm Hf. split; [done|by rewrite sl_get_cache|by exists C|by apply frame_cache]. Qed.

Lemma cached_pair m C k v : C ⊆ m ∪ others → others !! k = None → C !! k = Some v → m !! k = Some v.
Proof. intros HC Hk HCk. pose proof (lookup_weaken _ _ _ _ HCk HC) as H. by rewrite lookup_union_l in H. Qed.
Lemma cached_write m C k v : C ⊆ m ∪ others → delete k C ⊆ <[k := v]> m ∪ others.
Proof.
  intros HC. rewrite <-insert_union_l. etrans; [by apply delete_mono|].
  rewrite <-(insert_delete_eq (m ∪ others)). apply insert_subseteq, lookup_delete_eq.
Qed.
Lemma cached_delete m C k : C ⊆ m ∪ others → others !! k = None → delete k C ⊆ delete k m ∪ others.
Proof. intros HC Hk. rewrite <-(delete_id others k) by done. rewrite <-delete_union. by apply delete_mono. Qed.
Lemma cached_new m C k v : C ⊆ m ∪ others → others !! k = None → m !! k = None → C ⊆ <[k := v]> m ∪ others.
Proof. intros HC Hk Hm. rewrite <-insert_union_l. etrans; [exact HC|]. apply insert_subseteq. by rewrite lookup_union_l. Qed.
Lemma cached_entry m C C' k v :
  C ⊆ m ∪ others → C' ⊆ <[k := v]> C → m !! k = Some v → C' ⊆ m ∪ others.
Proof.
  intros HC HC' Hm. etrans; [exact HC'|]. etrans; [by apply insert_mono|].
  rewrite insert_id; [done|]. by apply lookup_union_Some_l.
Qed.

Lemma wp_say t e s Q :
  Z.of_nat (String.length t) < RESPONSE_MAX_LEN → Q (text t) e s → wp (say t) e s Q.
Proof. intros Ht HQ. unfold say. by rewrite decide_True. Qed.

(** What a command leads to: the answer of the abstract map, and its next state. *)
Definition served b ns m o (Q : reply → env → store → Prop) : Prop :=
  ∀ e' s', no_oom e' → coherent b ns (spec_step (in_ns ns o) m).2 s' →
    Q (reply_of o (spec_step (in_ns ns o) m).1) e' s'.

Lemma wp_cmd_set b ns m k v e s Q :
  coherent (more 2 b) ns m s → kv_key_ok (full_key ns k) → others !! full_key ns k = None → no_oom e → has_room kv_cap m →
  served b ns m (OpSet k v) Q →
  wp (cmd_set (lift_ops lift ops) (PStr k) (PStr v)) e s Q.
Proof.
  intros Hc Hk Ho He Hroom HQ. pose proof Hc as [Hns Hr (C & HC & HCm) Hf]. unfold cmd_set. wp_step.
  eapply wp_actual_key; [done|]. wp_step. simpl kv_set. apply sl_lift.
  eapply wp_mono; [eapply kv_set_law; eauto using kv_set_pre_law|].
  intros r e' u (He' & Hpos & m' & Hpost & _ & Hr'). specialize (He' He). specialize (Hpos He Hroom).
  unfold served in HQ. simpl in HQ.
  destruct Hpost as [(-> & [x Hx] & ->)|[(-> & Hn & ->)|[Hneg _]]]; [| |lia].
  - rewrite Hx in HQ. simpl in HQ. apply wp_say; [done|]. apply HQ; [done|].
    eapply coherent_engine; [exact Hc|by eapply cache_holds_less|done..].
  - rewrite Hn in HQ. simpl in HQ. apply wp_say; [done|]. apply HQ; [done|].
    eapply coherent_engine; [exact Hc|by eapply cache_holds_less|by apply cached_new|done].
Qed.

Lemma to_int_len1 v : Z.of_nat (String.length v) < INT_MAX → to_int (Z.of_nat (String.length v) + 1) = len1 v.
Proof. intros Hv. apply to_int_id. unfold len1, INT_MIN, INT_MAX in *. lia. Qed.

Lemma wp_cmd_get b ns m k e s Q :
  coherent (more 2 b) ns m s → kv_key_ok (full_key ns k) → others !! full_key ns k = None → no_oom e →
  map_Forall (λ _ v, Z.of_nat (String.length v) < INT_MAX) m →
  served b ns m (OpGet k) Q →
  wp (cmd_get (lift_ops lift ops) (PStr k)) e s Q.
Proof.
  intros [Hns Hr (C & HC & HCm) Hf] Hk Ho He Hlen HQ. rewrite <-(more_more 1 1) in HC. unfold cmd_get. wp_step.
  eapply wp_actual_key; [done|]. wp_step. apply wp_zoom.
  eapply wp_mono; [by apply cache_get_law|]. intros r e' c (-> & HC' & Hm & _).
  assert (He' : no_oom e') by (unfold no_oom in *; by rewrite Hm).
  unfold served in HQ. simpl in HQ. destruct (C !! full_key ns k) as [v|] eqn:HCk; simpl is_null; cbv iota beta delta [negb fst].
  - rewrite (cached_pair _ _ _ _ HCm Ho HCk) in HQ. simpl. wp_step. wp_step. unfold say_n. wp_step.
    apply HQ; [done|].
    eapply coherent_cache; [done|done|by eapply cache_holds_less|done..].
  - simpl is_null. cbv iota beta delta [negb]. wp_step. simpl kv_get. apply sl_lift.
    eapply wp_mono; [eapply kv_get_law; [by rewrite sl_get_cache|done]|].
    intros p e2 u (-> & -> & ->). rewrite sl_get_cache.
    assert (Hco : ∀ c2 C2, cache_holds b c2 C2 → C2 ⊆ m ∪ others →
      coherent b ns m (s_set_cache c2 (sl_set (sl_get s) (s_set_cache c s)))).
    { intros c2 C2 H1 H2. eapply coherent_cache; [by rewrite sl_ns_set|by rewrite sl_get_set|done..|auto]. }
    destruct (m !! full_key ns k) as [v|] eqn:Hmk; simpl ptr_of; simpl is_null; cbv iota.
    + do 3 wp_step. apply wp_zoom. rewrite sl_cache_set. simpl st_cache.
      rewrite to_int_len1 by (by eapply Hlen).
      eapply wp_mono; [by apply cache_add_law|]. intros _ e3 c3 (He3 & C3 & _ & HC3 & Hc3).
      unfold say_n. wp_step. apply HQ; [done|]. eapply Hco; [done|]. by eapply cached_entry.
    + apply wp_say; [done|]. apply HQ; [done|]. split; [by rewrite sl_ns_set|by rewrite sl_get_set| |auto].
      rewrite sl_cache_set. exists C. split; [by eapply cache_holds_less|done].
Qed.

(** After the engine changed at a key, the cache forgets the key. *)
Lemma wp_forget b ns m' C k u e s Q :
  st_ns s = PStr ns → cache_holds (more 2 b) (st_cache s) C → delete k C ⊆ m' ∪ others → kv_rep u m' → frame s → no_oom e →
  (∀ e' s', no_oom e' → coherent b ns m' s' → Q (text OK_MSG) e' s') →
  wp (in_cache (kvs_cache_del (PStr k));; say OK_MSG) e (sl_set u s) Q.
Proof.
  intros Hns HC Hsub Hr Hf He HQ. rewrite <-(more_more 1 1) in HC. apply cache_holds_less in HC. wp_step. apply wp_zoom. rewrite sl_cache_set.
  eapply wp_mono; [by apply cache_del_law|]. intros z e' c (_ & HC' & Hm). apply wp_say; [done|].
  apply HQ; [unfold no_oom in *; by rewrite Hm|]. eapply coherent_cache; [by rewrite sl_ns_set|by rewrite sl_get_set|done..|auto].
Qed.

Lemma wp_cmd_del b ns m k e s Q :
  coherent (more 2 b) ns m s → kv_key_ok (full_key ns k) → others !! full_key ns k = None → no_oom e → served b ns m (OpDel k) Q →
  wp (cmd_del (lift_ops lift ops) (PStr k)) e s Q.
Proof.
  intros Hc Hk Ho He HQ. pose proof Hc as [Hns Hr (C & HC & HCm) Hf]. unfold cmd_del. wp_step.
  eapply wp_actual_key; [done|]. wp_step. simpl kv_del. apply sl_lift.
  eapply wp_mono; [by eapply kv_del_law|]. intros r e' u (He' & m' & Hpost & _ & Hr'). specialize (He' He).
  unfold served in HQ. simpl in HQ. destruct Hpost as [(-> & [x Hx] & ->)|(-> & Hn & ->)].
  - rewrite Hx in HQ. simpl in HQ. change (0 <? 0) with false. cbv iota.
    eapply wp_forget; [done|done|by apply cached_delete|done..].
  - rewrite Hn in HQ. simpl in HQ. apply wp_say; [done|]. apply HQ; [done|].
    eapply coherent_engine; [exact Hc|by eapply cache_holds_less|done..].
Qed.

Lemma wp_cmd_mod b ns m k v e s Q :
  coherent (more 2 b) ns m s → kv_key_ok (full_key ns k) → others !! full_key ns k = None → no_oom e → served b ns m (OpMod k v) Q →
  wp (cmd_mod (lift_ops lift ops) (PStr k) (PStr v)) e s Q.
Proof.
  intros Hc Hk Ho He HQ. pose proof Hc as [Hns Hr (C & HC & HCm) Hf]. unfold cmd_mod. wp_step.
  eapply wp_actual_key; [done|]. wp_step. simpl kv_mod. apply sl_lift.
  eapply wp_mono; [eapply kv_mod_law; eauto with kvs|]. intros r e' u (He' & m' & Hpost & _ & Hr'). specialize (He' He).
  unfold served in HQ. simpl in HQ. destruct Hpost as [(-> & [x Hx] & ->)|(-> & Hn & ->)].
  - rewrite Hx in HQ. simpl in HQ. change (0 <? 0) with false. cbv iota.
    eapply wp_forget; [done|done|by apply cached_write|done..].
  - rewrite Hn in HQ. simpl in HQ. apply wp_say; [done|]. apply HQ; [done|].
    eapply coherent_engine; [exact Hc|by eapply cache_holds_less|done..].
Qed.

Lemma wp_cmd_exist b ns m k e s Q :
  coherent (more 2 b) ns m s → kv_key_ok (full_key ns k) → others !! full_key ns k = None → no_oom e → served b ns m (OpExist k) Q →
  wp (cmd_exist (lift_ops lift ops) (PStr k)) e s Q.
Proof.
  intros Hc Hk Ho He HQ. pose proof Hc as [Hns Hr (C & HC & HCm) Hf]. unfold cmd_exist. wp_step.
  eapply wp_actual_key; [done|]. wp_step. simpl kv_exist. apply sl_lift.
  eapply wp_mono; [by eapply kv_exist_law|]. intros r e' u (-> & -> & ->).
  unfold served in HQ. simpl in HQ. destruct (m !! full_key ns k); simpl in *;
    (apply wp_say; [done|]); (apply HQ; [done|]); (eapply coherent_engine; [exact Hc|by eapply cache_holds_less|done..]).
Qed.

(** One command, and what stays true of the values. *)
Definition short_values m : Prop := map_Forall (λ _ v, Z.of_nat (String.length v) < INT_MAX) m.
(** The pair an operation may write satisfies [P]. *)
Definition op_writes (P : string → string → Prop) (o : kv_op) : Prop :=
  match o with OpSet k v | OpMod k v => P k v | _ => True end.
Lemma spec_step_forall (P : string → string → Prop) o m :
  map_Forall P m → op_writes P o → map_Forall P (spec_step o m).2.
Proof.
  intros Hm Hv. destruct o as [k v|k|k|k v|k]; simpl in *; destruct (m !! k); simpl; try done.
  - by apply map_Forall_insert_2.
  - by apply map_Forall_delete.
  - by apply map_Forall_insert_2.
Qed.
Definition is_set (o : kv_op) : bool := match o with OpSet _ _ => true | _ => false end.
Lemma wp_run_command b ns m o e s Q :
  coherent (more 2 b) ns m s → kv_key_ok (full_key ns (op_key o)) → others !! full_key ns (op_key o) = None →
  no_oom e → (is_set o = true → has_room kv_cap m) → short_values m → served b ns m o Q →
  wp (run_command (lift_ops lift ops) o) e s Q.
Proof.
  intros Hc Hk Ho He Hr Hs HQ. destruct o; simpl in *;
    eauto using wp_cmd_set, wp_cmd_get, wp_cmd_del, wp_cmd_mod, wp_cmd_exist.
Qed.
End coherence.
