(* ===== verification/Engines.v ===== *)
(** The requests to the four engines as text, and the state in which the server
    answers them: the engines share the cache, so a key is asked of the engine that
    holds it.  Then the engines together are one finite map. *)
From S2P Require Import Prelude CText KvsSpec KvsArray KvsHash RbTree RbEngine SkipList SkipProof CacheModel CacheSpec CacheLru Rdb RdbProof Protocol Requests Dispatch.

Local Open Scope Z_scope.

(** * Requests *)

Inductive engine_name : Type := EArray | ERbtree | EHash | ESkip.
Definition prefix_of (en : engine_name) : string :=
  match en with EArray => "" | ERbtree => "R" | EHash => "H" | ESkip => "S" end.
Definition store_of (en : engine_name) : kv_ops store :=
  match en with
  | EArray => array_store | ERbtree => rbtree_store | EHash => hash_store | ESkip => skip_store
  end.
Definition op_tokens (en : engine_name) (o : kv_op) : list string :=
  match o with
  | OpSet k v => [prefix_of en +:+ "SET"; k; v]
  | OpGet k => [prefix_of en +:+ "GET"; k]
  | OpDel k => [prefix_of en +:+ "DEL"; k]
  | OpMod k v => [prefix_of en +:+ "MOD"; k; v]
  | OpExist k => [prefix_of en +:+ "EXIST"; k]
  end.
(** The request as a client sends it. *)
Definition op_line (en : engine_name) (o : kv_op) : string := render_line (op_tokens en o).

(** The server answers one request after the other. *)
Definition answer (line : string) : M store reply :=
  kvs_protocol (Some line) (Z.of_nat (String.length line)).
Fixpoint serve (lines : list string) : M store (list reply) :=
  match lines with
  | [] => mret []
  | line :: lines' =>
      a ← answer line;
      rest ← serve lines';
      mret (a :: rest)
  end.

Definition tokens_ok (ts : list string) : Prop := Forall (λ t, sendable t ∧ one_line t) ts.

(** * From a line to its command *)

Lemma filter_op en o : kvs_filter_protocol (op_tokens en o) = run_command (store_of en) o.
Proof. by destruct en, o. Qed.

Lemma strip_id n s : one_line s → strip_newlines n s = s.
Proof.
  intros [Hc Hl]. revert s Hc Hl. induction n as [|n IH]; intros [|c s]; try done. simpl.
  rewrite !orb_false_iff. intros [Hc Hcs] [Hl Hls]. by rewrite Hc, Hl, IH.
Qed.
Lemma one_line_render_token t : one_line t → one_line (render_token t).
Proof.
  intros [Hc Hl]. unfold render_token. destruct (plain t); [done|].
  unfold one_line. simpl. by rewrite !has_app, Hc, Hl.
Qed.
Lemma one_line_render ts : tokens_ok ts → one_line (render_line ts).
Proof.
  intros Hts. induction Hts as [|t ts [_ Ht] Hts IH]; [done|].
  apply one_line_render_token in Ht. destruct ts as [|u ts]; [done|].
  change (render_line (t :: u :: ts)) with (render_token t +:+ String space (render_line (u :: ts))).
  destruct Ht as [Ht1 Ht2], IH as [IH1 IH2]. unfold one_line. rewrite !has_app, Ht1, Ht2.
  change (String space (render_line (u :: ts))) with (String space "" +:+ render_line (u :: ts)).
  by rewrite !has_app, IH1, IH2.
Qed.

(** Answering the line of a list of tokens is serving the tokens. *)
Lemma wp_answer ts e s Q :
  tokens_ok ts → ts ≠ [] → (length ts ≤ KVS_MAX_TOKENS)%nat →
  wp (kvs_filter_protocol ts) e s (λ a e' s', 0 ≤ r_length a ∧ Q a e' s') →
  wp (answer (render_line ts)) e s Q.
Proof.
  intros Hts Hne Hlen H. unfold answer, kvs_protocol.
  destruct ts as [|t ts]; [done|]. pose proof (length_render_line (t :: ts)) as Hl. simpl length in Hl.
  rewrite (proj2 (Z.leb_gt _ _)) by lia. rewrite Nat2Z.id, strip_id by by apply one_line_render.
  unfold kvs_split_token. rewrite split_render; [|by eapply Forall_impl; [exact Hts|intros ? []]|simpl in *; lia|done].
  wp_step. eapply wp_mono; [exact H|]. intros a e' s' [Ha HQ]. rewrite (proj2 (Z.ltb_ge _ _)) by lia.
  by wp_step.
Qed.

(** What a client may ask: one line, a value the cache can size. *)
Definition askable (en : engine_name) (o : kv_op) : Prop :=
  tokens_ok (op_tokens en o) ∧ op_writes (λ _ v, Z.of_nat (String.length v) < INT_MAX) o.

Lemma text_length t : 0 ≤ r_length (text t).
Proof. simpl. lia. Qed.
Lemma reply_of_length o a : 0 ≤ r_length (reply_of o a).
Proof. destruct o, a as [|p]; try destruct p; simpl; lia. Qed.

(** The keys an engine accepts, and the number of pairs it has room for. *)
Definition key_ok (en : engine_name) (k : string) : Prop :=
  match en with EHash => hash_key_ok k | _ => True end.
Definition limit (en : engine_name) : option Z :=
  match en with EArray => Some KVS_ARRAY_SIZE | EHash => Some INT_MAX | _ => None end.
Definition fits_in (en : engine_name) (n : nat) : Prop :=
  match limit en with Some c => Z.of_nat n ≤ c | None => True end.
Global Instance fits_in_dec en n : Decision (fits_in en n).
Proof. unfold fits_in. destruct (limit en); apply _. Defined.
Lemma fits_less en a b : (a ≤ b)%nat → fits_in en b → fits_in en a.
Proof. unfold fits_in. destruct (limit en); [lia|done]. Qed.

(** * One map for the engines *)

Global Instance engine_name_eq : EqDecision engine_name.
Proof. solve_decision. Defined.

(** A key is with one engine: the pairs with their engines, and what each holds. *)
Abbreviation tagged := (gmap string (engine_name * string)).
Implicit Types (en : engine_name) (m : tagged) (k v : string) (o : kv_op).
Definition values m : gmap string string := snd <$> m.
Definition part en m : gmap string string := omap (λ x, if decide (x.1 = en) then Some x.2 else None) m.
Definition others en m : gmap string string := omap (λ x, if decide (x.1 = en) then None else Some x.2) m.
(** An operation on an engine is one on all the pairs. *)
Definition tag_step en o m : kv_answer * tagged :=
  let '(a, w) := spec_step o (values m) in (a, partial_alter (λ _, pair en <$> w !! op_key o) (op_key o) m).
(** The key is not with another engine, and a new pair has room. *)
Definition allowed en o m : bool :=
  match m !! op_key o with Some (en', _) => bool_decide (en' = en) | None => true end &&
  (negb (is_set o) || bool_decide (fits_in en (S (size (part en m))))).

Lemma values_lookup m k : values m !! k = snd <$> m !! k.
Proof. apply lookup_fmap. Qed.
Lemma part_lookup en m k : part en m !! k = m !! k ≫= λ x, if decide (x.1 = en) then Some x.2 else None.
Proof. apply lookup_omap. Qed.
Lemma others_lookup en m k : others en m !! k = m !! k ≫= λ x, if decide (x.1 = en) then None else Some x.2.
Proof. apply lookup_omap. Qed.
Lemma part_union en m : part en m ∪ others en m = values m.
Proof.
  apply map_eq. intros k. rewrite lookup_union, part_lookup, others_lookup, values_lookup.
  destruct (m !! k) as [[en' v]|]; simpl; [|done]. by destruct (decide (en' = en)).
Qed.
Lemma part_empty en : part en ∅ = ∅.
Proof. apply omap_empty. Qed.
Lemma part_insert en en' m k v :
  m !! k = None → part en (<[k := (en', v)]> m) = if decide (en' = en) then <[k := v]> (part en m) else part en m.
Proof.
  intros Hk. apply map_eq. intros j. rewrite part_lookup. destruct (decide (k = j)) as [->|Hne].
  - rewrite lookup_insert_eq. simpl. destruct (decide (en' = en)); [by rewrite lookup_insert_eq|]. by rewrite part_lookup, Hk.
  - rewrite lookup_insert_ne by done. destruct (decide (en' = en)); by rewrite ?lookup_insert_ne, part_lookup by done.
Qed.
Lemma part_none en m k : m !! k = None → part en m !! k = None.
Proof. intros Hk. by rewrite part_lookup, Hk. Qed.
(** The parts are all of the map. *)
Lemma parts_size m :
  (size (part EArray m) + size (part EHash m) + size (part ERbtree m) + size (part ESkip m) = size m)%nat.
Proof.
  induction m as [|k [en v] m Hk IH] using map_ind; [by rewrite !part_empty, !map_size_empty|].
  rewrite !part_insert, (map_size_insert_None k _ m) by done. destruct en; simpl;
    rewrite map_size_insert_None by (by apply part_none); lia.
Qed.
Lemma part_size en m : (size (part en m) ≤ size m)%nat.
Proof. pose proof (parts_size m). destruct en; lia. Qed.

(** ** Steps *)

(** An operation sees and changes its key only. *)
Lemma spec_step_ne o (w : gmap string string) k : k ≠ op_key o → (spec_step o w).2 !! k = w !! k.
Proof.
  intros Hne. destruct o as [j v|j|j|j v|j]; simpl in *; destruct (w !! j); simpl; try done;
    by rewrite ?lookup_insert_ne, ?lookup_delete_ne.
Qed.
Lemma spec_step_local o (w w' : gmap string string) :
  w !! op_key o = w' !! op_key o →
  (spec_step o w).1 = (spec_step o w').1 ∧ (spec_step o w).2 !! op_key o = (spec_step o w').2 !! op_key o.
Proof.
  intros H. destruct o as [k v|k|k|k v|k]; simpl in *; rewrite <-H; destruct (w !! k) eqn:Hk; simpl; try done;
    by rewrite ?lookup_insert_eq, ?lookup_delete_eq, <-?H, ?Hk.
Qed.
Lemma tag_step_answer en o m : (tag_step en o m).1 = (spec_step o (values m)).1.
Proof. unfold tag_step. by destruct (spec_step o (values m)). Qed.
Lemma tag_step_lookup en o m k :
  (tag_step en o m).2 !! k = if decide (k = op_key o) then pair en <$> (spec_step o (values m)).2 !! op_key o else m !! k.
Proof.
  unfold tag_step. destruct (spec_step o (values m)) as [a w]. simpl. case_decide as Hk.
  - subst k. by rewrite lookup_partial_alter_eq.
  - by rewrite lookup_partial_alter_ne.
Qed.
(** The values are one map: the engine of an operation does not matter. *)
Lemma tag_values en o m : values (tag_step en o m).2 = (spec_step o (values m)).2.
Proof.
  apply map_eq. intros k. rewrite values_lookup, tag_step_lookup. case_decide as Hk.
  - subst k. by destruct ((spec_step o (values m)).2 !! op_key o).
  - by rewrite spec_step_ne, values_lookup by done.
Qed.
Lemma allowed_part en o m : allowed en o m = true → part en m !! op_key o = values m !! op_key o.
Proof.
  unfold allowed. rewrite part_lookup, values_lookup. destruct (m !! op_key o) as [[en' v]|]; [|done].
  intros [->%bool_decide_eq_true _]%andb_true_iff. simpl. by rewrite decide_True.
Qed.
Lemma allowed_other en en' o m : allowed en o m = true → en ≠ en' → part en' m !! op_key o = None.
Proof.
  unfold allowed. rewrite part_lookup. destruct (m !! op_key o) as [[en0 v]|]; [|done].
  intros [->%bool_decide_eq_true _]%andb_true_iff Hne. simpl. by rewrite decide_False.
Qed.
Lemma allowed_others en o m : allowed en o m = true → others en m !! op_key o = None.
Proof.
  unfold allowed. rewrite others_lookup. destruct (m !! op_key o) as [[en' v]|]; [|done].
  intros [->%bool_decide_eq_true _]%andb_true_iff. simpl. by rewrite decide_True.
Qed.
Lemma allowed_room en o m : allowed en o m = true → is_set o = true → fits_in en (S (size (part en m))).
Proof. unfold allowed. intros [_ H]%andb_true_iff Hs. rewrite Hs in H. by apply bool_decide_eq_true in H. Qed.

Lemma tag_step_part en o m :
  allowed en o m = true → spec_step o (part en m) = ((tag_step en o m).1, part en (tag_step en o m).2).
Proof.
  intros Ha. destruct (spec_step_local o (part en m) (values m)) as [H1 H2]; [by apply allowed_part|].
  rewrite (surjective_pairing (spec_step o (part en m))), tag_step_answer, H1. f_equal. apply map_eq. intros k.
  rewrite part_lookup, tag_step_lookup. case_decide as Hk.
  - subst k. rewrite H2. destruct ((spec_step o (values m)).2 !! op_key o); simpl; [by rewrite decide_True|done].
  - by rewrite spec_step_ne, part_lookup by done.
Qed.
Lemma tag_step_other en en' o m :
  allowed en o m = true → en ≠ en' → part en' (tag_step en o m).2 = part en' m.
Proof.
  intros Ha Hne. apply map_eq. intros k. rewrite part_lookup, tag_step_lookup. case_decide as Hk; [|by rewrite part_lookup].
  subst k. rewrite (allowed_other en) by done. destruct ((spec_step o (values m)).2 !! op_key o); simpl; [by rewrite decide_False|done].
Qed.
Lemma tag_step_others en o m : allowed en o m = true → others en (tag_step en o m).2 = others en m.
Proof.
  intros Ha. apply map_eq. intros k. rewrite others_lookup, tag_step_lookup. case_decide as Hk; [|by rewrite others_lookup].
  subst k. rewrite allowed_others by done. destruct ((spec_step o (values m)).2 !! op_key o); simpl; [by rewrite decide_True|done].
Qed.
(** Every engine stays within its limit. *)
Definition parts_fit m : Prop := ∀ en, fits_in en (size (part en m)).
Lemma parts_fit_empty : parts_fit ∅.
Proof. intros en. rewrite part_empty, map_size_empty. by destruct en. Qed.
Lemma tag_step_fits en o m : allowed en o m = true → parts_fit m → parts_fit (tag_step en o m).2.
Proof.
  intros Ha Hm en'. destruct (decide (en = en')) as [<-|Hne]; [|by rewrite (tag_step_other en)].
  assert (Hp : part en (tag_step en o m).2 = (spec_step o (part en m)).2) by (by rewrite tag_step_part).
  rewrite Hp. destruct (is_set o) eqn:Hset.
  - eapply fits_less; [exact (spec_step_size o (part en m))|]. by apply (allowed_room en o).
  - eapply fits_less; [|exact (Hm en)]. destruct o as [k v|k|k|k v|k]; try done; simpl; destruct (part en m !! k) eqn:Hk; simpl; try done.
    + rewrite map_size_delete_Some by done. lia.
    + by rewrite map_size_insert_Some.
Qed.

(** The server between two requests: [ch] are its background saves. *)
Record holding (policy : Z) (HC : CacheContract policy) (b : budget) (fs : gmap string string) (ch : list dataset)
    (ns : string) (m : tagged) (s : store) : Prop := {
  sv_data : ds_rep (st_data s) (part EArray m) (part EHash m) (part ERbtree m) (part ESkip m);
  sv_disk : d_disk (st_data s) = Disk fs [];
  sv_cache : ∃ C, cache_holds (CacheContract := HC) b (st_cache s) C ∧ C ⊆ values m;
  sv_ns : st_ns s = PStr ns;
  sv_children : st_children s = ch
}.
(** Under the default policy, from the start on. *)
Abbreviation serving fs := (holding EVICT_LRU lru_contract None fs []).

(** ** One request *)

Section engine.
Context {S : Type} (ops : kv_ops S) `{!KVEngine ops}.
Context (lift : ∀ A, M S A → M store A) `{!EngineSlot lift}.
Context (policy : Z) `{!CacheContract policy}.
Context (en : engine_name) (Hen : store_of en = lift_ops lift ops).
Context (frame : store → Prop).
Context (frame_set : ∀ u s, frame s → frame (sl_set u s)).
Context (frame_cache : ∀ c s, frame s → frame (s_set_cache c s)).

Lemma wp_answer_op b ns m o e s Q :
  coherent ops lift policy (others en m) frame (more 2 b) ns (part en m) s → askable en o →
  allowed en (in_ns ns o) m = true → kv_key_ok (full_key ns (op_key o)) →
  no_oom e → (is_set o = true → has_room kv_cap (part en m)) → short_values (values m) →
  (∀ e' s', no_oom e' →
    coherent ops lift policy (others en m) frame b ns (part en (tag_step en (in_ns ns o) m).2) s' →
    Q (reply_of o (tag_step en (in_ns ns o) m).1) e' s') →
  wp (answer (op_line en o)) e s Q.
Proof.
  intros Hc [Hts _] Hal Hk He Hr Hs HQ. apply wp_answer; [done|by destruct o|destruct o; unfold KVS_MAX_TOKENS; simpl; lia|].
  assert (Hkey : op_key (in_ns ns o) = full_key ns (op_key o)) by by destruct o.
  rewrite filter_op, Hen. eapply wp_run_command; [done..|exact Hc|exact Hk|rewrite <-Hkey; by apply allowed_others|done|done| |].
  - intros k v Hkv. apply (Hs k v). rewrite <-(part_union en). by apply lookup_union_Some_l.
  - intros e' s' He' Hc'. split; [apply reply_of_length|]. rewrite (tag_step_part en) in Hc' |- * by done. by apply HQ.
Qed.
End engine.

(** What the other engines hold, which a request leaves alone. *)
Definition rest_of (en : engine_name) (fs : gmap string string) (ch : list dataset) (m : tagged) (s : store) : Prop :=
  st_children s = ch ∧
  d_disk (st_data s) = Disk fs [] ∧
  match en with EArray => True | _ => array_rep (d_array (st_data s)) (part EArray m) end ∧
  match en with EHash => True | _ => hash_state (d_hash (st_data s)) (part EHash m) end ∧
  match en with ERbtree => True | _ => rb_rep (d_rbtree (st_data s)) (part ERbtree m) end ∧
  match en with ESkip => True | _ => skip_rep (d_skip (st_data s)) (part ESkip m) end.

Section requests.
Context (policy : Z) (HC : CacheContract policy) (fs : gmap string string) (ch : list dataset) (ns : string).
Implicit Types (b : budget).

Ltac answer_with ops lift policy en m b ns :=
  let Hop := fresh in
  pose proof (wp_answer_op ops lift policy en eq_refl (rest_of en fs ch m)) as Hop;
  apply (Hop ltac:(done) ltac:(done) b ns m); clear Hop; try done.

Lemma wp_answer_one b en o m e s :
  holding policy HC (more 2 b) fs ch ns m s → no_oom e → short_values (values m) → askable en o →
  allowed en (in_ns ns o) m = true → key_ok en (full_key ns (op_key o)) →
  wp (answer (op_line en o)) e s (λ a e' s', a = reply_of o (tag_step en (in_ns ns o) m).1 ∧
    no_oom e' ∧ holding policy HC b fs ch ns (tag_step en (in_ns ns o) m).2 s').
Proof.
  intros [[Ha Hh Hr Hs] Hd (C & HCc & HCm) Hns Hch] He Hm Hask Hal Hk.
  assert (Hset : is_set (in_ns ns o) = is_set o) by by destruct o.
  pose proof (allowed_room en (in_ns ns o) m Hal) as Hroom. rewrite Hset in Hroom.
  pose proof (tag_step_others en (in_ns ns o) m Hal) as Hot. pose proof (part_union en (tag_step en (in_ns ns o) m).2) as Hun.
  pose proof (λ en', tag_step_other en en' (in_ns ns o) m Hal) as Hoth.
  rewrite Hot in Hun. rewrite <-(part_union en m) in HCm.
  destruct en.
  - answer_with array_ops lift_array policy EArray m b ns; [by split; [..|by exists C|]|intros Ho; specialize (Hroom Ho); unfold has_room; unfold fits_in, limit in Hroom; simpl in *; lia|].
    intros e' s' He' [Hns' Hr' Hc' (Hch' & Hd' & _ & ? & ? & ?)]. rewrite Hun in Hc'. split_and!; [done..|]. split; try done.
    by split; rewrite ?Hoth by done.
  - answer_with rbtree_ops lift_rbtree policy ERbtree m b ns; [by split; [..|by exists C|]|].
    intros e' s' He' [Hns' Hr' Hc' (Hch' & Hd' & ? & ? & _ & ?)]. rewrite Hun in Hc'. split_and!; [done..|]. split; try done.
    by split; rewrite ?Hoth by done.
  - answer_with hash_ops lift_hash policy EHash m b ns; [by split; [..|by exists C|]|intros Ho; specialize (Hroom Ho); unfold has_room; unfold fits_in, limit in Hroom; simpl in *; lia|].
    intros e' s' He' [Hns' Hr' Hc' (Hch' & Hd' & ? & _ & ? & ?)]. rewrite Hun in Hc'. split_and!; [done..|]. split; try done.
    by split; rewrite ?Hoth by done.
  - answer_with skip_ops lift_skip policy ESkip m b ns; [by split; [..|by exists C|]|].
    intros e' s' He' [Hns' Hr' Hc' (Hch' & Hd' & ? & ? & ? & _)]. rewrite Hun in Hc'. split_and!; [done..|]. split; try done.
    by split; rewrite ?Hoth by done.
Qed.

(** ** Sequences of requests *)

Definition req_line (r : engine_name * kv_op) : string := op_line r.1 r.2.
Definition req_ok (r : engine_name * kv_op) : Prop := askable r.1 r.2 ∧ key_ok r.1 (full_key ns (op_key r.2)).
(** All of them are allowed when their turn comes. *)
Fixpoint all_allowed (os : list (engine_name * kv_op)) m : bool :=
  match os with
  | [] => true
  | (en, o) :: os' => allowed en (in_ns ns o) m && all_allowed os' (tag_step en (in_ns ns o) m).2
  end.
Fixpoint final_map (os : list (engine_name * kv_op)) m : tagged :=
  match os with
  | [] => m
  | (en, o) :: os' => final_map os' (tag_step en (in_ns ns o) m).2
  end.

Lemma wp_serve b os m e s :
  holding policy HC (more (2 * length os) b) fs ch ns m s → no_oom e → short_values (values m) →
  Forall req_ok os → all_allowed os m = true →
  wp (serve (req_line <$> os)) e s (λ a e' s',
    a = replies ns os.*2 (values m) ∧ no_oom e' ∧ holding policy HC b fs ch ns (final_map os m) s').
Proof.
  revert m e s. induction os as [|[en o] os IH]; intros m e s Hr He Hs Ha Hal; simpl.
  { wp_step. split_and!; [done..|]. destruct Hr as [? ? (C & HCc & HCm) ? ?]. split; try done.
    exists C. split; [|done]. by eapply cache_holds_less. }
  apply Forall_cons in Ha as [[Ha Hk] Has]. pose proof Ha as [_ Hw]. cbn [all_allowed] in Hal. apply andb_true_iff in Hal as [Hal Hals].
  assert (Hmore : more (2 * length ((en, o) :: os)) b = more 2 (more (2 * length os) b)).
  { rewrite more_more. f_equal. simpl. lia. }
  rewrite Hmore in Hr. wp_step. eapply wp_mono; [by apply (wp_answer_one (more (2 * length os) b) en o m)|].
  intros a e1 s1 (-> & He1 & Hr1). wp_step. eapply wp_mono; [apply IH; try done|].
  - rewrite tag_values. apply spec_step_forall; [done|]. by destruct o.
  - intros rs e2 s2 (-> & He2 & Hs2). wp_step. rewrite tag_values, tag_step_answer.
    destruct (spec_step (in_ns ns o) (values m)) as [a m1]. done.
Qed.
End requests.

Lemma all_allowed_app ns os1 os2 m :
  all_allowed ns (os1 ++ os2) m = all_allowed ns os1 m && all_allowed ns os2 (final_map ns os1 m).
Proof.
  revert m. induction os1 as [|[en o] os1 IH]; intros m; simpl; [done|]. by rewrite IH, andb_assoc.
Qed.
Lemma final_map_fits ns os m : all_allowed ns os m = true → parts_fit m → parts_fit (final_map ns os m).
Proof.
  revert m. induction os as [|[en o] os IH]; intros m; simpl; [done|]. intros [Ha Has]%andb_true_iff Hm.
  apply IH; [done|]. by apply tag_step_fits.
Qed.
(** What holds of every pair that an operation writes holds at the end. *)
Lemma tag_step_forall (P : string → engine_name * string → Prop) en o m :
  map_Forall P m → op_writes (λ k v, P k (en, v)) o → allowed en o m = true →
  map_Forall P (tag_step en o m).2.
Proof.
  intros Hm Hw Ha k x. rewrite tag_step_lookup. case_decide as Hk; [|by apply Hm]. subst k.
  unfold allowed in Ha. apply andb_true_iff in Ha as [Ha _].
  assert (Hold : ∀ v, values m !! op_key o = Some v → P (op_key o) (en, v)).
  { intros v. rewrite values_lookup. destruct (m !! op_key o) as [[en' v']|] eqn:Hmk; [|done]. intros [= <-].
    apply bool_decide_eq_true in Ha as ->. by apply Hm. }
  destruct o as [k v|k|k|k v|k]; simpl in *; destruct (values m !! k) as [v'|] eqn:Hv; simpl; rewrite ?lookup_insert_eq, ?lookup_delete_eq, ?Hv; simpl;
    intros [= <-]; first [by apply Hold|exact Hw].
Qed.
Lemma final_map_forall (P : string → engine_name * string → Prop) ns os m :
  map_Forall P m → Forall (λ r, op_writes (λ k v, P k (r.1, v)) (in_ns ns r.2)) os → all_allowed ns os m = true →
  map_Forall P (final_map ns os m).
Proof.
  intros Hm Hos. revert m Hm. induction Hos as [|[en o] os Ho Hos IH]; intros m Hm; [done|]. simpl.
  intros [Ha Has]%andb_true_iff. apply IH; [|done]. by apply tag_step_forall.
Qed.
Lemma final_map_size ns os m : (size (final_map ns os m) ≤ length os + size m)%nat.
Proof.
  revert m. induction os as [|[en o] os IH]; intros m; [done|]. simpl. etrans; [apply IH|].
  rewrite <-(map_size_fmap snd (tag_step en (in_ns ns o) m).2). change (snd <$> (tag_step en (in_ns ns o) m).2) with (values (tag_step en (in_ns ns o) m).2).
  rewrite tag_values. pose proof (spec_step_size (in_ns ns o) (values m)). unfold values in *. rewrite map_size_fmap in *. lia.
Qed.
