(* ===== verification/Session.v ===== *)
(** Sessions with the server: requests as lines of text, from the start of the
    process on.  The theorems compose the tokenizer ([Requests]), the commands
    and the cache ([Dispatch], [CachePolicies]), the engines ([Engines]) and the
    dump file ([RdbProof]). *)
From stdpp Require Import pretty.
From S2P Require Import Prelude CText KvsSpec KvsArray KvsHash RbTree RbEngine SkipList SkipProof CacheModel CacheSpec CacheLru CachePolicies Vector Rdb RdbProof Protocol Requests Dispatch Engines.

Local Open Scope Z_scope.

(** * The start of the process *)

Lemma wp_wall {S} e (s : S) Q :
  (∀ t e', mallocs e' = mallocs e → Q t e' s) → wp wall_time e s Q.
Proof. intros HQ. unfold wp, wall_time. by destruct (walls e); apply HQ. Qed.
Lemma wp_vector_create e v Q :
  no_oom e → (∀ e' v', no_oom e' → Q 0 e' v') → wp (kvs_vector_create IGlobal) e v Q.
Proof.
  intros He HQ. pose proof (no_oom_after _ He) as H1. pose proof (no_oom_after _ H1) as H2.
  unfold kvs_vector_create. change (inst_null IGlobal) with false. cbv iota.
  do 4 wp_step. rewrite (no_oom_fails e) by done. cbv iota beta delta [negb]. do 2 wp_step.
  rewrite no_oom_fails by done. cbv iota beta delta [negb]. do 5 wp_step.
  apply wp_wall. intros t e' Hm. wp_step. apply HQ. unfold no_oom. rewrite Hm. by apply no_oom_after.
Qed.

(** The server is up: the engines hold the maps, the cache is new. *)
Record started (fs : gmap string string) (ma mh mr ms : gmap string string) (s : store) : Prop := {
  sd_data : ds_rep (st_data s) ma mh mr ms;
  sd_disk : d_disk (st_data s) = Disk fs [];
  sd_cache : fresh_cache 1000 (st_cache s);
  sd_ns : st_ns s = PStr "default";
  sd_children : st_children s = []
}.

Lemma no_oom_same e e' : mallocs e' = mallocs e → no_oom e → no_oom e'.
Proof. unfold no_oom. by intros ->. Qed.

(** The engines, the vectors and the cache are created; then the dump is read. *)
Lemma wp_init_engines fs e Q :
  no_oom e →
  (∀ e' s', no_oom e' → started fs ∅ ∅ ∅ ∅ s' →
    wp (in_data rdb_load_default;; mret 0) e' s' Q) →
  wp init_kvengine e (boot_store fs) Q.
Proof.
  intros He HQ. unfold init_kvengine, in_data, in_array, in_rbtree, in_hash, in_skip, in_vector, in_cache.
  wp_step. do 2 apply wp_zoom. wp_step. wp_step. do 2 apply wp_zoom.
  eapply wp_mono; [by apply wp_array_create|]. intros ? e1 a (He1 & _ & Ha).
  rewrite no_oom_fails in Ha by done. destruct Ha as [_ Ha]. specialize (He1 He).
  wp_step. do 2 apply wp_zoom. wp_step. wp_step. do 2 apply wp_zoom.
  eapply wp_mono; [by apply wp_rb_create, no_oom_fails|]. intros ? e2 t (He2 & _ & _ & Ht). specialize (He2 He1).
  wp_step. do 2 apply wp_zoom. wp_step. wp_step. do 2 apply wp_zoom.
  eapply wp_mono; [by apply wp_hash_create|]. intros ? e3 h (He3 & _ & Hh).
  rewrite no_oom_fails in Hh by done. destruct Hh as [_ Hh]. specialize (He3 He2).
  wp_step. do 2 apply wp_zoom. wp_step. wp_step. do 2 apply wp_zoom.
  eapply wp_mono; [by apply wp_skip_create|]. intros ? e4 l (He4 & Hl & _).
  destruct (Hl He3) as (_ & _ & Hsk). specialize (He4 He3).
  wp_step. apply wp_zoom. apply wp_vector_create; [done|]. intros e5 v He5.
  wp_step. apply wp_zoom. apply wp_cache_init_fresh; [done..|]. intros e6 c He6 _ Hc. apply HQ; [done|].
  by split; [split|..].
Qed.

(** No dump file: the engines stay empty. *)
Lemma wp_init_fresh fs e Q :
  no_oom e → fs !! RDB_FILENAME = None →
  (∀ e' s', no_oom e' → started fs ∅ ∅ ∅ ∅ s' → Q 0 e' s') → wp init_kvengine e (boot_store fs) Q.
Proof.
  intros He Hfs HQ. apply wp_init_engines; [done|]. intros e' s' He' Hs. wp_step. apply wp_zoom.
  unfold rdb_load_default, rdb_load. wp_step. apply wp_zoom. unfold open_read. wp_step.
  rewrite (sd_disk _ _ _ _ _ _ Hs). unfold wp at 1, next_verdict. simpl verdicts. cbv iota.
  repeat wp_step. simpl files. rewrite Hfs. do 2 wp_step. apply HQ; [done|].
  destruct Hs as [? Hd ? ? ?], s' as [[] ? ? ? ?]. simpl in *. by rewrite <-Hd.
Qed.

(** The dump of four maps: they are loaded. *)
Definition dumped (fs ma mh mr ms : gmap string string) : Prop :=
  ∃ ts la lh lr ls, lists la ma ∧ lists lh mh ∧ lists lr mr ∧ lists ls ms ∧
    fs !! RDB_FILENAME = Some (enc_dump ts la lh lr ls).
Lemma wp_init_dumped fs ma mh mr ms e Q :
  no_oom e → dumped fs ma mh mr ms → all_loadable ma mh mr ms →
  Z.of_nat (size ma) ≤ KVS_ARRAY_SIZE → total_pairs ma mh mr ms ≤ INT_MAX →
  (∀ e' s', no_oom e' → started fs ma mh mr ms s' → Q 0 e' s') →
  wp init_kvengine e (boot_store fs) Q.
Proof.
  intros He (ts & la & lh & lr & ls & Hla & Hlh & Hlr & Hls & Hf) Hl Hsz Htot HQ.
  apply wp_init_engines; [done|]. intros e' s' He' [Hdata Hdisk Hcache Hns Hch]. wp_step. apply wp_zoom.
  eapply wp_mono; [eapply wp_rdb_load; rewrite ?Hdisk; done|].
  intros r e2 d2 (_ & He2 & Hd2 & Hrep). wp_step. apply HQ; [done|]. split; [done| |done..].
  by rewrite <-Hdisk.
Qed.

(** * Sessions from the start of the process *)

Lemma str_take_more n s : (String.length s ≤ n)%nat → str_take n s = str_take (String.length s) s.
Proof.
  revert n. induction s as [|c s IH]; intros n Hn; [by destruct n|].
  destruct n as [|n]; simpl in *; [lia|]. f_equal. apply IH. lia.
Qed.
Lemma wp_answer_ns ns e s Q :
  tokens_ok [ns] → (String.length ns ≤ 63)%nat → ns ≠ "RESET" → is_null (st_ns s) = false →
  Q (text ("Namespace set to: " +:+ ns +:+ crlf)) e (s_set_ns (PStr ns) s) →
  wp (answer (render_line ["NS"; ns])) e s Q.
Proof.
  intros Hts Hlen Hne Hnull HQ. apply wp_answer; [|done|unfold KVS_MAX_TOKENS; simpl; lia|].
  { constructor; [|done]. repeat split; by left. }
  change (wp (cmd_namespace ["NS"; ns]) e s (λ a e' s', 0 ≤ r_length a ∧ Q a e' s')). unfold cmd_namespace.
  change (is_token ["NS"; ns] 1 "RESET") with (strcmp ns "RESET" =? 0).
  change (is_token ["NS"; ns] 1 "SET") with (strcmp ns "SET" =? 0).
  rewrite (strcmp_eqb ns "RESET"), (proj2 (String.eqb_neq _ _)) by done.
  rewrite !andb_false_r. cbv iota. change (length ["NS"; ns] =? 2)%nat with true. cbv iota.
  change (token ["NS"; ns] 1) with (PStr ns). wp_step. wp_step. wp_step. unfold set_namespace. wp_step. wp_step.
  rewrite Hnull. wp_step. wp_step. wp_step. change (st_ns (s_set_ns ?p s)) with p.
  assert (Ht : str_take 63 ns = ns) by (rewrite <-(str_take_all ns) at 2; by apply str_take_more).
  rewrite Ht. wp_step. wp_step. apply wp_say; [|split; [apply text_length|done]].
  rewrite !str_len_app. unfold RESPONSE_MAX_LEN. simpl. lia.
Qed.

(** * A session *)

(** A client may choose a policy and chooses a namespace; then it uses the four
    engines as it likes, a key being with one engine at a time. *)
Definition session_lines (p : option eviction) (ns : string) (os : list (engine_name * kv_op)) : list string :=
  from_option (λ p, [render_line ["POLICY"; "SET"; policy_word p]]) [] p ++
  render_line ["NS"; ns] :: (req_line <$> os).
Definition session_replies (p : option eviction) (ns : string) (os : list (engine_name * kv_op)) (w : gmap string string)
    : list reply :=
  from_option (λ p, [text ("Policy set to " +:+ policy_title p +:+ crlf)]) [] p ++
  text ("Namespace set to: " +:+ ns +:+ crlf) :: replies ns os.*2 w.
(** [m] is what the engines hold before the session.  Under ARC the cache grows with
    the requests. *)
Record session_ok (m : tagged) (p : option eviction) (ns : string)
    (os : list (engine_name * kv_op)) : Prop := {
  so_token : tokens_ok [ns];
  so_length : (String.length ns ≤ 63)%nat;
  so_reset : ns ≠ "RESET";
  so_requests : Forall (req_ok ns) os;
  so_allowed : all_allowed ns os m = true;
  so_arc : p = Some PArc → 2 * Z.of_nat (length os) < INT_MAX
}.

Lemma wp_answer_policy p e s Q :
  Q (text ("Policy set to " +:+ policy_title p +:+ crlf)) e (s_set_cache (switched (policy_code p) (st_cache s)) s) →
  wp (answer (render_line ["POLICY"; "SET"; policy_word p])) e s Q.
Proof.
  intros HQ. apply wp_answer; [|done|unfold KVS_MAX_TOKENS; simpl; lia|].
  { repeat (apply Forall_cons_2; [by destruct p; (split; [by left|done])|]). apply Forall_nil_2. }
  destruct p;
    (match goal with |- wp (kvs_filter_protocol [_; _; policy_word ?p]) ?e ?s ?Q =>
      change (wp (in_cache (kvs_cache_set_policy (policy_code p));; say ("Policy set to " +:+ policy_title p +:+ crlf)) e s Q) end);
    wp_step; apply wp_zoom; unfold kvs_cache_set_policy; do 3 wp_step; (apply wp_say; [done|]);
    (split; [apply text_length|exact HQ]).
Qed.

(** The server is up and the engines hold the parts of [m]. *)
Definition started_with (fs : gmap string string) (m : tagged) : store → Prop :=
  started fs (part EArray m) (part EHash m) (part ERbtree m) (part ESkip m).
Lemma started_new fs s : started fs ∅ ∅ ∅ ∅ s → started_with fs ∅ s.
Proof. unfold started_with. by rewrite !part_empty. Qed.
Lemma started_serving fs m s : started_with fs m s → serving fs "default" m s.
Proof.
  intros [Hd Hk Hc Hns Hch]. split; [done|done| |done..]. exists ∅. split; [by eapply fresh_default|apply map_empty_subseteq].
Qed.
Lemma started_switched p b fs m s :
  started_with fs m s → affords p b →
  holding (policy_code p) (policy_contract p) b fs [] "default" m (s_set_cache (switched (policy_code p) (st_cache s)) s).
Proof.
  intros [Hd Hk Hc Hns Hch] Hb. split; [done|done| |done..]. exists ∅. split; [by eapply fresh_holds|apply map_empty_subseteq].
Qed.

Lemma wp_setup p b fs m ns lines e s Q :
  started_with fs m s → affords (default PLru p) b →
  tokens_ok [ns] → (String.length ns ≤ 63)%nat → ns ≠ "RESET" →
  (∀ e' s', e' = e → holding (policy_code (default PLru p)) (policy_contract (default PLru p)) b fs [] ns m s' →
    wp (serve lines) e' s' (λ a e2 s2, Q (session_replies p ns [] (values m) ++ a) e2 s2)) →
  wp (serve (session_lines p ns [] ++ lines)) e s Q.
Proof.
  intros Hs Hb Hts Hlen Hne H.
  assert (Hns : ∀ s1 Q', holding (policy_code (default PLru p)) (policy_contract (default PLru p)) b fs [] "default" m s1 →
    (∀ s', holding (policy_code (default PLru p)) (policy_contract (default PLru p)) b fs [] ns m s' →
      wp (serve lines) e s' (λ a e2 s2, Q' (text ("Namespace set to: " +:+ ns +:+ crlf) :: a) e2 s2)) →
    wp (serve (render_line ["NS"; ns] :: lines)) e s1 Q').
  { intros s1 Q' Hs1 HQ. cbn [serve]. wp_step. apply wp_answer_ns; [done..|by rewrite (sv_ns _ _ _ _ _ _ _ _ Hs1)|]. wp_step.
    eapply wp_mono; [apply HQ; by destruct Hs1|]. intros a e2 s2 HQ2. by wp_step. }
  destruct p as [p|]; simpl in Hb, Hns, H |- *.
  - cbn [serve]. wp_step. apply wp_answer_policy. wp_step. apply Hns; [by apply started_switched|].
    intros s' Hs'. eapply wp_mono; [by apply H|]. intros a e2 s2 HQ. by wp_step.
  - apply Hns; [|intros s'; by apply H]. destruct Hs as [Hd Hk Hc Hnm Hch]. split; [done|done| |done..].
    exists ∅. split; [by eapply fresh_default|apply map_empty_subseteq].
Qed.
Lemma wp_policy_session b fs m p ns os e s :
  started_with fs m s → no_oom e → short_values (values m) → affords (default PLru p) (more (2 * length os) b) →
  tokens_ok [ns] → (String.length ns ≤ 63)%nat → ns ≠ "RESET" →
  Forall (req_ok ns) os → all_allowed ns os m = true →
  wp (serve (session_lines p ns os)) e s (λ a e' s', a = session_replies p ns os (values m) ∧ no_oom e' ∧
    holding (policy_code (default PLru p)) (policy_contract (default PLru p)) b fs [] ns (final_map ns os m) s').
Proof.
  intros Hs He Hm Hb Hts Hlen Hne Hos Hfit.
  assert (Hl : session_lines p ns os = session_lines p ns [] ++ (req_line <$> os)) by (by unfold session_lines; rewrite <-(assoc_L (++))).
  assert (Hr : session_replies p ns os (values m) = session_replies p ns [] (values m) ++ replies ns os.*2 (values m)) by (by unfold session_replies; rewrite <-(assoc_L (++))).
  rewrite Hl, Hr. apply (wp_setup p (more (2 * length os) b) fs m); try done.
  intros e' s' -> Hs'. eapply wp_mono; [exact (wp_serve _ _ fs [] ns b os m e s' Hs' He Hm Hos Hfit)|].
  by intros a e2 s2 (-> & He2 & Hs2).
Qed.
Lemma so_affords m p ns os : session_ok m p ns os → affords (default PLru p) (more (2 * length os) (Some 0%nat)).
Proof. intros [_ _ _ _ _ Harc]. destruct p as [[]|]; [done|done| |done]. cbn. specialize (Harc eq_refl). lia. Qed.
Lemma wp_session_ok fs m p ns os e s :
  started_with fs m s → no_oom e → short_values (values m) → session_ok m p ns os →
  wp (serve (session_lines p ns os)) e s (λ a e' s', a = session_replies p ns os (values m) ∧ no_oom e' ∧
    holding (policy_code (default PLru p)) (policy_contract (default PLru p)) (Some 0%nat) fs [] ns
      (final_map ns os m) s').
Proof. intros Hs He Hm Hok. pose proof (so_affords _ _ _ _ Hok). destruct Hok. by apply wp_policy_session. Qed.

(** C5: the server, from its start on a disk without a dump, with requests as text,
    all its engines, and under each of its eviction policies: a client may choose
    the policy, chooses a namespace, and then asks for SET, GET, DEL, MOD and EXIST
    on the four engines as it likes, a key being with one engine at a time.  Every
    answer is the one of a single finite map, whatever the cache holds. *)
Theorem server_session_refines p ns os fs e :
  no_oom e → fs !! RDB_FILENAME = None → session_ok ∅ p ns os →
  wp (init_kvengine;; serve (session_lines p ns os)) e (boot_store fs)
    (λ a _ _, a = session_replies p ns os ∅).
Proof.
  intros He Hfs Hok. wp_step. apply wp_init_fresh; [done..|]. intros e1 s1 He1 Hs1. apply started_new in Hs1.
  eapply wp_mono; [by eapply wp_session_ok|]. by intros a e2 s2 (-> & _).
Qed.

Definition mixed_requests : list (engine_name * kv_op) :=
  [(EArray, OpSet "1" "a"); (EHash, OpSet "a key" "b"); (EArray, OpGet "1"); (EHash, OpGet "a key"); (ERbtree, OpSet "x.y" "c");
   (ESkip, OpSet "z" "d"); (ERbtree, OpGet "x.y"); (EHash, OpMod "a key" "e"); (ESkip, OpGet "z"); (EHash, OpGet "a key");
   (EArray, OpDel "1"); (EArray, OpExist "1")].
Ltac req_solve :=
  split; [split; [repeat (apply Forall_cons_2; [split; [first [by left|by right]|by split]|]); apply Forall_nil_2|first [exact I|reflexivity]]|];
  first [exact I|split; vm_compute; intuition discriminate].
Lemma mixed_ok p : session_ok ∅ p "app" mixed_requests.
Proof.
  split.
  - repeat constructor.
  - simpl. lia.
  - discriminate.
  - repeat (apply Forall_cons_2; [req_solve|]). apply Forall_nil_2.
  - vm_compute. reflexivity.
  - intros _. unfold INT_MAX. simpl. lia.
Qed.
Lemma server_session_refines_witness :
  session_lines (Some PArc) "app" mixed_requests =
    (let q := String quote "a key" +:+ String quote "" in
     ["POLICY SET arc"; "NS app"; "SET 1 a"; "HSET " +:+ q +:+ " b"; "GET 1"; "HGET " +:+ q; "RSET x.y c"; "SSET z d";
      "RGET x.y"; "HMOD " +:+ q +:+ " e"; "SGET z"; "HGET " +:+ q; "DEL 1"; "EXIST 1"]) ∧
  wp (init_kvengine;; serve (session_lines (Some PArc) "app" mixed_requests))
    (Env [] [] [] [] 0) (boot_store ∅) (λ a _ _,
    a = [text ("Policy set to ARC" +:+ crlf); text ("Namespace set to: app" +:+ crlf);
         text OK_MSG; text OK_MSG; value_reply "a"; value_reply "b"; text OK_MSG; text OK_MSG; value_reply "c";
         text OK_MSG; value_reply "d"; value_reply "e"; text OK_MSG; text NO_EXIST_MSG]).
Proof.
  split; [reflexivity|].
  apply (server_session_refines (Some PArc) "app" mixed_requests ∅ (Env [] [] [] [] 0)).
  - constructor.
  - reflexivity.
  - apply mixed_ok.
Defined.

(** * Restarting *)

Definition storable_pair (k v : string) : Prop := storable k ∧ storable v.

Lemma total_parts m :
  total_pairs (part EArray m) (part EHash m) (part ERbtree m) (part ESkip m) = Z.of_nat (size m).
Proof. unfold total_pairs. by rewrite parts_size. Qed.
(** A map that a session leaves and a dump can hold. *)
Definition savable_pair (k : string) (x : engine_name * string) : Prop := storable_pair k x.2 ∧ key_ok x.1 k.
Record savable (m : tagged) : Prop := {
  sb_pairs : map_Forall savable_pair m;
  sb_size : Z.of_nat (size m) ≤ INT_MAX;
  sb_fits : parts_fit m
}.
Lemma part_pair en m k v : part en m !! k = Some v → m !! k = Some (en, v).
Proof.
  rewrite part_lookup. destruct (m !! k) as [[en' v']|]; [|done]. simpl. case_decide; [|done]. by intros [= <-]; subst.
Qed.
Lemma parts_loadable m :
  map_Forall savable_pair m → all_loadable (part EArray m) (part EHash m) (part ERbtree m) (part ESkip m).
Proof.
  intros Hm. split.
  - assert (H : ∀ en, map_Forall (λ k v, pair_storable (k, v)) (part en m)).
    { intros en k v Hkv%part_pair. by destruct (Hm _ _ Hkv). }
    unfold all_pairs. by rewrite !Forall_cons.
  - intros k v Hkv%part_pair. by destruct (Hm _ _ Hkv).
Qed.
Lemma storable_short m : map_Forall savable_pair m → short_values (values m).
Proof.
  intros Hm k v. rewrite values_lookup. destruct (m !! k) as [[en v']|] eqn:Hk; [|done]. intros [= <-].
  destruct (Hm _ _ Hk) as [[_ Hv] _]. unfold storable, INT_MAX in *. simpl in Hv. lia.
Qed.

(** [SAVE] on a disk that does not fail. *)
Lemma wp_answer_save policy HC b fs ns m e s Q :
  holding policy HC b fs [] ns m s → no_oom e → map_Forall savable_pair m → Z.of_nat (size m) ≤ INT_MAX →
  (∀ e' s', dumped (files (d_disk (st_data s'))) (part EArray m) (part EHash m) (part ERbtree m)
      (part ESkip m) → Q (text ("OK: Saved " +:+ pretty (Z.of_nat (size m)) +:+ " keys to dump.rdb" +:+ crlf)) e' s') →
  wp (answer "SAVE") e s Q.
Proof.
  intros [Hdata Hdisk _ _ _] He Hst Hmax HQ. apply (wp_answer ["SAVE"]); [|done|unfold KVS_MAX_TOKENS; simpl; lia|].
  { repeat constructor. }
  change (wp cmd_save e s (λ a e' s', 0 ≤ r_length a ∧ Q a e' s')). unfold cmd_save. wp_step. apply wp_zoom.
  pose proof (parts_loadable m Hst) as Hl.
  eapply wp_mono; [eapply wp_rdb_save; [exact Hdata|by apply all_loadable_fits|by rewrite total_parts]|].
  intros r e' d' (_ & _ & Hs). destruct (save_post_saved _ _ _ _ _ _ _ _ Hs) as (-> & Hv' & Hdump); [by rewrite Hdisk|].
  rewrite total_parts. rewrite (proj2 (Z.leb_le _ _)) by lia. apply wp_say.
  { pose proof (pretty_length 9 (Z.of_nat (size m))) as Hp. rewrite !str_len_app.
    unfold RESPONSE_MAX_LEN, INT_MAX in *. simpl String.length. simpl in Hp. lia. }
  split; [apply text_length|]. by apply HQ.
Qed.

Lemma final_savable ns os :
  Forall (req_ok ns) os → all_allowed ns os ∅ = true → map_Forall storable_pair (values (final_map ns os ∅)) →
  Z.of_nat (length os) ≤ INT_MAX → savable (final_map ns os ∅).
Proof.
  intros Hos Hal Hst Hmax. split.
  - assert (Hk : map_Forall (λ k x, key_ok x.1 k) (final_map ns os ∅)).
    { apply final_map_forall; [done| |done]. eapply Forall_impl; [exact Hos|]. intros [en o] [_ Hk]. by destruct o. }
    intros k x Hx. split; [|exact (Hk _ _ Hx)]. apply Hst. by rewrite values_lookup, Hx.
  - pose proof (final_map_size ns os ∅) as H. rewrite map_size_empty in H. lia.
  - apply final_map_fits; [done|apply parts_fit_empty].
Qed.
(** A new process on a disk with the dump of [m]. *)
Lemma wp_restarted fs m p ns os e :
  no_oom e → dumped fs (part EArray m) (part EHash m) (part ERbtree m) (part ESkip m) →
  savable m → session_ok m p ns os →
  wp (init_kvengine;; serve (session_lines p ns os)) e (boot_store fs) (λ a _ _, a = session_replies p ns os (values m)).
Proof.
  intros He Hdump [Hsm Hsz Hfit] Hok. wp_step.
  eapply wp_init_dumped; [done|exact Hdump|by apply parts_loadable|exact (Hfit EArray)|rewrite total_parts; lia|].
  intros e1 s1 He1 Hs1. eapply wp_mono; [eapply wp_session_ok; [exact Hs1|done|by apply storable_short|done]|].
  by intros a e2 s2 (-> & _).
Qed.

(** C6: a restart keeps the data: after a session on the four engines that ends with
    non-empty keys and values (at most a megabyte, without NUL: what a dump can hold;
    [rdb_empty_value_lost] is what happens otherwise), and a SAVE on a disk that does not
    fail, a new process on the same disk answers every later session, under any policy
    and in any namespace, as the map the first one ended with. *)
Theorem restart_restores p ns os fs e :
  no_oom e → fs !! RDB_FILENAME = None → session_ok ∅ p ns os →
  let m := final_map ns os ∅ in
  map_Forall storable_pair (values m) → Z.of_nat (length os) ≤ INT_MAX →
  wp (init_kvengine;;
      a ← serve (session_lines p ns os);
      b ← answer "SAVE";
      mret (a, b)) e (boot_store fs) (λ r _ s,
    r = (session_replies p ns os ∅,
         text ("OK: Saved " +:+ pretty (Z.of_nat (size m)) +:+ " keys to dump.rdb" +:+ crlf)) ∧
    ∀ p2 ns2 os2 e2, no_oom e2 → session_ok m p2 ns2 os2 →
      wp (init_kvengine;; serve (session_lines p2 ns2 os2)) e2 (boot_store (files (d_disk (st_data s))))
        (λ a2 _ _, a2 = session_replies p2 ns2 os2 (values m))).
Proof.
  intros He Hfs Hok m Hst Hmax. assert (Hsv : savable m) by (by apply final_savable; [apply Hok..| |]).
  wp_step. apply wp_init_fresh; [done..|]. intros e1 s1 He1 Hs1. apply started_new in Hs1. wp_step.
  eapply wp_mono; [by eapply wp_session_ok|]. intros a e2 s2 (-> & He2 & Hs2). fold m in Hs2. wp_step.
  eapply (wp_answer_save _ (policy_contract (default PLru p)) (Some 0%nat) fs ns m); [exact Hs2|done|apply Hsv..|].
  intros e3 s3 Hdump. wp_step. split; [done|]. intros p2 ns2 os2 e4 He4 Hok2. by eapply wp_restarted.
Qed.

Lemma restart_restores_witness :
  let m := final_map "app" mixed_requests ∅ in
  wp (init_kvengine;;
      a ← serve (session_lines (Some PLfu) "app" mixed_requests);
      b ← answer "SAVE";
      mret (a, b)) (Env [] [] [] [] 0) (boot_store ∅) (λ r _ s,
    r = (session_replies (Some PLfu) "app" mixed_requests ∅,
         text ("OK: Saved " +:+ pretty (Z.of_nat (size m)) +:+ " keys to dump.rdb" +:+ crlf)) ∧
    ∀ p2 ns2 os2 e2, no_oom e2 → session_ok m p2 ns2 os2 →
      wp (init_kvengine;; serve (session_lines p2 ns2 os2)) e2 (boot_store (files (d_disk (st_data s))))
        (λ a2 _ _, a2 = session_replies p2 ns2 os2 (values m))).
Proof.
  intros m. apply (restart_restores (Some PLfu) "app" mixed_requests ∅ (Env [] [] [] [] 0)).
  - constructor.
  - reflexivity.
  - apply mixed_ok.
  - apply (bool_decide_unpack (map_Forall storable_pair (values (final_map "app" mixed_requests ∅)))). vm_compute. exact I.
  - unfold INT_MAX. simpl. lia.
Defined.
