(* ===== verification/Background.v ===== *)
(** [BGSAVE]: the child saves the engines as they were when it was forked, whatever
    the clients change before it has finished. *)
From stdpp Require Import pretty.
From S2P Require Import Prelude CText KvsSpec KvsArray KvsHash RbTree RbEngine SkipList SkipProof CacheModel CacheSpec CacheLru CachePolicies Vector Rdb RdbProof Protocol Requests Dispatch Engines Session.

Local Open Scope Z_scope.






