(* ===== verification/Limits.v ===== *)
(** Where the composition of the parts falls short: requests whose answer is not
    the one the engines hold, and requests that run past the buffers of
    src/common/kvstore.c. *)
From S2P Require Import Prelude CText KvsSpec KvsArray KvsHash RbTree RbEngine SkipList SkipProof CacheModel CacheSpec CacheLru CachePolicies CacheStats Vector Rdb RdbProof Protocol Requests Dispatch Engines Session.

Local Open Scope Z_scope.

Definition run_session (requests : list string) : M store (list reply) :=
  init_kvengine;; serve requests.
(** The answers of a session, or [None] if it reaches undefined behaviour. *)
Definition answers_of (requests : list string) : option (list string) :=
  match run_session requests (Env [] [] [] [] 0) (boot_store ∅) with
  | Ret (a, _, _) => Some (r_text <$> a)
  | _ => None
  end.

(** Tokens that are sendable as they stand, or by hypothesis. *)
Ltac tokens_solve :=
  repeat (apply Forall_cons_2; [split; [first [done|by left]|done]|]); apply Forall_nil_2.

(** * The cache is shared *)

Lemma wp_serve_app l1 l2 e s (Q : list reply → env → store → Prop) :
  wp (serve l1) e s (λ a e' s', wp (serve l2) e' s' (λ b e2 s2, Q (a ++ b) e2 s2)) → wp (serve (l1 ++ l2)) e s Q.
Proof.
  revert e s Q. induction l1 as [|x l1 IH]; intros e s Q H; cbn [serve app] in *; [exact H|].
  apply wp_bind_inv in H. wp_step. eapply wp_mono; [exact H|]. intros a e' s' H'. apply wp_bind_inv in H'.
  wp_step. apply IH. eapply wp_mono; [exact H'|]. intros r e2 s2 H2. eapply wp_mono; [exact H2|]. intros ? ? ? ?. by wp_step.
Qed.
Section crossing.
Context {S : Type} (ops : kv_ops S) `{!KVEngine ops}.
Context (lift : ∀ A, M S A → M store A) `{!EngineSlot lift}.
Context (policy : Z) `{!CacheContract policy} (en : engine_name) (Hen : store_of en = lift_ops lift ops).
Implicit Types (b : budget) (s : store) (w C : gmap string string) (ns k v : string).

(** GET of a pair of the engine leaves the pair in the cache. *)
Lemma wp_get_caches b ns w C k v e s Q :
  st_ns s = PStr ns → kv_rep (sl_get s) w → kv_key_ok (full_key ns k) → no_oom e →
  cache_holds (more 2 b) (st_cache s) C → w !! full_key ns k = Some v →
  (∀ v', C !! full_key ns k = Some v' → v' = v) → Z.of_nat (String.length v) < INT_MAX →
  (∀ e' c C', no_oom e' → cache_holds b c C' → C' !! full_key ns k = Some v → Q (value_reply v) e' (s_set_cache c s)) →
  wp (run_command (store_of en) (OpGet k)) e s Q.
Proof.
  intros Hns Hr Hk He HC Hw HCv Hv HQ. rewrite Hen. rewrite <-(more_more 1 1) in HC. simpl run_command. unfold cmd_get. wp_step.
  eapply wp_actual_key; [done|]. wp_step. apply wp_zoom. eapply wp_mono; [by apply cache_get_law|].
  intros r e' c (-> & HC' & Hm & _). assert (He' : no_oom e') by (unfold no_oom in *; by rewrite Hm).
  destruct (C !! full_key ns k) as [v'|] eqn:HCk.
  - rewrite (HCv v') in * by done. simpl. wp_step. wp_step. unfold say_n. wp_step.
    eapply HQ; [done|by eapply cache_holds_less|done].
  - simpl is_null. cbv iota beta delta [negb]. wp_step. simpl kv_get. apply sl_lift.
    eapply wp_mono; [eapply kv_get_law; [by rewrite sl_get_cache|done]|]. intros p e2 u (-> & -> & ->).
    rewrite sl_get_cache, Hw. simpl ptr_of. simpl is_null. cbv iota. do 3 wp_step. apply wp_zoom.
    assert (Hs : sl_set (sl_get s) (s_set_cache c s) = s_set_cache c s) by by rewrite <-(sl_get_cache c s), sl_set_get.
    rewrite Hs, to_int_len1 by done. simpl st_cache. eapply wp_mono; [by apply cache_add_law|].
    intros _ e3 c3 (He3 & C3 & Hin & _ & Hc3). unfold say_n. wp_step. by eapply HQ.
Qed.
(** GET of a cached key answers from the cache, whatever the engine holds. *)
Lemma wp_get_hit b ns C k v e s Q :
  st_ns s = PStr ns → cache_holds (more 1 b) (st_cache s) C → C !! full_key ns k = Some v → no_oom e →
  (∀ e' c, no_oom e' → cache_holds b c C → Q (value_reply v) e' (s_set_cache c s)) →
  wp (run_command (store_of en) (OpGet k)) e s Q.
Proof.
  intros Hns HC HCk He HQ. rewrite Hen. simpl run_command. unfold cmd_get. wp_step. eapply wp_actual_key; [done|].
  wp_step. apply wp_zoom. eapply wp_mono; [by apply cache_get_law|]. intros r e' c (-> & HC' & Hm & _).
  rewrite HCk. simpl. wp_step. wp_step. unfold say_n. wp_step. apply HQ; [|done]. unfold no_oom in *. by rewrite Hm.
Qed.
Lemma wp_exist_absent ns w k e s Q :
  st_ns s = PStr ns → kv_rep (sl_get s) w → kv_key_ok (full_key ns k) → w !! full_key ns k = None →
  Q (text NO_EXIST_MSG) e s → wp (run_command (store_of en) (OpExist k)) e s Q.
Proof.
  intros Hns Hr Hk Hw HQ. rewrite Hen. simpl run_command. unfold cmd_exist. wp_step. eapply wp_actual_key; [done|].
  wp_step. simpl kv_exist. apply sl_lift. eapply wp_mono; [by eapply kv_exist_law|]. intros r e' u (-> & -> & ->).
  rewrite Hw, sl_set_get. simpl. by apply wp_say.
Qed.
End crossing.

(** The engines by name. *)
Section named.
Context (policy : Z) (HC : CacheContract policy) (ma mh mr ms : gmap string string).
Implicit Types (en : engine_name) (b : budget) (s : store) (C : gmap string string) (ns k v : string).
Definition of_engine en : gmap string string :=
  match en with EArray => ma | EHash => mh | ERbtree => mr | ESkip => ms end.
Lemma wp_engine_get en b ns C k v e s Q :
  st_ns s = PStr ns → ds_rep (st_data s) ma mh mr ms → key_ok en (full_key ns k) → no_oom e →
  cache_holds (more 2 b) (st_cache s) C → of_engine en !! full_key ns k = Some v →
  (∀ v', C !! full_key ns k = Some v' → v' = v) → Z.of_nat (String.length v) < INT_MAX →
  (∀ e' c C', no_oom e' → cache_holds b c C' → C' !! full_key ns k = Some v → Q (value_reply v) e' (s_set_cache c s)) →
  wp (run_command (store_of en) (OpGet k)) e s Q.
Proof.
  intros Hns [Ha Hh Hr Hs] Hk. destruct en.
  - by apply (wp_get_caches array_ops lift_array policy EArray eq_refl).
  - by apply (wp_get_caches rbtree_ops lift_rbtree policy ERbtree eq_refl).
  - by apply (wp_get_caches hash_ops lift_hash policy EHash eq_refl).
  - by apply (wp_get_caches skip_ops lift_skip policy ESkip eq_refl).
Qed.
Lemma wp_engine_hit en b ns C k v e s Q :
  st_ns s = PStr ns → cache_holds (more 1 b) (st_cache s) C → C !! full_key ns k = Some v → no_oom e →
  (∀ e' c, no_oom e' → cache_holds b c C → Q (value_reply v) e' (s_set_cache c s)) →
  wp (run_command (store_of en) (OpGet k)) e s Q.
Proof.
  intros Hns. destruct en.
  - by apply (wp_get_hit array_ops lift_array policy EArray eq_refl).
  - by apply (wp_get_hit rbtree_ops lift_rbtree policy ERbtree eq_refl).
  - by apply (wp_get_hit hash_ops lift_hash policy EHash eq_refl).
  - by apply (wp_get_hit skip_ops lift_skip policy ESkip eq_refl).
Qed.
Lemma wp_engine_absent en ns k e s Q :
  st_ns s = PStr ns → ds_rep (st_data s) ma mh mr ms → key_ok en (full_key ns k) → of_engine en !! full_key ns k = None →
  Q (text NO_EXIST_MSG) e s → wp (run_command (store_of en) (OpExist k)) e s Q.
Proof.
  intros Hns [Ha Hh Hr Hs] Hk. destruct en.
  - by apply (wp_exist_absent array_ops lift_array EArray eq_refl).
  - by apply (wp_exist_absent rbtree_ops lift_rbtree ERbtree eq_refl).
  - by apply (wp_exist_absent hash_ops lift_hash EHash eq_refl).
  - by apply (wp_exist_absent skip_ops lift_skip ESkip eq_refl).
Qed.
End named.
Lemma of_engine_part m en : of_engine (part EArray m) (part EHash m) (part ERbtree m) (part ESkip m) en = part en m.
Proof. by destruct en. Qed.
Lemma wp_answer_command en o e s Q :
  tokens_ok (op_tokens en o) → wp (run_command (store_of en) o) e s (λ a e' s', 0 ≤ r_length a ∧ Q a e' s') →
  wp (answer (op_line en o)) e s Q.
Proof.
  intros Ht H. apply wp_answer; [done|by destruct o|destruct o; unfold KVS_MAX_TOKENS; simpl; lia|]. by rewrite filter_op.
Qed.

(** A key of one engine, asked of it and then of another one. *)
Definition crossing (en en' : engine_name) k : list string :=
  [op_line en (OpGet k); op_line en' (OpExist k); op_line en' (OpGet k)].
Lemma wp_crossing policy HC b fs ch ns m k v en en' e s :
  holding policy HC (more 3 b) fs ch ns m s → no_oom e → m !! full_key ns k = Some (en, v) → en' ≠ en →
  Z.of_nat (String.length v) < INT_MAX → key_ok en (full_key ns k) → key_ok en' (full_key ns k) → sendable k → one_line k →
  wp (serve (crossing en en' k)) e s (λ a _ _, a = [value_reply v; text NO_EXIST_MSG; value_reply v]).
Proof.
  intros [Hd _ (C & HC1 & HCm) Hns _] He Hm Hne Hv Hk Hk' Hs1 Hs2. unfold crossing. cbn [serve].
  assert (Hts : ∀ en, tokens_ok (op_tokens en (OpGet k)) ∧ tokens_ok (op_tokens en (OpExist k))) by (intros []; split; tokens_solve).
  rewrite <-(more_more 2 1) in HC1.
  wp_step. apply wp_answer_command; [apply Hts|]. eapply (wp_engine_get policy HC _ _ _ _ en (more 1 b)); [done|done|done|done|exact HC1| | |done|].
  - rewrite of_engine_part, part_lookup, Hm. simpl. by rewrite decide_True.
  - intros v' Hv'. pose proof (lookup_weaken _ _ _ _ Hv' HCm) as H. rewrite values_lookup, Hm in H. by injection H.
  - intros e1 c C' He1 HC' HCk. split; [simpl; lia|]. do 2 wp_step. apply wp_answer_command; [apply Hts|].
    eapply (wp_engine_absent _ _ _ _ en'); [done|exact Hd|done| |split; [apply text_length|]].
    { rewrite of_engine_part, part_lookup, Hm. simpl. by rewrite decide_False. }
    do 2 wp_step. apply wp_answer_command; [apply Hts|]. eapply (wp_engine_hit policy HC); [done|exact HC'|exact HCk|done|].
    intros e2 c2 _ _. split; [simpl; lia|]. repeat wp_step. done.
Qed.
(** C37: the engines share the cache under one key.  Whatever a client has done, whatever
    the policy: once a key has been asked of the engine that holds it, a GET of the key on
    another engine answers the value, although that engine says the key does not exist. *)
Theorem cache_crosses_engines p ns os k v en en' fs e :
  no_oom e → fs !! RDB_FILENAME = None → session_ok ∅ p ns os → 2 * Z.of_nat (length os) + 3 < INT_MAX →
  final_map ns os ∅ !! full_key ns k = Some (en, v) → en' ≠ en →
  sendable k → one_line k → key_ok en' (full_key ns k) →
  wp (init_kvengine;; serve (session_lines p ns os ++ crossing en en' k)) e (boot_store fs) (λ a _ _,
    a = session_replies p ns os ∅ ++ [value_reply v; text NO_EXIST_MSG; value_reply v]).
Proof.
  intros He Hfs [Hts Hlen Hne Hos Hal _] Hb Hm Hen Hs1 Hs2 Hk. wp_step. apply wp_init_fresh; [done..|].
  intros e1 s1 He1 Hs. apply started_new in Hs.
  assert (Hp : map_Forall (λ k x, Z.of_nat (String.length x.2) < INT_MAX ∧ key_ok x.1 k) (final_map ns os ∅)).
  { apply final_map_forall; [done| |done]. eapply Forall_impl; [exact Hos|]. intros [en0 o] [[_ Hw] Hko]. by destruct o. }
  destruct (Hp _ _ Hm) as [Hv Hken].
  apply wp_serve_app. eapply wp_mono; [apply (wp_policy_session (more 3 (Some 0%nat)) fs ∅ p ns os); try done|].
  { destruct p as [[]|]; simpl; lia. }
  intros a e2 s2 (-> & He2 & Hh). eapply wp_mono;
    [by eapply (wp_crossing (policy_code (default PLru p)) (policy_contract (default PLru p)) (Some 0%nat) fs []); [exact Hh|..]|]. by intros ? e3 s3 ->.
Qed.
Lemma cache_crosses_engines_witness :
  session_lines (Some PLfu) "app" [(EArray, OpSet "k" "1")] ++ crossing EArray EHash "k" =
    ["POLICY SET lfu"; "NS app"; "SET k 1"; "GET k"; "HEXIST k"; "HGET k"] ∧
  wp (init_kvengine;; serve (session_lines (Some PLfu) "app" [(EArray, OpSet "k" "1")] ++ crossing EArray EHash "k"))
    (Env [] [] [] [] 0) (boot_store ∅) (λ a _ _, a =
    [text ("Policy set to LFU" +:+ crlf); text ("Namespace set to: app" +:+ crlf); text OK_MSG; value_reply "1"; text NO_EXIST_MSG; value_reply "1"]).
Proof.
  split; [reflexivity|]. apply (cache_crosses_engines (Some PLfu) "app" [(EArray, OpSet "k" "1")] "k" "1" EArray EHash ∅).
  - constructor.
  - reflexivity.
  - split; [by repeat constructor|simpl; lia|discriminate| |vm_compute; reflexivity|discriminate].
    apply Forall_cons_2; [req_solve|apply Forall_nil_2].
  - unfold INT_MAX. simpl. lia.
  - vm_compute. reflexivity.
  - discriminate.
  - by left.
  - split; reflexivity.
  - vm_compute. intuition discriminate.
Defined.

(** A modification under another policy leaves the old value in the first
    policy's list, and the switch back serves it again. *)
Theorem policy_switch_stale :
  answers_of ["SET k 1"; "GET k"; "POLICY SET lfu"; "MOD k 2"; "GET k"; "POLICY SET lru"; "GET k"] =
    Some [OK_MSG; "1" +:+ crlf; "Policy set to LFU" +:+ crlf; OK_MSG; "2" +:+ crlf;
          "Policy set to LRU" +:+ crlf; "1" +:+ crlf].
Proof. vm_compute. reflexivity. Qed.

(** * Policies *)

Lemma wp_answer_exact ts e s :
  tokens_ok ts → ts ≠ [] → (length ts ≤ KVS_MAX_TOKENS)%nat →
  answer (render_line ts) e s =
    (result ← kvs_filter_protocol ts;
     if (r_length result <? 0) then say ERROR_MSG else mret result) e s.
Proof.
  intros Hts Hne Hlen. unfold answer, kvs_protocol. destruct ts as [|t ts]; [done|].
  pose proof (length_render_line (t :: ts)) as Hl. simpl length in Hl.
  rewrite (proj2 (Z.leb_gt _ _)) by lia. rewrite Nat2Z.id, strip_id by by apply one_line_render.
  unfold kvs_split_token. rewrite split_render; [done| |simpl in *; lia|done].
  eapply Forall_impl; [exact Hts|]. by intros ? [].
Qed.

(** The answer to a policy the dispatcher does not know. *)
Definition unknown_policy (t : string) : string := "Unknown policy: " +:+ t +:+ " (use lru|lfu|arc)" +:+ crlf.
Lemma policy_unknown t e s :
  sendable t → one_line t → t ≠ "lru" → t ≠ "lfu" → t ≠ "arc" →
  answer (render_line ["POLICY"; "SET"; t]) e s = say (unknown_policy t) e s.
Proof.
  intros Ht Hl H1 H2 H3. rewrite wp_answer_exact; [|tokens_solve|done|unfold KVS_MAX_TOKENS; simpl; lia].
  assert (Hf : kvs_filter_protocol ["POLICY"; "SET"; t] = cmd_policy ["POLICY"; "SET"; t]) by reflexivity.
  assert (Hc : cmd_policy ["POLICY"; "SET"; t] = (λ e s, say (unknown_policy t) e s)).
  { change (cmd_policy ["POLICY"; "SET"; t]) with
      (if (strcmp t "lru" =? 0) then
         in_cache (kvs_cache_set_policy EVICT_LRU);; say ("Policy set to LRU" +:+ crlf)
       else if (strcmp t "lfu" =? 0) then
         in_cache (kvs_cache_set_policy EVICT_LFU);; say ("Policy set to LFU" +:+ crlf)
       else if (strcmp t "arc" =? 0) then
         in_cache (kvs_cache_set_policy EVICT_ARC);; say ("Policy set to ARC" +:+ crlf)
       else say (unknown_policy t)).
    rewrite !strcmp_eqb. apply String.eqb_neq in H1, H2, H3. by rewrite H1, H2, H3. }
  rewrite Hf, Hc. unfold mbind, M_bind, say. case_decide as Hd; [|done]. cbn [mret M_ret].
  change (r_length {| r_text := unknown_policy t; r_length := ?z |}) with z.
  by rewrite (proj2 (Z.ltb_ge _ _)) by lia.
Qed.

(** The command the advice prints is refused: RECOMMEND ends in "POLICY SET"
    with the policy's name in capitals, which POLICY does not know; nothing
    changes. *)
Theorem advice_refused policy e s :
  In policy [EVICT_LRU; EVICT_LFU; EVICT_ARC] →
  answer (render_line ["POLICY"; "SET"; kvs_cache_policy_name policy]) e s =
    Ret (text (unknown_policy (kvs_cache_policy_name policy)), e, s).
Proof.
  intros [<-|[<-|[<-|[]]]]; rewrite policy_unknown; try done; by left.
Qed.
Lemma advice_refused_witness :
  answer "POLICY SET LFU" (Env [] [] [] [] 0) (boot_store ∅) =
    Ret (text (unknown_policy "LFU"), Env [] [] [] [] 0, boot_store ∅).
Proof. apply (advice_refused EVICT_LFU). right. by left. Defined.

(** C36: POLICY SET with a name that is no policy and has 988 bytes or more, which fits in
    a request of 1023 bytes, is printed past the end of the 1024-byte response, whatever
    the state of the server. *)
Theorem policy_name_overflows t e s :
  plain t = true → one_line t → (988 ≤ String.length t)%nat →
  answer (render_line ["POLICY"; "SET"; t]) e s = UB.
Proof.
  intros Hp Hl Hlen.
  assert (Hne : ∀ u, (String.length u < 988)%nat → t ≠ u) by (intros u Hu ->; lia).
  rewrite policy_unknown by (first [by left|done|apply Hne; simpl; lia]).
  unfold say. rewrite decide_False; [done|]. unfold unknown_policy. rewrite !str_len_app.
  unfold RESPONSE_MAX_LEN. simpl. lia.
Qed.
Definition long_name : string := zeros 1000.
Lemma policy_name_overflows_witness :
  String.length (render_line ["POLICY"; "SET"; long_name]) = 1011%nat ∧
  answer (render_line ["POLICY"; "SET"; long_name]) (Env [] [] [] [] 0) (boot_store ∅) = UB.
Proof.
  split; [vm_compute; reflexivity|].
  apply policy_name_overflows; [vm_compute; reflexivity|split; vm_compute; reflexivity|vm_compute; lia].
Defined.

(** * Missing keys *)

(** In a named namespace a request without a key formats a null pointer. *)
Theorem missing_key_formats_null en ns e s :
  st_ns s = PStr ns → named ns → answer (render_line [prefix_of en +:+ "GET"]) e s = UB.
Proof.
  intros Hns [H1 H2]. rewrite wp_answer_exact; [|destruct en; tokens_solve|done|unfold KVS_MAX_TOKENS; simpl; lia].
  assert (Hf : kvs_filter_protocol [prefix_of en +:+ "GET"] = cmd_get (store_of en) PNull) by (by destruct en).
  rewrite Hf. unfold cmd_get, actual_key, make_namespaced_key, mbind, M_bind, gets.
  rewrite Hns. cbn. rewrite strcmp_eqb. apply String.eqb_neq in H1, H2. by rewrite H1, H2.
Qed.
Lemma missing_key_formats_null_witness :
  answer "HGET" (Env [] [] [] [] 0) (s_set_ns (PStr "users") (boot_store ∅)) = UB.
Proof. apply (missing_key_formats_null EHash "users"); [reflexivity|split; discriminate]. Defined.
