(* ===== verification/Netio.v ===== *)
(** What the three network loops share (src/network/reactor.c, proactor.c,
    ntyco.c, include/server.h): byte arrays, the message handler they are started
    with, and [kvs_protocol] (src/common/kvstore.c) as that handler, with what it
    leaves in the array of the request.

    A byte array is the string of all its bytes, NULs included; a text in it ends
    at the first NUL. *)
From S2P Require Import Prelude CText KvsSpec Rdb RdbProof Protocol Requests.

Local Open Scope Z_scope.

(** * Byte arrays *)

Definition BUFFER_LENGTH : Z := 1024.
Definition NUL : Ascii.ascii := Ascii.zero.

(** [memset(buf, 0, n)]. *)
Fixpoint nuls (n : nat) : string :=
  match n with O => "" | S n' => String NUL (nuls n') end.
Definition zero_buffer : string := nuls (Z.to_nat BUFFER_LENGTH).
(** Writing bytes at the front of an array. *)
Definition overwrite (data buf : string) : string := data +:+ str_drop (String.length data) buf.
(** The text at the front of an array; [None] when no NUL ends it inside the array. *)
Fixpoint c_text (buf : string) : option string :=
  match buf with
  | EmptyString => None
  | String c buf' => if Ascii.eqb c NUL then Some "" else String c <$> c_text buf'
  end.

(** * The message handler *)

(** [typedef msg_handler], a function of [(msg, length, response, namespace)]:
    it gets the array of the request, and may write to it, to the response and
    through the namespace. *)
Record handled := Handled { h_msg : string; h_reply : reply; h_ns : cptr }.
Definition msg_handler (St : Type) : Type := string → Z → cptr → M St handled.

(** The response array after the handler: the text with its NUL; a negative
    length means that nothing was written. *)
Definition write_reply (r : reply) (buf : string) : string :=
  if (r_length r <? 0) then buf else overwrite (r_text r +:+ String NUL "") buf.

(** * The tokenizer on the array *)

(** From [p] to [stop] or to the NUL: the token, the bytes passed, with [stop]
    overwritten by a NUL, and the bytes from the new [p] on. *)
Fixpoint scan (stop : Ascii.ascii) (p : string) : option (string * string * string) :=
  match p with
  | EmptyString => None
  | String c p' =>
      if Ascii.eqb c NUL then Some ("", "", p)
      else if Ascii.eqb c stop then Some ("", String NUL "", p')
      else match scan stop p' with
           | Some (t, w, r) => Some (String c t, String c w, r)
           | None => None
           end
  end.
Fixpoint span_spaces (p : string) : string * string :=
  match p with
  | String c p' =>
      if Ascii.eqb c space then let '(sp, q) := span_spaces p' in (String c sp, q) else ("", p)
  | EmptyString => ("", "")
  end.
(** [kvs_split_token] on the array: the tokens and the array it leaves; [None]
    when a scan leaves the array (or the fuel, one unit per byte, runs out). *)
Fixpoint split_array (fuel room : nat) (p : string) : option (list string * string) :=
  match fuel with
  | O => None
  | S fuel' =>
      let '(sp, q) := span_spaces p in
      match q with
      | EmptyString => None
      | String c q' =>
          if Ascii.eqb c NUL then Some ([], p) else
          match (if Ascii.eqb c quote
                 then match scan quote q' with
                      | Some (t, w, r) => Some (t, String quote w, r)
                      | None => None
                      end
                 else scan space q) with
          | None => None
          | Some (t, w, r) =>
              match room with
              | O | S O => Some ([t], sp +:+ w +:+ r)
              | S room' =>
                  match split_array fuel' room' r with
                  | Some (ts, r') => Some (t :: ts, sp +:+ w +:+ r')
                  | None => None
                  end
              end
          end
      end
  end.

(** [kvs_protocol] as the handler: it reads the text of the array; line ends
    become spaces and token ends become NULs in place.  A request without a NUL in
    its array is read past its end. *)
Definition kvs_handler : msg_handler store := λ msg length ns,
  match c_text msg, split_array (S (String.length msg)) KVS_MAX_TOKENS (strip_newlines (Z.to_nat length) msg) with
  | Some m, Some (_, msg') =>
      modify (s_set_ns ns);;
      r ← kvs_protocol (Some m) length;
      ns' ← gets st_ns;
      mret (Handled msg' r ns')
  | _, _ => ub
  end.

(** * Lemmas on arrays *)

Lemma str_cons_app c (s t : string) : String c s +:+ t = String c (s +:+ t).
Proof. done. Qed.
Lemma nuls_length n : String.length (nuls n) = n.
Proof. induction n as [|n IH]; [done|]. simpl. by rewrite IH. Qed.
Lemma zero_buffer_length : Z.of_nat (String.length zero_buffer) = BUFFER_LENGTH.
Proof. unfold zero_buffer. rewrite nuls_length. done. Qed.
Lemma str_drop_length n s : String.length (str_drop n s) = (String.length s - n)%nat.
Proof. revert s. induction n as [|n IH]; intros [|c s]; simpl; [lia..|]. apply IH. Qed.
Lemma str_drop_drop n m t : str_drop n (str_drop m t) = str_drop (m + n) t.
Proof. revert t. induction m as [|m IH]; intros t; [done|]. destruct t as [|c t]; simpl; [by destruct n|]. apply IH. Qed.
Lemma str_take_drop n s : str_take n s +:+ str_drop n s = s.
Proof.
  revert s. induction n as [|n IH]; intros [|c s]; try done. simpl. rewrite str_cons_app. by rewrite IH.
Qed.
Lemma overwrite_length data buf :
  (String.length data ≤ String.length buf)%nat → String.length (overwrite data buf) = String.length buf.
Proof. intros H. unfold overwrite. rewrite str_len_app, str_drop_length. lia. Qed.
Lemma str_take_app_le n s t : (n ≤ String.length s)%nat → str_take n (s +:+ t) = str_take n s.
Proof.
  revert s. induction n as [|n IH]; intros s Hn; [by destruct s|]. destruct s as [|c s]; simpl in Hn; [lia|].
  rewrite str_cons_app. simpl. rewrite IH; [done|lia].
Qed.
Lemma str_take_overwrite n data buf :
  (n ≤ String.length data)%nat → str_take n (overwrite data buf) = str_take n data.
Proof. apply str_take_app_le. Qed.
Lemma str_take_len n s : (n ≤ String.length s)%nat → String.length (str_take n s) = n.
Proof.
  revert s. induction n as [|n IH]; intros [|c s] Hn; simpl in *; try lia. rewrite IH; lia.
Qed.
Lemma str_take_take_min n m k s :
  (k = Nat.min n m)%nat → str_take n (str_take m s) = str_take k s.
Proof.
  intros ->. revert m s. induction n as [|n IH]; intros [|m] [|c s]; try done. simpl. by rewrite IH.
Qed.
Lemma str_take_ge n t : (String.length t ≤ n)%nat → str_take n t = t.
Proof. revert t. induction n as [|n IH]; intros [|c t] H; simpl in *; try done; try lia. f_equal. apply IH. lia. Qed.
Lemma nuls_app n m : nuls (n + m) = nuls n +:+ nuls m.
Proof. induction n as [|n IH]; [done|]. simpl. by rewrite IH, str_cons_app. Qed.
Lemma str_drop_nuls k n : str_drop k (nuls n) = nuls (n - k).
Proof. revert n. induction k as [|k IH]; intros [|n]; try done. simpl. apply IH. Qed.

Lemma c_text_app m tail : has NUL m = false → c_text (m +:+ String NUL tail) = Some m.
Proof.
  induction m as [|c m IH]; intros Hm; [done|]. simpl in Hm. apply orb_false_iff in Hm as [Hc Hm].
  rewrite str_cons_app. simpl. by rewrite Hc, IH.
Qed.
Lemma c_text_inv buf m :
  c_text buf = Some m → has NUL m = false ∧ ∃ tail, buf = m +:+ String NUL tail.
Proof.
  revert m. induction buf as [|c buf IH]; intros m; [done|]. simpl.
  destruct (Ascii.eqb c NUL) eqn:Hc.
  - intros [= <-]. apply Ascii.eqb_eq in Hc as ->. split; [done|]. by exists buf.
  - destruct (c_text buf) as [m'|]; [|done]. intros [= <-]. destruct (IH m' eq_refl) as [Hm [tail ->]].
    split; [simpl; by rewrite Hc|]. by exists tail.
Qed.
(** Bytes received into a cleared array, one byte short of it. *)
Lemma c_text_received d n :
  has NUL d = false → (String.length d < n)%nat → c_text (overwrite d (nuls n)) = Some d.
Proof.
  intros Hd Hn. unfold overwrite. rewrite str_drop_nuls.
  destruct (n - String.length d)%nat as [|k] eqn:Hk; [lia|]. by apply c_text_app.
Qed.

(** * The two tokenizers agree *)

Lemma scan_until stop m tail :
  has NUL m = false → Ascii.eqb stop NUL = false →
  ∃ w r, scan stop (m +:+ String NUL tail) = Some ((until stop m).1, w, r +:+ String NUL tail) ∧
    (until stop m).2 = r ∧ String.length (w +:+ r) = String.length m.
Proof.
  intros Hm Hs. induction m as [|c m IH]; [by exists "", ""|].
  simpl in Hm. apply orb_false_iff in Hm as [Hc Hm]. rewrite str_cons_app. simpl. rewrite Hc.
  destruct (Ascii.eqb c stop); [by exists (String NUL ""), m|].
  destruct (IH Hm) as (w & r & -> & Hr & Hl). destruct (until stop m) as [t r']. simpl in *.
  exists (String c w), r. split_and!; [done|done|]. rewrite str_cons_app. simpl. by rewrite Hl.
Qed.
Lemma has_until stop c m : has c m = false → has c (until stop m).2 = false.
Proof.
  induction m as [|a m IH]; intros Hm; [done|]. simpl in *. apply orb_false_iff in Hm as [Ha Hm].
  destruct (Ascii.eqb a stop); [done|]. specialize (IH Hm). by destruct (until stop m).
Qed.
Lemma span_spaces_skip m tail :
  ∃ sp, span_spaces (m +:+ String NUL tail) = (sp, skip_spaces m +:+ String NUL tail) ∧
    m = sp +:+ skip_spaces m.
Proof.
  induction m as [|c m IH]; [by exists ""|]. rewrite str_cons_app. simpl.
  destruct (Ascii.eqb c space); [|by exists ""]. destruct IH as (sp & -> & Hm).
  exists (String c sp). split; [done|]. rewrite str_cons_app. by f_equal.
Qed.
Lemma has_app_r c s t : has c (s +:+ t) = false → has c t = false.
Proof. rewrite has_app. by intros [_ ?]%orb_false_iff. Qed.

Lemma split_array_split fuel room m tail :
  has NUL m = false → (String.length m < fuel)%nat →
  ∃ w, split_array fuel room (m +:+ String NUL tail) = Some (split_from fuel room m, w +:+ String NUL tail) ∧
    String.length w = String.length m.
Proof.
  revert room m. induction fuel as [|fuel IH]; intros room m Hm Hf; [lia|]. cbn [split_array split_from].
  destruct (span_spaces_skip m tail) as (sp & -> & Hsp).
  assert (Hq : has NUL (skip_spaces m) = false) by (rewrite Hsp in Hm; by apply has_app_r in Hm).
  assert (Hl : String.length m = (String.length sp + String.length (skip_spaces m))%nat)
    by (rewrite Hsp at 1; apply str_len_app).
  destruct (skip_spaces m) as [|c q] eqn:Hskip; [by exists m|]. rewrite str_cons_app.
  simpl in Hq. apply orb_false_iff in Hq as [Hc Hq]. rewrite Hc. simpl String.length in Hl.
  assert (Hstop : ∃ t w r, (if Ascii.eqb c quote
      then match scan quote (q +:+ String NUL tail) with
           | Some (t, w, r) => Some (t, String quote w, r) | None => None end
      else scan space (String c (q +:+ String NUL tail))) = Some (t, w, r +:+ String NUL tail) ∧
    (if Ascii.eqb c quote then until quote q else until space (String c q)) = (t, r) ∧
    has NUL r = false ∧ String.length (w +:+ r) = S (String.length q) ∧ (String.length r < fuel)%nat).
  { destruct (Ascii.eqb c quote) eqn:Hcq.
    - destruct (scan_until quote q tail Hq eq_refl) as (w & r & -> & Hr & Hlen).
      pose proof (has_until quote NUL q Hq) as Hn. pose proof (until_length quote q) as Hu.
      destruct (until quote q) as [t r']. simpl in *. subst r'.
      exists t, (String quote w), r. split_and!; [done..| |lia]. rewrite str_cons_app. simpl. by rewrite Hlen.
    - assert (Hcs : Ascii.eqb c space = false).
      { clear -Hskip. induction m as [|a m IH]; [done|]. simpl in Hskip.
        destruct (Ascii.eqb a space) eqn:Ha; [auto|]. congruence. }
      assert (Hcq' : has NUL (String c q) = false) by (simpl; by rewrite Hc).
      destruct (scan_until space (String c q) tail Hcq' eq_refl) as (w & r & Hscan & Hr & Hlen).
      rewrite str_cons_app in Hscan. rewrite Hscan.
      pose proof (has_until space NUL _ Hcq') as Hn.
      assert (Hu : (String.length (until space (String c q)).2 ≤ String.length q)%nat).
      { simpl. rewrite Hcs. pose proof (until_length space q). destruct (until space q). simpl in *. lia. }
      destruct (until space (String c q)) as [t r']. simpl in Hr, Hn, Hu. subst r'.
      exists t, w, r. split_and!; [done|done|done|exact Hlen|lia]. }
  destruct Hstop as (t & w & r & -> & -> & Hn & Hlen & Hr). rewrite str_len_app in Hlen.
  destruct room as [|[|room]].
  - exists (sp +:+ w +:+ r). rewrite <-!str_app_assoc. split; [done|]. rewrite !str_len_app. lia.
  - exists (sp +:+ w +:+ r). rewrite <-!str_app_assoc. split; [done|]. rewrite !str_len_app. lia.
  - destruct (IH (S room) r Hn Hr) as (w' & -> & Hw'). exists (sp +:+ w +:+ w').
    rewrite <-!str_app_assoc. split; [done|]. rewrite !str_len_app. lia.
Qed.

(** Replacing line ends keeps the NULs where they are. *)
Lemma strip_array n m tail :
  ∃ tail', strip_newlines n (m +:+ String NUL tail) = strip_newlines n m +:+ String NUL tail' ∧
    String.length tail' = String.length tail ∧ ((n ≤ String.length m)%nat → tail' = tail).
Proof.
  assert (Hlen : ∀ k s, String.length (strip_newlines k s) = String.length s).
  { induction k as [|k IH]; intros [|c s]; try done. simpl. by rewrite IH. }
  revert n. induction m as [|c m IH]; intros [|n]; try by exists tail.
  - exists (strip_newlines n tail). split_and!; [done|apply Hlen|simpl; lia].
  - rewrite str_cons_app. simpl. destruct (IH n) as (t' & -> & Hl & Ht). exists t'.
    split_and!; [done..|]. intros ?. apply Ht. lia.
Qed.
Lemma strip_length n s : String.length (strip_newlines n s) = String.length s.
Proof. revert s. induction n as [|n IH]; intros [|c s]; try done. simpl. by rewrite IH. Qed.
Lemma has_strip n m : has NUL m = false → has NUL (strip_newlines n m) = false.
Proof.
  revert m. induction n as [|n IH]; intros [|c m]; try done. simpl. intros [Hc Hm]%orb_false_iff.
  rewrite IH by done. by destruct (Ascii.eqb c CR || Ascii.eqb c LF); rewrite ?Hc.
Qed.

(** Fuel for every byte is enough. *)
Lemma split_from_fuel f1 f2 room p :
  (String.length p < f1)%nat → (String.length p < f2)%nat → split_from f1 room p = split_from f2 room p.
Proof.
  revert f2 room p. induction f1 as [|f1 IH]; intros [|f2] room p H1 H2; try lia. cbn [split_from].
  pose proof (skip_spaces_length p) as Hl. destruct (skip_spaces p) as [|c q] eqn:Hskip; [done|].
  assert (Hcs : Ascii.eqb c space = false).
  { clear -Hskip. induction p as [|a p IH]; [done|]. simpl in Hskip.
    destruct (Ascii.eqb a space) eqn:Ha; [auto|]. congruence. }
  simpl in Hl. destruct (Ascii.eqb c quote).
  - pose proof (until_length quote q). destruct (until quote q) as [t r]. simpl in *.
    destruct room as [|[|room]]; [done..|]. f_equal. apply IH; lia.
  - simpl. rewrite Hcs. pose proof (until_length space q). destruct (until space q) as [t r]. simpl in *.
    destruct room as [|[|room]]; [done..|]. f_equal. apply IH; lia.
Qed.

(** What the handler does to its array. *)
Lemma split_in_place n m tail fuel :
  has NUL m = false → (String.length m < fuel)%nat →
  ∃ w tail', split_array fuel KVS_MAX_TOKENS (strip_newlines n (m +:+ String NUL tail)) =
      Some (kvs_split_token (strip_newlines n m), w +:+ String NUL tail') ∧
    String.length w = String.length m ∧ String.length tail' = String.length tail ∧
    ((n ≤ String.length m)%nat → tail' = tail).
Proof.
  intros Hm Hf. destruct (strip_array n m tail) as (t' & -> & Hl & Ht).
  destruct (split_array_split fuel KVS_MAX_TOKENS (strip_newlines n m) t') as (w & -> & Hw);
    [by apply has_strip|by rewrite strip_length|].
  exists w, t'. rewrite strip_length in Hw. split_and!; [|done..].
  f_equal. f_equal. apply split_from_fuel; rewrite strip_length; lia.
Qed.

(** C28: the tokenizer works in place: on any array whose text ends inside it, no
    scan leaves the array, it finds the tokens of the text, and it leaves an array
    of the same size in which only bytes of the text have changed. *)
Theorem tokenizer_in_place n m tail :
  has NUL m = false → (n ≤ String.length m)%nat →
  ∃ w, split_array (S (String.length (m +:+ String NUL tail))) KVS_MAX_TOKENS
      (strip_newlines n (m +:+ String NUL tail)) =
    Some (kvs_split_token (strip_newlines n m), w +:+ String NUL tail) ∧
    String.length w = String.length m.
Proof.
  intros Hm Hn. destruct (split_in_place n m tail (S (String.length (m +:+ String NUL tail))))
    as (w & t' & Hs & Hw & _ & Ht); [done|rewrite str_len_app; lia|].
  exists w. by rewrite Hs, Ht.
Qed.
Lemma tokenizer_in_place_witness :
  split_array 20 KVS_MAX_TOKENS (strip_newlines 7 ("GET abc" +:+ String NUL "hello")) =
    Some (["GET"; "abc"], "GET" +:+ String NUL "abc" +:+ String NUL "hello") ∧
  ∃ w, split_array (S (String.length ("GET abc" +:+ String NUL "hello"))) KVS_MAX_TOKENS
      (strip_newlines 7 ("GET abc" +:+ String NUL "hello")) =
    Some (kvs_split_token (strip_newlines 7 "GET abc"), w +:+ String NUL "hello") ∧
    String.length w = 7%nat.
Proof. split; [reflexivity|]. apply (tokenizer_in_place 7 "GET abc" "hello"); [reflexivity|simpl; lia]. Defined.

(** The handler on a text that ends inside its array. *)
Lemma wp_kvs_handler m tail len ns e s Q :
  has NUL m = false →
  wp (kvs_protocol (Some m) len) e (s_set_ns ns s) (λ r e' s', ∀ w tail',
    String.length w = String.length m → String.length tail' = String.length tail →
    (len ≤ Z.of_nat (String.length m) → tail' = tail) →
    Q (Handled (w +:+ String NUL tail') r (st_ns s')) e' s') →
  wp (kvs_handler (m +:+ String NUL tail) len ns) e s Q.
Proof.
  intros Hm H. unfold kvs_handler. rewrite c_text_app by done.
  destruct (split_in_place (Z.to_nat len) m tail (S (String.length (m +:+ String NUL tail))))
    as (w & t' & -> & Hw & Hl & Ht); [done|rewrite str_len_app; lia|].
  wp_step. wp_step. wp_step. eapply wp_mono; [exact H|]. intros r e' s' HQ. wp_step. wp_step. wp_step.
  apply HQ; [done..|]. intros ?. apply Ht. lia.
Qed.
