(* ===== verification/Reactor.v ===== *)
(** The event loop of the default server: src/network/reactor.c with
    include/server.h ([struct conn]).

    The kernel is the state the program changes through system calls (open
    descriptors, the interest list of epoll, the bytes handed to [send]) and the
    answers it gives: every event of [epoll_wait] comes with the results of the
    calls made while it is handled.  Indexing [conn_list] out of range, a null
    callback, and sending bytes that are not in the write buffer are undefined
    behaviour. *)
From S2P Require Import Prelude CText KvsSpec Rdb Protocol Netio.

Local Open Scope Z_scope.

Definition CONNECTION_SIZE : nat := 1024.
Definition MAX_PORTS : nat := 20.
Definition EPOLLIN : Z := 1.
Definition EPOLLOUT : Z := 4.

(** * Connections *)

Inductive callback : Type := Accept_cb | Recv_cb | Send_cb.

(** [struct conn]; the fields of the disabled protocols ([status], [payload],
    [mask]) are never used.  [r_action] is a union of one function pointer. *)
Record conn := Conn {
  c_fd : Z;
  c_rbuffer : string;
  c_rlength : Z;
  c_wbuffer : string;
  c_wlength : Z;
  c_send_callback : option callback;
  c_r_action : option callback;
  c_namespace : string
}.
Definition zero_conn : conn := Conn 0 zero_buffer 0 zero_buffer 0 None None "".
Definition conn_set_r (buf : string) (len : Z) (c : conn) : conn :=
  Conn (c_fd c) buf len (c_wbuffer c) (c_wlength c) (c_send_callback c) (c_r_action c) (c_namespace c).
Definition conn_set_w (buf : string) (len : Z) (c : conn) : conn :=
  Conn (c_fd c) (c_rbuffer c) (c_rlength c) buf len (c_send_callback c) (c_r_action c) (c_namespace c).
Definition conn_set_ns (ns : string) (c : conn) : conn :=
  Conn (c_fd c) (c_rbuffer c) (c_rlength c) (c_wbuffer c) (c_wlength c) (c_send_callback c) (c_r_action c) ns.
Definition conn_set_listen (fd : Z) (c : conn) : conn :=
  Conn fd (c_rbuffer c) (c_rlength c) (c_wbuffer c) (c_wlength c) (c_send_callback c) (Some Accept_cb) (c_namespace c).

(** * The kernel *)

(** Open descriptors, the interest list, the port of every listening socket
    ([None]: the kernel chose it), and every [send] in order. *)
Record kernel := Kernel {
  k_open : gset Z;
  k_interest : gmap Z Z;
  k_listen : gmap Z (option Z);
  k_sent : list (Z * string)
}.
Definition k_set_interest i k := Kernel (k_open k) i (k_listen k) (k_sent k).
Definition k_add_sent x k := Kernel (k_open k) (k_interest k) (k_listen k) (k_sent k ++ [x]).

(** [epoll_ctl]: adding a descriptor that is there, or changing or removing one
    that is not, fails and changes nothing. *)
Inductive epoll_op : Type := EPOLL_CTL_ADD | EPOLL_CTL_MOD | EPOLL_CTL_DEL.
Definition epoll_ctl (op : epoll_op) (fd event : Z) (k : kernel) : kernel :=
  if decide (fd ∈ k_open k) then
    match op, k_interest k !! fd with
    | EPOLL_CTL_ADD, None => k_set_interest (<[fd := event]> (k_interest k)) k
    | EPOLL_CTL_MOD, Some _ => k_set_interest (<[fd := event]> (k_interest k)) k
    | EPOLL_CTL_DEL, Some _ => k_set_interest (delete fd (k_interest k)) k
    | _, _ => k
    end
  else k.
Definition k_opened (fd : Z) (k : kernel) : kernel :=
  Kernel ({[ fd ]} ∪ k_open k) (k_interest k) (k_listen k) (k_sent k).
(** [close] also takes the descriptor off the interest list. *)
Definition k_closed (fd : Z) (k : kernel) : kernel :=
  Kernel (k_open k ∖ {[ fd ]}) (delete fd (k_interest k)) (delete fd (k_listen k)) (k_sent k).

(** The answers to the calls of one event: the descriptor [accept] returns, the
    bytes [recv] has ([None]: it fails), the number of bytes [send] takes
    (negative: it fails), the reading of [gettimeofday] in milliseconds. *)
Record answers := Answers {
  a_accept : Z;
  a_recv : option string;
  a_send : Z;
  a_time : Z
}.

(** * The server *)

Record server (St : Type) := Server {
  sv_app : St;
  sv_conns : list conn;
  sv_begin : Z;
  sv_kernel : kernel
}.
Arguments Server {St} _ _ _ _.
Arguments sv_app {St} _.
Arguments sv_conns {St} _.
Arguments sv_begin {St} _.
Arguments sv_kernel {St} _.

Section reactor.
Context {St : Type} (handler : msg_handler St).

Definition sv_set_app (x : St) (s : server St) := Server x (sv_conns s) (sv_begin s) (sv_kernel s).
Definition sv_set_conns l (s : server St) := Server (sv_app s) l (sv_begin s) (sv_kernel s).
Definition sv_set_begin t (s : server St) := Server (sv_app s) (sv_conns s) t (sv_kernel s).
Definition sv_set_kernel k (s : server St) := Server (sv_app s) (sv_conns s) (sv_begin s) k.

Definition syscall (f : kernel → kernel) : M (server St) unit :=
  modify (λ s, sv_set_kernel (f (sv_kernel s)) s).

(** [conn_list[fd]]. *)
Definition conn_at (fd : Z) : M (server St) conn :=
  l ← gets sv_conns;
  if (fd <? 0) then ub else some_or_ub (l !! Z.to_nat fd).
Definition set_conn (fd : Z) (c : conn) : M (server St) unit :=
  modify (λ s, sv_set_conns (<[Z.to_nat fd := c]> (sv_conns s)) s).

Definition set_event (fd event flag : Z) : M (server St) Z :=
  syscall (epoll_ctl (if (flag =? 0) then EPOLL_CTL_MOD else EPOLL_CTL_ADD) fd event);;
  mret 0.

(** A new connection: its callbacks, empty buffers, the namespace "default". *)
Definition event_register (fd event : Z) : M (server St) Z :=
  if (fd <? 0) then mret (-1) else
  conn_at fd;;
  set_conn fd (Conn fd zero_buffer 0 zero_buffer 0 (Some Send_cb) (Some Recv_cb) "default");;
  set_event fd event 1;;
  mret 0.

Definition accept_cb (k : answers) (fd : Z) : M (server St) Z :=
  let clientfd := a_accept k in
  if (clientfd <? 0) then mret (-1) else
  syscall (k_opened clientfd);;
  event_register clientfd EPOLLIN;;
  (if (clientfd mod 1000 =? 0) then modify (sv_set_begin (a_time k)) else mret tt);;
  mret 0.

(** [kvs_request]: the handler gets the connection's buffers and namespace. *)
Definition kvs_request (c : conn) : M (server St) conn :=
  r ← zoom sv_app sv_set_app (handler (c_rbuffer c) (c_rlength c) (PStr (c_namespace c)));
  let c := conn_set_r (h_msg r) (c_rlength c) c in
  let c := conn_set_w (write_reply (h_reply r) (c_wbuffer c)) (r_length (h_reply r)) c in
  mret (conn_set_ns (match h_ns r with PStr ns => ns | _ => c_namespace c end) c).
Definition kvs_response (c : conn) : M (server St) Z := mret 0.

Definition recv_cb (k : answers) (fd : Z) : M (server St) Z :=
  c ← conn_at fd;
  match str_take (Z.to_nat BUFFER_LENGTH) <$> a_recv k with
  | None | Some EmptyString =>
      (* failed, or the client is gone *)
      set_conn fd (conn_set_r zero_buffer (c_rlength c) c);;
      syscall (k_closed fd);;
      syscall (epoll_ctl EPOLL_CTL_DEL fd 0);;
      mret 0
  | Some data =>
      let count := Z.of_nat (String.length data) in
      c ← kvs_request (conn_set_r (overwrite data zero_buffer) count c);
      set_conn fd c;;
      set_event fd EPOLLOUT 0;;
      mret count
  end.

(** [send]: bytes past the end of the buffer are undefined behaviour, and so is
    a negative length, which becomes a huge [size_t]. *)
Definition send (k : answers) (fd : Z) (buf : string) (len : Z) : M (server St) Z :=
  if (len <? 0) || (Z.of_nat (String.length buf) <? len) then ub else
  if (a_send k <? 0) then mret (-1) else
  let count := Z.min (a_send k) len in
  syscall (k_add_sent (fd, str_take (Z.to_nat count) buf));;
  mret count.

Definition send_cb (k : answers) (fd : Z) : M (server St) Z :=
  c ← conn_at fd;
  kvs_response c;;
  count ← (if (c_wlength c =? 0) then mret 0 else send k fd (c_wbuffer c) (c_wlength c));
  set_event fd EPOLLIN 0;;
  mret count.

(** A call through a function pointer. *)
Definition call (cb : option callback) (k : answers) (fd : Z) : M (server St) Z :=
  match cb with
  | None => ub
  | Some Accept_cb => accept_cb k fd
  | Some Recv_cb => recv_cb k fd
  | Some Send_cb => send_cb k fd
  end.

(** * The loop *)

Record event := Event { ev_fd : Z; ev_events : Z; ev_answers : answers }.
Definition has_event (mask : Z) (ev : event) : bool := negb (Z.land (ev_events ev) mask =? 0).

(** One turn of the inner loop. *)
Definition handle_event (ev : event) : M (server St) unit :=
  let connfd := ev_fd ev in
  (if has_event EPOLLIN ev then
     c ← conn_at connfd; call (c_r_action c) (ev_answers ev) connfd;; mret tt
   else mret tt);;
  (if has_event EPOLLOUT ev then
     c ← conn_at connfd; call (c_send_callback c) (ev_answers ev) connfd;; mret tt
   else mret tt).
Fixpoint handle_events (evs : list event) : M (server St) unit :=
  match evs with
  | [] => mret tt
  | ev :: evs' => handle_event ev;; handle_events evs'
  end.
(** [while (1)], for the batches [epoll_wait] returns; it blocks when there are no more. *)
Fixpoint mainloop (batches : list (list event)) : M (server St) unit :=
  match batches with
  | [] => mret tt
  | evs :: batches' => handle_events evs;; mainloop batches'
  end.

(** * Start *)

(** The results of [socket] and [bind] for one port. *)
Definition r_init_server (sock : Z * Z) (port : Z) : M (server St) Z :=
  let '(sockfd, bound) := sock in
  (if (sockfd <? 0) then mret tt else
   syscall (λ k, let k := k_opened sockfd k in
     Kernel (k_open k) (k_interest k) (<[sockfd := if (bound =? -1) then None else Some port]> (k_listen k)) (k_sent k)));;
  mret sockfd.

Definition open_port (port i : Z) (sock : Z * Z) : M (server St) unit :=
  sockfd ← r_init_server sock ((port + i) mod 2 ^ 16);
  c ← conn_at sockfd;
  set_conn sockfd (conn_set_listen sockfd c);;
  set_event sockfd EPOLLIN 1;;
  mret tt.
Fixpoint open_ports (port i : Z) (socks : list (Z * Z)) : M (server St) unit :=
  match socks with
  | [] => mret tt
  | sock :: socks' => open_port port i sock;; open_ports port (i + 1) socks'
  end.
(** [reactor_start]: [socks] are the answers for the [MAX_PORTS] ports, [now] the
    time after them. *)
Definition reactor_start (port : Z) (socks : list (Z * Z)) (now : Z) (batches : list (list event))
    : M (server St) unit :=
  open_ports port 0 (take MAX_PORTS socks);;
  modify (sv_set_begin now);;
  mainloop batches.
End reactor.

(** The process before [reactor_start]: no socket is open ([used] descriptors
    belong to the rest of the process). *)
Definition boot_server {St} (app : St) (used : gset Z) : server St :=
  Server app (replicate CONNECTION_SIZE zero_conn) 0 (Kernel used ∅ ∅ []).
