(* ===== verification/ReactorProof.v ===== *)
(** What the event loop of reactor.c does, whatever the handler: an abstract
    server that knows, of every connection, its namespace and the reply it owes,
    and the proof that the loop implements it. *)
From S2P Require Import Prelude CText KvsSpec Rdb RdbProof Protocol Requests Netio Reactor.

Local Open Scope Z_scope.

(** * The abstract server *)

(** A connection: its namespace, and the reply that has not been sent yet. *)
Record link := Link { l_ns : string; l_out : option string }.
Record aserver (St : Type) := AServer {
  as_app : St;
  as_links : gmap Z link;
  as_sent : list (Z * string)
}.
Arguments AServer {St} _ _ _.
Arguments as_app {St} _.
Arguments as_links {St} _.
Arguments as_sent {St} _.

(** The bytes a reply puts on the wire; [None] when the length the handler
    returns reaches past the text and its NUL, or past the buffer. *)
Definition reply_bytes (r : reply) : option string :=
  if (0 <=? r_length r) && (r_length r <=? Z.of_nat (String.length (r_text r)) + 1)
     && (Z.of_nat (String.length (r_text r)) <? BUFFER_LENGTH)
  then Some (str_take (Z.to_nat (r_length r)) (r_text r +:+ String NUL "")) else None.

Section spec.
Context {St : Type} (handler : msg_handler St).
(** The listening sockets, and the descriptors of the rest of the process. *)
Context (L U : gset Z).

Definition as_set_app (x : St) (a : aserver St) := AServer x (as_links a) (as_sent a).
Definition as_set_links l (a : aserver St) := AServer (as_app a) l (as_sent a).
Definition as_add_sent x (a : aserver St) := AServer (as_app a) (as_links a) (as_sent a ++ [x]).

(** A new connection starts in "default".  Not specified: a descriptor that is in
    use, which [accept] does not return, or one beyond [conn_list]. *)
Definition spec_accept (fd : Z) : M (aserver St) unit :=
  a ← get_st;
  if (fd <? 0) then mret tt
  else if decide (fd ∈ U ∪ L ∨ is_Some (as_links a !! fd) ∨ Z.of_nat CONNECTION_SIZE ≤ fd) then ub
  else put_st (as_set_links (<[fd := Link "default" None]> (as_links a)) a).

(** The bytes that arrived are a request; the connection owes the reply. *)
Definition spec_recv (fd : Z) (l : link) (data : option string) : M (aserver St) unit :=
  match str_take (Z.to_nat BUFFER_LENGTH) <$> data with
  | None | Some EmptyString => modify (λ a, as_set_links (delete fd (as_links a)) a)
  | Some d =>
      r ← zoom as_app as_set_app
            (handler (overwrite d zero_buffer) (Z.of_nat (String.length d)) (PStr (l_ns l)));
      t ← some_or_ub (reply_bytes (h_reply r));
      let ns := match h_ns r with PStr ns => ns | _ => l_ns l end in
      modify (λ a, as_set_links (<[fd := Link ns (Some t)]> (as_links a)) a)
  end.

(** The reply goes out, as far as [send] takes it; the rest is dropped. *)
Definition sent_part (n : Z) (t : string) : option string :=
  if String.eqb t "" || (n <? 0) then None else Some (str_take (Z.to_nat n) t).
Definition spec_send (fd : Z) (ns t : string) (n : Z) : M (aserver St) unit :=
  modify (λ a, as_set_links (<[fd := Link ns None]> (as_links a)) a);;
  match sent_part n t with
  | None => mret tt
  | Some out => modify (as_add_sent (fd, out))
  end.

Definition spec_event (ev : event) : M (aserver St) unit :=
  let fd := ev_fd ev in
  a ← get_st;
  if has_event EPOLLIN ev then
    if decide (fd ∈ L) then spec_accept (a_accept (ev_answers ev)) else
    l ← some_or_ub (as_links a !! fd);
    spec_recv fd l (a_recv (ev_answers ev))
  else if has_event EPOLLOUT ev then
    l ← some_or_ub (as_links a !! fd);
    t ← some_or_ub (l_out l);
    spec_send fd (l_ns l) t (a_send (ev_answers ev))
  else mret tt.
Fixpoint spec_events (evs : list event) : M (aserver St) unit :=
  match evs with
  | [] => mret tt
  | ev :: evs' => spec_event ev;; spec_events evs'
  end.

(** What the server waits for: requests, or room for the reply it owes. *)
Definition link_mask (l : link) : Z := match l_out l with Some _ => EPOLLOUT | None => EPOLLIN end.
Definition interest (a : aserver St) (fd : Z) : option Z :=
  if decide (fd ∈ L) then Some EPOLLIN else link_mask <$> as_links a !! fd.
(** [epoll_wait] reports events of the interest list only (errors and hang-ups
    apart, which are other bits), and every descriptor once. *)
Definition reported (want : Z → option Z) (ev : event) : Prop :=
  ∃ mask, want (ev_fd ev) = Some mask ∧
    (has_event EPOLLIN ev = true → Z.land mask EPOLLIN ≠ 0) ∧
    (has_event EPOLLOUT ev = true → Z.land mask EPOLLOUT ≠ 0).
Definition legal (a : aserver St) (evs : list event) : Prop :=
  NoDup (ev_fd <$> evs) ∧ Forall (reported (interest a)) evs.
Fixpoint spec_loop (batches : list (list event)) (e : env) (a : aserver St)
    (Q : env → aserver St → Prop) : Prop :=
  match batches with
  | [] => Q e a
  | evs :: batches' =>
      legal a evs ∧ wp (spec_events evs) e a (λ _ e' a', spec_loop batches' e' a' Q)
  end.

(** * The invariant of the loop *)

Record conn_ok (fd : Z) (l : link) (c : conn) : Prop := {
  ck_fd : c_fd c = fd;
  ck_recv : c_r_action c = Some Recv_cb;
  ck_send : c_send_callback c = Some Send_cb;
  ck_ns : c_namespace c = l_ns l;
  ck_wbuffer : Z.of_nat (String.length (c_wbuffer c)) = BUFFER_LENGTH;
  ck_out : ∀ t, l_out l = Some t →
    c_wlength c = Z.of_nat (String.length t) ∧ Z.of_nat (String.length t) ≤ BUFFER_LENGTH ∧
    str_take (String.length t) (c_wbuffer c) = t
}.
Record serves (a : aserver St) (s : server St) : Prop := {
  se_size : length (sv_conns s) = CONNECTION_SIZE;
  se_app : sv_app s = as_app a;
  se_sent : k_sent (sv_kernel s) = as_sent a;
  se_apart : ∀ fd l, as_links a !! fd = Some l → fd ∉ U ∪ L;
  se_open : ∀ fd, fd ∈ k_open (sv_kernel s) ↔ fd ∈ U ∪ L ∨ is_Some (as_links a !! fd);
  se_interest : ∀ fd, k_interest (sv_kernel s) !! fd = interest a fd;
  se_listen : ∀ fd, fd ∈ L → 0 ≤ fd ∧ ∃ c, sv_conns s !! Z.to_nat fd = Some c ∧ c_r_action c = Some Accept_cb;
  se_link : ∀ fd l, as_links a !! fd = Some l →
    0 ≤ fd ∧ ∃ c, sv_conns s !! Z.to_nat fd = Some c ∧ conn_ok fd l c
}.

(** * The callbacks *)

Lemma to_nat_ne x y : 0 ≤ x → 0 ≤ y → x ≠ y → Z.to_nat x ≠ Z.to_nat y.
Proof. lia. Qed.

(** A connection gets a new state. *)
Lemma serves_put a s fd l c app sent b k' :
  serves a s → fd ∉ U ∪ L → 0 ≤ fd < Z.of_nat CONNECTION_SIZE → conn_ok fd l c →
  k_sent k' = sent → (∀ x, x ∈ k_open k' ↔ x = fd ∨ x ∈ k_open (sv_kernel s)) →
  k_interest k' = <[fd := link_mask l]> (k_interest (sv_kernel s)) →
  serves (AServer app (<[fd := l]> (as_links a)) sent)
    (Server app (<[Z.to_nat fd := c]> (sv_conns s)) b k').
Proof.
  intros [Hsz Happ Hsent Hap Hop Hint Hlis Hlk] Hfd Hr Hc Hk Ho Hi. split; simpl.
  - by rewrite length_insert.
  - done.
  - done.
  - intros x m Hx. destruct (decide (x = fd)) as [->|]; [done|]. rewrite lookup_insert_ne in Hx by done. eauto.
  - intros x. rewrite Ho, Hop. destruct (decide (x = fd)) as [->|].
    + rewrite lookup_insert_eq. split; [right; eauto|by left].
    + rewrite lookup_insert_ne by done. naive_solver.
  - intros x. rewrite Hi. unfold interest. simpl. destruct (decide (x = fd)) as [->|].
    + rewrite !lookup_insert_eq. rewrite decide_False by set_solver. done.
    + rewrite !lookup_insert_ne by done. by rewrite Hint.
  - intros x Hx. destruct (Hlis x Hx) as [Hx0 (c' & Hc' & Ha)]. split; [done|]. exists c'.
    rewrite list_lookup_insert_ne; [done|]. apply to_nat_ne; [lia|done|]. intros ->. set_solver.
  - intros x m Hx. destruct (decide (x = fd)) as [->|].
    + rewrite lookup_insert_eq in Hx. injection Hx as <-. split; [lia|]. exists c. split; [|done].
      apply list_lookup_insert_eq. rewrite Hsz. lia.
    + rewrite lookup_insert_ne in Hx by done. destruct (Hlk x m Hx) as [Hx0 (c' & Hc' & Ha)].
      split; [done|]. exists c'. rewrite list_lookup_insert_ne; [done|]. apply to_nat_ne; lia.
Qed.
(** A connection is closed. *)
Lemma serves_drop a s fd l c b :
  serves a s → as_links a !! fd = Some l →
  serves (as_set_links (delete fd (as_links a)) a)
    (Server (sv_app s) (<[Z.to_nat fd := c]> (sv_conns s)) b (k_closed fd (sv_kernel s))).
Proof.
  intros [Hsz Happ Hsent Hap Hop Hint Hlis Hlk] Hfd. pose proof (Hap _ _ Hfd) as Hout.
  destruct (Hlk _ _ Hfd) as [Hfd0 _]. split; simpl; try done.
  - by rewrite length_insert.
  - intros x m Hx. apply lookup_delete_Some in Hx as [_ Hx]. eauto.
  - intros x. rewrite elem_of_difference, elem_of_singleton, Hop. destruct (decide (x = fd)) as [->|].
    + rewrite lookup_delete_eq. split; [by intros [_ []]|]. intros [H|[? H]]; [by destruct Hout|done].
    + rewrite lookup_delete_ne by done. naive_solver.
  - intros x. unfold interest. simpl. destruct (decide (x = fd)) as [->|].
    + rewrite !lookup_delete_eq. rewrite decide_False by set_solver. done.
    + rewrite !lookup_delete_ne by done. apply Hint.
  - intros x Hx. destruct (Hlis x Hx) as [Hx0 (c' & Hc' & Ha)]. split; [done|]. exists c'.
    rewrite list_lookup_insert_ne; [done|]. apply to_nat_ne; [lia|done|]. intros ->. set_solver.
  - intros x m Hx. apply lookup_delete_Some in Hx as [Hne Hx]. destruct (Hlk x m Hx) as [Hx0 (c' & Hc' & Ha)].
    split; [done|]. exists c'. rewrite list_lookup_insert_ne; [done|]. apply to_nat_ne; lia.
Qed.
Lemma serves_app a s : serves a s → sv_app s = as_app a ∧ length (sv_conns s) = CONNECTION_SIZE.
Proof. by intros []. Qed.

Lemma wp_conn_at fd c e (s : server St) Q :
  0 ≤ fd → sv_conns s !! Z.to_nat fd = Some c → Q c e s → wp (conn_at fd) e s Q.
Proof.
  intros H0 Hc HQ. unfold conn_at. wp_step. wp_step. rewrite (proj2 (Z.ltb_ge _ _)) by done.
  rewrite Hc. by wp_step.
Qed.

Lemma epoll_add fd m k :
  fd ∈ k_open k → k_interest k !! fd = None →
  epoll_ctl EPOLL_CTL_ADD fd m k = k_set_interest (<[fd := m]> (k_interest k)) k.
Proof. intros Ho Hi. unfold epoll_ctl. by rewrite decide_True, Hi. Qed.
Lemma epoll_mod fd m k :
  fd ∈ k_open k → is_Some (k_interest k !! fd) →
  epoll_ctl EPOLL_CTL_MOD fd m k = k_set_interest (<[fd := m]> (k_interest k)) k.
Proof. intros Ho [x Hi]. unfold epoll_ctl. by rewrite decide_True, Hi. Qed.

(** What one callback has to show: the abstract server made the same move. *)
Definition implements (Q : unit → env → aserver St → Prop) : env → server St → Prop :=
  λ e' s', ∃ a', Q tt e' a' ∧ serves a' s'.

Lemma wp_accept_cb a s k fd e Q :
  serves a s → wp (spec_accept (a_accept k)) e a Q →
  wp (accept_cb k fd) e s (λ _ e' s', implements Q e' s').
Proof.
  intros Hs H. unfold accept_cb. unfold spec_accept in H. set (c := a_accept k) in *.
  destruct (Z.ltb_spec c 0) as [|Hc].
  { wp_step. by exists a. }
  change (wp (if decide (c ∈ U ∪ L ∨ is_Some (as_links a !! c) ∨ Z.of_nat CONNECTION_SIZE ≤ c) then ub
    else put_st (as_set_links (<[c := Link "default" None]> (as_links a)) a)) e a Q) in H.
  case_decide as Hd; [done|]. change (Q tt e (as_set_links (<[c := Link "default" None]> (as_links a)) a)) in H.
  pose proof Hs as [Hsz Happ Hsent _ Hop Hint _ _].
  destruct (lookup_lt_is_Some_2 (sv_conns s) (Z.to_nat c)) as [c0 Hc0]; [rewrite Hsz; lia|].
  wp_step. unfold syscall. wp_step. wp_step. unfold event_register. rewrite (proj2 (Z.ltb_ge _ _)) by done.
  wp_step. apply (wp_conn_at c c0); [done..|]. wp_step. unfold set_conn. wp_step. wp_step.
  unfold set_event, syscall. simpl (1 =? 0). cbv iota. do 3 wp_step. wp_step. wp_step.
  eapply (wp_mono _ _ _ (λ _ e' s', ∃ b, e' = e ∧ s' = sv_set_begin b _)).
  { destruct (c mod 1000 =? 0); wp_step; [by exists (a_time k)|]. exists (sv_begin s). split; [done|reflexivity]. }
  intros _ e' s' (b & -> & ->). wp_step. exists (as_set_links (<[c := Link "default" None]> (as_links a)) a).
  split; [exact H|]. unfold as_set_links, sv_set_begin, sv_set_kernel, sv_set_conns.
  cbn [sv_app sv_conns sv_kernel]. rewrite Happ, epoll_add; [|set_solver|].
  - apply (serves_put a s); [done|naive_solver|lia| |done| |done].
    + by split.
    + intros x. simpl. set_solver.
  - simpl. rewrite Hint. unfold interest. rewrite decide_False by set_solver.
    destruct (as_links a !! c) eqn:Hl; [naive_solver|done].
Qed.

(** The interest of an open connection changes. *)
Lemma serves_mod a s fd l c app sent b k0 m :
  serves a s → as_links a !! fd = Some l → conn_ok fd m c →
  k_open k0 = k_open (sv_kernel s) → k_interest k0 = k_interest (sv_kernel s) → k_sent k0 = sent →
  serves (AServer app (<[fd := m]> (as_links a)) sent)
    (Server app (<[Z.to_nat fd := c]> (sv_conns s)) b (epoll_ctl EPOLL_CTL_MOD fd (link_mask m) k0)).
Proof.
  intros Hs Hl Hc Ho Hi Hk. pose proof Hs as [Hsz _ _ Hap Hop Hint _ Hlk].
  assert (Hopen : fd ∈ k_open (sv_kernel s)) by (apply Hop; right; eauto).
  destruct (Hlk _ _ Hl) as [H0 (c0 & Hc0 & _)]. apply lookup_lt_Some in Hc0. rewrite Hsz in Hc0.
  rewrite epoll_mod; [|by rewrite Ho|].
  - apply (serves_put a s); [done|by eapply Hap|lia|done|done| |by simpl; rewrite Hi].
    intros x. simpl. rewrite Ho. set_solver.
  - rewrite Hi, Hint. unfold interest. rewrite Hl. destruct (decide _); simpl; eauto.
Qed.

Lemma reply_bytes_ok r t buf :
  reply_bytes r = Some t → Z.of_nat (String.length buf) = BUFFER_LENGTH →
  r_length r = Z.of_nat (String.length t) ∧ Z.of_nat (String.length t) ≤ BUFFER_LENGTH ∧
  str_take (String.length t) (write_reply r buf) = t ∧
  Z.of_nat (String.length (write_reply r buf)) = BUFFER_LENGTH.
Proof.
  unfold reply_bytes, write_reply. destruct (_ && _) eqn:H; [|done]. intros [= <-] Hb.
  rewrite !andb_true_iff, !Z.leb_le, Z.ltb_lt in H. destruct H as [[H1 H2] H3].
  rewrite (proj2 (Z.ltb_ge _ _)) by done.
  assert (Hl : String.length (r_text r +:+ String NUL "") = S (String.length (r_text r)))
    by (rewrite str_len_app; simpl; lia).
  rewrite str_take_len by lia. split_and!; [lia|lia| |].
  - rewrite str_take_overwrite by lia. done.
  - rewrite overwrite_length; lia.
Qed.

Lemma reply_bytes_le r t : reply_bytes r = Some t → Z.of_nat (String.length t) ≤ BUFFER_LENGTH.
Proof. intros H. by destruct (reply_bytes_ok _ _ zero_buffer H zero_buffer_length) as (_ & ? & _). Qed.

Lemma wp_recv_cb a s k fd l e Q :
  serves a s → as_links a !! fd = Some l → wp (spec_recv fd l (a_recv k)) e a Q →
  wp (recv_cb handler k fd) e s (λ _ e' s', implements Q e' s').
Proof.
  intros Hs Hl H. pose proof Hs as [_ Happ Hsent _ _ _ _ Hlk]. destruct (Hlk _ _ Hl) as [H0 (c & Hc & Hok)].
  unfold recv_cb. unfold spec_recv in H. wp_step. eapply wp_conn_at; [done|exact Hc|].
  assert (Hgone : wp (modify (λ a, as_set_links (delete fd (as_links a)) a)) e a Q →
    wp (set_conn fd (conn_set_r zero_buffer (c_rlength c) c);; syscall (k_closed fd);;
        syscall (epoll_ctl EPOLL_CTL_DEL fd 0);; mret 0) e s (λ _ e' s', implements Q e' s')).
  { intros HQ. unfold set_conn, syscall. do 7 wp_step. eexists; split; [exact HQ|].
    unfold sv_set_kernel, sv_set_conns. cbn [sv_app sv_conns sv_kernel sv_begin].
    unfold epoll_ctl. rewrite decide_False by (simpl; set_solver). by eapply serves_drop. }
  destruct (str_take _ <$> a_recv k) as [[|ch d]|]; [by apply Hgone| |by apply Hgone]. clear Hgone.
  set (data := String ch d) in *. apply wp_run in H as ([] & e' & a' & H & HQ).
  unfold mbind, M_bind, zoom in H.
  destruct (handler (overwrite data zero_buffer) (Z.of_nat (String.length data)) (PStr (l_ns l)) e (as_app a))
    as [[[r e1] x1]| |] eqn:Hh; [|done..].
  destruct (reply_bytes (h_reply r)) as [t|] eqn:Ht; [|done]. injection H as <- <-.
  wp_step. unfold kvs_request. wp_step. apply wp_zoom. cbn [conn_set_r c_rbuffer c_rlength c_namespace].
  rewrite (ck_ns _ _ _ Hok), Happ. unfold wp at 1. rewrite Hh. cbv zeta. wp_step. unfold set_conn, set_event, syscall.
  simpl (0 =? 0). cbv iota. do 6 wp_step. wp_step. eexists. split; [exact HQ|].
  unfold sv_set_kernel, sv_set_conns, sv_set_app, as_set_links, as_set_app.
  cbn [sv_app sv_conns sv_kernel sv_begin as_app as_links as_sent].
  destruct (reply_bytes_ok _ _ (c_wbuffer c) Ht) as (Hlen & Hmax & Htake & Hwb); [by apply Hok|].
  change EPOLLOUT with (link_mask (Link (match h_ns r with PStr ns => ns | _ => l_ns l end) (Some t))).
  eapply (serves_mod a s fd l); [done..| |done|done|done].
  destruct Hok as [? ? ? Hns ? ?]. split; simpl; try done.
  - by rewrite Hns.
  - by intros t' [= <-].
Qed.

Lemma wp_send_cb a s k fd l t e Q :
  serves a s → as_links a !! fd = Some l → l_out l = Some t →
  wp (spec_send fd (l_ns l) t (a_send k)) e a Q →
  wp (send_cb k fd) e s (λ _ e' s', implements Q e' s').
Proof.
  intros Hs Hl Ht H. pose proof Hs as [_ Happ Hsent _ _ _ _ Hlk]. destruct (Hlk _ _ Hl) as [H0 (c & Hc & Hok)].
  unfold send_cb. unfold spec_send in H. wp_step. eapply wp_conn_at; [done|exact Hc|].
  unfold kvs_response. do 2 wp_step. wp_step.
  destruct (ck_out _ _ _ Hok t Ht) as (Hw & Hmax & Htake). rewrite Hw.
  assert (Hok' : conn_ok fd (Link (l_ns l) None) c) by (destruct Hok; by split).
  assert (Hput : ∀ k0 sent, k_open k0 = k_open (sv_kernel s) → k_interest k0 = k_interest (sv_kernel s) →
    k_sent k0 = sent → serves (AServer (as_app a) (<[fd := Link (l_ns l) None]> (as_links a)) sent)
      (sv_set_kernel (epoll_ctl EPOLL_CTL_MOD fd EPOLLIN k0) s)).
  { intros k0 sent Ho Hi Hk. unfold sv_set_kernel. rewrite Happ, <-(list_insert_id _ _ _ Hc).
    by eapply (serves_mod a s fd l c _ _ _ _ (Link (l_ns l) None)). }
  assert (Hdone : ∀ (n : Z) k0 sent, k_open k0 = k_open (sv_kernel s) → k_interest k0 = k_interest (sv_kernel s) →
    k_sent k0 = sent → Q tt e (AServer (as_app a) (<[fd := Link (l_ns l) None]> (as_links a)) sent) →
    wp (set_event fd EPOLLIN 0;; mret n) e (sv_set_kernel k0 s) (λ _ e' s', implements Q e' s')).
  { intros n k0 sent Ho Hi Hk HQ. unfold set_event, syscall. simpl (0 =? 0). cbv iota. do 5 wp_step.
    eexists. split; [exact HQ|]. by apply Hput. }
  assert (Hid : s = sv_set_kernel (sv_kernel s) s) by by destruct s.
  unfold sent_part in H. destruct (String.eqb_spec t "") as [->|Hne].
  { simpl (Z.of_nat _ =? 0). cbv iota. wp_step. rewrite Hid. by apply (Hdone 0 (sv_kernel s) (as_sent a)). }
  rewrite orb_false_l in H. assert (Hpos : (0 < String.length t)%nat) by (destruct t; [done|simpl; lia]).
  rewrite (proj2 (Z.eqb_neq _ _)) by lia. unfold send. rewrite (ck_wbuffer _ _ _ Hok).
  rewrite (proj2 (Z.ltb_ge _ _)), orb_false_l, (proj2 (Z.ltb_ge _ _)) by lia.
  destruct (Z.ltb_spec (a_send k) 0) as [|Hn].
  { wp_step. rewrite Hid. by apply (Hdone (-1) (sv_kernel s) (as_sent a)). }
  wp_step. unfold syscall. wp_step. wp_step. eapply (Hdone _ (k_add_sent _ (sv_kernel s))); [done..|].
  simpl. rewrite Hsent. replace (str_take (Z.to_nat (Z.min (a_send k) (Z.of_nat (String.length t)))) (c_wbuffer c))
    with (str_take (Z.to_nat (a_send k)) t); [exact H|].
  rewrite <-Htake at 1. apply str_take_take_min. lia.
Qed.

(** * One event, one batch, the loop *)

Lemma has_mask ev m : has_event m ev = true → m ≠ 0.
Proof. unfold has_event. intros H ->. by rewrite Z.land_0_r in H. Qed.
(** A descriptor is watched for one of the two conditions, never for both. *)
Lemma reported_cases a ev :
  reported (interest a) ev →
  match has_event EPOLLIN ev, has_event EPOLLOUT ev with
  | true, true => False
  | true, false => (ev_fd ev ∈ L) ∨ (∃ l, as_links a !! ev_fd ev = Some l ∧ l_out l = None)
  | false, true => (ev_fd ev ∉ L) ∧ ∃ l t, as_links a !! ev_fd ev = Some l ∧ l_out l = Some t
  | false, false => True
  end.
Proof.
  intros (mask & Hm & Hin & Hout). unfold interest in Hm. case_decide as HL.
  { injection Hm as <-. destruct (has_event EPOLLIN ev), (has_event EPOLLOUT ev); try done;
      try (by left); try (by destruct (Hout eq_refl)). }
  destruct (as_links a !! ev_fd ev) as [[ns out]|]; [|done]. injection Hm as <-.
  destruct (has_event EPOLLIN ev), (has_event EPOLLOUT ev), out as [t|]; try done;
    try (by destruct (Hin eq_refl)); try (by destruct (Hout eq_refl)).
  - right. by eexists.
  - split; [done|]. by eexists _, _.
Qed.

Lemma wp_handle_event a s ev e Q :
  serves a s → reported (interest a) ev → wp (spec_event ev) e a Q →
  wp (handle_event handler ev) e s (λ _ e' s', implements Q e' s').
Proof.
  intros Hs Hr H. apply reported_cases in Hr. unfold spec_event in H. unfold handle_event.
  set (fd := ev_fd ev) in *. pose proof Hs as [_ _ _ Hap _ _ Hlis Hlk].
  change (wp (if has_event EPOLLIN ev then
    if decide (fd ∈ L) then spec_accept (a_accept (ev_answers ev)) else
    l ← some_or_ub (as_links a !! fd); spec_recv fd l (a_recv (ev_answers ev))
  else if has_event EPOLLOUT ev then
    l ← some_or_ub (as_links a !! fd); t ← some_or_ub (l_out l);
    spec_send fd (l_ns l) t (a_send (ev_answers ev))
  else mret tt) e a Q) in H.
  destruct (has_event EPOLLIN ev), (has_event EPOLLOUT ev); [done| | |].
  - wp_step. wp_step. case_decide as HL.
    + destruct (Hlis _ HL) as [H0 (c & Hc & Hcb)]. eapply wp_conn_at; [done|exact Hc|]. rewrite Hcb. wp_step.
      eapply wp_mono; [by eapply wp_accept_cb|]. intros ? e' s' Hi. by do 2 wp_step.
    + destruct Hr as [Hr|(l & Hl & _)]; [done|]. rewrite Hl in H.
      change (wp (spec_recv fd l (a_recv (ev_answers ev))) e a Q) in H.
      destruct (Hlk _ _ Hl) as [H0 (c & Hc & Hcb)]. eapply wp_conn_at; [done|exact Hc|].
      rewrite (ck_recv _ _ _ Hcb). wp_step.
      eapply wp_mono; [by eapply wp_recv_cb|]. intros ? e' s' Hi. by do 2 wp_step.
  - destruct Hr as (HL & l & t & Hl & Ht). rewrite Hl in H.
    change (wp (t ← some_or_ub (l_out l); spec_send fd (l_ns l) t (a_send (ev_answers ev))) e a Q) in H.
    rewrite Ht in H. change (wp (spec_send fd (l_ns l) t (a_send (ev_answers ev))) e a Q) in H.
    do 2 wp_step. wp_step. destruct (Hlk _ _ Hl) as [H0 (c & Hc & Hcb)]. eapply wp_conn_at; [done|exact Hc|].
    rewrite (ck_send _ _ _ Hcb). wp_step. eapply wp_mono; [by eapply wp_send_cb|].
    intros ? e' s' Hi. by wp_step.
  - do 3 wp_step. by exists a.
Qed.

(** The event is one of the two the loop reacts to. *)
Definition reacts (ev : event) : bool := has_event EPOLLIN ev || has_event EPOLLOUT ev.

(** An event changes no connection but its own. *)
Lemma spec_event_links ev e a u e' a' fd l :
  spec_event ev e a = Ret (u, e', a') → fd ≠ ev_fd ev ∨ reacts ev = false →
  as_links a !! fd = Some l → as_links a' !! fd = Some l.
Proof.
  intros H Hne Hl. unfold spec_event, mbind, M_bind, get_st in H. unfold reacts in Hne.
  destruct (has_event EPOLLIN ev); [destruct Hne as [Hne|]; [|done]|].
  - case_decide as HL.
    + unfold spec_accept, mbind, M_bind, get_st, put_st in H. destruct (_ <? 0); [by injection H as <- <- <-|].
      case_decide as Hd; [done|]. injection H as <- <- <-. simpl. rewrite lookup_insert_ne; [done|].
      intros <-. apply Hd. right. left. eauto.
    + destruct (as_links a !! ev_fd ev) as [l'|]; [|done]. simpl in H. unfold spec_recv in H.
      destruct (str_take _ <$> _) as [[|ch d]|].
      * injection H as <- <- <-. simpl. by rewrite lookup_delete_ne.
      * unfold mbind, M_bind, zoom in H.
        destruct (handler _ _ _ _ _) as [[[r e1] x1]| |]; [|done..].
        destruct (reply_bytes (h_reply r)); [|done]. injection H as <- <- <-. simpl. by rewrite lookup_insert_ne.
      * injection H as <- <- <-. simpl. by rewrite lookup_delete_ne.
  - destruct (has_event EPOLLOUT ev); [destruct Hne as [Hne|]; [|done]|by injection H as <- <- <-].
    destruct (as_links a !! ev_fd ev) as [l'|]; [|done]. simpl in H. destruct (l_out l') as [t|]; [|done]. simpl in H.
    unfold spec_send, mbind, M_bind, modify in H. simpl in H.
    destruct (sent_part _ _); injection H as <- <- <-; simpl; by rewrite lookup_insert_ne.
Qed.
Lemma spec_event_frame ev e a u e' a' fd :
  spec_event ev e a = Ret (u, e', a') → fd ≠ ev_fd ev → is_Some (interest a fd) →
  interest a' fd = interest a fd.
Proof.
  intros H Hne. unfold interest. case_decide; [done|]. destruct (as_links a !! fd) as [l|] eqn:Hl; [|by intros []].
  intros _. erewrite spec_event_links; [done|exact H|by left|done].
Qed.
Lemma wp_spec_event_frame ev e a Q :
  wp (spec_event ev) e a Q →
  wp (spec_event ev) e a (λ u e' a', Q u e' a' ∧
    ∀ fd, fd ≠ ev_fd ev → is_Some (interest a fd) → interest a' fd = interest a fd).
Proof.
  rewrite !wp_run. intros (u & e' & a' & H & HQ). exists u, e', a'. split_and!; [done..|].
  intros fd. by eapply spec_event_frame.
Qed.
Lemma legal_next a a' ev evs :
  legal a (ev :: evs) →
  (∀ fd, fd ≠ ev_fd ev → is_Some (interest a fd) → interest a' fd = interest a fd) → legal a' evs.
Proof.
  intros [Hnd Hr] Hf. simpl in Hnd. apply NoDup_cons in Hnd as [Hni Hnd]. apply Forall_cons in Hr as [_ Hr].
  split; [done|]. rewrite Forall_forall in *. intros ev' Hin. destruct (Hr _ Hin) as (mask & Hm & H1 & H2).
  exists mask. split; [|done]. rewrite Hf; [done| |eauto]. intros Heq. apply Hni. rewrite <-Heq.
  by apply list_elem_of_fmap_2.
Qed.

Lemma wp_handle_events a s evs e Q :
  serves a s → legal a evs → wp (spec_events evs) e a Q →
  wp (handle_events handler evs) e s (λ _ e' s', implements Q e' s').
Proof.
  revert a s e. induction evs as [|ev evs IH]; intros a s e Hs Hl H; cbn [handle_events spec_events] in *.
  { wp_step. by exists a. }
  wp_step. assert (Hev : reported (interest a) ev) by (destruct Hl as [_ Hl]; by apply Forall_cons in Hl as [? _]).
  apply wp_bind_inv in H.
  eapply wp_mono; [by eapply wp_handle_event, wp_spec_event_frame|].
  intros _ e' s' (a' & [HQ Hf] & Hs'). eapply IH; [exact Hs'|by eapply legal_next|exact HQ].
Qed.

Lemma wp_mainloop batches a s e (Q : env → aserver St → Prop) :
  serves a s → spec_loop batches e a Q →
  wp (mainloop handler batches) e s (λ _ e' s', ∃ a', Q e' a' ∧ serves a' s').
Proof.
  revert a s e. induction batches as [|evs bs IH]; intros a s e Hs H; cbn [mainloop spec_loop] in *.
  { wp_step. by exists a. }
  destruct H as [Hl H]. wp_step. eapply wp_mono; [by eapply wp_handle_events|].
  intros _ e' s' (a' & HQ & Hs'). by eapply IH.
Qed.

(** * The start *)

(** [reactor_start] has opened some of its sockets. *)
Record opening (L0 : gset Z) (app : St) (s : server St) : Prop := {
  og_size : length (sv_conns s) = CONNECTION_SIZE;
  og_app : sv_app s = app;
  og_sent : k_sent (sv_kernel s) = [];
  og_open : k_open (sv_kernel s) = U ∪ L0;
  og_interest : ∀ fd, k_interest (sv_kernel s) !! fd = if decide (fd ∈ L0) then Some EPOLLIN else None;
  og_listen : ∀ fd, fd ∈ L0 → 0 ≤ fd ∧ ∃ c, sv_conns s !! Z.to_nat fd = Some c ∧ c_r_action c = Some Accept_cb
}.
Lemma opening_serves L0 app s : L0 = L → opening L0 app s → serves (AServer app ∅ []) s.
Proof.
  intros -> [Hsz Happ Hs Ho Hi Hl]. split; simpl; try done.
  intros fd. rewrite Ho, lookup_empty. split; [by left|]. intros [?|[? ?]]; done.
Qed.

Lemma wp_open_port L0 app port i fd bound s e Q :
  opening L0 app s → fd ∉ U ∪ L0 → 0 ≤ fd < Z.of_nat CONNECTION_SIZE →
  (∀ s', opening ({[ fd ]} ∪ L0) app s' → Q tt e s') →
  wp (open_port port i (fd, bound)) e s Q.
Proof.
  intros [Hsz Happ Hs Ho Hi Hl] Hfd Hr HQ. unfold open_port, r_init_server, syscall. wp_step. wp_step.
  rewrite (proj2 (Z.ltb_ge _ _)) by lia. wp_step. wp_step. wp_step.
  destruct (lookup_lt_is_Some_2 (sv_conns s) (Z.to_nat fd)) as [c Hc]; [rewrite Hsz; lia|].
  eapply wp_conn_at; [lia|exact Hc|]. unfold set_conn, set_event, syscall. simpl (1 =? 0). cbv iota.
  do 6 wp_step. wp_step. apply HQ. unfold sv_set_kernel, sv_set_conns. cbn [sv_app sv_conns sv_kernel].
  rewrite epoll_add; [|simpl; set_solver|simpl; rewrite Hi; by rewrite decide_False by set_solver].
  split; cbn [sv_app sv_conns sv_kernel k_set_interest k_open k_interest k_sent k_opened].
  - by rewrite length_insert.
  - done.
  - done.
  - rewrite Ho. set_solver.
  - intros x. destruct (decide (x = fd)) as [->|Hne].
    + rewrite lookup_insert_eq. by rewrite decide_True by set_solver.
    + rewrite lookup_insert_ne by done. rewrite Hi. destruct (decide (x ∈ L0)), (decide (x ∈ {[fd]} ∪ L0)); set_solver.
  - intros x Hx. destruct (decide (x = fd)) as [->|Hne].
    + split; [lia|]. eexists. split; [apply list_lookup_insert_eq; rewrite Hsz; lia|done].
    + destruct (Hl x) as [H0 Hc']; [set_solver|]. split; [done|].
      rewrite list_lookup_insert_ne; [done|]. apply to_nat_ne; [lia|done|done].
Qed.

(** The sockets are new descriptors of [conn_list]. *)
Definition sockets_ok (socks : list (Z * Z)) : Prop :=
  NoDup socks.*1 ∧ Forall (λ sock, (sock.1 ∉ U) ∧ 0 ≤ sock.1 < Z.of_nat CONNECTION_SIZE) socks.
Lemma wp_open_ports L0 app port i socks s e Q :
  opening L0 app s → sockets_ok socks → Forall (λ sock, sock.1 ∉ L0) socks →
  (∀ s', opening (list_to_set socks.*1 ∪ L0) app s' → Q tt e s') →
  wp (open_ports port i socks) e s Q.
Proof.
  revert L0 i s. induction socks as [|[fd b] socks IH]; intros L0 i s Ho [Hnd Hok] Hn HQ; cbn [open_ports].
  { wp_step. apply HQ. simpl. by rewrite left_id_L by apply _. }
  simpl in Hnd. apply NoDup_cons in Hnd as [Hni Hnd]. apply Forall_cons in Hok as [[HU Hr] Hok].
  apply Forall_cons in Hn as [Hn Hns]. simpl in HU, Hr, Hn. wp_step. apply (wp_open_port L0 app); [done|set_solver|done|].
  intros s' Ho'. apply (IH ({[ fd ]} ∪ L0)); [done|done| |].
  - rewrite Forall_forall in *. intros sock Hin. specialize (Hns _ Hin).
    assert (sock.1 ≠ fd) by (intros <-; apply Hni; by apply list_elem_of_fmap_2). set_solver.
  - intros s2 H2. apply HQ.
    assert ((list_to_set ((fd, b) :: socks).*1 : gset Z) ∪ L0 = list_to_set socks.*1 ∪ ({[fd]} ∪ L0)) as ->;
      [|done]. rewrite fmap_cons, list_to_set_cons. set_solver.
Qed.
End spec.

(** The whole program: the sockets are opened, then the loop runs. *)
Lemma wp_reactor_start {St} (handler : msg_handler St) U port socks now batches app e Q :
  length socks = MAX_PORTS → sockets_ok U socks →
  spec_loop handler (list_to_set socks.*1) U batches e (AServer app ∅ []) Q →
  wp (reactor_start handler port socks now batches) e (boot_server app U)
    (λ _ e' s', ∃ a', Q e' a' ∧ serves (list_to_set socks.*1) U a' s').
Proof.
  intros Hlen Hok H. unfold reactor_start. rewrite take_ge by lia. wp_step.
  apply (wp_open_ports U ∅ app); [|done|by apply Forall_true|].
  - split; simpl; [done|done|done|set_solver|done|set_solver].
  - intros s Ho. rewrite (union_empty_r_L _) in Ho. wp_step. wp_step. eapply wp_mono.
    + eapply wp_mainloop; [|exact H]. eapply opening_serves; [reflexivity|].
      destruct Ho as [? ? ? ? ? ?]. by split.
    + done.
Qed.

(** C3: the event loop implements the abstract server: whatever batches of events
    [epoll_wait] reports, and whatever [accept], [recv] and [send] answer, the
    loop returns from every event with the handler's state, the namespace and the
    reply owed of every connection, the interest list and the bytes sent that the
    abstract server has; it never leaves [conn_list] or a buffer as long as the
    descriptors are below 1024 and the replies fit. *)
Theorem reactor_refines {St} (handler : msg_handler St) U port socks now batches app e Q :
  length socks = MAX_PORTS → sockets_ok U socks →
  spec_loop handler (list_to_set socks.*1) U batches e (AServer app ∅ []) Q →
  wp (reactor_start handler port socks now batches) e (boot_server app U)
    (λ _ e' s', ∃ a', Q e' a' ∧ serves (list_to_set socks.*1) U a' s').
Proof. apply wp_reactor_start. Qed.

Lemma spec_loop_step {St} (handler : msg_handler St) L U evs bs e a e' a' Q :
  legal L a evs → spec_events handler L U evs e a = Ret (tt, e', a') →
  spec_loop handler L U bs e' a' Q → spec_loop handler L U (evs :: bs) e a Q.
Proof. intros Hl Hev H. split; [done|]. unfold wp. by rewrite Hev. Qed.

(** A client connects, names its namespace, and gets the answer. *)
Definition sample_sockets : list (Z * Z) := (λ i, (Z.of_nat i + 4, 0)) <$> seq 0 MAX_PORTS.
Definition sample_used : gset Z := {[ 0; 1; 2; 3 ]}.
Definition sample_batches : list (list event) :=
  [[Event 4 EPOLLIN (Answers 24 None 0 0)];
   [Event 24 EPOLLIN (Answers (-1) (Some "NS users") 0 0)];
   [Event 24 EPOLLOUT (Answers (-1) None 1024 0)]].
Ltac legal_solve :=
  split; [repeat constructor; set_solver|];
  repeat (apply Forall_cons; split; [eexists; split; [vm_compute; reflexivity|split; [discriminate|discriminate]]|]);
  apply Forall_nil_2.
Lemma sample_sockets_ok : sockets_ok sample_used sample_sockets.
Proof.
  split; [apply (bool_decide_unpack (NoDup _)); vm_compute; exact I|].
  apply (bool_decide_unpack (Forall _ _)). vm_compute. exact I.
Qed.
Definition sample_seen (a : aserver store) : Prop :=
  as_sent a = [(24, "Namespace set to: users" +:+ crlf)] ∧ as_links a !! 24 = Some (Link "users" None).
Lemma sample_spec_run :
  spec_loop kvs_handler (list_to_set sample_sockets.*1) sample_used sample_batches (Env [] [] [] [] 0)
    (AServer (boot_store ∅) ∅ []) (λ _ a', sample_seen a').
Proof.
  unfold sample_batches. do 3 (eapply spec_loop_step; [legal_solve|vm_compute; reflexivity|]). split; reflexivity.
Qed.
Lemma reactor_refines_witness :
  wp (reactor_start kvs_handler 8000 sample_sockets 0 sample_batches) (Env [] [] [] [] 0)
    (boot_server (boot_store ∅) sample_used)
    (λ _ e' s', ∃ a', sample_seen a' ∧ serves (list_to_set sample_sockets.*1) sample_used a' s').
Proof.
  apply (reactor_refines kvs_handler sample_used 8000 sample_sockets 0 sample_batches (boot_store ∅)
    (Env [] [] [] [] 0) (λ _ a', sample_seen a')).
  - reflexivity.
  - apply sample_sockets_ok.
  - apply sample_spec_run.
Defined.
