(* ===== verification/ReactorLive.v ===== *)
(** Executions of the reactor that go on for ever, one event after the other:
    every request is answered. *)
From S2P Require Import Prelude CText KvsSpec Rdb RdbProof Protocol Requests Netio Reactor ReactorProof.

Local Open Scope Z_scope.

(** * Endless executions *)

(** The state after [n] events. *)
Fixpoint run_to {St} (handler : msg_handler St) (tr : nat → event) (n : nat) (x : env * server St)
    : env * server St :=
  match n with
  | O => x
  | S n' =>
      let y := run_to handler tr n' x in
      match handle_event handler (tr n') y.1 y.2 with
      | Ret (_, e, s) => (e, s)
      | _ => y
      end
  end.

(** The first index after [n] with a decidable property that recurs. *)
Lemma next_index (P : nat → bool) n :
  (∃ m, (n < m)%nat ∧ P m = true) →
  ∃ m, (n < m)%nat ∧ P m = true ∧ ∀ i, (n < i < m)%nat → P i = false.
Proof.
  intros (m & Hm & HP). remember (m - n)%nat as d eqn:Hd. revert n Hd Hm.
  induction d as [|d IH]; intros n Hd Hm; [lia|].
  destruct (P (S n)) eqn:HS; [exists (S n); split_and!; [lia|done|lia]|].
  destruct (decide (m = S n)) as [->|Hne]; [congruence|].
  destruct (IH (S n)) as (k & Hk & HPk & Hmin); [lia|lia|]. exists k. split_and!; [lia|done|].
  intros i Hi. destruct (decide (i = S n)) as [->|]; [done|]. apply Hmin. lia.
Qed.

Section live.
Context {St : Type} (handler : msg_handler St) (L U : gset Z).
Context (tr : nat → event).

(** The abstract server goes through the states [A]. *)
Definition spec_execution (A : nat → env * aserver St) : Prop :=
  ∀ n, reported (interest L (A n).2) (tr n) ∧
    spec_event handler L U (tr n) (A n).1 (A n).2 = Ret (tt, (A (S n)).1, (A (S n)).2).

Lemma run_to_serves A e s n :
  spec_execution A → A 0%nat = (e, (A 0%nat).2) → serves L U (A 0%nat).2 s →
  let y := run_to handler tr n (e, s) in
  y.1 = (A n).1 ∧ serves L U (A n).2 y.2 ∧
  handle_event handler (tr n) y.1 y.2 =
    Ret (tt, (run_to handler tr (S n) (e, s)).1, (run_to handler tr (S n) (e, s)).2).
Proof.
  intros HA He Hs.
  assert (Hn : ∀ n, let y := run_to handler tr n (e, s) in y.1 = (A n).1 ∧ serves L U (A n).2 y.2).
  { clear n. induction n as [|n IH]; [simpl; by rewrite He|]. cbn [run_to]. destruct IH as [IHe IHs].
    destruct (HA n) as [Hr Hev]. cbv zeta.
    assert (H : wp (spec_event handler L U (tr n)) (A n).1 (A n).2 (λ _ e' a', e' = (A (S n)).1 ∧ a' = (A (S n)).2))
      by (unfold wp; by rewrite Hev).
    eapply wp_handle_event in H; [|exact IHs|done]. rewrite <-IHe in H. apply wp_run in H as ([] & e' & s' & -> & H).
    destruct H as (a' & [-> ->] & Hs'). done. }
  intros y. destruct (Hn n) as [H1 H2]. split_and!; [done..|].
  destruct (HA n) as [Hr Hev].
  assert (H : wp (spec_event handler L U (tr n)) (A n).1 (A n).2 (λ _ e' a', True)) by (unfold wp; by rewrite Hev).
  eapply wp_handle_event in H; [|exact H2|done]. rewrite <-H1 in H. apply wp_run in H as ([] & e' & s' & H & _).
  subst y. cbn [run_to]. cbv zeta. by rewrite H.
Qed.

(** A reply stays owed until its connection has an event. *)
Lemma owed_until A fd l n m :
  spec_execution A → as_links (A n).2 !! fd = Some l → (n ≤ m)%nat →
  (∀ i, (n ≤ i < m)%nat → (bool_decide (ev_fd (tr i) = fd) && reacts (tr i)) = false) →
  as_links (A m).2 !! fd = Some l.
Proof.
  intros HA Hl Hnm Hno. induction Hnm as [|m Hnm IH]; [done|].
  eapply spec_event_links; [apply HA| |apply IH; intros i Hi; apply Hno; lia].
  specialize (Hno m ltac:(lia)). apply andb_false_iff in Hno as [Hno|Hno]; [|by right].
  left. intros ->. by rewrite bool_decide_eq_true_2 in Hno.
Qed.

Definition answered_at (fd : Z) (t : string) (x y : env * server St) : Prop :=
  k_sent (sv_kernel y.2) = k_sent (sv_kernel x.2) ++ (if String.eqb t "" then [] else [(fd, t)]).

(** The event after which a reply is on its way. *)
Lemma reply_goes_out A fd ns t m :
  spec_execution A → as_links (A m).2 !! fd = Some (Link ns (Some t)) → fd ∉ L →
  ev_fd (tr m) = fd → reacts (tr m) = true → Z.of_nat (String.length t) ≤ a_send (ev_answers (tr m)) →
  has_event EPOLLOUT (tr m) = true ∧
  as_sent (A (S m)).2 = as_sent (A m).2 ++ (if String.eqb t "" then [] else [(fd, t)]).
Proof.
  intros HA Hl HL Hfd Hre Hsend. destruct (HA m) as [Hr Hev]. apply reported_cases in Hr. rewrite Hfd in Hr.
  unfold reacts in Hre. unfold spec_event, mbind, M_bind, get_st in Hev. rewrite Hfd, Hl in Hev.
  destruct (has_event EPOLLIN (tr m)), (has_event EPOLLOUT (tr m)); try done.
  - destruct Hr as [Hr|(l & Hl' & Ho)]; [done|]. rewrite Hl in Hl'. by injection Hl' as <-.
  - split; [done|]. simpl in Hev. unfold spec_send, mbind, M_bind, modify, sent_part in Hev.
    rewrite (proj2 (Z.ltb_ge _ _)), orb_false_r in Hev by lia. simpl in Hev.
    destruct (String.eqb t ""); injection Hev as He Ha; rewrite <-Ha; simpl; [by rewrite app_nil_r|].
    rewrite str_take_ge; [done|lia].
Qed.

(** A request leaves its reply owed. *)
Lemma request_owes A fd d n :
  spec_execution A → ev_fd (tr n) = fd → fd ∉ L → has_event EPOLLIN (tr n) = true →
  a_recv (ev_answers (tr n)) = Some d → d ≠ "" → (String.length d ≤ Z.to_nat BUFFER_LENGTH)%nat →
  ∃ ns r t ns', as_links (A n).2 !! fd = Some (Link ns None) ∧
    handler (overwrite d zero_buffer) (Z.of_nat (String.length d)) (PStr ns) (A n).1 (as_app (A n).2) =
      Ret (r, (A (S n)).1, as_app (A (S n)).2) ∧
    reply_bytes (h_reply r) = Some t ∧ as_links (A (S n)).2 !! fd = Some (Link ns' (Some t)).
Proof.
  intros HA Hfd HL Hin Hd Hne Hlen. destruct (HA n) as [Hr Hev]. apply reported_cases in Hr. rewrite Hfd, Hin in Hr.
  unfold spec_event, mbind, M_bind, get_st in Hev. rewrite Hfd, Hin, decide_False in Hev by done.
  assert (Hl : ∃ l, as_links (A n).2 !! fd = Some l ∧ l_out l = None).
  { destruct (has_event EPOLLOUT (tr n)); [done|]. by destruct Hr. }
  destruct Hl as ([ns out] & Hl & Ho). simpl in Ho. subst out. rewrite Hl in Hev. simpl in Hev.
  unfold spec_recv in Hev. rewrite Hd in Hev.
  change (str_take ?n <$> Some d) with (Some (str_take n d)) in Hev. rewrite str_take_ge in Hev by done.
  destruct d as [|ch d]; [done|]. set (data := String ch d) in *. unfold mbind, M_bind, zoom in Hev.
  destruct (handler _ _ _ _ _) as [[[r e1] x1]| |] eqn:Hh; [|done..].
  destruct (reply_bytes (h_reply r)) as [t|] eqn:Ht; [|done]. injection Hev as He Ha.
  eexists ns, r, t, _. rewrite <-He, <-Ha. simpl. rewrite lookup_insert_eq. done.
Qed.

(** C4: every request is answered.  In an endless execution in which [epoll_wait]
    keeps reporting the connection and [send] takes whole replies, the bytes
    received at any point are followed by the reply of the handler to them: it is
    what the connection's next event sends, and the loop returns from every event
    until then. *)
Theorem every_request_is_answered A port socks app e s fd d n :
  sockets_ok U socks → L = list_to_set socks.*1 →
  open_ports port 0 socks e (boot_server app U) = Ret (tt, e, s) →
  spec_execution A → A 0%nat = (e, AServer app ∅ []) →
  (* the connection is never forgotten, and its replies are taken whole *)
  (∀ i, ∃ j, (i < j)%nat ∧ ev_fd (tr j) = fd ∧ reacts (tr j) = true) →
  (∀ i, ev_fd (tr i) = fd → BUFFER_LENGTH ≤ a_send (ev_answers (tr i))) →
  (* at [n], a request arrives *)
  ev_fd (tr n) = fd → fd ∉ L → has_event EPOLLIN (tr n) = true →
  a_recv (ev_answers (tr n)) = Some d → d ≠ "" → (String.length d ≤ Z.to_nat BUFFER_LENGTH)%nat →
  let run i := run_to handler tr i (e, s) in
  ∃ m ns r t, (n < m)%nat ∧
    handler (overwrite d zero_buffer) (Z.of_nat (String.length d)) (PStr ns) (run n).1 (sv_app (run n).2) =
      Ret (r, (run (S n)).1, sv_app (run (S n)).2) ∧
    reply_bytes (h_reply r) = Some t ∧
    (∀ i, handle_event handler (tr i) (run i).1 (run i).2 = Ret (tt, (run (S i)).1, (run (S i)).2)) ∧
    (∀ i, (n < i < m)%nat → ev_fd (tr i) = fd → reacts (tr i) = false) ∧
    has_event EPOLLOUT (tr m) = true ∧ answered_at fd t (run m) (run (S m)).
Proof.
  intros Hsk HL Hopen HA H0 Hfair Hwhole Hfd HfL Hin Hd Hne Hlen run.
  assert (Hs : serves L U (A 0%nat).2 s).
  { rewrite H0. eapply (opening_serves L U L); [done|].
    assert (Hw : wp (open_ports port 0 socks) e (boot_server app U) (λ _ _ s', opening U L app s')).
    { apply (wp_open_ports U ∅ app); [|done|by apply Forall_true|].
      - split; simpl; [done|done|done|set_solver|done|set_solver].
      - intros s' Ho. by rewrite (union_empty_r_L _), <-HL in Ho. }
    unfold wp in Hw. by rewrite Hopen in Hw. }
  assert (He : A 0%nat = (e, (A 0%nat).2)) by by rewrite H0.
  pose proof (λ i, run_to_serves A e s i HA He Hs) as Hrun.
  destruct (request_owes A fd d n HA Hfd HfL Hin Hd Hne Hlen) as (ns & r & t & ns' & _ & Hh & Ht & Hl').
  destruct (next_index (λ i, bool_decide (ev_fd (tr i) = fd) && reacts (tr i)) n) as (m & Hnm & Hm & Hmin).
  { destruct (Hfair n) as (j & Hj & Hjf & Hjr). exists j. split; [done|]. by rewrite bool_decide_eq_true_2. }
  apply andb_true_iff in Hm as [Hmf%bool_decide_eq_true Hmr].
  assert (Hlm : as_links (A m).2 !! fd = Some (Link ns' (Some t))).
  { eapply (owed_until A fd _ (S n)); [done..|lia|]. intros i Hi. apply Hmin. lia. }
  destruct (reply_goes_out A fd ns' t m) as [Hout Hsent]; try done.
  { apply reply_bytes_le in Ht. specialize (Hwhole m Hmf). lia. }
  exists m, ns, r, t. unfold run, answered_at.
  destruct (Hrun n) as (-> & Hsn & _), (Hrun (S n)) as (-> & HsSn & _), (Hrun m) as (_ & Hsm & _),
    (Hrun (S m)) as (_ & HsSm & _).
  rewrite (se_app _ _ _ _ Hsn), (se_app _ _ _ _ HsSn), (se_sent _ _ _ _ Hsm), (se_sent _ _ _ _ HsSm).
  split_and!; [done..| | |done|done].
  - intros i. by destruct (Hrun i) as (_ & _ & ->).
  - intros i Hi Hif. specialize (Hmin i Hi). by rewrite bool_decide_eq_true_2 in Hmin.
Qed.
End live.

(** A client that connects and asks for ever, and a handler that says OK. *)
Definition ok_handler : msg_handler unit := λ msg _ ns, mret (Handled msg (Reply "OK" 2) ns).
Definition chat (n : nat) : event :=
  match n with
  | O => Event 4 EPOLLIN (Answers 24 None 0 0)
  | S n' => if Nat.even n' then Event 24 EPOLLIN (Answers (-1) (Some "PING") 1024 0)
            else Event 24 EPOLLOUT (Answers (-1) None 1024 0)
  end.
Definition chat_env : env := Env [] [] [] [] 0.
Definition chat_link (n : nat) : link := Link "default" (if Nat.even n then None else Some "OK").
Definition chat_state (n : nat) : env * aserver unit :=
  match n with
  | O => (chat_env, AServer tt ∅ [])
  | S n' => (chat_env, AServer tt {[ 24 := chat_link n' ]} (replicate (Nat.div2 n') (24, "OK")))
  end.
Lemma chat_execution : spec_execution ok_handler {[ 4 ]} sample_used chat chat_state.
Proof.
  intros [|n].
  { split; [exists EPOLLIN; split; [vm_compute; reflexivity|split; [discriminate|discriminate]]|].
    vm_compute. reflexivity. }
  cbn [chat chat_state fst snd]. destruct (Nat.even n) eqn:Hn.
  - assert (Hl : chat_link n = Link "default" None) by (unfold chat_link; by rewrite Hn).
    assert (Hl' : chat_link (S n) = Link "default" (Some "OK")).
    { unfold chat_link. by rewrite Nat.even_succ, <-Nat.negb_even, Hn. }
    rewrite Hl, Hl'. apply Nat.even_spec in Hn as [k ->].
    replace (Nat.div2 (S (2 * k))) with k by (by rewrite Nat.div2_succ_double).
    rewrite Nat.div2_double. split; [|reflexivity].
    exists EPOLLIN. split; [reflexivity|split; [discriminate|discriminate]].
  - assert (Hl : chat_link n = Link "default" (Some "OK")) by (unfold chat_link; by rewrite Hn).
    assert (Hl' : chat_link (S n) = Link "default" None).
    { unfold chat_link. by rewrite Nat.even_succ, <-Nat.negb_even, Hn. }
    rewrite Hl, Hl'. rewrite <-Nat.negb_odd in Hn. apply negb_false_iff, Nat.odd_spec in Hn as [k ->].
    replace (2 * k + 1)%nat with (S (2 * k)) by lia.
    change (Nat.div2 (S (S ?x))) with (S (Nat.div2 x)). rewrite Nat.div2_double.
    rewrite Nat.div2_succ_double. split.
    + exists EPOLLOUT. split; [reflexivity|split; [discriminate|discriminate]].
    + rewrite replicate_S_end. reflexivity.
Qed.
Lemma every_request_is_answered_witness :
  ∃ s, open_ports 8000 0 [(4, 0)] chat_env (boot_server tt sample_used) = Ret (tt, chat_env, s) ∧
  let run i := run_to ok_handler chat i (chat_env, s) in
  ∃ m ns r t, (1 < m)%nat ∧
    ok_handler (overwrite "PING" zero_buffer) 4 (PStr ns) (run 1%nat).1 (sv_app (run 1%nat).2) =
      Ret (r, (run 2%nat).1, sv_app (run 2%nat).2) ∧
    reply_bytes (h_reply r) = Some t ∧
    (∀ i, handle_event ok_handler (chat i) (run i).1 (run i).2 = Ret (tt, (run (S i)).1, (run (S i)).2)) ∧
    (∀ i, (1 < i < m)%nat → ev_fd (chat i) = 24 → reacts (chat i) = false) ∧
    has_event EPOLLOUT (chat m) = true ∧ answered_at 24 t (run m) (run (S m)).
Proof.
  eexists. split; [reflexivity|].
  apply (every_request_is_answered ok_handler {[ 4 ]} sample_used chat chat_state 8000 [(4, 0)] tt chat_env).
  - split; [repeat constructor; set_solver|]. repeat constructor; done.
  - apply (bool_decide_unpack (_ = _)). vm_compute. exact I.
  - reflexivity.
  - apply chat_execution.
  - reflexivity.
  - intros i. exists (S (S i)). split_and!; [lia|..]; cbn [chat]; by destruct (Nat.even (S i)).
  - intros [|i]; [discriminate|]. intros _. simpl. destruct (Nat.even i); discriminate.
  - reflexivity.
  - set_solver.
  - reflexivity.
  - reflexivity.
  - discriminate.
  - apply Nat.leb_le. vm_compute. reflexivity.
Defined.
