(* ===== verification/NetTypes.v ===== *)
(** The arrays of the server keep their sizes, whatever bytes arrive and in whatever order
    the events come, in every run that does not reach undefined behaviour
    ([server_arrays_typed]; an overrun of an array is undefined behaviour); and no request
    that chooses a namespace reaches it ([namespace_request_fits]). *)
From Stdlib Require Import SpecFloat.
From stdpp Require Import pretty.
From S2P Require Import Prelude CText KvsSpec KvsArray KvsHash RbTree SkipList CacheModel CacheStats Vector Rdb RdbProof Protocol Requests Dispatch Engines Netio Reactor ReactorProof.

Local Open Scope Z_scope.

(** * What every command keeps *)

(** The text of a namespace fits in [namespace[64]]. *)
Definition ns_fits (p : cptr) : Prop :=
  match p with PStr ns => (String.length ns ≤ 63)%nat | _ => True end.
Definition ns_typed (s : store) : Prop := ns_fits (st_ns s).
(** When [m] returns, [I] still holds, and the result satisfies [P]. *)
Definition retains {S A} (I : S → Prop) (m : M S A) (P : A → Prop) : Prop :=
  ∀ e s a e' s', I s → m e s = Ret (a, e', s') → I s' ∧ P a.
Definition anything {A} : A → Prop := λ _, True.
Abbreviation keeps := (retains ns_typed).

Section retains.
Context {S : Type} (I : S → Prop).
Lemma retains_ret {A} (a : A) (P : A → Prop) : P a → retains I (mret a) P.
Proof. intros Ha e s ? ? ? Hs [= <- <- <-]. done. Qed.
Lemma retains_bind {A B} (m : M S A) (k : A → M S B) R P :
  retains I m R → (∀ a, R a → retains I (k a) P) → retains I (m ≫= k) P.
Proof.
  intros Hm Hk e s b e' s' Hs H. unfold mbind, M_bind in H.
  destruct (m e s) as [[[a e1] s1]| |] eqn:H1; [|done..]. destruct (Hm _ _ _ _ _ Hs H1). by eapply Hk.
Qed.
Lemma retains_ub {A} (P : A → Prop) : retains I ub P.
Proof. by intros ?????. Qed.
Lemma retains_gets {A} (f : S → A) (P : A → Prop) : (∀ s, I s → P (f s)) → retains I (gets f) P.
Proof. intros H e s a e' s' Hs [= <- <- <-]. auto. Qed.
Lemma retains_modify (f : S → S) : (∀ s, I s → I (f s)) → retains I (modify f) anything.
Proof. intros H e s a e' s' Hs [= <- <- <-]. split; [auto|done]. Qed.
End retains.

Lemma keeps_same {A} (m : M store A) :
  (∀ e s a e' s', m e s = Ret (a, e', s') → st_ns s' = st_ns s) → keeps m anything.
Proof. intros H e s a e' s' Hs Hm. unfold ns_typed. by rewrite (H _ _ _ _ _ Hm). Qed.
Lemma keeps_zoom {S A} (get : store → S) (set : S → store → store) (m : M S A) :
  (∀ u s, st_ns (set u s) = st_ns s) → keeps (zoom get set m) anything.
Proof.
  intros Hset. apply keeps_same. intros e s a e' s'. unfold zoom.
  destruct (m e (get s)) as [[[? ?] ?]| |]; [|done..]. intros [= <- <- <-]. apply Hset.
Qed.
Lemma keeps_in_data {A} (m : M dataset A) : keeps (in_data m) anything.
Proof. by apply keeps_zoom. Qed.
Lemma keeps_in_vector {A} (m : M kvs_vector A) : keeps (in_vector m) anything.
Proof. by apply keeps_zoom. Qed.
Lemma keeps_in_cache {A} (m : M CacheManager A) : keeps (in_cache m) anything.
Proof. by apply keeps_zoom. Qed.
Lemma keeps_deref p : keeps (deref p) anything.
Proof. destruct p; [apply retains_ub|by apply retains_ret|apply retains_ub]. Qed.
Lemma keeps_gets {A} (f : store → A) : keeps (gets f) anything.
Proof. apply keeps_same. by intros e s a e' s' [= <- <- <-]. Qed.
Lemma keeps_wall : keeps wall_time anything.
Proof. apply keeps_same. intros e s a e' s'. unfold wall_time. by destruct (walls e); intros [= <- <- <-]. Qed.

(** A reply that the response buffer holds, with its NUL. *)
Definition fits_response (r : reply) : Prop := Z.of_nat (String.length (r_text r)) < RESPONSE_MAX_LEN.
Lemma keeps_say t : keeps (say t) fits_response.
Proof. unfold say. case_decide; [by apply retains_ret|apply retains_ub]. Qed.
Lemma substring_le n s : (String.length (String.substring 0 n s) ≤ n)%nat.
Proof. revert n. induction s as [|c s IH]; intros [|n]; simpl; try lia. specialize (IH n). lia. Qed.
Lemma keeps_say_n t : keeps (say_n t) fits_response.
Proof.
  apply retains_ret. unfold fits_response. cbn [r_text]. unfold truncate.
  pose proof (substring_le (pred (Z.to_nat RESPONSE_MAX_LEN)) t). unfold RESPONSE_MAX_LEN in *. lia.
Qed.

Create HintDb net_types discriminated.
#[export] Hint Resolve keeps_in_data keeps_in_vector keeps_in_cache keeps_deref keeps_gets keeps_wall keeps_say
  keeps_say_n retains_ub : net_types.

(** Follows the code of a command. *)
Ltac keeps_step :=
  lazymatch goal with
  | |- retains _ (_ ≫= _) _ => eapply retains_bind; [|intros ? ?]
  | |- retains _ (if ?b then _ else _) _ => destruct b
  | |- retains _ (match ?x with _ => _ end) _ => destruct x
  | |- retains _ (mret _) anything => by apply retains_ret
  | |- retains _ _ _ => solve [eauto with net_types]
  end.
Ltac keeps_auto := repeat keeps_step.

(** ** The commands *)

Lemma keeps_actual_key k : keeps (actual_key k) anything.
Proof. unfold actual_key, make_namespaced_key. keeps_auto. Qed.
Lemma keeps_cat ts n z : keeps (cat_tokens ts n z) anything.
Proof. unfold cat_tokens. keeps_auto. Qed.
#[export] Hint Resolve keeps_actual_key keeps_cat : net_types.

Section engine.
Context (ops : kv_ops store).
Context (Hset : ∀ k v, keeps (kv_set ops k v) anything) (Hget : ∀ k, keeps (kv_get ops k) anything).
Context (Hdel : ∀ k, keeps (kv_del ops k) anything) (Hmod : ∀ k v, keeps (kv_mod ops k v) anything).
Context (Hexist : ∀ k, keeps (kv_exist ops k) anything).
Lemma keeps_engine k v :
  keeps (cmd_set ops k v) fits_response ∧ keeps (cmd_get ops k) fits_response ∧
  keeps (cmd_del ops k) fits_response ∧ keeps (cmd_mod ops k v) fits_response ∧
  keeps (cmd_exist ops k) fits_response.
Proof.
  unfold cmd_set, cmd_get, cmd_del, cmd_mod, cmd_exist. split_and!; keeps_auto.
Qed.
End engine.

Lemma keeps_lifted {S} (lift : ∀ A, M S A → M store A) (ops : kv_ops S) k v :
  (∀ A (m : M S A), keeps (lift A m) anything) →
  keeps (cmd_set (lift_ops lift ops) k v) fits_response ∧ keeps (cmd_get (lift_ops lift ops) k) fits_response ∧
  keeps (cmd_del (lift_ops lift ops) k) fits_response ∧ keeps (cmd_mod (lift_ops lift ops) k v) fits_response ∧
  keeps (cmd_exist (lift_ops lift ops) k) fits_response.
Proof. intros H. apply keeps_engine; intros; apply H. Qed.

(** The lines of a search: the text never reaches the end of the buffer. *)
Lemma keeps_results l t len :
  Z.of_nat (String.length t) < RESPONSE_MAX_LEN → Z.of_nat (String.length t) ≤ len →
  keeps (print_results l t len) fits_response.
Proof.
  revert t len. induction l as [|[id dist] l IH]; intros t len Ht Hl; cbn [print_results]; [by apply retains_ret|].
  eapply retains_bind; [auto with net_types|]. intros rkey _.
  eapply (retains_bind _ _ _ anything); [keeps_auto|]. intros s _. case_decide; [apply retains_ub|]. cbv zeta.
  set (piece := s +:+ " " +:+ fmt_f 4 dist +:+ crlf).
  pose proof (substring_le (pred (Z.to_nat (RESPONSE_MAX_LEN - len))) piece) as Hp.
  assert (Hp' : (String.length (String.substring 0 (pred (Z.to_nat (RESPONSE_MAX_LEN - len))) piece) ≤ String.length piece)%nat).
  { clear. generalize (pred (Z.to_nat (RESPONSE_MAX_LEN - len))). intros n. revert n.
    induction piece as [|c p IH]; intros [|n]; simpl; try lia. specialize (IH n). lia. }
  apply IH; unfold truncate; rewrite str_len_app; lia.
Qed.

Lemma keeps_set_ns t : keeps (set_namespace t) anything.
Proof.
  unfold set_namespace. eapply retains_bind; [auto with net_types|]. intros ns _. destruct (is_null ns); [apply retains_ub|].
  intros e s a e' s' Hs [= <- <- <-]. split; [|done]. exact (str_take_length 63 t).
Qed.
Lemma keeps_children d : keeps (modify (λ s, s_set_children (d s) s)) anything.
Proof. apply keeps_same. by intros e s a e' s' [= <- <- <-]. Qed.
#[export] Hint Resolve keeps_set_ns keeps_children : net_types.

Lemma keeps_vector cmd tokens key m :
  vector_command cmd tokens key = Some m → keeps m fits_response.
Proof.
  intros H. destruct cmd; simplify_eq/=; unfold cmd_vset, cmd_vget, cmd_vdel, cmd_vcount, cmd_vsearch; try keeps_auto.
  by apply keeps_results.
Qed.
Lemma keeps_cache cmd tokens m : cache_command cmd tokens = Some m → keeps m fits_response.
Proof. intros H. destruct cmd; simplify_eq/=; unfold cmd_policy; keeps_auto. Qed.
Lemma keeps_namespace tokens : keeps (cmd_namespace tokens) fits_response.
Proof. unfold cmd_namespace. keeps_auto. Qed.
Lemma keeps_persist : keeps cmd_save fits_response ∧ keeps cmd_bgsave fits_response ∧ keeps cmd_lastsave fits_response.
Proof. unfold cmd_save, cmd_bgsave, cmd_lastsave, sys_reading. split_and!; keeps_auto. Qed.

Lemma keeps_filter tokens : keeps (kvs_filter_protocol tokens) fits_response.
Proof.
  unfold kvs_filter_protocol. destruct tokens as [|t0 ts]; [by apply retains_ret|].
  set (tokens := t0 :: ts). set (cmd := find_cmd t0 command). cbv zeta.
  match goal with |- context [array_command cmd ?k ?v] => set (key := k); set (value := v) end.
  destruct (takes_value cmd && _); [auto with net_types|].
  pose proof (keeps_lifted (λ A m, in_data (in_array m)) array_ops key value (λ A m, keeps_in_data _)) as Ha.
  pose proof (keeps_lifted (λ A m, in_data (in_rbtree m)) rbtree_ops key value (λ A m, keeps_in_data _)) as Hr.
  pose proof (keeps_lifted (λ A m, in_data (in_hash m)) hash_ops key value (λ A m, keeps_in_data _)) as Hh.
  pose proof (keeps_lifted (λ A m, in_data (in_skip m)) skip_ops key value (λ A m, keeps_in_data _)) as Hs.
  destruct keeps_persist as (Hsave & Hbg & Hlast).
  destruct (vector_command cmd tokens key) as [mv|] eqn:Hv; [apply keeps_vector in Hv|];
  destruct (cache_command cmd tokens) as [mc|] eqn:Hc; try apply keeps_cache in Hc;
    destruct cmd; simpl; try done; first [apply Ha|apply Hr|apply Hh|apply Hs|apply keeps_namespace|auto with net_types].
Qed.
Lemma keeps_protocol msg len : keeps (kvs_protocol msg len) fits_response.
Proof.
  unfold kvs_protocol. destruct msg as [m|]; [|by apply retains_ret]. destruct (len <=? 0); [by apply retains_ret|].
  destruct (kvs_split_token _) as [|t ts]; [auto with net_types|].
  eapply retains_bind; [apply keeps_filter|]. intros r Hr. destruct (_ <? _); [auto with net_types|by apply retains_ret].
Qed.

(** * The handler keeps its arrays *)

(** What the network loops ask of a message handler: it stays inside the array of
    the request, inside the response and inside the namespace. *)
Class TypedHandler {St} (handler : msg_handler St) : Prop :=
  typed_handler msg len ns e x h e' x' :
    ns_fits ns → handler msg len ns e x = Ret (h, e', x') →
    String.length (h_msg h) = String.length msg ∧ fits_response (h_reply h) ∧ ns_fits (h_ns h).

Global Instance kvs_handler_typed : TypedHandler kvs_handler.
Proof.
  intros msg len ns e x h e' x' Hns H. unfold kvs_handler in H.
  destruct (c_text msg) as [m|] eqn:Hm; [|done]. apply c_text_inv in Hm as [Hnul [tail ->]].
  destruct (split_in_place (Z.to_nat len) m tail (S (String.length (m +:+ String NUL tail))))
    as (w & t' & Hs & Hw & Ht & _); [done|rewrite str_len_app; lia|].
  rewrite Hs in H. unfold mbind, M_bind, modify, gets in H.
  destruct (kvs_protocol (Some m) len e (s_set_ns ns x)) as [[[r e1] x1]| |] eqn:Hp; [|done..].
  apply keeps_protocol in Hp as [Hns1 Hr]; [|done]. injection H as <- <- <-. split_and!; [|done|done].
  cbn [h_msg]. rewrite !str_len_app. simpl. lia.
Qed.

(** * The server keeps its arrays *)

Record conn_typed (c : conn) : Prop := {
  ct_rbuffer : Z.of_nat (String.length (c_rbuffer c)) = BUFFER_LENGTH;
  ct_wbuffer : Z.of_nat (String.length (c_wbuffer c)) = BUFFER_LENGTH;
  ct_namespace : (String.length (c_namespace c) ≤ 63)%nat
}.
Definition server_typed {St} (s : server St) : Prop :=
  length (sv_conns s) = CONNECTION_SIZE ∧ Forall conn_typed (sv_conns s).

Section reactor_types.
Context {St : Type} (handler : msg_handler St) `{!TypedHandler handler}.
Abbreviation stays := (retains (server_typed (St := St))).

Lemma stays_kernel f : stays (syscall f) anything.
Proof. apply retains_modify. by intros s Hs. Qed.
Lemma stays_conn_at fd : stays (conn_at fd) conn_typed.
Proof.
  unfold conn_at. apply (retains_bind _ _ _ (Forall conn_typed)); [by apply retains_gets; intros s []|].
  intros l Hl. destruct (fd <? 0); [apply retains_ub|].
  destruct (l !! Z.to_nat fd) as [c|] eqn:Hc; [|apply retains_ub]. apply retains_ret.
  by eapply Forall_lookup_1 in Hc.
Qed.
Lemma stays_set_conn fd c : conn_typed c → stays (set_conn fd c) anything.
Proof.
  intros Hc. apply retains_modify. intros s [Hl Hf]. split; simpl; [by rewrite length_insert|].
  by apply Forall_insert.
Qed.
Lemma stays_set_event fd m flag : stays (set_event fd m flag) anything.
Proof. unfold set_event. eapply retains_bind; [apply stays_kernel|]. intros _ _. by apply retains_ret. Qed.
Lemma zero_typed fd cb ns : (String.length ns ≤ 63)%nat →
  conn_typed (Conn fd zero_buffer 0 zero_buffer 0 (Some Send_cb) cb ns).
Proof. intros Hns. by split; [apply zero_buffer_length|apply zero_buffer_length|]. Qed.

Lemma stays_register fd m : stays (event_register fd m) anything.
Proof.
  unfold event_register. destruct (fd <? 0); [by apply retains_ret|].
  eapply retains_bind; [apply stays_conn_at|]. intros _ _.
  eapply retains_bind; [apply stays_set_conn, zero_typed; simpl; lia|]. intros _ _.
  eapply retains_bind; [apply stays_set_event|]. intros _ _. by apply retains_ret.
Qed.
Lemma stays_accept k fd : stays (accept_cb k fd) anything.
Proof.
  unfold accept_cb. destruct (_ <? 0); [by apply retains_ret|].
  eapply retains_bind; [apply stays_kernel|]. intros _ _.
  eapply retains_bind; [apply stays_register|]. intros _ _.
  eapply (retains_bind _ _ _ anything); [|intros _ _; by apply retains_ret].
  destruct (_ =? 0); [apply retains_modify; by intros s Hs|by apply retains_ret].
Qed.

Lemma write_reply_typed r buf :
  fits_response r → Z.of_nat (String.length buf) = BUFFER_LENGTH →
  Z.of_nat (String.length (write_reply r buf)) = BUFFER_LENGTH.
Proof.
  unfold fits_response, write_reply, RESPONSE_MAX_LEN, BUFFER_LENGTH. intros Hr Hb. destruct (_ <? 0); [done|].
  assert (String.length (r_text r +:+ String NUL "") = S (String.length (r_text r)))
    by (rewrite str_len_app; simpl; lia).
  rewrite overwrite_length; lia.
Qed.
Lemma stays_request c : conn_typed c → stays (kvs_request handler c) conn_typed.
Proof.
  intros [Hr Hw Hn]. unfold kvs_request.
  apply (retains_bind _ _ _ (λ h, String.length (h_msg h) = String.length (c_rbuffer c) ∧
    fits_response (h_reply h) ∧ ns_fits (h_ns h))).
  - intros e s h e' s' Hs H. unfold zoom in H.
    destruct (handler _ _ _ e (sv_app s)) as [[[h' e1] x1]| |] eqn:Hh; [|done..]. injection H as <- <- <-.
    split; [exact Hs|]. by eapply typed_handler in Hh.
  - intros h (Hm & Hf & Hns). apply retains_ret. split; simpl.
    + lia.
    + by apply write_reply_typed.
    + by destruct (h_ns h).
Qed.
Lemma stays_recv k fd : stays (recv_cb handler k fd) anything.
Proof.
  unfold recv_cb. eapply retains_bind; [apply stays_conn_at|]. intros c Hc.
  assert (Hgone : stays (set_conn fd (conn_set_r zero_buffer (c_rlength c) c);; syscall (k_closed fd);;
    syscall (epoll_ctl EPOLL_CTL_DEL fd 0);; mret 0) anything).
  { eapply retains_bind; [apply stays_set_conn|]. { by destruct Hc. }
    intros _ _. eapply retains_bind; [apply stays_kernel|]. intros _ _. eapply retains_bind; [apply stays_kernel|].
    intros _ _. by apply retains_ret. }
  destruct (a_recv k) as [data|]; [|done]. change (str_take ?n <$> Some data) with (Some (str_take n data)).
  pose proof (str_take_length (Z.to_nat BUFFER_LENGTH) data) as Hlen.
  destruct (str_take (Z.to_nat BUFFER_LENGTH) data) as [|ch d]; [done|]. cbv zeta.
  eapply retains_bind; [apply stays_request|].
  - destruct Hc. split; try done. cbn [conn_set_r c_rbuffer]. rewrite overwrite_length; [apply zero_buffer_length|].
    pose proof zero_buffer_length. unfold BUFFER_LENGTH in *. lia.
  - intros c' Hc'. eapply retains_bind; [by apply stays_set_conn|]. intros _ _.
    eapply retains_bind; [apply stays_set_event|]. intros _ _. by apply retains_ret.
Qed.
Lemma stays_send k fd : stays (send_cb k fd) anything.
Proof.
  unfold send_cb, kvs_response, send. eapply retains_bind; [apply stays_conn_at|]. intros c Hc.
  eapply (retains_bind _ _ _ anything); [by apply retains_ret|]. intros _ _.
  eapply (retains_bind _ _ _ anything).
  - destruct (_ =? 0); [by apply retains_ret|]. destruct (_ || _); [apply retains_ub|].
    destruct (_ <? 0); [by apply retains_ret|]. eapply retains_bind; [apply stays_kernel|].
    intros _ _. by apply retains_ret.
  - intros count _. eapply retains_bind; [apply stays_set_event|]. intros _ _. by apply retains_ret.
Qed.
Lemma stays_call cb k fd : stays (call handler cb k fd) anything.
Proof.
  destruct cb as [[]|]; [apply stays_accept|apply stays_recv|apply stays_send|apply retains_ub].
Qed.
Lemma stays_event ev : stays (handle_event handler ev) anything.
Proof.
  unfold handle_event. eapply (retains_bind _ _ _ anything); [|intros _ _];
    (destruct (has_event _ _); [|by apply retains_ret]);
    (eapply retains_bind; [apply stays_conn_at|]; intros c Hc;
     eapply retains_bind; [apply stays_call|]; intros _ _; by apply retains_ret).
Qed.
Lemma stays_loop batches : stays (mainloop handler batches) anything.
Proof.
  assert (Hevs : ∀ evs, stays (handle_events handler evs) anything).
  { induction evs as [|ev evs IH]; [by apply retains_ret|]. eapply retains_bind; [apply stays_event|]. by intros _ _. }
  induction batches as [|evs bs IH]; [by apply retains_ret|]. eapply retains_bind; [apply Hevs|]. by intros _ _.
Qed.
Lemma stays_ports port i socks : stays (open_ports port i socks) anything.
Proof.
  revert i. induction socks as [|[fd b] socks IH]; intros i; [by apply retains_ret|]. cbn [open_ports].
  eapply (retains_bind _ _ _ anything); [|by intros _ _]. unfold open_port, r_init_server.
  eapply (retains_bind _ _ _ anything).
  { eapply (retains_bind _ _ _ anything); [|intros _ _; by apply retains_ret].
    destruct (fd <? 0); [by apply retains_ret|apply stays_kernel]. }
  intros sockfd _. eapply retains_bind; [apply stays_conn_at|]. intros c Hc.
  eapply retains_bind; [apply stays_set_conn; by destruct Hc|]. intros _ _.
  eapply retains_bind; [apply stays_set_event|]. intros _ _. by apply retains_ret.
Qed.
End reactor_types.

(** Whatever the kernel reports and whatever bytes arrive, also outside of every contract:
    as long as the server has not run into undefined behaviour, every connection has its
    two buffers of 1024 bytes, and a namespace that fits in 64 bytes with its NUL. *)
Theorem server_arrays_typed port socks now batches app U e e' s' :
  reactor_start kvs_handler port socks now batches e (boot_server app U) = Ret (tt, e', s') →
  server_typed s'.
Proof.
  assert (H : retains server_typed (reactor_start kvs_handler port socks now batches) anything).
  { unfold reactor_start. eapply retains_bind; [apply stays_ports|]. intros _ _.
    eapply retains_bind; [apply retains_modify; by intros s Hs|]. intros _ _. apply stays_loop, kvs_handler_typed. }
  intros Hrun. apply H in Hrun as [? _]; [done|]. split; [done|].
  apply Forall_replicate. split; [apply zero_buffer_length|apply zero_buffer_length|simpl; lia].
Qed.
Lemma server_arrays_typed_witness :
  ∃ e' s', reactor_start kvs_handler 8000 sample_sockets 0 sample_batches (Env [] [] [] [] 0)
    (boot_server (boot_store ∅) sample_used) = Ret (tt, e', s') ∧ server_typed s'.
Proof.
  destruct (proj1 (wp_run _ _ _ _) (wp_reactor_start kvs_handler sample_used 8000 sample_sockets 0 sample_batches
    (boot_store ∅) (Env [] [] [] [] 0) _ eq_refl sample_sockets_ok sample_spec_run)) as ([] & e' & s' & H & _).
  exists e', s'. split; [exact H|]. exact (server_arrays_typed _ _ _ _ _ _ _ _ _ H).
Defined.

(** * Choosing a namespace *)

(** The namespace, and the answer, after NS or NAMESPACE with these arguments. *)
Definition ns_set (t : string) : string * string := (str_take 63 t, "Namespace set to: " +:+ str_take 63 t +:+ crlf).
Definition ns_reset : string * string := ("default", "Namespace reset to: default" +:+ crlf).
Definition ns_show (ns : string) : string * string := (ns, "Current namespace: " +:+ ns +:+ crlf).
Definition ns_command (ts : list string) (ns : string) : string * string :=
  match ts with
  | [] => ns_show ns
  | [t] => if decide (t = "RESET") then ns_reset else ns_set t
  | t :: u :: _ => if decide (t = "SET") then ns_set u else if decide (t = "RESET") then ns_reset else ns_show ns
  end.
Lemma ns_command_fits ts ns : (String.length ns ≤ 63)%nat →
  (String.length (ns_command ts ns).1 ≤ 63)%nat ∧ (String.length (ns_command ts ns).2 ≤ 100)%nat.
Proof.
  intros Hns. assert (H : ∀ t, (String.length (ns_set t).1 ≤ 63)%nat ∧ (String.length (ns_set t).2 ≤ 100)%nat).
  { intros t. pose proof (str_take_length 63 t) as Ht. unfold ns_set. cbn [fst snd]. rewrite !str_len_app.
    generalize dependent (str_take 63 t). intros u Hu. simpl. lia. }
  assert (Hr : (String.length ns_reset.1 ≤ 63)%nat ∧ (String.length ns_reset.2 ≤ 100)%nat) by (simpl; lia).
  assert (Hs : (String.length (ns_show ns).1 ≤ 63)%nat ∧ (String.length (ns_show ns).2 ≤ 100)%nat).
  { unfold ns_show. cbn [fst snd]. rewrite !str_len_app. simpl. lia. }
  destruct ts as [|t [|u ts]]; cbn [ns_command]; repeat case_decide; auto.
Qed.
Lemma wp_cmd_namespace kw ts ns e s Q :
  st_ns s = PStr ns → (String.length ns ≤ 63)%nat →
  Q (text (ns_command ts ns).2) e (s_set_ns (PStr (ns_command ts ns).1) s) → wp (cmd_namespace (kw :: ts)) e s Q.
Proof.
  intros Hns Hlen HQ. destruct (ns_command_fits ts ns Hlen) as [_ Hfit].
  assert (Hsay : ∀ t s', t = (ns_command ts ns).2 → s' = s_set_ns (PStr (ns_command ts ns).1) s → wp (say t) e s' Q).
  { intros t s' -> ->. apply wp_say; [unfold RESPONSE_MAX_LEN; lia|done]. }
  assert (Hsame : s = s_set_ns (PStr ns) s) by (destruct s; simpl in *; by subst).
  assert (Hset : ∀ t (k : M store reply), wp k e (s_set_ns (PStr (str_take 63 t)) s) Q → wp (set_namespace t;; k) e s Q).
  { intros t k Hk. unfold set_namespace. do 3 wp_step. rewrite Hns. simpl is_null. cbv iota. by wp_step. }
  assert (Hshow : (ns_command ts ns) = ns_show ns →
    wp (ns ← gets st_ns; s ← (if is_null ns then mret "default" else deref ns); say ("Current namespace: " +:+ s +:+ crlf)) e s Q).
  { intros H. do 2 wp_step. rewrite Hns. simpl is_null. cbv iota. do 2 wp_step. rewrite H in Hsay. by apply Hsay. }
  assert (Hto : ∀ t, (ns_command ts ns) = ns_set t →
    wp (set_namespace t;; ns ← gets st_ns; ns ← deref ns; say ("Namespace set to: " +:+ ns +:+ crlf)) e s Q).
  { intros t H. apply Hset. do 2 wp_step. change (st_ns (s_set_ns ?p s)) with p. do 2 wp_step. rewrite H in Hsay. by apply Hsay. }
  assert (Hreset : (ns_command ts ns) = ns_reset →
    wp (set_namespace "default";; say ("Namespace reset to: default" +:+ crlf)) e s Q).
  { intros H. apply Hset. rewrite H in Hsay. by apply Hsay. }
  unfold cmd_namespace. destruct ts as [|t [|u ts]]; cbn [ns_command] in *.
  - by apply Hshow.
  - change (is_token [kw; t] 1 "RESET") with (strcmp t "RESET" =? 0). rewrite strcmp_eqb.
    change (3 <=? length [kw; t])%nat with false. rewrite andb_false_r. change (2 <=? length [kw; t])%nat with true.
    rewrite andb_true_l. destruct (decide (t = "RESET")) as [->|Hne]; [by apply Hreset|].
    rewrite (proj2 (String.eqb_neq _ _) Hne). by apply Hto.
  - change (is_token (kw :: t :: u :: ts) 1 "RESET") with (strcmp t "RESET" =? 0).
    change (is_token (kw :: t :: u :: ts) 1 "SET") with (strcmp t "SET" =? 0). rewrite !strcmp_eqb.
    change (2 <=? length (kw :: t :: u :: ts))%nat with true. change (3 <=? length (kw :: t :: u :: ts))%nat with true.
    change (length (kw :: t :: u :: ts) =? 2)%nat with false. rewrite !andb_true_l, andb_true_r.
    destruct (decide (t = "SET")) as [->|Hne]; [by apply Hto|]. rewrite (proj2 (String.eqb_neq _ _) Hne).
    destruct (decide (t = "RESET")) as [->|Hne2]; [by apply Hreset|]. rewrite (proj2 (String.eqb_neq _ _) Hne2). by apply Hshow.
Qed.

(** C27: whatever a client sends with NS or NAMESPACE, the request is served without
    leaving an array: the connection has the namespace the request names, cut to the 63
    bytes that fit with their NUL in its array, or "default" after RESET, the response
    names it, the buffers keep their 1024 bytes, and the rest of the server is as before. *)
Theorem namespace_request_fits kw ts tail c e s :
  kw ∈ ["NS"; "NAMESPACE"] → tokens_ok (kw :: ts) → (length (kw :: ts) ≤ KVS_MAX_TOKENS)%nat →
  has NUL (render_line (kw :: ts)) = false →
  conn_typed c → c_rbuffer c = render_line (kw :: ts) +:+ String NUL tail →
  c_rlength c = Z.of_nat (String.length (render_line (kw :: ts))) →
  wp (kvs_request kvs_handler c) e s (λ c' e' s', let '(ns, t) := ns_command ts (c_namespace c) in
    c_namespace c' = ns ∧ (String.length ns ≤ 63)%nat ∧ conn_typed c' ∧
    c_wlength c' = Z.of_nat (String.length t) ∧ str_take (String.length t) (c_wbuffer c') = t ∧
    e' = e ∧ s' = sv_set_app (s_set_ns (PStr ns) (sv_app s)) s).
Proof.
  intros Hkw Hts Hlen Hnul [Hr Hw Hn] Hb Hl. unfold kvs_request. wp_step. apply wp_zoom. rewrite Hb, Hl.
  apply wp_kvs_handler; [done|]. change (kvs_protocol (Some ?m) ?n) with (answer m). apply wp_answer; [done..|].
  assert (Hf : kvs_filter_protocol (kw :: ts) = cmd_namespace (kw :: ts)).
  { apply list_elem_of_In in Hkw as [<-|[<-|[]]]; reflexivity. }
  rewrite Hf. eapply wp_cmd_namespace; [done|done|]. destruct (ns_command_fits ts _ Hn) as [H1 H2].
  destruct (ns_command ts (c_namespace c)) as [ns t]. cbn [fst snd] in *.
  split; [apply text_length|]. intros w tail' Hw' Ht' _. wp_step.
  cbn [conn_set_r conn_set_w conn_set_ns c_namespace c_wlength c_wbuffer h_ns h_reply h_msg r_length text st_ns s_set_ns].
  assert (Hbuf : write_reply (text t) (c_wbuffer c) = overwrite (t +:+ String NUL "") (c_wbuffer c)).
  { unfold write_reply, text. cbn [r_length r_text]. by rewrite (proj2 (Z.ltb_ge _ _)) by lia. }
  rewrite Hbuf. split_and!; [done|exact H1| |done| |done|done].
  - rewrite Hb in Hr. split; cbn.
    + rewrite !str_len_app in *. simpl in *. rewrite Hw', Ht'. exact Hr.
    + rewrite overwrite_length; [done|]. rewrite str_len_app. simpl. unfold BUFFER_LENGTH in Hw. lia.
    + exact H1.
  - rewrite str_take_overwrite by (rewrite str_len_app; lia). rewrite str_take_app_le by lia. by rewrite str_take_all.
Qed.
(** A name of 100 bytes is cut. *)
Lemma namespace_request_fits_witness :
  let line := render_line ["NS"; "SET"; zeros 100] in
  wp (kvs_request kvs_handler (Conn 24 (overwrite line zero_buffer) (Z.of_nat (String.length line)) zero_buffer 0 None None "default"))
    (Env [] [] [] [] 0) (boot_server (boot_store ∅) sample_used)
    (λ c' e' s', c_namespace c' = zeros 63 ∧ conn_typed c').
Proof.
  intros line. eapply wp_mono; [apply (namespace_request_fits "NS" ["SET"; zeros 100] (nuls 916))|].
  - by left.
  - repeat (apply Forall_cons_2; [split; [left; vm_compute; reflexivity|split; vm_compute; reflexivity]|]). apply Forall_nil_2.
  - vm_compute. lia.
  - vm_compute. reflexivity.
  - split; [vm_compute; reflexivity..|simpl; lia].
  - vm_compute. reflexivity.
  - reflexivity.
  - intros c' e' s' (H & _ & Ht & _). split; [|exact Ht]. rewrite H. vm_compute. reflexivity.
Defined.
