(* ===== verification/Clients.v ===== *)
(** The whole server, from [main] (src/common/kvstore.c) through the reactor
    (src/network/reactor.c) to the engines: any number of clients, connecting,
    choosing namespaces, sending requests and leaving in any order. *)
From S2P Require Import Prelude CText KvsSpec KvsArray KvsHash RbTree RbEngine SkipList SkipProof CacheModel CacheSpec CacheLru CacheLfu Vector Rdb RdbProof Protocol Requests Dispatch Engines Session Netio Reactor ReactorProof.

Local Open Scope Z_scope.

(** * The program *)

(** [main] of the default build: the engines are created, then the reactor runs;
    [reactor_start] takes an [unsigned short], and since it never returns,
    [dest_kvengine] is not reached. *)
Definition main (argv : list string) (socks : list (Z * Z)) (now : Z) (batches : list (list event))
    : M (server store) Z :=
  match argv with
  | [_; arg] =>
      let port := atoi arg in
      zoom sv_app sv_set_app init_kvengine;;
      reactor_start kvs_handler (port mod 2 ^ 16) socks now batches;;
      mret 0
  | _ => mret (-1)
  end.

(** * The clients *)

(** A request: choosing a namespace, or an operation on an engine. *)
Inductive request : Type :=
  | RNs (ns : string)
  | ROp (en : engine_name) (o : kv_op).
Definition request_tokens (r : request) : list string :=
  match r with RNs ns => ["NS"; ns] | ROp en o => op_tokens en o end.
Definition request_line (r : request) : string := render_line (request_tokens r).

Inductive client_event : Type :=
  | CConnect (listener fd : Z)
  | CRequest (fd : Z) (r : request)
  | CReply (fd : Z)
  | CLeave (fd : Z).
(** The event [epoll_wait] reports, with the answers of the kernel. *)
Definition event_of (c : client_event) : event :=
  match c with
  | CConnect l fd => Event l EPOLLIN (Answers fd None 0 0)
  | CRequest fd r => Event fd EPOLLIN (Answers (-1) (Some (request_line r)) 0 0)
  | CReply fd => Event fd EPOLLOUT (Answers (-1) None BUFFER_LENGTH 0)
  | CLeave fd => Event fd EPOLLIN (Answers (-1) (Some "") 0 0)
  end.

Definition events_of (cs : list client_event) : list event := event_of <$> cs.

(** * What the clients should see *)

(** One map for all of them, and the connections. *)
Record mserver := MServer {
  ms_map : tagged;
  ms_links : gmap Z link;
  ms_sent : list (Z * string)
}.
Definition ms_empty : mserver := MServer ∅ ∅ [].
Definition answer_of (ns : string) (r : request) (m : tagged) : string * tagged * string :=
  match r with
  | RNs ns' => ("Namespace set to: " +:+ ns' +:+ crlf, m, ns')
  | ROp en o => let '(a, m') := tag_step en (in_ns ns o) m in (r_text (reply_of o a), m', ns)
  end.
(** The key is not with another engine, and a new pair has room. *)
Definition goes (ns : string) (r : request) (m : tagged) : bool :=
  match r with RNs _ => true | ROp en o => allowed en (in_ns ns o) m end.

Section clients.
Context (L U : gset Z).

Definition ms_event (c : client_event) (s : mserver) : option mserver :=
  match c with
  | CConnect l fd =>
      if bool_decide (l ∈ L) && bool_decide (fd ∉ U ∪ L) && bool_decide (ms_links s !! fd = None)
         && (0 <=? fd) && (fd <? Z.of_nat CONNECTION_SIZE)
      then Some (MServer (ms_map s) (<[fd := Link "default" None]> (ms_links s)) (ms_sent s)) else None
  | CRequest fd r =>
      match ms_links s !! fd with
      | Some (Link ns None) =>
          if goes ns r (ms_map s) then
            let '(t, m, ns') := answer_of ns r (ms_map s) in
            Some (MServer m (<[fd := Link ns' (Some t)]> (ms_links s)) (ms_sent s))
          else None
      | _ => None
      end
  | CReply fd =>
      match ms_links s !! fd with
      | Some (Link ns (Some t)) =>
          Some (MServer (ms_map s) (<[fd := Link ns None]> (ms_links s)) (ms_sent s ++ [(fd, t)]))
      | _ => None
      end
  | CLeave fd =>
      match ms_links s !! fd with
      | Some (Link _ None) => Some (MServer (ms_map s) (delete fd (ms_links s)) (ms_sent s))
      | _ => None
      end
  end.
Fixpoint ms_events (cs : list client_event) (s : mserver) : option mserver :=
  match cs with
  | [] => Some s
  | c :: cs' => match ms_event c s with Some s' => ms_events cs' s' | None => None end
  end.
(** What can be in one batch: every connection once, in the state it has at the
    start of the batch. *)
Definition ms_ready (s : mserver) (c : client_event) : bool :=
  match c with
  | CConnect l _ => bool_decide (l ∈ L)
  | CRequest fd _ | CLeave fd =>
      match ms_links s !! fd with Some (Link _ None) => true | _ => false end
  | CReply fd => match ms_links s !! fd with Some (Link _ (Some _)) => true | _ => false end
  end.
Fixpoint ms_loop (batches : list (list client_event)) (s : mserver) : option mserver :=
  match batches with
  | [] => Some s
  | cs :: batches' =>
      if bool_decide (NoDup (ev_fd ∘ event_of <$> cs)) && forallb (ms_ready s) cs
      then match ms_events cs s with Some s' => ms_loop batches' s' | None => None end
      else None
  end.
End clients.

(** * The requests that are served *)

(** Bytes 1 to 127. *)
Fixpoint ascii_text (s : string) : bool :=
  match s with
  | EmptyString => true
  | String c s' => (0 <? Ascii.nat_of_ascii c)%nat && (Ascii.nat_of_ascii c <? 128)%nat && ascii_text s'
  end.
Definition request_ok (r : request) : Prop :=
  tokens_ok (request_tokens r) ∧ ascii_text (request_line r) = true ∧
  Z.of_nat (String.length (request_line r)) < BUFFER_LENGTH ∧
  match r with
  | RNs ns => (String.length ns ≤ 63)%nat ∧ ns ≠ "RESET"
  | ROp _ _ => True
  end.
Definition client_ok (c : client_event) : Prop :=
  match c with CRequest _ r => request_ok r | _ => True end.

(** ** Texts *)

Lemma ascii_app s t : ascii_text (s +:+ t) = ascii_text s && ascii_text t.
Proof.
  induction s as [|c s IH]; [done|]. rewrite str_cons_app. simpl. by rewrite IH, andb_assoc.
Qed.
Lemma ascii_no_nul s : ascii_text s = true → has NUL s = false.
Proof.
  induction s as [|c s IH]; [done|]. simpl. rewrite !andb_true_iff. intros [[Hc _] Hs].
  rewrite IH by done. rewrite orb_false_r. destruct (Ascii.eqb_spec c NUL) as [->|]; [|done]. done.
Qed.
Lemma ascii_token t : ascii_text (render_token t) = true → ascii_text t = true.
Proof.
  unfold render_token. destruct (plain t); [done|]. simpl. rewrite ascii_app. by intros [? _]%andb_true_iff.
Qed.
Lemma render_cons t u ts :
  render_line (t :: u :: ts) = render_token t +:+ String space (render_line (u :: ts)).
Proof. done. Qed.
Lemma ascii_tokens ts t : ascii_text (render_line ts) = true → t ∈ ts → ascii_text t = true.
Proof.
  induction ts as [|u ts IH]; [by intros _ ?%elem_of_nil|]. intros H Hin. destruct ts as [|v ts].
  - apply list_elem_of_singleton in Hin as ->. by apply ascii_token.
  - rewrite render_cons, ascii_app in H. apply andb_true_iff in H as [Hu Hrest]. simpl in Hrest.
    apply elem_of_cons in Hin as [->|Hin]; [by apply ascii_token|by apply IH].
Qed.
Lemma ascii_substring n s : ascii_text s = true → ascii_text (String.substring 0 n s) = true.
Proof.
  revert n. induction s as [|c s IH]; intros [|n]; try done. simpl. rewrite !andb_true_iff.
  intros [[-> ->] Hs]. split_and!; [done..|]. by apply IH.
Qed.
Lemma ascii_full_key ns k : ascii_text ns = true → ascii_text k = true → ascii_text (full_key ns k) = true.
Proof.
  intros Hn Hk. unfold full_key. destruct (_ || _); [done|]. apply ascii_substring.
  by rewrite !ascii_app, Hn, Hk.
Qed.
Lemma ascii_sum s : ascii_text s = true → 0 ≤ hash_sum s.
Proof.
  induction s as [|c s IH]; [done|]. simpl. rewrite !andb_true_iff. intros [[_ Hc%Nat.ltb_lt] Hs].
  specialize (IH Hs). unfold Ascii.nat_of_ascii in Hc. unfold schar.
  destruct (Z.ltb_spec (Z.of_N (Ascii.N_of_ascii c)) 128); lia.
Qed.
Lemma full_key_length ns k : (String.length (full_key ns k) ≤ 255 + String.length k)%nat.
Proof.
  unfold full_key. destruct (_ || _); [lia|]. unfold truncate. change (pred (Z.to_nat 256)) with 255%nat.
  generalize (ns +:+ ":" +:+ k). intros s. assert (String.length (String.substring 0 255 s) ≤ 255)%nat; [|lia].
  generalize 255%nat. intros n. revert s. induction n as [|n IH]; intros [|c s]; simpl; try lia. specialize (IH s). lia.
Qed.
Lemma ascii_key_ok en ns k :
  ascii_text ns = true → ascii_text k = true → Z.of_nat (String.length k) < BUFFER_LENGTH →
  key_ok en (full_key ns k).
Proof.
  intros Hn Hk Hl. destruct en; try done. split.
  - unfold hash_index. apply Z.rem_nonneg; [done|]. by apply ascii_sum, ascii_full_key.
  - pose proof (full_key_length ns k). unfold BUFFER_LENGTH in Hl. lia.
Qed.

(** ** One request at the handler *)

(** Values that came in one line and go out in one. *)
Definition line_values (m : gmap string string) : Prop :=
  map_Forall (λ _ v, Z.of_nat (String.length v) + 2 < RESPONSE_MAX_LEN) m.
Lemma line_short m : line_values m → short_values m.
Proof. intros H k v Hkv. specialize (H k v Hkv). simpl in H. unfold RESPONSE_MAX_LEN, INT_MAX in *. lia. Qed.
Lemma length_token_ge t : (String.length t ≤ String.length (render_token t))%nat.
Proof. unfold render_token. destruct (plain t); [done|]. simpl. rewrite str_len_app. lia. Qed.
Lemma length_line_tokens ts t :
  t ∈ ts → (length ts + String.length t ≤ S (String.length (render_line ts)))%nat.
Proof.
  induction ts as [|u ts IH]; [by intros ?%elem_of_nil|]. intros Hin. pose proof (length_token_ge u).
  pose proof (length_render_token u). destruct ts as [|v ts].
  - apply list_elem_of_singleton in Hin as ->. simpl. lia.
  - rewrite render_cons, str_len_app. change (String.length (String space ?x)) with (S (String.length x)).
    change (length (u :: v :: ts)) with (S (length (v :: ts))). pose proof (length_render_line (v :: ts)).
    apply elem_of_cons in Hin as [->|Hin]; [lia|]. specialize (IH Hin). lia.
Qed.
Lemma op_key_token en o : op_key o ∈ op_tokens en o.
Proof. destruct o; simpl; set_solver. Qed.
Lemma request_writes en o :
  request_ok (ROp en o) → op_writes (λ _ v, Z.of_nat (String.length v) + 2 < RESPONSE_MAX_LEN) o.
Proof.
  intros (_ & _ & Hl & _).
  assert (Hv : ∀ k v c, op_tokens en o = [c; k; v] → (4 ≤ String.length (render_line [c; k; v]) - String.length v)%nat →
    Z.of_nat (String.length v) + 2 < RESPONSE_MAX_LEN).
  { intros k v c Heq H4. unfold request_line in Hl. simpl request_tokens in Hl. rewrite Heq in Hl.
    unfold BUFFER_LENGTH, RESPONSE_MAX_LEN in *. lia. }
  assert (Hlen : ∀ c k v, (3 ≤ String.length c)%nat →
    (4 ≤ String.length (render_line [c; k; v]) - String.length v)%nat).
  { intros c k v Hc. change (render_line [c; k; v]) with
      (render_token c +:+ String space (render_token k +:+ String space (render_token v))).
    pose proof (length_token_ge c). pose proof (length_token_ge v). pose proof (length_render_token k).
    rewrite str_len_app. simpl String.length. rewrite str_len_app. simpl String.length. lia. }
  destruct o as [k v| | |k v|]; try done; simpl;
    (eapply Hv; [reflexivity|apply Hlen; destruct en; simpl; lia]).
Qed.
Lemma request_askable en o : request_ok (ROp en o) → askable en o.
Proof.
  intros H. pose proof (request_writes en o H) as Hw. destruct H as [Ht _]. split; [done|].
  destruct o; try done; simpl in *; unfold RESPONSE_MAX_LEN, INT_MAX in *; lia.
Qed.
Lemma reply_bytes_text t : Z.of_nat (String.length t) < BUFFER_LENGTH → reply_bytes (text t) = Some t.
Proof.
  intros Ht. unfold reply_bytes, text. simpl r_length. simpl r_text.
  rewrite (proj2 (Z.leb_le (Z.of_nat (String.length t)) _)), (proj2 (Z.leb_le 0 _)), (proj2 (Z.ltb_lt _ _)) by lia.
  simpl. rewrite Nat2Z.id. by rewrite str_take_app.
Qed.
Lemma reply_of_text en ns o m :
  line_values m → request_ok (ROp en o) →
  let r := reply_of o (spec_step (in_ns ns o) m).1 in
  reply_bytes r = Some (r_text r) ∧ r_text r ≠ "".
Proof.
  intros Hm Hr.
  destruct o as [k v|k|k|k v|k]; simpl; try (destruct (m !! full_key ns k); (split; [reflexivity|vm_compute; discriminate])).
  destruct (m !! full_key ns k) as [v|] eqn:Hk; simpl; [|by split; [reflexivity|vm_compute; discriminate]].
  specialize (Hm _ _ Hk). simpl in Hm.
  assert (Hl : Z.of_nat (String.length (v +:+ crlf)) < RESPONSE_MAX_LEN).
  { rewrite str_len_app. simpl (String.length crlf). lia. }
  assert (Hv : value_reply v = text (v +:+ crlf)).
  { unfold value_reply, truncate, text. rewrite substring_all; [done|]. unfold RESPONSE_MAX_LEN in *. lia. }
  change (reply_bytes (value_reply v) = Some (r_text (value_reply v)) ∧ r_text (value_reply v) ≠ "").
  rewrite Hv. split; [apply reply_bytes_text; exact Hl|by destruct v].
Qed.

Lemma serving_set_ns fs ns ns' m s : serving fs ns m s → serving fs ns' m (s_set_ns (PStr ns') s).
Proof. intros [Hd Hk Hc Hn Hch]. by split. Qed.

Lemma received_line line :
  Z.of_nat (String.length line) < BUFFER_LENGTH →
  ∃ tail, overwrite line zero_buffer = line +:+ String NUL tail.
Proof.
  intros Hl. unfold overwrite, zero_buffer. rewrite str_drop_nuls.
  destruct (Z.to_nat BUFFER_LENGTH - String.length line)%nat as [|k] eqn:Hk; [lia|]. by exists (nuls k).
Qed.
Lemma ns_reply ns :
  (String.length ns ≤ 63)%nat →
  reply_bytes (text ("Namespace set to: " +:+ ns +:+ crlf)) = Some ("Namespace set to: " +:+ ns +:+ crlf).
Proof.
  intros Hl. apply reply_bytes_text. rewrite !str_len_app. unfold BUFFER_LENGTH. simpl. lia.
Qed.

Lemma request_line_pos r : (0 < String.length (request_line r))%nat.
Proof.
  pose proof (length_render_line (request_tokens r)). unfold request_line.
  assert (0 < length (request_tokens r))%nat by (destruct r as [|? []]; simpl; lia). lia.
Qed.

(** The handler answers one request as the map does, wherever the request ends in
    its array, and leaves the bytes after the request alone. *)
Lemma wp_request fs ns0 ns r m tail e s :
  serving fs ns0 m s → no_oom e → line_values (values m) → request_ok r → ascii_text ns = true → goes ns r m = true →
  wp (kvs_handler (request_line r +:+ String NUL tail) (Z.of_nat (String.length (request_line r))) (PStr ns))
    e s (λ h e' s', let '(t, m', ns') := answer_of ns r m in
      reply_bytes (h_reply h) = Some t ∧ t ≠ "" ∧ h_ns h = PStr ns' ∧ ascii_text ns' = true ∧
      line_values (values m') ∧ no_oom e' ∧ serving fs ns' m' s' ∧
      ∃ w, h_msg h = w +:+ String NUL tail ∧ String.length w = String.length (request_line r)).
Proof.
  intros Hs He Hm Hr Hns Hgo. pose proof Hr as (Htok & Hasc & Hlen & Hkind).
  apply wp_kvs_handler; [by apply ascii_no_nul|].
  apply (serving_set_ns _ _ ns) in Hs. destruct r as [ns'|en o]; simpl answer_of.
  - destruct Hkind as [H63 Hreset]. apply (wp_answer_ns ns'); try done.
    { by apply Forall_cons in Htok as [_ Htok]. }
    intros w tail' Hw _ Ht. split_and!; [by apply ns_reply|done|done| |done|done|by eapply serving_set_ns|].
    + eapply ascii_tokens; [exact Hasc|]. simpl. set_solver.
    + exists w. by rewrite Ht.
  - eapply wp_mono; [apply (wp_answer_one EVICT_LRU lru_contract fs [] ns None en o m); try done|].
    + by apply line_short.
    + by apply request_askable.
    + apply ascii_key_ok; [done| |].
      * eapply ascii_tokens; [exact Hasc|]. apply op_key_token.
      * pose proof (length_line_tokens _ _ (op_key_token en o)) as Hl. unfold request_line in Hlen. simpl in Hlen.
        assert (1 ≤ length (op_tokens en o))%nat by (destruct o; simpl; lia). lia.
    + intros a e' s' (-> & He' & Hs') w tail' Hw _ Ht.
      destruct (reply_of_text en ns o (values m) Hm Hr) as [Hrb Hne]. rewrite <-(tag_step_answer en) in Hrb, Hne.
      pose proof (spec_step_forall _ (in_ns ns o) (values m) Hm) as Hm'. rewrite <-(tag_values en) in Hm'.
      destruct (tag_step en (in_ns ns o) m) as [ans m'']. simpl in *. split_and!; try done.
      * by rewrite (sv_ns _ _ _ _ _ _ _ _ Hs').
      * apply Hm'. pose proof (request_writes en o Hr) as Hwr. by destruct o.
      * exists w. by rewrite Ht.
Qed.

(** * The reactor serves the clients *)

Section served.
Context (fs : gmap string string) (L U : gset Z).

Definition link_ok (l : link) : Prop :=
  ascii_text (l_ns l) = true ∧
  ∀ t, l_out l = Some t → t ≠ "" ∧ Z.of_nat (String.length t) ≤ BUFFER_LENGTH.
(** The server holds the map, the connections and the history of the clients' view. *)
Record hosts (s : mserver) (e : env) (a : aserver store) : Prop := {
  ho_links : as_links a = ms_links s;
  ho_sent : as_sent a = ms_sent s;
  ho_store : ∃ ns, serving fs ns (ms_map s) (as_app a);
  ho_env : no_oom e;
  ho_values : line_values (values (ms_map s));
  ho_ok : map_Forall (λ _ l, link_ok l) (ms_links s);
  ho_apart : map_Forall (λ fd _, fd ∉ L) (ms_links s)
}.
Lemma wp_client_connect s s' e a l fd :
  hosts s e a → ms_event L U (CConnect l fd) s = Some s' →
  wp (spec_event kvs_handler L U (event_of (CConnect l fd))) e a (λ _ e' a', hosts s' e' a').
Proof.
  intros [Hl Hs Hst He Hv Hok Hap] Hev. simpl in Hev. case_match eqn:Hg; [|done]. injection Hev as <-.
  rewrite !andb_true_iff, !bool_decide_eq_true, Z.leb_le, Z.ltb_lt in Hg. destruct Hg as [[[[HL Hu] Hn] H0] H1].
  unfold spec_event. simpl ev_fd. wp_step. wp_step. change (has_event EPOLLIN _) with true. cbv iota.
  rewrite decide_True by done. unfold spec_accept. simpl a_accept. wp_step. wp_step.
  rewrite (proj2 (Z.ltb_ge _ _)) by done. rewrite decide_False.
  2:{ rewrite Hl, Hn. intros [?|[[? ?]|?]]; [done|done|lia]. }
  wp_step. split; simpl; rewrite ?Hl; try done.
  - by apply map_Forall_insert_2.
  - apply map_Forall_insert_2; [set_solver|done].
Qed.

Lemma wp_client_request s s' e a fd r :
  hosts s e a → request_ok r → ms_event L U (CRequest fd r) s = Some s' →
  wp (spec_event kvs_handler L U (event_of (CRequest fd r))) e a (λ _ e' a', hosts s' e' a').
Proof.
  intros [Hl Hs [ns0 Hst] He Hv Hok Hap] Hreq Hev. simpl in Hev.
  destruct (ms_links s !! fd) as [[ns [?|]]|] eqn:Hfd; try done. destruct (goes ns r (ms_map s)) eqn:Hgo; [|done].
  unfold spec_event. simpl ev_fd. wp_step. wp_step. change (has_event EPOLLIN _) with true. cbv iota.
  rewrite decide_False by exact (Hap _ _ Hfd). rewrite Hl, Hfd. wp_step. wp_step.
  unfold spec_recv. simpl a_recv. change (str_take ?k <$> Some ?d) with (Some (str_take k d)).
  assert (Hlen : Z.of_nat (String.length (request_line r)) < BUFFER_LENGTH) by apply Hreq.
  pose proof (request_line_pos r) as Hpos.
  rewrite str_take_ge by lia.
  destruct (received_line _ Hlen) as [tail ->].
  pose proof (wp_request fs ns0 ns r (ms_map s) tail e (as_app a) Hst He Hv Hreq) as Hw.
  destruct (request_line r) as [|ch line]; [simpl in Hpos; lia|].
  wp_step. apply wp_zoom. eapply wp_mono; [apply Hw|].
  { by apply (Hok _ _ Hfd). }
  { done. }
  intros h e' x Hh. destruct (answer_of ns r (ms_map s)) as [[t m'] ns']. injection Hev as <-.
  destruct Hh as (Hrb & Hne & -> & Hasc & Hv' & He' & Hst' & _). rewrite Hrb. wp_step. wp_step. wp_step.
  split; simpl; rewrite ?Hl; try done.
  - by exists ns'.
  - apply map_Forall_insert_2; [|done]. split; [done|]. intros t' [= <-]. split; [done|]. by eapply reply_bytes_le.
  - apply map_Forall_insert_2; [exact (Hap _ _ Hfd)|done].
Qed.

Lemma wp_client_reply s s' e a fd :
  hosts s e a → ms_event L U (CReply fd) s = Some s' →
  wp (spec_event kvs_handler L U (event_of (CReply fd))) e a (λ _ e' a', hosts s' e' a').
Proof.
  intros [Hl Hs [ns0 Hst] He Hv Hok Hap] Hev. simpl in Hev.
  destruct (ms_links s !! fd) as [[ns [t|]]|] eqn:Hfd; try done. injection Hev as <-.
  destruct (Hok _ _ Hfd) as [Hasc Hout]. destruct (Hout t eq_refl) as [Hne Hlen].
  unfold spec_event. simpl ev_fd. wp_step. wp_step. change (has_event EPOLLIN _) with false.
  change (has_event EPOLLOUT _) with true. cbv iota. rewrite Hl, Hfd. wp_step. wp_step. wp_step. simpl l_out. wp_step.
  unfold spec_send, sent_part. simpl a_send. wp_step. wp_step. apply String.eqb_neq in Hne as ->.
  change (BUFFER_LENGTH <? 0) with false. rewrite orb_false_l. cbv iota. wp_step. rewrite str_take_ge by lia.
  split; simpl; rewrite ?Hl, ?Hs; try done.
  - by exists ns0.
  - apply map_Forall_insert_2; [|done]. by split.
  - apply map_Forall_insert_2; [exact (Hap _ _ Hfd)|done].
Qed.

Lemma wp_client_leave s s' e a fd :
  hosts s e a → ms_event L U (CLeave fd) s = Some s' →
  wp (spec_event kvs_handler L U (event_of (CLeave fd))) e a (λ _ e' a', hosts s' e' a').
Proof.
  intros [Hl Hs [ns0 Hst] He Hv Hok Hap] Hev. simpl in Hev.
  destruct (ms_links s !! fd) as [[ns [t|]]|] eqn:Hfd; try done. injection Hev as <-.
  unfold spec_event. simpl ev_fd. wp_step. wp_step. change (has_event EPOLLIN _) with true. cbv iota.
  rewrite decide_False by exact (Hap _ _ Hfd). rewrite Hl, Hfd. wp_step. wp_step.
  unfold spec_recv. simpl a_recv. change (str_take ?k <$> Some "") with (Some "").
  cbv iota. wp_step. split; simpl; rewrite ?Hl; try done; try (by exists ns0); by apply map_Forall_delete.
Qed.

Lemma wp_client_event s s' e a c :
  hosts s e a → client_ok c → ms_event L U c s = Some s' →
  wp (spec_event kvs_handler L U (event_of c)) e a (λ _ e' a', hosts s' e' a').
Proof.
  destruct c; intros Hh Hc Hev;
    eauto using wp_client_connect, wp_client_request, wp_client_reply, wp_client_leave.
Qed.
Lemma wp_client_events s s' e a cs :
  hosts s e a → Forall (client_ok) cs → ms_events L U cs s = Some s' →
  wp (spec_events kvs_handler L U (event_of <$> cs)) e a (λ _ e' a', hosts s' e' a').
Proof.
  revert s e a. induction cs as [|c cs IH]; intros s e a Hh Hok Hev.
  { injection Hev as <-. exact Hh. }
  apply Forall_cons in Hok as [Hc Hcs]. cbn [ms_events] in Hev. destruct (ms_event L U c s) as [s1|] eqn:H1; [|done].
  rewrite fmap_cons. cbn [spec_events]. wp_step. eapply wp_mono; [by eapply wp_client_event|].
  intros ? e' a' Hh'. exact (IH s1 e' a' Hh' Hcs Hev).
Qed.
Lemma ready_reported s e a c :
  hosts s e a → ms_ready L s c = true → reported (interest L a) (event_of c).
Proof.
  intros Hh Hr. pose proof (ho_links _ _ _ Hh) as Hl. pose proof (ho_apart _ _ _ Hh) as Hap.
  unfold reported, interest.
  assert (Hidle : ∀ fd, match ms_links s !! fd with Some (Link _ None) => true | _ => false end = true →
    (if decide (fd ∈ L) then Some EPOLLIN else link_mask <$> as_links a !! fd) = Some EPOLLIN).
  { intros fd H. rewrite Hl. case_decide; [done|]. by destruct (ms_links s !! fd) as [[ns []]|]. }
  destruct c as [l fd|fd r|fd|fd]; simpl in Hr |- *.
  - apply bool_decide_eq_true in Hr. rewrite decide_True by done. exists EPOLLIN. split_and!; [done|discriminate|discriminate].
  - exists EPOLLIN. split_and!; [by apply Hidle|discriminate|discriminate].
  - destruct (ms_links s !! fd) as [[ns [t|]]|] eqn:Hfd; try done.
    rewrite decide_False by exact (Hap _ _ Hfd). rewrite Hl, Hfd. exists EPOLLOUT.
    split_and!; [done|discriminate|discriminate].
  - exists EPOLLIN. split_and!; [by apply Hidle|discriminate|discriminate].
Qed.
Lemma loop_served batches s s' e a :
  hosts s e a → Forall (client_ok) (concat batches) →
  ms_loop L U batches s = Some s' →
  spec_loop kvs_handler L U (events_of <$> batches) e a (λ e' a', hosts s' e' a').
Proof.
  revert s e a. induction batches as [|cs bs IH]; intros s e a Hh Hok Hev; [by injection Hev as <-|].
  cbn [ms_loop] in Hev. destruct (bool_decide _ && _) eqn:Hb; [|done].
  apply andb_true_iff in Hb as [Hnd%bool_decide_eq_true Hready].
  destruct (ms_events L U cs s) as [s1|] eqn:H1; [|done].
  rewrite fmap_cons. cbn [spec_loop]. unfold events_of at 1 2. cbn [concat] in Hh, Hok. apply Forall_app in Hok as [Hok Hoks]. split.
  - split; [by rewrite <-list_fmap_compose|]. rewrite Forall_fmap, Forall_forall. intros c Hin.
    eapply ready_reported; [exact Hh|]. rewrite forallb_forall in Hready. apply Hready. by apply list_elem_of_In.
  - eapply wp_mono; [by eapply wp_client_events|]. intros ? e' a' Hh'. exact (IH s1 e' a' Hh' Hoks Hev).
Qed.
End served.

Lemma wp_main fs U arg0 arg1 socks now batches e s' Q :
  no_oom e → fs !! RDB_FILENAME = None → length socks = MAX_PORTS → sockets_ok U socks →
  Forall client_ok (concat batches) →
  ms_loop (list_to_set socks.*1) U batches ms_empty = Some s' →
  (∀ e' σ, k_sent (sv_kernel σ) = ms_sent s' → Q 0 e' σ) →
  wp (main [arg0; arg1] socks now (events_of <$> batches)) e (boot_server (boot_store fs) U) Q.
Proof.
  intros He Hfs Hlen Hsk Hok Hloop HQ. unfold main. wp_step. apply wp_zoom. apply wp_init_fresh; [done..|].
  intros e1 s1 He1 Hs1. apply started_new, started_serving in Hs1. wp_step.
  eapply wp_mono; [eapply (wp_reactor_start kvs_handler U _ socks now _ s1); [done..|]|].
  - eapply (loop_served fs (list_to_set socks.*1) U batches ms_empty); [|done..].
    split; try done; by exists "default".
  - intros ? e2 σ (a' & Hh & Hse). wp_step. apply HQ.
    by rewrite (se_sent _ _ _ _ Hse), (ho_sent _ _ _ _ _ Hh).
Qed.

(** C1: the whole server, with any number of clients: from [main] on a disk without a
    dump, whatever the interleaving of clients that connect, choose namespaces,
    send requests (of at most 1023 ASCII bytes) to the four engines, a key being
    with one engine at a time, read replies and leave, and however [epoll_wait]
    groups these events, the bytes sent to every connection are those of one finite
    map with a namespace per connection. *)
Theorem clients_served fs U arg0 arg1 socks now batches e s' :
  no_oom e → fs !! RDB_FILENAME = None → length socks = MAX_PORTS → sockets_ok U socks →
  Forall client_ok (concat batches) →
  ms_loop (list_to_set socks.*1) U batches ms_empty = Some s' →
  wp (main [arg0; arg1] socks now (events_of <$> batches)) e (boot_server (boot_store fs) U)
    (λ _ _ σ, k_sent (sv_kernel σ) = ms_sent s').
Proof. intros. by eapply wp_main. Qed.

(** Two clients with a key of the same name, on two engines. *)
Definition two_clients : list (list client_event) :=
  [[CConnect 4 24]; [CConnect 4 25];
   [CRequest 24 (RNs "users"); CRequest 25 (RNs "posts")]; [CReply 24; CReply 25];
   [CRequest 24 (ROp EHash (OpSet "k" "1")); CRequest 25 (ROp ESkip (OpSet "k" "2"))]; [CReply 25; CReply 24];
   [CRequest 24 (ROp EHash (OpGet "k"))]; [CReply 24; CRequest 25 (ROp ESkip (OpGet "k"))]; [CReply 25; CLeave 24]].
Ltac request_solve :=
  split; [repeat (apply Forall_cons; split; [split; [first [by left|by right]|by split]|]); apply Forall_nil_2
         |split; [reflexivity|split; [reflexivity|first [exact I|split; [simpl; lia|discriminate]]]]].
Ltac requests_solve :=
  repeat (apply Forall_cons; split; [first [exact I | request_solve]|]); apply Forall_nil_2.
Lemma two_clients_ok : Forall client_ok (concat two_clients).
Proof. simpl. requests_solve. Qed.
Lemma clients_served_witness :
  wp (main ["kvstore"; "8000"] sample_sockets 0 (events_of <$> two_clients)) (Env [] [] [] [] 0)
    (boot_server (boot_store ∅) sample_used)
    (λ _ _ σ, k_sent (sv_kernel σ) =
      [(24, "Namespace set to: users" +:+ crlf); (25, "Namespace set to: posts" +:+ crlf);
       (25, OK_MSG); (24, OK_MSG); (24, "1" +:+ crlf); (25, "2" +:+ crlf)]).
Proof.
  eapply (clients_served ∅ sample_used "kvstore" "8000" sample_sockets 0 two_clients (Env [] [] [] [] 0)
    (MServer _ _ [(24, "Namespace set to: users" +:+ crlf); (25, "Namespace set to: posts" +:+ crlf);
       (25, OK_MSG); (24, OK_MSG); (24, "1" +:+ crlf); (25, "2" +:+ crlf)])).
  - constructor.
  - reflexivity.
  - reflexivity.
  - apply sample_sockets_ok.
  - apply two_clients_ok.
  - vm_compute. reflexivity.
Defined.
