(* ===== verification/Isolation.v ===== *)
(** Clients of one server that have chosen different namespaces do not see each
    other: what one of them receives depends on its own requests only. *)
From S2P Require Import Prelude CText KvsSpec Rdb RdbProof Protocol Requests Dispatch Engines Session Netio Reactor ReactorProof Clients.

Local Open Scope Z_scope.

(** * The view of a namespace *)


(** The key does not begin like those of the namespace. *)
Definition outside (ns key : string) : Prop := String.prefix (ns +:+ ":") key = false.
(** Keys of another named namespace, when neither name has a colon. *)
Lemma outside_named ns ns' k :
  named ns' → has colon ns = false → has colon ns' = false → ns' ≠ ns → key_fits ns' k → outside ns (full_key ns' k).
Proof.
  intros Hn' Hc Hc' Hne Hf. unfold outside. rewrite full_key_fits by done. clear Hn' Hf. revert ns' Hc' Hne.
  induction ns as [|c ns IH]; intros [|c' ns'] Hc' Hne; simpl in *; try done.
  - case_match eqn:Hd; [|done]. by subst c'.
  - case_match eqn:Hd; [|done]. by subst c.
  - apply orb_false_iff in Hc as [_ Hc], Hc' as [_ Hc']. destruct (Ascii.ascii_dec c c') as [<-|]; [|done].
    apply IH; [done..|congruence].
Qed.



(** * One client among others *)




Section isolated.
Context (L U : gset Z) (fd : Z) (ns : string).
Context (Hnamed : named ns).



End isolated.



