(* ===== verification/ReactorLimits.v ===== *)
(** Where the reactor leaves its contract: requests that arrive together, arrays
    that are too small for what the kernel or the handler gives, and replies that
    are sent in part. *)
From S2P Require Import Prelude CText KvsSpec Rdb RdbProof Protocol Requests Dispatch Engines Session Netio Reactor ReactorProof Clients.

Local Open Scope Z_scope.

(** * Requests that arrive together *)

Lemma split_render_space ts fuel room rest :
  Forall sendable ts → ts ≠ [] → (length ts < room)%nat →
  split_from (length ts + fuel) room (render_line ts +:+ String space rest) =
  ts ++ split_from fuel (room - length ts) rest.
Proof.
  intros Hts. revert room. induction Hts as [|t ts Ht Hts IH]; intros room Hne Hroom; [done|].
  cbn [length Nat.add]. simpl in Hroom. destruct ts as [|u ts].
  - cbn [render_line]. rewrite split_token_more by done. simpl. f_equal. destruct room as [|[|room]]; [simpl in *; lia..|].
    done.
  - rewrite render_cons, str_app_assoc, str_cons_app, split_token_more by done. cbn [app]. f_equal.
    destruct room as [|[|room]]; [simpl in *; lia..|]. unfold next. rewrite IH by (try done; simpl in *; lia). done.
Qed.
Lemma strip_line n line rest :
  one_line line → strip_newlines (String.length line + n) (line +:+ rest) = line +:+ strip_newlines n rest.
Proof.
  intros [Hc Hl]. induction line as [|c line IH]; [done|]. simpl in Hc, Hl.
  apply orb_false_iff in Hc as [Hc Hcs], Hl as [Hl Hls]. rewrite !str_cons_app. simpl. by rewrite Hc, Hl, IH.
Qed.
Lemma kvs_split_line ts :
  tokens_ok ts → (length ts ≤ KVS_MAX_TOKENS)%nat → kvs_split_token (render_line ts) = ts.
Proof.
  intros Hts Hlen. pose proof (length_render_line ts). apply split_render; [|lia|done].
  eapply Forall_impl; [exact Hts|]. by intros ? [].
Qed.

Lemma merged_tokens ts1 ts2 :
  tokens_ok ts1 → tokens_ok ts2 → ts1 ≠ [] → (length ts1 + length ts2 ≤ KVS_MAX_TOKENS)%nat → ts2 ≠ [] →
  let line := render_line ts1 +:+ crlf +:+ render_line ts2 in
  kvs_split_token (strip_newlines (String.length line) line) = ts1 ++ ts2.
Proof.
  intros H1 H2 Hne Hlen Hne2 line. unfold line. rewrite !str_len_app, strip_line by by apply one_line_render.
  change (String.length crlf + String.length (render_line ts2))%nat with (S (S (String.length (render_line ts2)))).
  change (strip_newlines (S (S ?n)) (crlf +:+ ?r)) with (String space (String space (strip_newlines n r))).
  rewrite strip_id by by apply one_line_render.
  assert (Hs1 : Forall sendable ts1) by (eapply Forall_impl; [exact H1|by intros ? []]).
  assert (Hs2 : Forall sendable ts2) by (eapply Forall_impl; [exact H2|by intros ? []]).
  assert (0 < length ts2)%nat by (destruct ts2; [done|simpl; lia]).
  set (rest := String space (render_line ts2)). unfold kvs_split_token.
  rewrite (split_from_fuel _ (length ts1 + S (S (String.length (render_line ts1 +:+ String space rest))))) by lia.
  rewrite split_render_space by (try done; lia). f_equal.
  set (fuel := S (String.length (render_line ts1 +:+ String space rest))).
  assert (Hrest : (length ts2 ≤ fuel)%nat).
  { unfold fuel, rest. pose proof (length_render_line ts2). rewrite str_len_app. simpl. lia. }
  transitivity (split_from (S fuel) (KVS_MAX_TOKENS - length ts1) (render_line ts2)); [reflexivity|].
  apply split_render; [done|lia|lia].
Qed.

(** C31: two requests that arrive in one segment, with a line end between them, are
    answered as one request with the tokens of both: the second command is never
    run, and its text becomes part of the first one's arguments. *)
Theorem pipelined_requests_merge ts1 ts2 e s :
  tokens_ok ts1 → tokens_ok ts2 → ts1 ≠ [] → ts2 ≠ [] → (length ts1 + length ts2 ≤ KVS_MAX_TOKENS)%nat →
  answer (render_line ts1 +:+ crlf +:+ render_line ts2) e s = answer (render_line (ts1 ++ ts2)) e s.
Proof.
  intros H1 H2 Hn1 Hn2 Hlen. pose proof (length_render_line ts1) as Hl1.
  assert (Hp1 : (0 < length ts1)%nat) by (destruct ts1; [done|simpl; lia]).
  pose proof (length_render_line (ts1 ++ ts2)) as Hl. rewrite length_app in Hl.
  unfold answer, kvs_protocol. rewrite !Nat2Z.id, merged_tokens by done.
  rewrite strip_id, kvs_split_line; [|by apply Forall_app|rewrite length_app; lia|by apply one_line_render, Forall_app].
  rewrite (proj2 (Z.leb_gt _ _)) by (rewrite str_len_app; lia). rewrite (proj2 (Z.leb_gt _ _)) by lia. done.
Qed.
Lemma pipelined_requests_merge_witness :
  render_line ["SET"; "a"; "1"] +:+ crlf +:+ render_line ["SET"; "b"; "2"] = "SET a 1" +:+ crlf +:+ "SET b 2" ∧
  answer ("SET a 1" +:+ crlf +:+ "SET b 2") (Env [] [] [] [] 0) (boot_store ∅) =
  answer "SET a 1 SET b 2" (Env [] [] [] [] 0) (boot_store ∅).
Proof.
  split; [reflexivity|].
  apply (pipelined_requests_merge ["SET"; "a"; "1"] ["SET"; "b"; "2"] (Env [] [] [] [] 0) (boot_store ∅)).
  - repeat (apply Forall_cons; split; [split; [by left|by split]|]). apply Forall_nil_2.
  - repeat (apply Forall_cons; split; [split; [by left|by split]|]). apply Forall_nil_2.
  - discriminate.
  - discriminate.
  - unfold KVS_MAX_TOKENS. simpl. lia.
Defined.

(** * Arrays that are too small *)


Lemma conn_at_in {St} fd c e (s : server St) :
  0 ≤ fd → sv_conns s !! Z.to_nat fd = Some c → conn_at fd e s = Ret (c, e, s).
Proof.
  intros H0 Hc. unfold conn_at, mbind, M_bind, gets. rewrite (proj2 (Z.ltb_ge _ _)) by lia. by rewrite Hc.
Qed.


(** * Replies that are too long *)

(** A request of 313 bytes stores a vector of 150 coordinates. *)
Definition long_vset : string :=
  "VSET k 150 " +:+ String quote (String.concat "" (replicate 150 " 1")) +:+ String quote "".
Definition vget_batches : list (list event) :=
  [[Event 4 EPOLLIN (Answers 24 None 0 0)];
   [Event 24 EPOLLIN (Answers (-1) (Some long_vset) 0 0)]; [Event 24 EPOLLOUT (Answers (-1) None 1024 0)];
   [Event 24 EPOLLIN (Answers (-1) (Some "VGET k") 0 0)]; [Event 24 EPOLLOUT (Answers (-1) None 1024 0)]].
(** What the server has sent, and the length of the reply it owes. *)
Definition seen (fd : nat) (o : outcome (Z * env * server store)) : option (list (Z * string) * option Z) :=
  match o with Ret (_, _, s) => Some (k_sent (sv_kernel s), c_wlength <$> sv_conns s !! fd) | _ => None end.
Definition run_main (batches : list (list event)) : outcome (Z * env * server store) :=
  main ["kvstore"; "8000"] sample_sockets 0 batches (Env [] [] [] [] 0) (boot_server (boot_store ∅) sample_used).

(** C30: the length [snprintf] returns is sent as it is: whenever the handler reports a
    reply longer than the write buffer, [send] reads past it; two ordinary
    requests, VSET with 150 coordinates and VGET, make the server do so. *)
Theorem long_reply_overreads :
  (∀ (St : Type) (k : answers) fd e (s : server St) c,
     0 ≤ fd → sv_conns s !! Z.to_nat fd = Some c →
     Z.of_nat (String.length (c_wbuffer c)) = BUFFER_LENGTH → BUFFER_LENGTH < c_wlength c →
     send_cb k fd e s = UB) ∧
  seen 24 (run_main (take 4 vget_batches)) = Some ([(24, OK_MSG)], Some 1085) ∧
  run_main vget_batches = UB.
Proof.
  split_and!.
  - intros St k fd e s c H0 Hc Hb Hw. unfold BUFFER_LENGTH in *.
    unfold send_cb, mbind, M_bind, kvs_response. rewrite (conn_at_in fd c) by done.
    cbn [mret M_ret]. rewrite (proj2 (Z.eqb_neq _ _)) by lia. unfold send.
    rewrite Hb, (proj2 (Z.ltb_lt 1024 _)), orb_true_r by lia. done.
  - vm_compute. reflexivity.
  - vm_compute. reflexivity.
Qed.
