(* ===== verification/Proactor.v ===== *)
(** The io_uring server: src/network/proactor.c.

    The ring is the queue of prepared operations, the operations the kernel works
    on, and the queue of completions.  A receive writes into the one [buffer] of
    the loop when the kernel completes it, not when the loop gets to it; a send
    reads the [response] then.  The block that declares [response] has one place
    in the frame of [proactor_start], which the operation still points to after
    the block has ended: the model keeps that place. *)
From S2P Require Import Prelude CText KvsSpec Rdb Protocol Netio Reactor.

Local Open Scope Z_scope.

Definition EVENT_ACCEPT : Z := 0.
Definition EVENT_READ : Z := 1.
Definition EVENT_WRITE : Z := 2.
Definition ENTRIES_LENGTH : nat := 1024.
Definition MAX_CONNECTIONS : Z := 1024.
Definition BATCH_LENGTH : nat := 128.

Record conn_info := ConnInfo { ci_fd : Z; ci_event : Z }.

(** * The ring *)

Inductive uring_op : Type :=
  | UAccept (fd : Z)
  | URecv (fd : Z)
  | USend (fd len : Z).
Record sqe := Sqe { sq_op : uring_op; sq_data : conn_info }.
Record cqe := Cqe { cq_data : conn_info; cq_res : Z }.
Record ring := Ring {
  r_prepared : list sqe;
  r_inflight : list sqe;
  r_completed : list cqe
}.

(** * The server *)

Record pserver (St : Type) := PServer {
  ps_app : St;
  ps_ring : ring;
  ps_buffer : string;
  ps_response : string;
  ps_namespaces : list string;
  ps_open : gset Z;
  ps_sent : list (Z * string)
}.
Arguments PServer {St} _ _ _ _ _ _ _.
Arguments ps_app {St} _.
Arguments ps_ring {St} _.
Arguments ps_buffer {St} _.
Arguments ps_response {St} _.
Arguments ps_namespaces {St} _.
Arguments ps_open {St} _.
Arguments ps_sent {St} _.

Section proactor.
Context {St : Type} (handler : msg_handler St).

Definition ps_set_app (x : St) (s : pserver St) :=
  PServer x (ps_ring s) (ps_buffer s) (ps_response s) (ps_namespaces s) (ps_open s) (ps_sent s).
Definition ps_set_ring r (s : pserver St) :=
  PServer (ps_app s) r (ps_buffer s) (ps_response s) (ps_namespaces s) (ps_open s) (ps_sent s).
Definition ps_set_buffer b (s : pserver St) :=
  PServer (ps_app s) (ps_ring s) b (ps_response s) (ps_namespaces s) (ps_open s) (ps_sent s).
Definition ps_set_response b (s : pserver St) :=
  PServer (ps_app s) (ps_ring s) (ps_buffer s) b (ps_namespaces s) (ps_open s) (ps_sent s).
Definition ps_set_namespaces l (s : pserver St) :=
  PServer (ps_app s) (ps_ring s) (ps_buffer s) (ps_response s) l (ps_open s) (ps_sent s).
Definition ps_set_open o (s : pserver St) :=
  PServer (ps_app s) (ps_ring s) (ps_buffer s) (ps_response s) (ps_namespaces s) o (ps_sent s).
Definition ps_add_sent x (s : pserver St) :=
  PServer (ps_app s) (ps_ring s) (ps_buffer s) (ps_response s) (ps_namespaces s) (ps_open s) (ps_sent s ++ [x]).

(** [io_uring_get_sqe] with the preparation of the entry: it returns null when
    the queue is full, and preparing a null entry is undefined behaviour. *)
Definition prepare (op : uring_op) (info : conn_info) : M (pserver St) unit :=
  r ← gets ps_ring;
  if decide (length (r_prepared r) < ENTRIES_LENGTH)%nat
  then modify (ps_set_ring (Ring (r_prepared r ++ [Sqe op info]) (r_inflight r) (r_completed r)))
  else ub.
Definition set_event_recv (sockfd : Z) : M (pserver St) unit :=
  prepare (URecv sockfd) (ConnInfo sockfd EVENT_READ).
Definition set_event_send (sockfd len : Z) : M (pserver St) unit :=
  prepare (USend sockfd len) (ConnInfo sockfd EVENT_WRITE).
Definition set_event_accept (sockfd : Z) : M (pserver St) unit :=
  prepare (UAccept sockfd) (ConnInfo sockfd EVENT_ACCEPT).

(** * The namespaces of the connections *)

Definition in_connections (fd : Z) : bool := (0 <=? fd) && (fd <? MAX_CONNECTIONS).
Definition set_connection_namespace (fd : Z) (ns : string) : M (pserver St) unit :=
  modify (λ s, ps_set_namespaces (<[Z.to_nat fd := ns]> (ps_namespaces s)) s).
Definition init_connection_namespace (fd : Z) : M (pserver St) unit :=
  if in_connections fd then set_connection_namespace fd "default" else mret tt.
Definition get_connection_namespace (fd : Z) : M (pserver St) cptr :=
  l ← gets ps_namespaces;
  if in_connections fd then ns ← some_or_ub (l !! Z.to_nat fd); mret (PStr ns) else mret PNull.
Definition cleanup_connection_namespace (fd : Z) : M (pserver St) unit :=
  if in_connections fd then set_connection_namespace fd "default" else mret tt.

(** * The kernel *)

(** [io_uring_submit]. *)
Definition io_uring_submit : M (pserver St) unit :=
  modify (λ s, let r := ps_ring s in
    ps_set_ring (Ring [] (r_inflight r ++ r_prepared r) (r_completed r)) s).

(** The kernel finishes one operation, with the answer it gives: it accepts a
    client, puts the bytes it received into the buffer, or takes bytes from the
    response.  A length the response does not have is undefined behaviour. *)
Definition perform (op : uring_op) (k : answers) : M (pserver St) Z :=
  match op with
  | UAccept _ =>
      (if (a_accept k <? 0) then mret tt
       else modify (λ s, ps_set_open ({[ a_accept k ]} ∪ ps_open s) s));;
      mret (a_accept k)
  | URecv fd =>
      match str_take (Z.to_nat BUFFER_LENGTH) <$> a_recv k with
      | None => mret (-1)
      | Some data =>
          modify (λ s, ps_set_buffer (overwrite data (ps_buffer s)) s);;
          mret (Z.of_nat (String.length data))
      end
  | USend fd len =>
      resp ← gets ps_response;
      if (len <? 0) || (Z.of_nat (String.length resp) <? len) then ub else
      if (a_send k <? 0) then mret (-1) else
      let count := Z.min (a_send k) len in
      modify (ps_add_sent (fd, str_take (Z.to_nat count) resp));;
      mret count
  end.
(** The operation at a place of the list of those in flight completes. *)
Definition complete (c : nat * answers) : M (pserver St) unit :=
  let '(i, k) := c in
  r ← gets ps_ring;
  match r_inflight r !! i with
  | None => mret tt
  | Some q =>
      res ← perform (sq_op q) k;
      modify (ps_set_ring (Ring (r_prepared r) (delete i (r_inflight r)) (r_completed r ++ [Cqe (sq_data q) res])))
  end.
Fixpoint completes (cs : list (nat * answers)) : M (pserver St) unit :=
  match cs with
  | [] => mret tt
  | c :: cs' => complete c;; completes cs'
  end.

(** * The loop *)

(** A request: the handler gets the shared buffer and a cleared response. *)
Definition serve_read (fd ret : Z) : M (pserver St) unit :=
  modify (ps_set_response zero_buffer);;
  ns ← get_connection_namespace fd;
  buffer ← gets ps_buffer;
  h ← zoom ps_app ps_set_app (handler buffer ret ns);
  modify (ps_set_buffer (h_msg h));;
  modify (λ s, ps_set_response (write_reply (h_reply h) (ps_response s)) s);;
  match h_ns h with
  | PStr ns' => set_connection_namespace fd ns'
  | _ => mret tt
  end;;
  set_event_send fd (r_length (h_reply h)).

Definition handle_cqe (sockfd : Z) (entry : cqe) : M (pserver St) unit :=
  let result := cq_data entry in
  if (ci_event result =? EVENT_ACCEPT) then
    set_event_accept sockfd;;
    let connfd := cq_res entry in
    init_connection_namespace connfd;;
    set_event_recv connfd
  else if (ci_event result =? EVENT_READ) then
    let ret := cq_res entry in
    if (ret =? 0) then
      cleanup_connection_namespace (ci_fd result);;
      modify (λ s, ps_set_open (ps_open s ∖ {[ ci_fd result ]}) s)
    else if (0 <? ret) then serve_read (ci_fd result) ret
    else mret tt
  else if (ci_event result =? EVENT_WRITE) then
    set_event_recv (ci_fd result)
  else mret tt.
Fixpoint handle_cqes (sockfd : Z) (entries : list cqe) : M (pserver St) unit :=
  match entries with
  | [] => mret tt
  | entry :: entries' => handle_cqe sockfd entry;; handle_cqes sockfd entries'
  end.

(** One turn of [while (1)]: submit, wait while the kernel completes [cs], look at
    up to 128 completions, handle them, and take them off the queue. *)
Definition proactor_turn (sockfd : Z) (cs : list (nat * answers)) : M (pserver St) unit :=
  io_uring_submit;;
  completes cs;;
  r ← gets ps_ring;
  let batch := take BATCH_LENGTH (r_completed r) in
  handle_cqes sockfd batch;;
  modify (λ s, let r := ps_ring s in
    ps_set_ring (Ring (r_prepared r) (r_inflight r) (drop (length batch) (r_completed r))) s).
Fixpoint proactor_loop (sockfd : Z) (turns : list (list (nat * answers))) : M (pserver St) unit :=
  match turns with
  | [] => mret tt
  | cs :: turns' => proactor_turn sockfd cs;; proactor_loop sockfd turns'
  end.

(** [p_init_server]: the results of [socket] and [bind]. *)
Definition p_init_server (sock : Z * Z) : M (pserver St) Z :=
  let '(sockfd, bound) := sock in
  (if (sockfd <? 0) then mret tt else modify (λ s, ps_set_open ({[ sockfd ]} ∪ ps_open s) s));;
  mret (if (bound =? -1) then -1 else sockfd).
Definition proactor_start (sock : Z * Z) (turns : list (list (nat * answers))) : M (pserver St) unit :=
  sockfd ← p_init_server sock;
  modify (ps_set_ring (Ring [] [] []));;
  set_event_accept sockfd;;
  modify (ps_set_buffer zero_buffer);;
  modify (ps_set_response zero_buffer);;
  proactor_loop sockfd turns.
End proactor.

(** The process before [proactor_start]. *)
Definition boot_pserver {St} (app : St) (used : gset Z) : pserver St :=
  PServer app (Ring [] [] []) zero_buffer zero_buffer (replicate (Z.to_nat MAX_CONNECTIONS) "") used [].
