(* ===== verification/ProactorProof.v ===== *)
(** The io_uring server with one client: requests that do not get shorter are
    answered as a finite map answers them; and what the shared buffers do to
    shorter requests and to a second client. *)
From S2P Require Import Prelude CText KvsSpec KvsArray KvsHash RbTree RbEngine SkipList SkipProof CacheModel CacheSpec CacheLru CacheLfu Vector Rdb RdbProof Protocol Requests Dispatch Engines Session Netio Reactor ReactorProof Clients Proactor.

Local Open Scope Z_scope.

(** * One client *)

(** The request arrives, then its reply is taken; the accept stays in flight. *)
Definition request_turns (r : request) : list (list (nat * answers)) :=
  [[(1%nat, Answers 0 (Some (request_line r)) 0 0)]; [(1%nat, Answers 0 None BUFFER_LENGTH 0)]].
Definition session_turns (rs : list request) : list (list (nat * answers)) :=
  concat (request_turns <$> rs).
(** What the client should read. *)
Fixpoint client_texts (ns : string) (rs : list request) (m : tagged) : list string :=
  match rs with
  | [] => []
  | r :: rs' => let '(t, m', ns') := answer_of ns r m in t :: client_texts ns' rs' m'
  end.
(** All of them go when their turn comes. *)
Fixpoint all_go (ns : string) (rs : list request) (m : tagged) : bool :=
  match rs with
  | [] => true
  | r :: rs' => goes ns r m && let '(_, m', ns') := answer_of ns r m in all_go ns' rs' m'
  end.
(** No request is shorter than the one before it. *)
Fixpoint growing (n : nat) (rs : list request) : Prop :=
  match rs with
  | [] => True
  | r :: rs' => (n ≤ String.length (request_line r))%nat ∧ growing (String.length (request_line r)) rs'
  end.

(** The process of the io_uring build. *)
Definition proactor_main (sock : Z * Z) (turns : list (list (nat * answers))) : M (pserver store) unit :=
  zoom ps_app ps_set_app init_kvengine;;
  proactor_start kvs_handler sock turns.

Section session.
Context (fs : gmap string string) (lfd fd : Z).
Context (Hfd : 0 ≤ fd < MAX_CONNECTIONS).
Definition accept_sqe : sqe := Sqe (UAccept lfd) (ConnInfo lfd EVENT_ACCEPT).
Definition recv_sqe : sqe := Sqe (URecv fd) (ConnInfo fd EVENT_READ).

(** Between two requests: the next one is awaited, and the buffer is empty after
    the longest request so far. *)
Record waiting (ns : string) (m : tagged) (n : nat) (sent : list (Z * string)) (e : env)
    (s : pserver store) : Prop := {
  wt_ring : r_inflight (ps_ring s) ++ r_prepared (ps_ring s) = [accept_sqe; recv_sqe];
  wt_done : r_completed (ps_ring s) = [];
  wt_buffer : ∃ w, ps_buffer s = w +:+ nuls (Z.to_nat BUFFER_LENGTH - n) ∧ String.length w = n;
  wt_size : (n < Z.to_nat BUFFER_LENGTH)%nat;
  wt_ns : ps_namespaces s !! Z.to_nat fd = Some ns;
  wt_sent : ps_sent s = sent;
  wt_store : ∃ ns0, serving fs ns0 m (ps_app s);
  wt_env : no_oom e;
  wt_values : line_values (values m);
  wt_ascii : ascii_text ns = true
}.

Lemma overwrite_prefix line w k :
  (String.length w ≤ String.length line)%nat →
  overwrite line (w +:+ nuls k) = line +:+ nuls (k - (String.length line - String.length w)).
Proof.
  intros Hl. unfold overwrite. f_equal.
  assert (Hd : ∀ j v, str_drop (String.length v + j) (v +:+ nuls k) = str_drop j (nuls k)).
  { intros j v. induction v as [|c v IH]; [done|]. exact IH. }
  replace (String.length line) with (String.length w + (String.length line - String.length w))%nat at 1 by lia.
  by rewrite Hd, str_drop_nuls.
Qed.

Lemma namespace_here e (s : pserver store) ns Q :
  ps_namespaces s !! Z.to_nat fd = Some ns → Q (PStr ns) e s → wp (get_connection_namespace fd) e s Q.
Proof.
  intros Hns HQ. unfold get_connection_namespace, in_connections. wp_step. wp_step.
  rewrite (proj2 (Z.leb_le _ _)), (proj2 (Z.ltb_lt _ _)) by lia. rewrite Hns. simpl. by do 3 wp_step.
Qed.

(** A turn in which the operation beside the accept completes. *)
Lemma wp_turn q ans e (s : pserver store) Q :
  r_inflight (ps_ring s) ++ r_prepared (ps_ring s) = [accept_sqe; q] → r_completed (ps_ring s) = [] →
  wp (perform (sq_op q) ans) e (ps_set_ring (Ring [] [accept_sqe; q] []) s) (λ res e1 s1,
    wp (handle_cqe kvs_handler lfd (Cqe (sq_data q) res)) e1
      (ps_set_ring (Ring [] [accept_sqe] [Cqe (sq_data q) res]) s1) (λ _ e2 s2,
        let r := ps_ring s2 in
        Q tt e2 (ps_set_ring (Ring (r_prepared r) (r_inflight r) (drop 1 (r_completed r))) s2))) →
  wp (proactor_turn kvs_handler lfd [(1%nat, ans)]) e s Q.
Proof.
  intros Hring Hdone H. unfold proactor_turn, io_uring_submit. wp_step. wp_step. cbv zeta. rewrite Hring, Hdone.
  wp_step. cbn [completes]. wp_step. unfold complete. wp_step. wp_step.
  cbn [ps_ring ps_set_ring r_inflight r_prepared r_completed lookup list_lookup]. wp_step.
  eapply wp_mono; [exact H|]. intros res e1 s1 H1. wp_step. wp_step. wp_step. wp_step.
  cbn [ps_ring ps_set_ring r_inflight r_prepared r_completed]. change (delete 1%nat [accept_sqe; q]) with [accept_sqe].
  change (take BATCH_LENGTH ([] ++ [?x])) with [x]. cbn [app length handle_cqes]. wp_step. wp_step.
  eapply wp_mono; [exact H1|]. intros ? e2 s2 H2. wp_step. wp_step. exact H2.
Qed.

Lemma wp_prepare op info e (s : pserver store) Q :
  (length (r_prepared (ps_ring s)) < ENTRIES_LENGTH)%nat →
  Q tt e (ps_set_ring (Ring (r_prepared (ps_ring s) ++ [Sqe op info]) (r_inflight (ps_ring s)) (r_completed (ps_ring s))) s) →
  wp (prepare op info) e s Q.
Proof. intros Hl HQ. unfold prepare. wp_step. wp_step. rewrite decide_True by done. by wp_step. Qed.

Lemma perform_recv line k e (s : pserver store) Q :
  a_recv k = Some line → Z.of_nat (String.length line) < BUFFER_LENGTH →
  Q (Z.of_nat (String.length line)) e (ps_set_buffer (overwrite line (ps_buffer s)) s) →
  wp (perform (URecv fd) k) e s Q.
Proof.
  intros Hk Hl HQ. unfold perform. rewrite Hk. change (str_take ?n <$> Some ?d) with (Some (str_take n d)).
  rewrite str_take_ge by lia. cbv iota. wp_step. wp_step. by wp_step.
Qed.
Lemma perform_send t k e (s : pserver store) Q :
  Z.of_nat (String.length t) ≤ Z.min BUFFER_LENGTH (a_send k) →
  Z.of_nat (String.length (ps_response s)) = BUFFER_LENGTH → str_take (String.length t) (ps_response s) = t →
  Q (Z.of_nat (String.length t)) e (ps_add_sent (fd, t) s) →
  wp (perform (USend fd (Z.of_nat (String.length t))) k) e s Q.
Proof.
  intros Hl Hr Ht HQ. unfold perform. wp_step. wp_step. rewrite Hr.
  rewrite (proj2 (Z.ltb_ge _ _)), orb_false_l, (proj2 (Z.ltb_ge _ _)), (proj2 (Z.ltb_ge _ _)) by lia.
  rewrite Z.min_r, Nat2Z.id, Ht by lia. wp_step. wp_step. by wp_step.
Qed.

(** The handler's turn. *)
Lemma wp_serve_read ns buf len e (s : pserver store) Q :
  ps_namespaces s !! Z.to_nat fd = Some ns → ps_buffer s = buf → (length (r_prepared (ps_ring s)) < ENTRIES_LENGTH)%nat →
  wp (kvs_handler buf len (PStr ns)) e (ps_app s) (λ h e' x, ∃ ns' t,
    h_ns h = PStr ns' ∧ reply_bytes (h_reply h) = Some t ∧
    Q tt e' (PServer x
      (Ring (r_prepared (ps_ring s) ++ [Sqe (USend fd (Z.of_nat (String.length t))) (ConnInfo fd EVENT_WRITE)])
        (r_inflight (ps_ring s)) (r_completed (ps_ring s)))
      (h_msg h) (write_reply (h_reply h) zero_buffer) (<[Z.to_nat fd := ns']> (ps_namespaces s)) (ps_open s) (ps_sent s))) →
  wp (serve_read kvs_handler fd len) e s Q.
Proof.
  intros Hns Hbuf Hprep H. unfold serve_read. wp_step. wp_step. wp_step. apply (namespace_here _ _ ns); [done|].
  wp_step. wp_step. wp_step. cbn [ps_set_response ps_buffer]. rewrite Hbuf. apply wp_zoom.
  eapply wp_mono; [exact H|]. intros h e' x (ns' & t & Hns' & Ht & HQ).
  destruct (reply_bytes_ok _ _ zero_buffer Ht zero_buffer_length) as (Hlen & _).
  wp_step. wp_step. wp_step. wp_step. rewrite Hns'. wp_step. unfold set_connection_namespace. wp_step.
  unfold set_event_send. apply wp_prepare; [done|]. rewrite Hlen. destruct s. exact HQ.
Qed.

Lemma wp_request_turns ns m n sent e s r :
  waiting ns m n sent e s → request_ok r → goes ns r m = true → (n ≤ String.length (request_line r))%nat →
  let '(t, m', ns') := answer_of ns r m in
  wp (proactor_loop kvs_handler lfd (request_turns r)) e s
    (λ _ e' s', waiting ns' m' (String.length (request_line r)) (sent ++ [(fd, t)]) e' s').
Proof.
  intros [Hring Hdone (w & Hbuf & Hw) Hn Hns Hsent [ns0 Hst] He Hv Hasc] Hr Hgo Hlen.
  pose proof Hr as (_ & _ & Hline & _). set (line := request_line r) in *.
  assert (Hpos : (0 < String.length line)%nat).
  { unfold line, request_line. pose proof (length_render_line (request_tokens r)).
    assert (0 < length (request_tokens r))%nat by (destruct r as [|? []]; simpl; lia). lia. }
  destruct (Z.to_nat BUFFER_LENGTH - String.length line)%nat as [|j] eqn:Hj; [lia|].
  assert (Hover : overwrite line (ps_buffer s) = line +:+ String NUL (nuls j)).
  { rewrite Hbuf, overwrite_prefix by lia. f_equal. replace (_ - _)%nat with (S j) by lia. done. }
  pose proof (wp_request fs ns0 ns r m (nuls j) e (ps_app s) Hst He Hv Hr Hasc Hgo) as Hreq. fold line in Hreq.
  destruct (answer_of ns r m) as [[t m'] ns'].
  unfold request_turns. fold line. cbn [proactor_loop]. wp_step. apply (wp_turn recv_sqe); [done..|].
  simpl sq_op. apply (perform_recv line); [done..|]. unfold handle_cqe. cbn [cq_data cq_res sq_data recv_sqe ci_event ci_fd].
  change (EVENT_READ =? EVENT_ACCEPT) with false. change (EVENT_READ =? EVENT_READ) with true. cbv iota zeta.
  rewrite (proj2 (Z.eqb_neq _ _)), (proj2 (Z.ltb_lt _ _)) by lia.
  apply (wp_serve_read ns (line +:+ String NUL (nuls j))); [done|exact Hover|simpl; unfold ENTRIES_LENGTH; lia|].
  eapply wp_mono; [exact Hreq|].
  intros h e' x (Hrb & Hne & Hns' & Hasc' & Hv' & He' & Hst' & w' & Hmsg & Hw'). exists ns', t. split_and!; [done..|].
  destruct (reply_bytes_ok _ _ zero_buffer Hrb zero_buffer_length) as (_ & Hmax & Htake & Hwl).
  cbv zeta. wp_step. eapply (wp_turn (Sqe (USend fd (Z.of_nat (String.length t))) (ConnInfo fd EVENT_WRITE))); [done..|].
  simpl sq_op. apply (perform_send t); [simpl a_send; lia|done|done|].
  unfold handle_cqe. cbn [cq_data cq_res sq_data ci_event ci_fd].
  change (EVENT_WRITE =? EVENT_ACCEPT) with false. change (EVENT_WRITE =? EVENT_READ) with false.
  change (EVENT_WRITE =? EVENT_WRITE) with true. cbv iota zeta. unfold set_event_recv.
  apply wp_prepare; [simpl; unfold ENTRIES_LENGTH; lia|]. wp_step. split; try done; cbn.
  - exists w'. rewrite Hmsg, Hw', Hj. done.
  - lia.
  - apply list_lookup_insert_eq. by eapply lookup_lt_Some.
  - by rewrite Hsent.
  - by exists ns'.
Qed.

Lemma proactor_loop_app (ts1 ts2 : list (list (nat * answers))) e (s : pserver store) Q :
  wp (proactor_loop kvs_handler lfd ts1) e s (λ _ e' s', wp (proactor_loop kvs_handler lfd ts2) e' s' Q) →
  wp (proactor_loop kvs_handler lfd (ts1 ++ ts2)) e s Q.
Proof.
  revert e s. induction ts1 as [|t ts1 IH]; intros e s H; [exact H|]. cbn [proactor_loop app] in *.
  apply wp_bind_inv in H. wp_step. eapply wp_mono; [exact H|]. intros ? e' s' H'. by apply IH.
Qed.
Lemma wp_session ns m n sent e s rs :
  waiting ns m n sent e s → Forall request_ok rs → all_go ns rs m = true → growing n rs →
  wp (proactor_loop kvs_handler lfd (session_turns rs)) e s
    (λ _ e' s', ps_sent s' = sent ++ (pair fd <$> client_texts ns rs m)).
Proof.
  revert ns m n sent e s. induction rs as [|r rs IH]; intros ns m n sent e s Hw Hrs Hgo Hg.
  { change (ps_sent s = sent ++ []). rewrite app_nil_r. by apply Hw. }
  apply Forall_cons in Hrs as [Hr Hrs]. destruct Hg as [Hlen Hg]. cbn [all_go] in Hgo.
  apply andb_true_iff in Hgo as [Hgo Hgos]. unfold session_turns. cbn [fmap list_fmap concat].
  apply proactor_loop_app. pose proof (wp_request_turns _ _ _ _ _ _ _ Hw Hr Hgo Hlen) as H. simpl client_texts.
  destruct (answer_of ns r m) as [[t m'] ns']. eapply wp_mono; [exact H|]. intros ? e' s' Hw'.
  eapply wp_mono; [exact (IH _ _ _ _ e' s' Hw' Hrs Hgos Hg)|]. intros ? e2 s2 ->. by rewrite <-app_assoc.
Qed.
End session.

(** The listening socket is opened, and the client connects. *)
Lemma wp_proactor_connect fs U lfd fd turns e s1 Q :
  0 ≤ lfd → 0 ≤ fd < MAX_CONNECTIONS → no_oom e → serving fs "default" ∅ s1 →
  (∀ s', waiting fs lfd fd "default" ∅ 0 [] e s' → wp (proactor_loop kvs_handler lfd turns) e s' Q) →
  wp (proactor_start kvs_handler (lfd, 0) ([(0%nat, Answers fd None 0 0)] :: turns)) e (boot_pserver s1 U) Q.
Proof.
  intros Hl Hfd He Hs H. unfold proactor_start, p_init_server. wp_step. wp_step.
  rewrite (proj2 (Z.ltb_ge _ _)) by lia. change (0 =? -1) with false. cbv iota. repeat wp_step.
  unfold set_event_accept. apply wp_prepare; [simpl; unfold ENTRIES_LENGTH; lia|]. repeat wp_step.
  cbn [proactor_loop]. wp_step. unfold proactor_turn, io_uring_submit. wp_step. wp_step. wp_step. cbn [completes]. wp_step.
  unfold complete. wp_step. wp_step. cbn -[Z.ltb]. wp_step. rewrite (proj2 (Z.ltb_ge _ _)) by lia. repeat wp_step.
  match goal with |- wp (handle_cqes _ _ ?l) _ _ _ => let l' := eval cbn in l in change l with l' end.
  cbn [handle_cqes]. wp_step.
  unfold handle_cqe. cbn [cq_data cq_res ci_event ci_fd]. change (EVENT_ACCEPT =? EVENT_ACCEPT) with true. cbv iota zeta.
  wp_step. unfold set_event_accept. apply wp_prepare; [simpl; unfold ENTRIES_LENGTH; lia|]. wp_step.
  unfold init_connection_namespace, in_connections.
  rewrite (proj2 (Z.leb_le _ _)), (proj2 (Z.ltb_lt _ _)) by lia. simpl andb. cbv iota.
  unfold set_connection_namespace. wp_step. unfold set_event_recv.
  apply wp_prepare; [simpl; unfold ENTRIES_LENGTH; lia|]. repeat wp_step. apply H.
  split; try done; cbn.
  - exists "". done.
  - unfold BUFFER_LENGTH. lia.
  - apply list_lookup_insert_eq. unfold MAX_CONNECTIONS in *. rewrite length_replicate. lia.
  - by exists "default".
Qed.

(** C26: the io_uring server with one client: from its start on a disk without a dump,
    requests to the four engines, a key being with one engine at a time, that never
    get shorter are answered as a finite map, with the namespace the client has chosen, answers
    them. *)
Theorem proactor_session_refines fs U lfd fd rs e :
  no_oom e → fs !! RDB_FILENAME = None → 0 ≤ lfd → 0 ≤ fd < MAX_CONNECTIONS →
  Forall request_ok rs → all_go "default" rs ∅ = true → growing 0 rs →
  wp (proactor_main (lfd, 0) ([(0%nat, Answers fd None 0 0)] :: session_turns rs)) e (boot_pserver (boot_store fs) U)
    (λ _ _ s, ps_sent s = pair fd <$> client_texts "default" rs ∅).
Proof.
  intros He Hfs Hl Hfd Hrs Hgo Hg. unfold proactor_main. wp_step. apply wp_zoom. apply wp_init_fresh; [done..|].
  intros e1 s1 He1 Hs1. apply started_new, started_serving in Hs1.
  eapply (wp_proactor_connect fs U lfd fd); [done..|].
  intros s' Hw. eapply wp_mono; [by eapply wp_session|]. by intros ? ? ? ->.
Qed.
Definition growing_requests : list request :=
  [RNs "u1"; ROp EArray (OpSet "k" "1"); ROp ERbtree (OpSet "key" "1"); ROp ERbtree (OpExist "keys")].
Lemma proactor_session_refines_witness :
  wp (proactor_main (4, 0) ([(0%nat, Answers 24 None 0 0)] :: session_turns growing_requests))
    (Env [] [] [] [] 0) (boot_pserver (boot_store ∅) sample_used)
    (λ _ _ s, ps_sent s = [(24, "Namespace set to: u1" +:+ crlf); (24, OK_MSG); (24, OK_MSG); (24, NO_EXIST_MSG)]).
Proof.
  apply (proactor_session_refines ∅ sample_used 4 24 growing_requests (Env [] [] [] [] 0)).
  - constructor.
  - reflexivity.
  - lia.
  - unfold MAX_CONNECTIONS. lia.
  - requests_solve.
  - reflexivity.
  - repeat split; vm_compute; lia.
Defined.

(** * What the shared buffers do *)

Definition proactor_seen (o : outcome (unit * env * pserver store)) : option (list (Z * string)) :=
  match o with Ret (_, _, s) => Some (ps_sent s) | _ => None end.
Definition run_proactor (turns : list (list (nat * answers))) : outcome (unit * env * pserver store) :=
  proactor_main (4, 0) turns (Env [] [] [] [] 0) (boot_pserver (boot_store ∅) sample_used).
Definition receives (i : nat) (data : string) : nat * answers := (i, Answers 0 (Some data) 0 0).
Definition takes (i : nat) : nat * answers := (i, Answers 0 None BUFFER_LENGTH 0).

(** ** A request runs on into the bytes after it *)

Lemma strip_app n s t : strip_newlines n (s +:+ t) = strip_newlines n s +:+ strip_newlines (n - String.length s) t.
Proof.
  revert n. induction s as [|c s IH]; intros [|n]; try done. rewrite !str_cons_app. simpl strip_newlines. rewrite str_cons_app.
  f_equal. by apply IH.
Qed.
Lemma strip_none s : strip_newlines 0 s = s.
Proof. by destruct s. Qed.
(** Passing over bytes without line ends. *)
Lemma strip_leftovers a u w : one_line u →
  strip_newlines (String.length a) (a +:+ u +:+ w) = strip_newlines (String.length (a +:+ u)) (a +:+ u +:+ w).
Proof.
  intros Hu. rewrite str_len_app, !strip_app. rewrite Nat.sub_diag, !strip_none.
  replace (String.length a + String.length u - String.length a)%nat with (String.length u) by lia.
  rewrite Nat.sub_diag, strip_none, (strip_id _ u) by done. f_equal.
  assert (H : ∀ n s, (String.length s ≤ n)%nat → strip_newlines n s = strip_newlines (String.length s) s).
  { intros n t. revert n. induction t as [|c t IH]; intros [|n] Hn; simpl in *; try done; [lia|]. f_equal. apply IH. lia. }
  symmetry. apply H. lia.
Qed.
Lemma strip_prefix n1 n2 m t :
  strip_newlines n1 (m +:+ t) = strip_newlines n2 (m +:+ t) → strip_newlines n1 m = strip_newlines n2 m.
Proof.
  assert (Hm : ∀ n x, str_take (String.length m) (strip_newlines n m +:+ x) = strip_newlines n m).
  { intros n x. rewrite <-(strip_length n m) at 1. apply str_take_app. }
  rewrite !strip_app. intros H. apply (f_equal (str_take (String.length m))) in H. by rewrite !Hm in H.
Qed.
(** The handler does not look at the length of a request, but for its line ends. *)
Lemma handler_leftovers a u w ns :
  one_line u → a ≠ "" →
  kvs_handler (a +:+ u +:+ w) (Z.of_nat (String.length a)) ns =
  kvs_handler (a +:+ u +:+ w) (Z.of_nat (String.length (a +:+ u))) ns.
Proof.
  intros Hu Ha. unfold kvs_handler. rewrite !Nat2Z.id, <-(strip_leftovers a u w Hu).
  destruct (c_text (a +:+ u +:+ w)) as [m|] eqn:Hm; [|done]. apply c_text_inv in Hm as [_ [tail Hm]].
  assert (Hp : kvs_protocol (Some m) (Z.of_nat (String.length a)) = kvs_protocol (Some m) (Z.of_nat (String.length (a +:+ u)))).
  { unfold kvs_protocol. assert (0 < String.length a)%nat by (destruct a; [done|simpl; lia]).
    rewrite !(proj2 (Z.leb_gt _ _)) by (rewrite ?str_len_app; lia). rewrite !Nat2Z.id.
    rewrite (strip_prefix _ (String.length (a +:+ u)) m (String NUL tail)); [done|]. rewrite <-Hm. by apply strip_leftovers. }
  by rewrite Hp.
Qed.
(** The operations of the kernel and the loop do not look at the result of a receive, but
    for the length they pass to the handler. *)
Definition read_done {St} (fd n : Z) (s : pserver St) : pserver St :=
  ps_set_ring (Ring (r_prepared (ps_ring s)) (r_inflight (ps_ring s)) [Cqe (ConnInfo fd EVENT_READ) n]) s.
Definition turn_end {St} (handler : msg_handler St) (lfd : Z) (batch : list cqe) : M (pserver St) unit :=
  handle_cqes handler lfd batch;;
  modify (λ s, let r := ps_ring s in ps_set_ring (Ring (r_prepared r) (r_inflight r) (drop (length batch) (r_completed r))) s).
Lemma serve_read_length lfd fd n1 n2 e s :
  0 < n1 → 0 < n2 → (∀ ns, kvs_handler (ps_buffer s) n1 ns = kvs_handler (ps_buffer s) n2 ns) →
  turn_end kvs_handler lfd [Cqe (ConnInfo fd EVENT_READ) n1] e (read_done fd n1 s) =
  turn_end kvs_handler lfd [Cqe (ConnInfo fd EVENT_READ) n2] e (read_done fd n2 s).
Proof.
  intros H1 H2 Hh. unfold turn_end. cbn [handle_cqes]. unfold handle_cqe. cbn [cq_data cq_res ci_event ci_fd].
  change (EVENT_READ =? EVENT_ACCEPT) with false. change (EVENT_READ =? EVENT_READ) with true. cbv iota zeta.
  rewrite !(proj2 (Z.eqb_neq _ 0)), !(proj2 (Z.ltb_lt 0 _)) by lia.
  unfold serve_read, get_connection_namespace, set_connection_namespace, set_event_send, prepare.
  unfold mbind, M_bind, modify, gets, zoom, mret, M_ret. destruct s as [app r buf resp nss op sent]. cbn -[in_connections ENTRIES_LENGTH] in *.
  assert (H : ∀ ns, kvs_handler buf n1 ns e app = kvs_handler buf n2 ns e app) by (intros ns; by rewrite Hh).
  destruct (in_connections fd); [destruct (nss !! Z.to_nat fd); cbn; [|done]|]; rewrite H;
    (destruct (kvs_handler _ _ _ _ _) as [[[h e'] st']| |]; [|done..]); cbn -[ENTRIES_LENGTH]; destruct (h_ns h); cbn -[ENTRIES_LENGTH]; by case_decide.
Qed.
(** The operations in flight once the loop has submitted, and the receive of a request. *)
Definition flying {St} (s : pserver St) : list sqe := r_inflight (ps_ring s) ++ r_prepared (ps_ring s).
Definition awaits {St} (s : pserver St) (i : nat) (fd : Z) : Prop :=
  flying s !! i = Some (Sqe (URecv fd) (ConnInfo fd EVENT_READ)).
Ltac ring_step := unfold mbind, M_bind, modify, gets, mret, M_ret; cbn -[BUFFER_LENGTH handle_cqes BATCH_LENGTH overwrite str_take].
Lemma recv_turn {St} (handler : msg_handler St) lfd i fd data e s :
  awaits s i fd → r_completed (ps_ring s) = [] → (String.length data ≤ Z.to_nat BUFFER_LENGTH)%nat →
  let n := Z.of_nat (String.length data) in
  proactor_turn handler lfd [receives i data] e s =
  turn_end handler lfd [Cqe (ConnInfo fd EVENT_READ) n] e
    (read_done fd n (ps_set_buffer (overwrite data (ps_buffer s)) (ps_set_ring (Ring [] (delete i (flying s)) []) s))).
Proof.
  intros Hi Hc Hl n. destruct s as [app [rp rf rc] buf resp nss op sent]. unfold awaits, flying in *. simpl in Hi, Hc. subst rc.
  unfold proactor_turn, io_uring_submit. cbn [completes receives]. unfold complete. ring_step.
  rewrite Hi. ring_step. rewrite str_take_more, str_take_all by done. done.
Qed.
(** The later of two receives is what both find in the buffer. *)
Lemma overwrite_twice d d' buf : String.length d = String.length d' → overwrite d (overwrite d' buf) = overwrite d buf.
Proof.
  intros Hl. unfold overwrite. f_equal. rewrite Hl. clear d Hl. revert buf. induction d' as [|c d' IH]; intros buf; [done|].
  rewrite str_cons_app. simpl. destruct buf as [|b buf]; simpl; [|apply IH]. rewrite str_app_nil. clear. by induction d'.
Qed.
Lemma recv_both {St} (handler : msg_handler St) lfd i j fd fd' d d' e s :
  awaits s i fd → delete i (flying s) !! j = Some (Sqe (URecv fd') (ConnInfo fd' EVENT_READ)) →
  String.length d = String.length d' → (String.length d ≤ Z.to_nat BUFFER_LENGTH)%nat →
  proactor_turn handler lfd [receives i d; receives j d'] e s = proactor_turn handler lfd [receives i d'; receives j d'] e s.
Proof.
  intros Hi Hj Hd Hl. destruct s as [app [rp rf rc] buf resp nss op sent]. unfold awaits, flying in *. simpl in Hi, Hj.
  unfold proactor_turn, io_uring_submit. cbn [completes receives]. unfold complete. ring_step.
  rewrite Hi. ring_step. rewrite !str_take_more, !str_take_all by lia. ring_step. rewrite Hj. ring_step.
  rewrite !str_take_more, !str_take_all by lia. ring_step. rewrite !overwrite_twice by done. by rewrite Hd.
Qed.

(** C34: the buffer of the loop is shared and never cleared.  When a request comes in over
    an older one that was longer, the server does what it would do if the client had sent
    the rest of the older one, [u], with it, as long as no line end comes before: every
    other effect of the turn is the same, too.  And when the requests of two clients, of one
    length, complete before the loop looks, it does what it would do if the first client
    had sent what the second one did, whatever the handler. *)
Theorem proactor_mixes_requests lfd :
  (∀ i fd data u w e s,
    awaits s i fd → r_completed (ps_ring s) = [] → data ≠ "" → one_line u →
    str_drop (String.length data) (ps_buffer s) = u +:+ w →
    (String.length (data +:+ u) ≤ Z.to_nat BUFFER_LENGTH)%nat →
    proactor_turn kvs_handler lfd [receives i data] e s = proactor_turn kvs_handler lfd [receives i (data +:+ u)] e s) ∧
  (∀ St (handler : msg_handler St) i j fd fd' d d' e s,
    awaits s i fd → delete i (flying s) !! j = Some (Sqe (URecv fd') (ConnInfo fd' EVENT_READ)) →
    String.length d = String.length d' → (String.length d ≤ Z.to_nat BUFFER_LENGTH)%nat →
    proactor_turn handler lfd [receives i d; receives j d'] e s = proactor_turn handler lfd [receives i d'; receives j d'] e s).
Proof.
  split; [|intros; by eapply recv_both]. intros i fd data u w e s Hi Hc Hd Hu Hb Hl.
  assert (Hpos : (0 < String.length data)%nat) by (destruct data; [done|simpl; lia]).
  pose proof (str_len_app data u) as Hlen. rewrite !(recv_turn kvs_handler lfd i fd) by (done || lia).
  assert (Ho : overwrite (data +:+ u) (ps_buffer s) = overwrite data (ps_buffer s)).
  { unfold overwrite. rewrite Hlen, <-str_drop_drop, Hb, str_drop_app. apply str_app_assoc. }
  rewrite Ho. apply serve_read_length; [lia|lia|]. intros ns. cbn. unfold overwrite. rewrite Hb. by apply handler_leftovers.
Qed.
Lemma proactor_mixes_requests_witness :
  let s := PServer (boot_store ∅) (Ring [] [accept_sqe 4; recv_sqe 24; recv_sqe 25] []) (overwrite "SET abc hello" zero_buffer)
    zero_buffer (replicate 1024 "default") sample_used [] in
  let e := Env [] [] [] [] 0 in
  proactor_turn kvs_handler 4 [receives 1 "GET a"] e s = proactor_turn kvs_handler 4 [receives 1 "GET abc hello"] e s ∧
  proactor_turn kvs_handler 4 [receives 1 "SET k a"; receives 1 "SET k b"] e s =
    proactor_turn kvs_handler 4 [receives 1 "SET k b"; receives 1 "SET k b"] e s.
Proof.
  intros s e. split.
  - apply (proj1 (proactor_mixes_requests 4) 1%nat 24 "GET a" "bc hello" (str_drop 13 (overwrite "SET abc hello" zero_buffer)) e s).
    + reflexivity.
    + reflexivity.
    + discriminate.
    + split; reflexivity.
    + vm_compute. reflexivity.
    + vm_compute. lia.
  - apply (proj2 (proactor_mixes_requests 4) store kvs_handler 1%nat 1%nat 24 25 "SET k a" "SET k b" e s).
    + reflexivity.
    + reflexivity.
    + reflexivity.
    + vm_compute. lia.
Defined.

(** Both in a run from the start: after [SET abc hello], [GET a] answers the value of
    [abc]; and the server stores [b], which the first client did not send, finds no
    arguments in what its tokenizer left for the second client, and sends both clients
    bytes of the last reply. *)
Example proactor_mixed_runs :
  proactor_seen (run_proactor [[(0%nat, Answers 24 None 0 0)];
    [receives 1 "SET abc hello"]; [takes 1]; [receives 1 "GET a"]; [takes 1]]) =
    Some [(24, OK_MSG); (24, "hello" +:+ crlf)] ∧
  proactor_seen (run_proactor [[(0%nat, Answers 24 None 0 0)]; [(0%nat, Answers 25 None 0 0)];
    [receives 0 "SET k a"; receives 1 "SET k b"]; [takes 1; takes 1]; [receives 1 "GET k   "]; [takes 2]]) =
    Some [(24, "ERRO"); (25, "ERROR: command requires key and value" +:+ crlf); (24, "b" +:+ crlf)].
Proof. split; vm_compute; reflexivity. Qed.
