(* ===== verification/NtySched.v ===== *)
(** The coroutine library of the third network loop: NtyCo/core/nty_schedule.c,
    nty_coroutine.c, nty_epoll.c and the parts of nty_socket.c it waits with.

    A coroutine is a program that runs until it yields; what it saves in its
    context is a value of the type [P] of the program, and running it from there
    is a function [body].  All coroutines run on one stack ([_USE_UCONTEXT]): the
    frames of one are copied away when it yields and copied back when it resumes,
    so the stack holds the frames of the last one that ran, which [sc_stack]
    names.

    The trees of sleeping and waiting coroutines are finite maps from the key the
    comparison function reads; a failed assertion is undefined behaviour, as is
    an access to a freed coroutine. *)
From S2P Require Import Prelude CText KvsSpec Rdb Protocol Netio Reactor.

Local Open Scope Z_scope.

(** * Coroutines *)

Definition NTY_COROUTINE_STATUS_WAIT_READ : Z := 0.
Definition NTY_COROUTINE_STATUS_WAIT_WRITE : Z := 1.
Definition NTY_COROUTINE_STATUS_NEW : Z := 2.
Definition NTY_COROUTINE_STATUS_READY : Z := 3.
Definition NTY_COROUTINE_STATUS_EXITED : Z := 4.
Definition NTY_COROUTINE_STATUS_SLEEPING : Z := 6.
Definition NTY_COROUTINE_STATUS_EXPIRED : Z := 7.
Definition NTY_COROUTINE_STATUS_FDEOF : Z := 8.
Definition NTY_COROUTINE_STATUS_DETACH : Z := 9.
Definition BIT (x : Z) : Z := Z.shiftl 1 x.
Definition CLEARBIT (x : Z) : Z := Z.lnot (Z.shiftl 1 x).
Definition has_bit (status x : Z) : bool := negb (Z.land status (BIT x) =? 0).

Definition POLLIN : Z := 1.
Definition POLLOUT : Z := 4.
Definition POLLERR : Z := 8.
Definition POLLHUP : Z := 16.
Definition POLLRDNORM : Z := 64.
Definition POLLWRNORM : Z := 256.
(** The flags of [epoll] have the same values. *)
Definition EPOLLHUP : Z := POLLHUP.
Definition nty_pollevent_2epoll (events : Z) : Z :=
  let flag x := if Z.land events x =? 0 then 0 else x in
  Z.lor (Z.lor (Z.lor (Z.lor (Z.lor (flag POLLIN) (flag POLLOUT)) (flag POLLHUP)) (flag POLLERR))
    (flag POLLRDNORM)) (flag POLLWRNORM).

(** [struct _nty_coroutine], without the fields that nothing in the library reads;
    [co_ctx] stands for its context and saved stack. *)
Record coroutine (P : Type) := Co {
  co_status : Z;
  co_id : Z;
  co_fd : Z;
  co_events : Z;
  co_birth : Z;
  co_ops : Z;
  co_sleep_usecs : Z;
  co_ctx : P
}.
Arguments Co {P} _ _ _ _ _ _ _ _.
Arguments co_status {P} _.
Arguments co_id {P} _.
Arguments co_fd {P} _.
Arguments co_events {P} _.
Arguments co_birth {P} _.
Arguments co_ops {P} _.
Arguments co_sleep_usecs {P} _.
Arguments co_ctx {P} _.

(** [struct _nty_schedule]; no coroutine is ever put in [busy]. *)
Record schedule := Sched {
  sc_birth : Z;
  sc_spawned : Z;
  sc_default_timeout : Z;
  sc_curr : nptr;
  sc_poller_fd : Z;
  sc_eventfd : Z;
  sc_stack : nptr;
  sc_ready : list loc;
  sc_busy : list loc;
  sc_sleeping : gmap Z loc;
  sc_waiting : gmap Z loc
}.
Definition sc_set_spawned n sc := Sched (sc_birth sc) n (sc_default_timeout sc) (sc_curr sc) (sc_poller_fd sc)
  (sc_eventfd sc) (sc_stack sc) (sc_ready sc) (sc_busy sc) (sc_sleeping sc) (sc_waiting sc).
Definition sc_set_curr x sc := Sched (sc_birth sc) (sc_spawned sc) (sc_default_timeout sc) x (sc_poller_fd sc)
  (sc_eventfd sc) (sc_stack sc) (sc_ready sc) (sc_busy sc) (sc_sleeping sc) (sc_waiting sc).
Definition sc_set_stack x sc := Sched (sc_birth sc) (sc_spawned sc) (sc_default_timeout sc) (sc_curr sc) (sc_poller_fd sc)
  (sc_eventfd sc) x (sc_ready sc) (sc_busy sc) (sc_sleeping sc) (sc_waiting sc).
Definition sc_set_ready l sc := Sched (sc_birth sc) (sc_spawned sc) (sc_default_timeout sc) (sc_curr sc) (sc_poller_fd sc)
  (sc_eventfd sc) (sc_stack sc) l (sc_busy sc) (sc_sleeping sc) (sc_waiting sc).
Definition sc_set_sleeping t sc := Sched (sc_birth sc) (sc_spawned sc) (sc_default_timeout sc) (sc_curr sc) (sc_poller_fd sc)
  (sc_eventfd sc) (sc_stack sc) (sc_ready sc) (sc_busy sc) t (sc_waiting sc).
Definition sc_set_waiting t sc := Sched (sc_birth sc) (sc_spawned sc) (sc_default_timeout sc) (sc_curr sc) (sc_poller_fd sc)
  (sc_eventfd sc) (sc_stack sc) (sc_ready sc) (sc_busy sc) (sc_sleeping sc) t.

(** The process: its scheduler, the coroutines that are allocated, the kernel,
    the time [gettimeofday] reads (in microseconds), and the data of the program. *)
Record process (P W : Type) := Process {
  pr_sched : option schedule;
  pr_heap : gmap loc (coroutine P);
  pr_kernel : kernel;
  pr_now : Z;
  pr_world : W
}.
Arguments Process {P W} _ _ _ _ _.
Arguments pr_sched {P W} _.
Arguments pr_heap {P W} _.
Arguments pr_kernel {P W} _.
Arguments pr_now {P W} _.
Arguments pr_world {P W} _.

Section sched.
Context {P W : Type}.
Implicit Types (co : coroutine P) (x : loc).

Definition co_set_status z co :=
  Co z (co_id co) (co_fd co) (co_events co) (co_birth co) (co_ops co) (co_sleep_usecs co) (co_ctx co).
Definition co_set_wait fd events co :=
  Co (co_status co) (co_id co) fd events (co_birth co) (co_ops co) (co_sleep_usecs co) (co_ctx co).
Definition co_set_ops z co :=
  Co (co_status co) (co_id co) (co_fd co) (co_events co) (co_birth co) z (co_sleep_usecs co) (co_ctx co).
Definition co_set_sleep z co :=
  Co (co_status co) (co_id co) (co_fd co) (co_events co) (co_birth co) (co_ops co) z (co_ctx co).
Definition co_set_ctx (p : P) co :=
  Co (co_status co) (co_id co) (co_fd co) (co_events co) (co_birth co) (co_ops co) (co_sleep_usecs co) p.
(** [status |= bits], [status &= CLEARBIT(x)]. *)
Definition co_or bits co := co_set_status (Z.lor (co_status co) bits) co.
Definition co_clear (b : Z) co := co_set_status (Z.land (co_status co) (CLEARBIT b)) co.

Definition pr_set_sched sc (s : process P W) : process P W := Process sc (pr_heap s) (pr_kernel s) (pr_now s) (pr_world s).
Definition pr_set_heap h (s : process P W) : process P W := Process (pr_sched s) h (pr_kernel s) (pr_now s) (pr_world s).
Definition pr_set_kernel k (s : process P W) : process P W := Process (pr_sched s) (pr_heap s) k (pr_now s) (pr_world s).
Definition pr_set_now t (s : process P W) : process P W := Process (pr_sched s) (pr_heap s) (pr_kernel s) t (pr_world s).
Definition pr_set_world w (s : process P W) : process P W := Process (pr_sched s) (pr_heap s) (pr_kernel s) (pr_now s) w.

(** [nty_coroutine_get_sched], where its result is used without a test. *)
Definition get_sched : M (process P W) schedule := sc ← gets pr_sched; some_or_ub sc.
Definition on_sched (f : schedule → schedule) : M (process P W) unit :=
  modify (λ s, pr_set_sched (f <$> pr_sched s) s).
Definition load_co x : M (process P W) (coroutine P) := h ← gets pr_heap; some_or_ub (h !! x).
Definition on_co x (f : coroutine P → coroutine P) : M (process P W) unit :=
  co ← load_co x; modify (λ s, pr_set_heap (<[x := f co]> (pr_heap s)) s).
Definition on_kernel (f : kernel → kernel) : M (process P W) unit :=
  modify (λ s, pr_set_kernel (f (pr_kernel s)) s).
Definition nty_coroutine_usec_now : M (process P W) Z := gets pr_now.
Definition nty_coroutine_diff_usecs (t1 t2 : Z) : Z := (t2 - t1) mod 2 ^ 64.

(** * Sleeping and waiting *)

(** The loop of [nty_schedule_sched_sleepdown]: a taken time is moved by one. *)
Fixpoint sleep_insert (fuel : nat) x : M (process P W) unit :=
  match fuel with
  | O => out_of_fuel
  | S fuel' =>
      sc ← get_sched;
      co ← load_co x;
      match sc_sleeping sc !! co_sleep_usecs co with
      | Some _ => on_co x (λ co, co_set_sleep ((co_sleep_usecs co + 1) mod 2 ^ 64) co);; sleep_insert fuel' x
      | None =>
          on_sched (λ sc, sc_set_sleeping (<[co_sleep_usecs co := x]> (sc_sleeping sc)) sc);;
          on_co x (co_or (BIT NTY_COROUTINE_STATUS_SLEEPING))
      end
  end.
Definition nty_schedule_sched_sleepdown x (msecs : Z) : M (process P W) unit :=
  let usecs := msecs * 1000 mod 2 ^ 64 in
  sc ← get_sched;
  co ← load_co x;
  on_sched (λ sc, sc_set_sleeping (delete (co_sleep_usecs co) (sc_sleeping sc)) sc);;
  now ← nty_coroutine_usec_now;
  on_co x (co_set_sleep ((nty_coroutine_diff_usecs (sc_birth sc) now + usecs) mod 2 ^ 64));;
  if msecs =? 0 then mret tt else sleep_insert (S (size (sc_sleeping sc))) x.

Definition nty_schedule_desched_sleepdown x : M (process P W) unit :=
  co ← load_co x;
  if has_bit (co_status co) NTY_COROUTINE_STATUS_SLEEPING then
    on_sched (λ sc, sc_set_sleeping (delete (co_sleep_usecs co) (sc_sleeping sc)) sc);;
    on_co x (λ co, co_clear NTY_COROUTINE_STATUS_EXPIRED
      (co_or (BIT NTY_COROUTINE_STATUS_READY) (co_clear NTY_COROUTINE_STATUS_SLEEPING co)))
  else mret tt.

(** [nty_schedule_search_wait]: the status of the coroutine found is written
    without a test for null. *)
Definition nty_schedule_search_wait (fd : Z) : M (process P W) loc :=
  sc ← get_sched;
  x ← some_or_ub (sc_waiting sc !! fd);
  on_co x (co_set_status 0);;
  mret x.
Definition nty_schedule_desched_wait (fd : Z) : M (process P W) loc :=
  sc ← get_sched;
  x ← some_or_ub (sc_waiting sc !! fd);
  on_sched (λ sc, sc_set_waiting (delete fd (sc_waiting sc)) sc);;
  on_co x (co_set_status 0);;
  nty_schedule_desched_sleepdown x;;
  mret x.

(** [nty_schedule_sched_wait]: the status gets the numbers of the two flags, not
    their bits; a timeout of 1 means none. *)
Definition nty_schedule_sched_wait x (fd events timeout : Z) : M (process P W) unit :=
  co ← load_co x;
  if has_bit (co_status co) NTY_COROUTINE_STATUS_WAIT_READ
     || has_bit (co_status co) NTY_COROUTINE_STATUS_WAIT_WRITE then ub else
  (if negb (Z.land events POLLIN =? 0) then on_co x (co_or NTY_COROUTINE_STATUS_WAIT_READ)
   else if negb (Z.land events POLLOUT =? 0) then on_co x (co_or NTY_COROUTINE_STATUS_WAIT_WRITE)
   else ub);;
  on_co x (co_set_wait fd events);;
  sc ← get_sched;
  match sc_waiting sc !! fd with
  | Some _ => ub
  | None =>
      on_sched (λ sc, sc_set_waiting (<[fd := x]> (sc_waiting sc)) sc);;
      if timeout =? 1 then mret tt else nty_schedule_sched_sleepdown x timeout
  end.
Definition nty_schedule_cancel_wait x : M (process P W) unit :=
  co ← load_co x;
  on_sched (λ sc, sc_set_waiting (delete (co_fd co) (sc_waiting sc)) sc).

(** * Creation and destruction *)

(** [nty_schedule_free]; its descriptors are those of the epoll instance. *)
Definition nty_schedule_free : M (process P W) unit :=
  sc ← get_sched;
  (if 0 <? sc_poller_fd sc then on_kernel (k_closed (sc_poller_fd sc)) else mret tt);;
  (if 0 <? sc_eventfd sc then on_kernel (k_closed (sc_eventfd sc)) else mret tt);;
  free_block;;
  modify (pr_set_sched None).
(** [nty_epoller_ev_register_trigger]: [evfd] is the answer of [eventfd]. *)
Definition nty_epoller_ev_register_trigger (evfd : Z) : M (process P W) unit :=
  sc ← get_sched;
  (if sc_eventfd sc =? 0 then
     if evfd =? -1 then ub else
     on_kernel (k_opened evfd);;
     on_sched (λ sc, Sched (sc_birth sc) (sc_spawned sc) (sc_default_timeout sc) (sc_curr sc) (sc_poller_fd sc)
       evfd (sc_stack sc) (sc_ready sc) (sc_busy sc) (sc_sleeping sc) (sc_waiting sc))
   else mret tt);;
  sc ← get_sched;
  on_kernel (epoll_ctl EPOLL_CTL_ADD (sc_eventfd sc) EPOLLIN).
(** [nty_schedule_create]: [poller] is the answer of [epoll_create]; the stack the
    coroutines share is not counted as a block. *)
Definition nty_schedule_create (poller evfd : Z) : M (process P W) unit :=
  ok ← malloc_ok;
  if negb ok then mret tt else
  modify (pr_set_sched (Some (Sched 0 0 0 None poller 0 None [] [] ∅ ∅)));;
  if poller =? -1 then nty_schedule_free else
  on_kernel (k_opened poller);;
  nty_epoller_ev_register_trigger evfd;;
  now ← nty_coroutine_usec_now;
  on_sched (λ sc, Sched now 0 3000000 None (sc_poller_fd sc) (sc_eventfd sc) None [] [] ∅ ∅).

(** [nty_coroutine_create] for the program [p]; the arguments are used when the
    thread has no scheduler yet. *)
Definition nty_coroutine_create (poller evfd : Z) (p : P) : M (process P W) Z :=
  s ← gets pr_sched;
  (match s with None => nty_schedule_create poller evfd | Some _ => mret tt end);;
  s ← gets pr_sched;
  match s with
  | None => mret (-1)
  | Some sc =>
      ok ← malloc_ok;
      if negb ok then mret (-2) else
      h ← gets pr_heap;
      now ← nty_coroutine_usec_now;
      spawned ← ck_int (sc_spawned sc + 1);
      let x := fresh (dom h) in
      modify (λ s, pr_set_heap (<[x := Co (BIT NTY_COROUTINE_STATUS_NEW) (sc_spawned sc) (-1) 0 now 0 0 p]> h) s);;
      on_sched (sc_set_spawned spawned);;
      on_sched (λ sc, sc_set_ready (sc_ready sc ++ [x]) sc);;
      mret 0
  end.
(** [nty_coroutine_free]: the coroutine is not taken out of queues or trees. *)
Definition nty_coroutine_free x : M (process P W) unit :=
  load_co x;;
  on_sched (λ sc, sc_set_spawned (sc_spawned sc - 1) sc);;
  free_block;;
  modify (λ s, pr_set_heap (delete x (pr_heap s)) s).

(** [nty_coroutine_init]. *)
Definition nty_coroutine_init x : M (process P W) unit :=
  on_co x (co_set_status (BIT NTY_COROUTINE_STATUS_READY)).

(** * Waiting for a descriptor *)

Definition curr_thread : M (process P W) loc := sc ← get_sched; some_or_ub (sc_curr sc).
(** [nty_poll_inner] for one descriptor and a timeout that is not 0: up to the
    yield, and from there. *)
Definition poll_begin (fd events timeout : Z) : M (process P W) unit :=
  let timeout := if timeout <? 0 then INT_MAX else timeout in
  x ← curr_thread;
  on_kernel (epoll_ctl EPOLL_CTL_ADD fd (nty_pollevent_2epoll events));;
  on_co x (λ co, co_set_wait (co_fd co) events co);;
  nty_schedule_sched_wait x fd events timeout.
Definition poll_end (fd : Z) : M (process P W) unit :=
  on_kernel (epoll_ctl EPOLL_CTL_DEL fd 0);;
  nty_schedule_desched_wait fd;;
  mret tt.

(** * Running coroutines *)

(** What the coroutine does from its context to the next yield ([Some]: what it
    saves) or to the end of its function ([None]). *)
Context (body : P → answers → M (process P W) (option P)).

(** The end of a run: [nty_coroutine_yield] with [_save_stack], or the end of
    [_exec]. *)
Definition coroutine_stops x (r : option P) : M (process P W) unit :=
  (match r with
   | Some p => on_co x (λ co, co_set_ctx p (co_set_ops 0 co))
   | None => on_co x (λ co, co_set_ops 0 (co_or (Z.lor (Z.lor (BIT NTY_COROUTINE_STATUS_EXITED)
       (BIT NTY_COROUTINE_STATUS_FDEOF)) (BIT NTY_COROUTINE_STATUS_DETACH)) co))
   end);;
  on_sched (sc_set_stack (Some x)).
(** What [nty_coroutine_resume] does after the switch back. *)
Definition resume_return x : M (process P W) Z :=
  on_sched (sc_set_curr None);;
  co ← load_co x;
  if has_bit (co_status co) NTY_COROUTINE_STATUS_EXITED then
    (if has_bit (co_status co) NTY_COROUTINE_STATUS_DETACH then nty_coroutine_free x else mret tt);;
    mret (-1)
  else mret 0.
(** [nty_coroutine_resume], with [_load_stack]; a new coroutine starts on the stack
    as it is. *)
Definition nty_coroutine_resume x (k : answers) : M (process P W) Z :=
  co ← load_co x;
  (if has_bit (co_status co) NTY_COROUTINE_STATUS_NEW then nty_coroutine_init x
   else on_sched (sc_set_stack (Some x)));;
  on_sched (sc_set_curr (Some x));;
  r ← body (co_ctx co) k;
  coroutine_stops x r;;
  resume_return x.

(** * The scheduler *)

(** [RB_MIN]. *)
Definition tree_min (t : gmap Z loc) : option (Z * loc) :=
  foldr (λ p acc, match acc with Some q => if p.1 <? q.1 then Some p else acc | None => Some p end)
    None (map_to_list t).
Definition nty_schedule_expired : M (process P W) nptr :=
  sc ← get_sched;
  now ← nty_coroutine_usec_now;
  let t_diff_usecs := nty_coroutine_diff_usecs (sc_birth sc) now in
  match tree_min (sc_sleeping sc) with
  | None => mret None
  | Some (_, x) =>
      co ← load_co x;
      if co_sleep_usecs co <=? t_diff_usecs then
        on_sched (λ sc, sc_set_sleeping (delete (co_sleep_usecs co) (sc_sleeping sc)) sc);;
        mret (Some x)
      else mret None
  end.
Definition nty_schedule_isdone (sc : schedule) : bool :=
  bool_decide (sc_waiting sc = ∅) && bool_decide (sc_busy sc = []) && bool_decide (sc_sleeping sc = ∅)
  && bool_decide (sc_ready sc = []).
Definition nty_schedule_min_timeout : M (process P W) Z :=
  sc ← get_sched;
  now ← nty_coroutine_usec_now;
  let t_diff_usecs := nty_coroutine_diff_usecs (sc_birth sc) now in
  match tree_min (sc_sleeping sc) with
  | None => mret (sc_default_timeout sc)
  | Some (_, x) =>
      co ← load_co x;
      mret (if t_diff_usecs <? co_sleep_usecs co then co_sleep_usecs co - t_diff_usecs else 0)
  end.
(** [nty_schedule_epoll]: whether it calls [epoll_wait]. *)
Definition nty_schedule_epoll : M (process P W) bool :=
  usecs ← nty_schedule_min_timeout;
  sc ← get_sched;
  mret (negb (usecs =? 0) && bool_decide (sc_ready sc = [])).

(** The answers to the calls of the next coroutine, when they are listed. *)
Definition no_answers : answers := Answers (-1) None (-1) 0.
Definition next_answers (ks : list answers) : answers := default no_answers (head ks).

(** The three loops of [nty_schedule_run].  A coroutine that goes to sleep while
    the first runs is not due before the clock moves. *)
Fixpoint run_expired (fuel : nat) (ks : list answers) : M (process P W) (list answers) :=
  match fuel with
  | O => out_of_fuel
  | S fuel' =>
      expired ← nty_schedule_expired;
      match expired with
      | None => mret ks
      | Some x => nty_coroutine_resume x (next_answers ks);; run_expired fuel' (tail ks)
      end
  end.
(** It stops at the coroutine that was the last one at the start. *)
Fixpoint run_ready (fuel : nat) (last_co_ready : nptr) (ks : list answers) : M (process P W) unit :=
  match fuel with
  | O => out_of_fuel
  | S fuel' =>
      sc ← get_sched;
      match sc_ready sc with
      | [] => mret tt
      | x :: rest =>
          on_sched (sc_set_ready rest);;
          co ← load_co x;
          if has_bit (co_status co) NTY_COROUTINE_STATUS_FDEOF then nty_coroutine_free x else
          nty_coroutine_resume x (next_answers ks);;
          if bool_decide (Some x = last_co_ready) then mret tt else run_ready fuel' last_co_ready (tail ks)
      end
  end.
(** The events in the order in which they are handled. *)
Fixpoint run_events (evs : list event) : M (process P W) unit :=
  match evs with
  | [] => mret tt
  | ev :: evs' =>
      x ← nty_schedule_search_wait (ev_fd ev);
      (if has_event EPOLLHUP ev then on_co x (co_or (BIT NTY_COROUTINE_STATUS_FDEOF)) else mret tt);;
      nty_coroutine_resume x (ev_answers ev);;
      run_events evs'
  end.

(** One turn: the time, the answers to the calls of the coroutines of the first
    two loops, and what [epoll_wait] reports, if it is called. *)
Record turn := Turn { tn_now : Z; tn_answers : list answers; tn_events : list event }.
Definition run_turn (t : turn) : M (process P W) unit :=
  modify (pr_set_now (tn_now t));;
  sc ← get_sched;
  ks ← run_expired (S (size (sc_sleeping sc))) (tn_answers t);
  sc ← get_sched;
  run_ready (S (length (sc_ready sc))) (last (sc_ready sc)) ks;;
  waits ← nty_schedule_epoll;
  (* the last event of the list is handled first *)
  if waits : bool then run_events (rev (tn_events t)) else mret tt.
Fixpoint run_turns (ts : list turn) : M (process P W) unit :=
  sc ← get_sched;
  if nty_schedule_isdone sc then nty_schedule_free else
  match ts with
  | [] => mret tt
  | t :: ts' => run_turn t;; run_turns ts'
  end.
(** [nty_schedule_run], as far as the turns go. *)
Definition nty_schedule_run (ts : list turn) : M (process P W) unit :=
  s ← gets pr_sched;
  match s with None => mret tt | Some _ => run_turns ts end.

(** * What coroutines may call *)

(** [nty_coroutine_renice]: whether the caller yields. *)
Definition nty_coroutine_renice x : M (process P W) bool :=
  on_co x (λ co, co_set_ops ((co_ops co + 1) mod 2 ^ 32) co);;
  co ← load_co x;
  if co_ops co <? 5 then mret false else
  on_sched (λ sc, sc_set_ready (sc_ready sc ++ [x]) sc);;
  mret true.
(** [nty_coroutine_sleep]: it yields for 0 only; otherwise the caller has to. *)
Definition nty_coroutine_sleep (msecs : Z) : M (process P W) bool :=
  x ← curr_thread;
  if msecs =? 0 then on_sched (λ sc, sc_set_ready (sc_ready sc ++ [x]) sc);; mret true
  else nty_schedule_sched_sleepdown x msecs;; mret false.
Definition nty_coroutine_detach : M (process P W) unit :=
  x ← curr_thread;
  on_co x (co_or (BIT NTY_COROUTINE_STATUS_DETACH)).

(** The hooks of nty_socket.c.  [socket], [accept] and [recv] answer in
    [a_accept] and [a_recv]; a negative [a_accept] is the error number. *)
Definition EAGAIN : Z := 11.
Definition IN_EVENTS : Z := Z.lor (Z.lor POLLIN POLLERR) POLLHUP.
Definition OUT_EVENTS : Z := Z.lor (Z.lor POLLOUT POLLERR) POLLHUP.
Definition hook_socket (k : answers) : M (process P W) Z :=
  if (a_accept k <? 0) then mret (-1) else
  on_kernel (k_opened (a_accept k));;
  mret (a_accept k).
Definition accept_begin (fd : Z) : M (process P W) unit := poll_begin fd IN_EVENTS 1.
(** [None]: it waits again. *)
Definition accept_end (k : answers) (fd : Z) : M (process P W) (option Z) :=
  poll_end fd;;
  let sockfd := a_accept k in
  if sockfd <? 0 then
    if sockfd =? - EAGAIN then accept_begin fd;; mret None else mret (Some (-1))
  else on_kernel (k_opened sockfd);; mret (Some sockfd).
Definition recv_begin (fd : Z) : M (process P W) unit := poll_begin fd IN_EVENTS 1.
(** At most [len] bytes; [None]: the call fails. *)
Definition recv_end (k : answers) (fd len : Z) : M (process P W) (option string) :=
  poll_end fd;;
  mret (str_take (Z.to_nat len) <$> a_recv k).
(** The system call: bytes past the array are undefined behaviour. *)
Definition send_f (k : answers) (fd : Z) (buf : string) (from len : Z) : M (process P W) Z :=
  if (len - from <? 0) || (Z.of_nat (String.length buf) <? len) then ub else
  if (a_send k <? 0) then mret (-1) else
  let count := Z.min (a_send k) (len - from) in
  on_kernel (k_add_sent (fd, str_take (Z.to_nat count) (str_drop (Z.to_nat from) buf)));;
  mret count.
(** [send] returns ([inl]) or waits with some bytes sent ([inr]). *)
Definition send_begin (k : answers) (fd : Z) (buf : string) (len : Z) : M (process P W) (Z + Z) :=
  ret ← send_f k fd buf 0 len;
  if ret =? 0 then mret (inl ret) else
  let sent := if 0 <? ret then ret else 0 in
  if sent <? len then poll_begin fd OUT_EVENTS 1;; mret (inr sent)
  else mret (inl (if (ret <=? 0) && (sent =? 0) then ret else sent)).
Definition send_again (k : answers) (fd : Z) (buf : string) (len sent : Z) : M (process P W) (Z + Z) :=
  poll_end fd;;
  ret ← send_f k fd buf sent len;
  if ret <=? 0 then mret (inl (if sent =? 0 then ret else sent)) else
  let sent := sent + ret in
  if sent <? len then poll_begin fd OUT_EVENTS 1;; mret (inr sent) else mret (inl sent).
Definition hook_close (fd : Z) : M (process P W) unit := on_kernel (k_closed fd).
End sched.
