(* ===== verification/NtyRules.v ===== *)
(** Rules for programs of coroutines that wait without a timeout: the invariant of
    the scheduler (which coroutine waits for which descriptor, which are ready,
    which runs), and what every operation does to it. *)
From S2P Require Import Prelude CText KvsSpec Rdb Protocol Netio Reactor NtySched.

Local Open Scope Z_scope.

(** * Status bits *)

Lemma has_bit_or a b x : has_bit (Z.lor a b) x = has_bit a x || has_bit b x.
Proof.
  unfold has_bit. rewrite Z.land_lor_distr_l, <-negb_andb. f_equal. apply eq_true_iff_eq.
  rewrite andb_true_iff, !Z.eqb_eq. apply Z.lor_eq_0_iff.
Qed.
(** Neither new nor at its end; and not waiting either. *)
Definition calm (status : Z) : Prop :=
  has_bit status NTY_COROUTINE_STATUS_NEW = false ∧ has_bit status NTY_COROUTINE_STATUS_EXITED = false.
Definition awake (status : Z) : Prop :=
  calm status ∧ has_bit status NTY_COROUTINE_STATUS_WAIT_READ = false ∧
  has_bit status NTY_COROUTINE_STATUS_WAIT_WRITE = false.
Lemma calm_or a b : calm a → calm b → calm (Z.lor a b).
Proof. intros [H1 H2] [H3 H4]. split; by rewrite has_bit_or, ?H1, ?H2, ?H3, ?H4. Qed.
#[export] Hint Resolve calm_or : kvs.

(** The fields of a process that has been changed. *)
Ltac pr_cbn :=
  cbn [pr_sched pr_heap pr_kernel pr_now pr_world pr_set_sched pr_set_heap pr_set_kernel pr_set_now pr_set_world].

(** * The invariant *)

Section rules.
Context {P W : Type}.
Implicit Types (s : process P W) (x y : loc) (p : P).
(** The descriptor of the scheduler's own events. *)
Context (evfd : Z).

(** A descriptor with the coroutine that waits for it, its context and events. *)
Abbreviation waiters := (gmap Z (loc * P * Z)).
Implicit Types (ws : waiters) (rd : list (loc * P)) (run : option loc).

Record sched_ok ws rd run (sc : schedule) : Prop := {
  so_waiting : sc_waiting sc = (λ w, w.1.1) <$> ws;
  so_ready : sc_ready sc = rd.*1;
  so_busy : sc_busy sc = [];
  so_sleeping : sc_sleeping sc = ∅;
  so_timeout : sc_default_timeout sc = 3000000;
  so_eventfd : sc_eventfd sc = evfd;
  so_spawned : sc_spawned sc = Z.of_nat (size ws) + Z.of_nat (length rd) + (if run is Some _ then 1 else 0)
}.
(** Not one of the coroutines that wait. *)
Definition not_waiting ws x : Prop := map_Forall (λ _ w, w.1.1 ≠ x) ws.
Definition waits_ok (h : gmap loc (coroutine P)) ws : Prop :=
  map_Forall (λ fd w, ∃ co, h !! w.1.1 = Some co ∧ co_ctx co = w.1.2 ∧ co_fd co = fd ∧ calm (co_status co)) ws.
Definition ready_ok (h : gmap loc (coroutine P)) rd : Prop :=
  Forall (λ r, ∃ co, h !! r.1 = Some co ∧ co_ctx co = r.2 ∧ co_status co = BIT NTY_COROUTINE_STATUS_NEW) rd.
Record coros ws rd run s : Prop := {
  cs_sched : ∃ sc, pr_sched s = Some sc ∧ sched_ok ws rd run sc;
  cs_waits : waits_ok (pr_heap s) ws;
  cs_ready : ready_ok (pr_heap s) rd;
  cs_nodup : NoDup rd.*1;
  cs_distinct : Forall (not_waiting ws) rd.*1;
  cs_run : ∀ x, run = Some x → (∃ co, pr_heap s !! x = Some co ∧ awake (co_status co)) ∧
    (x ∉ rd.*1) ∧ not_waiting ws x;
  cs_interest : ∀ fd, k_interest (pr_kernel s) !! fd =
    if decide (fd = evfd) then Some EPOLLIN else (λ w, nty_pollevent_2epoll w.2) <$> ws !! fd;
  cs_apart : ws !! evfd = None
}.

(** What the scheduler's own operations leave alone. *)
Definition stack_of s : nptr := pr_sched s ≫= sc_stack.
Definition curr_of s : nptr := pr_sched s ≫= sc_curr.
Record same_data s s' : Prop := {
  sd_world : pr_world s' = pr_world s;
  sd_open : k_open (pr_kernel s') = k_open (pr_kernel s);
  sd_sent : k_sent (pr_kernel s') = k_sent (pr_kernel s)
}.
Record same s s' : Prop := {
  sm_data : same_data s s';
  sm_stack : stack_of s' = stack_of s;
  sm_curr : curr_of s' = curr_of s
}.
Global Instance same_data_preorder : PreOrder same_data.
Proof. split; [done|]. intros ? ? ? [] []. split; congruence. Qed.
Global Instance same_preorder : PreOrder same.
Proof. split; [done|]. intros ? ? ? [? ? ?] [? ? ?]. split; [by etrans|congruence..]. Qed.

(** ** Reads and writes *)

Lemma wp_get_sched ws rd run e s Q :
  coros ws rd run s → (∀ sc, pr_sched s = Some sc → sched_ok ws rd run sc → Q sc e s) → wp get_sched e s Q.
Proof.
  intros Hc HQ. destruct (cs_sched _ _ _ _ Hc) as (sc & Hsc & Ho). unfold get_sched. wp_step. wp_step.
  rewrite Hsc. wp_step. by apply HQ.
Qed.
Lemma wp_load_co x co e s Q : pr_heap s !! x = Some co → Q co e s → wp (load_co x) e s Q.
Proof. intros H HQ. unfold load_co. wp_step. wp_step. rewrite H. by wp_step. Qed.
Lemma wp_on_co x (f : coroutine P → coroutine P) co e s Q :
  pr_heap s !! x = Some co → Q tt e (pr_set_heap (<[x := f co]> (pr_heap s)) s) → wp (on_co x f) e s Q.
Proof. intros H HQ. unfold on_co. wp_step. eapply wp_load_co; [exact H|]. by wp_step. Qed.

(** Waiting coroutines are told apart by their descriptor. *)
Lemma waiters_inj ws h fd1 fd2 w1 w2 :
  waits_ok h ws → ws !! fd1 = Some w1 → ws !! fd2 = Some w2 → w1.1.1 = w2.1.1 → fd1 = fd2.
Proof.
  intros Hc H1 H2 Heq. destruct (Hc _ _ H1) as (c1 & Hl1 & _ & <- & _).
  destruct (Hc _ _ H2) as (c2 & Hl2 & _ & <- & _). congruence.
Qed.
Lemma waiters_others ws h fd x p ev :
  waits_ok h ws → ws !! fd = Some (x, p, ev) → not_waiting (delete fd ws) x.
Proof.
  intros Hc Hw fd' w' [Hne Hw']%lookup_delete_Some Heq. apply Hne. by eapply waiters_inj; [done..|].
Qed.
Lemma waiting_not_ready ws l fd x p ev : Forall (not_waiting ws) l → ws !! fd = Some (x, p, ev) → x ∉ l.
Proof. rewrite Forall_forall. intros H Hw Hin. exact (H _ Hin _ _ Hw eq_refl). Qed.

(** Changes of the heap and of the waiters. *)
Lemma waits_insert h ws x co : not_waiting ws x → waits_ok h ws → waits_ok (<[x := co]> h) ws.
Proof. intros Hn H fd w Hw. rewrite lookup_insert_ne; [by apply H|]. intros Heq. by eapply Hn. Qed.
Lemma waits_delete h ws x : not_waiting ws x → waits_ok h ws → waits_ok (delete x h) ws.
Proof. intros Hn H fd w Hw. rewrite lookup_delete_ne; [by apply H|]. intros Heq. by eapply Hn. Qed.
Lemma waits_add h ws fd x p ev co :
  waits_ok h ws → h !! x = Some co → co_ctx co = p → co_fd co = fd → calm (co_status co) →
  waits_ok h (<[fd := (x, p, ev)]> ws).
Proof. intros H Hx Hp Hf Hc. apply map_Forall_insert_2; [|done]. by exists co. Qed.
(** Replacing the coroutine that waits for [fd]. *)
Lemma waits_replace h ws fd x p p' ev co :
  waits_ok h ws → ws !! fd = Some (x, p, ev) → co_ctx co = p' → co_fd co = fd → calm (co_status co) →
  waits_ok (<[x := co]> h) (<[fd := (x, p', ev)]> ws).
Proof.
  intros H Hfd Hp Hf Hc. rewrite <-(insert_delete_eq ws). apply (waits_add _ (delete fd ws) _ _ _ _ co); [|apply lookup_insert_eq|done..].
  apply waits_insert; [exact (waiters_others _ _ _ _ _ _ H Hfd)|by apply map_Forall_delete].
Qed.
Lemma ready_insert h rd x co : x ∉ rd.*1 → ready_ok h rd → ready_ok (<[x := co]> h) rd.
Proof.
  unfold ready_ok. rewrite !Forall_forall. intros Hn H r Hin. rewrite lookup_insert_ne; [by apply H|].
  intros ->. apply Hn. by apply list_elem_of_fmap_2.
Qed.
Lemma ready_delete h rd x : x ∉ rd.*1 → ready_ok h rd → ready_ok (delete x h) rd.
Proof.
  unfold ready_ok. rewrite !Forall_forall. intros Hn H r Hin. rewrite lookup_delete_ne; [by apply H|].
  intros ->. apply Hn. by apply list_elem_of_fmap_2.
Qed.

(** A change of a waiting coroutine that keeps it waiting. *)
Lemma wp_on_waiting ws rd fd x p ev (f : coroutine P → coroutine P) e s Q :
  coros ws rd None s → ws !! fd = Some (x, p, ev) →
  (∀ co, co_fd (f co) = co_fd co) → (∀ co, calm (co_status co) → calm (co_status (f co))) →
  (∀ s' p', coros (<[fd := (x, p', ev)]> ws) rd None s' → (∀ co, pr_heap s !! x = Some co → p' = co_ctx (f co)) →
    same s s' → Q tt e s') →
  wp (on_co x f) e s Q.
Proof.
  intros Hc Hfd Hf Hcalm HQ. destruct (cs_waits _ _ _ _ Hc _ _ Hfd) as (co & Hco & Hp & Hcf & Hst). simpl in Hco.
  eapply wp_on_co; [exact Hco|]. apply (HQ _ (co_ctx (f co))); [|by intros ? [= <-]%(eq_trans (eq_sym Hco))|done].
  destruct Hc as [(sc & Hs & Hsc) Hw Hr Hnd Hd Hrun Hi Ha]. split; try done; cbn.
  - exists sc. split; [done|]. destruct Hsc as [H1 ? ? ? ? ? H7]. split; try done.
    + rewrite H1, fmap_insert. cbn. symmetry. apply insert_id. by rewrite lookup_fmap, Hfd.
    + rewrite H7. rewrite map_size_insert_Some; [done|by eexists].
  - eapply waits_replace; try done; [by rewrite Hf|by apply Hcalm].
  - apply ready_insert; [|done]. exact (waiting_not_ready _ _ _ _ _ _ Hd Hfd).
  - eapply Forall_impl; [exact Hd|]. intros y Hy. apply map_Forall_insert_2; [exact (Hy _ _ Hfd)|done].
  - intros fd'. rewrite Hi. case_decide; [done|]. destruct (decide (fd' = fd)) as [->|].
    + by rewrite lookup_insert_eq, Hfd.
    + by rewrite lookup_insert_ne.
  - rewrite lookup_insert_ne; [done|]. intros ->. congruence.
Qed.
Lemma wp_on_waiting_keep ws rd fd x p ev (f : coroutine P → coroutine P) e s Q :
  coros ws rd None s → ws !! fd = Some (x, p, ev) →
  (∀ co, co_fd (f co) = co_fd co ∧ co_ctx (f co) = co_ctx co) →
  (∀ co, calm (co_status co) → calm (co_status (f co))) →
  (∀ s', coros ws rd None s' → same s s' → Q tt e s') →
  wp (on_co x f) e s Q.
Proof.
  intros Hc Hfd Hf Hcalm HQ. eapply wp_on_waiting; [done..|apply Hf|done|]. intros s' p' Hc' Hp'.
  destruct (cs_waits _ _ _ _ Hc _ _ Hfd) as (co & Hco & Hp & _). rewrite (Hp' co Hco) in Hc'.
  destruct (Hf co) as [_ Hx]. rewrite Hx, Hp in Hc'. rewrite insert_id in Hc' by done. by apply HQ.
Qed.

(** ** The operations *)

Lemma calm_0 : calm 0.
Proof. done. Qed.
Lemma wp_search_wait ws rd fd x p ev e s Q :
  coros ws rd None s → ws !! fd = Some (x, p, ev) →
  (∀ s', coros ws rd None s' → same s s' → Q x e s') →
  wp (nty_schedule_search_wait fd) e s Q.
Proof.
  intros Hc Hfd HQ. unfold nty_schedule_search_wait. wp_step. eapply wp_get_sched; [exact Hc|].
  intros sc Hsc Ho. rewrite (so_waiting _ _ _ _ Ho), lookup_fmap, Hfd. cbn [fmap option_fmap option_map fst snd]. wp_step. wp_step. wp_step.
  eapply wp_on_waiting_keep; [exact Hc|exact Hfd|done|done|]. intros s' Hc' Hs'. wp_step. by apply HQ.
Qed.

(** The second half of [nty_poll_inner]: the coroutine runs. *)
Lemma wp_poll_end ws rd fd x p ev e s Q :
  coros ws rd None s → ws !! fd = Some (x, p, ev) → fd ∈ k_open (pr_kernel s) →
  (∀ s', coros (delete fd ws) rd (Some x) s' → same s s' → Q tt e s') →
  wp (poll_end fd) e s Q.
Proof.
  intros Hc Hfd Hopen HQ. destruct (cs_waits _ _ _ _ Hc _ _ Hfd) as (co & Hco & Hp & Hcf & Hst).
  destruct s as [sched h k now w]. pose proof Hc as [(sc & Hs & Hsc) Hw Hr Hnd Hd Hrun Hi Ha]. simpl in *. subst sched.
  assert (Hne : fd ≠ evfd) by congruence.
  unfold poll_end, on_kernel, nty_schedule_desched_wait, get_sched, nty_schedule_desched_sleepdown, on_sched.
  wp_step. wp_step. wp_step. wp_step. wp_step. wp_step. cbn [pr_sched pr_set_kernel]. wp_step.
  rewrite (so_waiting _ _ _ _ Hsc), lookup_fmap, Hfd. cbn [fmap option_fmap option_map fst snd]. wp_step. wp_step. wp_step. wp_step. wp_step.
  eapply wp_on_co; [exact Hco|]. wp_step. wp_step. eapply wp_load_co; [apply lookup_insert_eq|].
  cbn [co_status co_set_status]. change (has_bit 0 _) with false. cbv iota. wp_step. wp_step. wp_step.
  pr_cbn. unfold epoll_ctl. rewrite decide_True by done.
  assert (Hin : k_interest k !! fd = Some (nty_pollevent_2epoll ev)).
  { rewrite Hi, decide_False by done. by rewrite Hfd. }
  pr_cbn. rewrite Hin. pr_cbn. apply HQ; [|done].
  pose proof (waiters_others _ _ _ _ _ _ Hw Hfd) as Hno. pose proof (waiting_not_ready _ _ _ _ _ _ Hd Hfd) as Hnr.
  split; cbn.
  - eexists. split; [done|]. destruct Hsc as [H1 ? ? ? ? ? H7]. split; try done; cbn.
    + by rewrite H1, fmap_delete.
    + rewrite H7. rewrite map_size_delete_Some by (by eexists).
      assert (size ws ≠ 0%nat) by (apply (map_size_ne_0_lookup_2 ws fd); by eexists). lia.
  - apply waits_insert; [done|]. by apply map_Forall_delete.
  - by apply ready_insert.
  - done.
  - eapply Forall_impl; [exact Hd|]. intros y Hy. by apply map_Forall_delete.
  - intros y [= <-]. split_and!; [|done|done]. eexists. by rewrite lookup_insert_eq.
  - intros fd'. destruct (decide (fd' = fd)) as [->|].
    + by rewrite !lookup_delete_eq, decide_False.
    + by rewrite !lookup_delete_ne, Hi.
  - by rewrite lookup_delete_ne.
Qed.

(** Its first half, without a timeout: the coroutine waits. *)
Definition waits_for (events : Z) : Prop := events = IN_EVENTS ∨ events = OUT_EVENTS.
Lemma wp_poll_begin ws rd fd x events e s Q :
  coros ws rd (Some x) s → curr_of s = Some x → ws !! fd = None → fd ≠ evfd → fd ∈ k_open (pr_kernel s) →
  waits_for events →
  (∀ s' p, coros (<[fd := (x, p, events)]> ws) rd None s' → same s s' → Q tt e s') →
  wp (poll_begin fd events 1) e s Q.
Proof.
  intros Hc Hcur Hfd Hne Hopen Hev HQ. destruct s as [sched h k now w].
  pose proof Hc as [(sc & Hs & Hsc) Hw Hr Hnd Hd Hrun Hi Ha]. simpl in *. subst sched.
  destruct (Hrun x eq_refl) as ((co & Hco & Hcalm & Hb0 & Hb1) & Hnr & Hno). change (sc_curr sc = Some x) in Hcur.
  unfold poll_begin, curr_thread, on_kernel, nty_schedule_sched_wait, on_sched, get_sched.
  change (1 <? 0) with false. cbv iota zeta.
  wp_step. wp_step. wp_step. wp_step. cbn [pr_sched]. wp_step. rewrite Hcur. wp_step.
  wp_step. wp_step. wp_step. eapply wp_on_co; [exact Hco|]. pr_cbn.
  wp_step. eapply wp_load_co; [apply lookup_insert_eq|]. cbn [co_status co_set_wait]. rewrite Hb0, Hb1.
  cbn [orb]. wp_step.
  assert (Hst : ∃ st, calm st ∧ ∀ e s Q, pr_heap s !! x = Some (co_set_wait (co_fd co) events co) →
      Q tt e (pr_set_heap (<[x := co_set_status st (co_set_wait (co_fd co) events co)]> (pr_heap s)) s) →
      wp (if negb (Z.land events POLLIN =? 0) then on_co x (co_or NTY_COROUTINE_STATUS_WAIT_READ)
          else if negb (Z.land events POLLOUT =? 0) then on_co x (co_or NTY_COROUTINE_STATUS_WAIT_WRITE)
          else ub) e s (Q : unit → env → process P W → Prop)).
  { destruct Hev as [-> | ->]; [exists (Z.lor (co_status co) 0)|exists (Z.lor (co_status co) 1)];
      (split; [apply calm_or; [done|by split]|]); intros e0 s0 Q0 H0 HQ0; cbn; by eapply wp_on_co. }
  destruct Hst as (st & Hst & Hrule). apply Hrule; [apply lookup_insert_eq|]. clear Hrule. pr_cbn.
  wp_step. eapply wp_on_co; [apply lookup_insert_eq|]. pr_cbn. rewrite !insert_insert_eq. wp_step. wp_step. wp_step. cbn [pr_sched pr_set_heap pr_set_kernel]. wp_step.
  rewrite (so_waiting _ _ _ _ Hsc), lookup_fmap, Hfd. cbn [fmap option_fmap option_map]. wp_step. wp_step.
  change (1 =? 1) with true. cbv iota. wp_step.
  pr_cbn. unfold epoll_ctl. rewrite decide_True by done.
  assert (Hin : k_interest k !! fd = None) by (rewrite Hi, decide_False by done; by rewrite Hfd).
  pr_cbn. rewrite Hin. pr_cbn.
  rewrite ?insert_insert_eq. apply (HQ _ (co_ctx co)); [|done].
  split; cbn.
  - eexists. split; [done|]. destruct Hsc as [H1 ? ? ? ? ? H7]. split; try done; cbn.
    + by rewrite H1, fmap_insert.
    + rewrite H7, map_size_insert_None by done. lia.
  - eapply waits_add; [by apply waits_insert|apply lookup_insert_eq|done..].
  - by apply ready_insert.
  - done.
  - rewrite Forall_forall in *. intros y Hy. apply map_Forall_insert_2; [|by apply Hd]. simpl. intros ->. done.
  - done.
  - intros fd'. destruct (decide (fd' = fd)) as [->|].
    + by rewrite !lookup_insert_eq, decide_False.
    + by rewrite !lookup_insert_ne, Hi.
  - by rewrite lookup_insert_ne.
Qed.
(** Changes outside the scheduler's data. *)
Lemma coros_ext ws rd run s s' :
  coros ws rd run s → pr_sched s' = pr_sched s → pr_heap s' = pr_heap s →
  k_interest (pr_kernel s') = k_interest (pr_kernel s) → coros ws rd run s'.
Proof. intros [] H1 H2 H3. split; rewrite ?H1, ?H2, ?H3; done. Qed.
(** Noting who runs, and whose frames are on the stack. *)
Lemma wp_on_sched_keep ws rd run (f : schedule → schedule) e s Q :
  coros ws rd run s → (∀ sc, sched_ok ws rd run sc → sched_ok ws rd run (f sc)) →
  (∀ s', coros ws rd run s' → same_data s s' → pr_heap s' = pr_heap s →
    stack_of s' = (f <$> pr_sched s) ≫= sc_stack → curr_of s' = (f <$> pr_sched s) ≫= sc_curr → Q tt e s') →
  wp (on_sched f) e s Q.
Proof.
  intros Hc Hf HQ. unfold on_sched. wp_step. apply HQ; try done.
  destruct Hc as [(sc & Hs & Ho) ? ? ? ? ? ? ?]. split; try done. exists (f sc). split; [by simpl; rewrite Hs|by apply Hf].
Qed.
Lemma sched_ok_curr ws rd run v sc : sched_ok ws rd run sc → sched_ok ws rd run (sc_set_curr v sc).
Proof. by intros []. Qed.
Lemma sched_ok_stack ws rd run v sc : sched_ok ws rd run sc → sched_ok ws rd run (sc_set_stack v sc).
Proof. by intros []. Qed.
Lemma stack_of_sched ws rd run s v : coros ws rd run s → (sc_set_stack v <$> pr_sched s) ≫= sc_stack = v.
Proof. intros [(sc & -> & _) ? ? ? ? ? ? ?]. done. Qed.
Lemma curr_of_sched ws rd run s v : coros ws rd run s → (sc_set_curr v <$> pr_sched s) ≫= sc_curr = v.
Proof. intros [(sc & -> & _) ? ? ? ? ? ? ?]. done. Qed.
Lemma stack_of_curr s v : (sc_set_curr v <$> pr_sched s) ≫= sc_stack = stack_of s.
Proof. unfold stack_of. by destruct (pr_sched s). Qed.

(** [nty_coroutine_create]: a new coroutine at the end of the queue. *)
Lemma wp_create ws rd x p poller evfd' e s Q :
  coros ws rd (Some x) s → malloc_fails e = false →
  Z.of_nat (size ws) + Z.of_nat (length rd) + 2 ≤ INT_MAX →
  (∀ s' y, coros ws (rd ++ [(y, p)]) (Some x) s' → same s s' → Q 0 (after_malloc e) s') →
  wp (nty_coroutine_create poller evfd' p) e s Q.
Proof.
  intros Hc Hm Hsz HQ. destruct s as [sched h k now w].
  pose proof Hc as [(sc & Hs & Hsc) Hw Hr Hnd Hd Hrun Hi Ha]. simpl in *. subst sched.
  unfold nty_coroutine_create, nty_coroutine_usec_now, on_sched. wp_step. wp_step. pr_cbn. wp_step. wp_step. wp_step. wp_step. pr_cbn.
  wp_step. wp_step. rewrite Hm. simpl negb. cbv iota. wp_step. wp_step. pr_cbn. wp_step. wp_step. wp_step.
  pose proof (so_spawned _ _ _ _ Hsc) as Hsp. cbn in Hsp.
  apply wp_ck_int; [unfold INT_MIN; lia|]. cbv zeta. pose proof (is_fresh (dom h)) as Hy. set (y := fresh (dom h)) in *.
  wp_step. wp_step. wp_step. wp_step. wp_step. wp_step. wp_step. pr_cbn. apply (HQ _ y); [|done].
  apply not_elem_of_dom in Hy.
  assert (Hyw : not_waiting ws y).
  { intros fd u Hu Heq. destruct (Hw _ _ Hu) as (c & Hc' & _). rewrite Heq in Hc'. congruence. }
  assert (Hyr : y ∉ rd.*1).
  { intros ([z q] & Heq & Hin)%list_elem_of_fmap. simpl in Heq. subst z. unfold ready_ok in Hr.
    rewrite Forall_forall in Hr. destruct (Hr _ Hin) as (c & Hc' & _). simpl in Hc'. congruence. }
  split; cbn.
  - eexists. split; [done|]. destruct Hsc as [? H2 ? ? ? ? H7]. split; try done; cbn.
    + by rewrite H2, fmap_app.
    + rewrite H7, length_app. simpl. lia.
  - by apply waits_insert.
  - apply Forall_app. split; [by apply ready_insert|]. apply Forall_singleton. simpl. eexists.
    by rewrite lookup_insert_eq.
  - rewrite fmap_app. apply NoDup_app. split_and!; [done| |apply NoDup_singleton].
    intros z Hz ->%list_elem_of_singleton. done.
  - rewrite fmap_app. apply Forall_app. split; [done|]. by apply Forall_singleton.
  - intros z [= <-]. destruct (Hrun x eq_refl) as ((co & Hco & Haw) & Hnr & Hno). split_and!; [|..|done].
    + exists co. rewrite lookup_insert_ne; [done|]. intros Heq. subst y. congruence.
    + rewrite fmap_app, elem_of_app. intros [?|Heq%list_elem_of_singleton]; [done|]. simpl in Heq. subst y. congruence.
  - done.
  - done.
Qed.

(** ** Runs of a coroutine *)

(** The coroutine [x] has yielded, waiting, or come to its end. *)
Definition stops x (Q : env → process P W → Prop) (r : option P) e s : Prop :=
  match r with
  | Some p => ∃ ws rd fd p0 ev, coros (<[fd := (x, p0, ev)]> ws) rd None s ∧
      ∀ s', coros (<[fd := (x, p, ev)]> ws) rd None s' → same_data s s' → stack_of s' = Some x → Q e s'
  | None => ∃ ws rd, coros ws rd (Some x) s ∧
      ∀ s', coros ws rd None s' → same_data s s' → stack_of s' = Some x → Q (add_live (-1) e) s'
  end.
Lemma wp_stops x Q r e s :
  stops x Q r e s → wp (coroutine_stops x r;; resume_return x) e s (λ _ e' s', Q e' s').
Proof.
  unfold coroutine_stops, resume_return. destruct r as [p|]; simpl.
  - intros (ws & rd & fd & p0 & ev & Hc & HQ). do 2 wp_step.
    eapply wp_on_waiting; [exact Hc|apply lookup_insert_eq|done|by intros ? []|]. intros s1 p1 Hc1 Hp1 Hs1.
    destruct (cs_waits _ _ _ _ Hc _ _ (lookup_insert_eq _ _ _)) as (co & Hco & _ & _ & _).
    rewrite (Hp1 co Hco), insert_insert_eq in Hc1. cbn in Hc1.
    eapply wp_on_sched_keep; [exact Hc1|intros; by apply sched_ok_stack|]. intros s2 Hc2 Hd2 _ Hst2 _. wp_step.
    eapply wp_on_sched_keep; [exact Hc2|intros; by apply sched_ok_curr|]. intros s3 Hc3 Hd3 _ Hst3 _.
    destruct (cs_waits _ _ _ _ Hc3 _ _ (lookup_insert_eq _ _ _)) as (co3 & Hco3 & _ & _ & Hcalm & Hex). wp_step.
    eapply wp_load_co; [exact Hco3|]. rewrite Hex. wp_step. apply HQ; [done| |].
    + destruct Hs1 as [Hs1 _ _]. by do 2 (etrans; [|done]).
    + rewrite Hst3, stack_of_curr, Hst2. by eapply stack_of_sched.
  - intros (ws & rd & Hc & HQ). destruct s as [sched h k now w].
    destruct Hc as [(sc & Hs & Hsc) Hw Hr Hnd Hd Hrun Hi Ha]. simpl in *. subst sched.
    destruct (Hrun x eq_refl) as ((co & Hco & Haw) & Hnr & Hno). unfold nty_coroutine_free, on_sched. do 2 wp_step.
    eapply wp_on_co; [exact Hco|]. pr_cbn. wp_step. pr_cbn. wp_step. wp_step. pr_cbn. wp_step.
    eapply wp_load_co; [apply lookup_insert_eq|]. cbn [co_status co_or co_set_ops co_set_status]. rewrite !has_bit_or.
    change (has_bit (BIT NTY_COROUTINE_STATUS_EXITED) NTY_COROUTINE_STATUS_EXITED) with true.
    change (has_bit (BIT NTY_COROUTINE_STATUS_DETACH) NTY_COROUTINE_STATUS_DETACH) with true.
    rewrite !orb_true_l, !orb_true_r. cbv iota. do 2 wp_step. eapply wp_load_co; [apply lookup_insert_eq|].
    wp_step. wp_step. wp_step. wp_step. wp_step. wp_step. pr_cbn. apply HQ; [|done|done].
    split; cbn; try done.
    + eexists. split; [done|]. destruct Hsc as [? ? ? ? ? ? H7]. split; try done. cbn. rewrite H7. lia.
    + apply waits_delete; [done|]. by apply waits_insert.
    + apply ready_delete; [done|]. by apply ready_insert.
Qed.

Lemma stops_mono x (Q1 Q2 : env → process P W → Prop) r e s :
  stops x Q1 r e s → (∀ e s, Q1 e s → Q2 e s) → stops x Q2 r e s.
Proof.
  destruct r as [p|]; simpl; intros H HQ.
  - destruct H as (ws & rd & fd & p0 & ev & Hc & H). exists ws, rd, fd, p0, ev. split; [done|]. auto.
  - destruct H as (ws & rd & Hc & H). exists ws, rd. split; [done|]. auto.
Qed.

Context (body : P → answers → M (process P W) (option P)).

(** A coroutine that waits goes on: until it calls the scheduler it still waits. *)
Lemma wp_resume_waiting ws rd fd x p ev k e s Q :
  coros ws rd None s → ws !! fd = Some (x, p, ev) →
  (∀ s', coros ws rd None s' → same_data s s' → curr_of s' = Some x →
    wp (body p k) e s' (stops x Q)) →
  wp (nty_coroutine_resume body x k) e s (λ _ e' s', Q e' s').
Proof.
  intros Hc Hfd H. destruct (cs_waits _ _ _ _ Hc _ _ Hfd) as (co & Hco & Hp & _ & Hnew & _). simpl in Hco, Hp.
  unfold nty_coroutine_resume. wp_step. eapply wp_load_co; [exact Hco|]. rewrite Hnew, Hp. wp_step.
  eapply wp_on_sched_keep; [exact Hc|intros; by apply sched_ok_stack|]. intros s1 Hc1 Hd1 _ _ _. wp_step.
  eapply wp_on_sched_keep; [exact Hc1|intros; by apply sched_ok_curr|]. intros s2 Hc2 Hd2 _ _ Hcu2. wp_step.
  eapply wp_mono; [apply H; [done|by etrans|rewrite Hcu2; by eapply curr_of_sched]|].
  intros r e' s' Hr. by apply wp_stops.
Qed.
(** A new coroutine leaves the queue and starts, on the stack as it is. *)
Lemma wp_resume_new ws rd x p k K e s Q :
  coros ws ((x, p) :: rd) None s →
  (∀ s', coros ws rd (Some x) s' → same_data s s' → stack_of s' = stack_of s → curr_of s' = Some x →
    wp (body p k) e s' (stops x (λ e' s', wp K e' s' Q))) →
  wp (on_sched (sc_set_ready rd.*1);; co ← load_co x;
      if has_bit (co_status co) NTY_COROUTINE_STATUS_FDEOF then nty_coroutine_free x
      else nty_coroutine_resume body x k;; K) e s Q.
Proof.
  intros Hc H. destruct s as [sched h kn now w].
  destruct Hc as [(sc & Hs & Hsc) Hw Hr Hnd Hd Hrun Hi Ha]. simpl in *. subst sched.
  apply Forall_cons in Hr as [(co & Hco & Hp & Hst) Hr]. apply NoDup_cons in Hnd as [Hnx Hnd].
  apply Forall_cons in Hd as [Hdx Hd]. simpl in Hco, Hp.
  unfold nty_coroutine_resume, nty_coroutine_init, on_sched. wp_step. wp_step. pr_cbn. wp_step.
  eapply wp_load_co; [exact Hco|]. rewrite Hst. change (has_bit (BIT _) NTY_COROUTINE_STATUS_FDEOF) with false. cbv iota.
  wp_step. wp_step. eapply wp_load_co; [exact Hco|]. rewrite Hst, Hp.
  change (has_bit (BIT _) NTY_COROUTINE_STATUS_NEW) with true. cbv iota. wp_step.
  eapply wp_on_co; [exact Hco|]. pr_cbn. wp_step. wp_step. pr_cbn. wp_step.
  eapply wp_mono; [apply H|]; [|done|done|done|].
  - split; cbn; try done.
    + eexists. split; [done|]. destruct Hsc as [? ? ? ? ? ? H7]. split; try done. cbn. rewrite H7. simpl. lia.
    + by apply waits_insert.
    + by apply ready_insert.
    + intros y [= <-]. split_and!; [|done|done]. eexists. by rewrite lookup_insert_eq.
  - intros r e' s' Hr'. eapply wp_mono; [by apply wp_stops|]. by intros ? ? ?.
Qed.

(** ** The scheduler *)

Lemma wp_run_expired ws rd run fuel ks e s Q :
  coros ws rd run s → Q ks e s → wp (run_expired body (S fuel) ks) e s Q.
Proof.
  intros Hc HQ. cbn [run_expired]. unfold nty_schedule_expired, nty_coroutine_usec_now. wp_step. wp_step.
  eapply wp_get_sched; [exact Hc|]. intros sc _ Ho. wp_step. wp_step. rewrite (so_sleeping _ _ _ _ Ho).
  change (tree_min ∅) with (@None (Z * loc)). cbv iota. wp_step. by wp_step.
Qed.
Lemma wp_schedule_epoll ws run e s Q :
  coros ws [] run s → Q true e s → wp nty_schedule_epoll e s Q.
Proof.
  intros Hc HQ. unfold nty_schedule_epoll, nty_schedule_min_timeout, nty_coroutine_usec_now. wp_step. wp_step.
  eapply wp_get_sched; [exact Hc|]. intros sc Hsc Ho. wp_step. wp_step. rewrite (so_sleeping _ _ _ _ Ho).
  change (tree_min ∅) with (@None (Z * loc)). cbv iota. wp_step. wp_step.
  eapply wp_get_sched; [exact Hc|]. intros sc' Hsc' _. rewrite Hsc in Hsc'. injection Hsc' as <-. wp_step.
  by rewrite (so_timeout _ _ _ _ Ho), (so_ready _ _ _ _ Ho).
Qed.
(** A turn with at most one new coroutine, which creates no other. *)
Lemma wp_run_turn_idle ws t e s Q :
  coros ws [] None s →
  (∀ s', coros ws [] None s' → same s s' → wp (run_events body (rev (tn_events t))) e s' Q) →
  wp (run_turn body t) e s Q.
Proof.
  intros Hc HQ. unfold run_turn. wp_step. wp_step. assert (Hc' : coros ws [] None (pr_set_now (tn_now t) s)) by by eapply coros_ext.
  wp_step. eapply wp_get_sched; [exact Hc'|]. intros sc Hsc Ho. wp_step. eapply wp_run_expired; [exact Hc'|].
  wp_step. eapply wp_get_sched; [exact Hc'|]. intros sc' Hsc' Ho'. wp_step. cbn [run_ready]. wp_step.
  eapply wp_get_sched; [exact Hc'|]. intros sc2 _ Ho2. rewrite (so_ready _ _ _ _ Ho2). cbn [fmap list_fmap]. wp_step. wp_step.
  eapply wp_schedule_epoll; [exact Hc'|]. by apply HQ.
Qed.
Lemma wp_run_turn_new ws x p t e s Q :
  coros ws [(x, p)] None s →
  (∀ s', coros ws [] (Some x) s' → same_data s s' → stack_of s' = stack_of s → curr_of s' = Some x →
    wp (body p (next_answers (tn_answers t))) e s' (stops x (λ e' s',
      ∃ ws', coros ws' [] None s' ∧ wp (run_events body (rev (tn_events t))) e' s' Q))) →
  wp (run_turn body t) e s Q.
Proof.
  intros Hc HQ. unfold run_turn. wp_step. wp_step.
  assert (Hc' : coros ws [(x, p)] None (pr_set_now (tn_now t) s)) by by eapply coros_ext.
  wp_step. eapply wp_get_sched; [exact Hc'|]. intros sc Hsc Ho. wp_step. eapply wp_run_expired; [exact Hc'|].
  wp_step. eapply wp_get_sched; [exact Hc'|]. intros sc' Hsc' Ho'. wp_step. cbn [run_ready]. wp_step.
  eapply wp_get_sched; [exact Hc'|]. intros sc2 _ Ho2. rewrite (so_ready _ _ _ _ Ho2), (so_ready _ _ _ _ Ho').
  change (last [(x, p)].*1) with (Some x). cbn [fmap list_fmap fst]. rewrite (bool_decide_true (Some x = Some x)) by done.
  eapply (wp_resume_new ws [] x p); [exact Hc'|]. intros s' H1 H2 H3 H4. eapply wp_mono; [apply HQ; [done|by destruct H2|exact H3|done]|].
  intros r e' s2 Hs2. assert (Himp : ∀ e0 s0, (∃ ws', coros ws' [] None s0 ∧ wp (run_events body (rev (tn_events t))) e0 s0 Q) →
    wp (mret ()) e0 s0 (λ _ e1 s1, wp (waits ← nty_schedule_epoll;
      if waits : bool then run_events body (rev (tn_events t)) else mret tt) e1 s1 Q)).
  { intros e0 s0 (ws' & Hc0 & HQ0). wp_step. wp_step. eapply wp_schedule_epoll; [exact Hc0|]. exact HQ0. }
  destruct r as [q|]; simpl in Hs2 |- *.
  - destruct Hs2 as (ws2 & rd2 & fd & p0 & ev & Hc2 & HQ2). exists ws2, rd2, fd, p0, ev. split; [done|]. eauto.
  - destruct Hs2 as (ws2 & rd2 & Hc2 & HQ2). exists ws2, rd2. split; [done|]. eauto.
Qed.
Lemma not_done ws rd run sc : sched_ok ws rd run sc → ws ≠ ∅ ∨ rd ≠ [] → nty_schedule_isdone sc = false.
Proof.
  intros Ho Hw. unfold nty_schedule_isdone. rewrite (so_waiting _ _ _ _ Ho), (so_ready _ _ _ _ Ho). destruct Hw as [Hw|Hr].
  - rewrite bool_decide_eq_false_2; [done|]. by intros ?%fmap_empty_inv.
  - rewrite !andb_false_iff. right. apply bool_decide_eq_false_2. by destruct rd.
Qed.
Lemma wp_run_turns ws rd t ts e s Q :
  coros ws rd None s → ws ≠ ∅ ∨ rd ≠ [] →
  wp (run_turn body t) e s (λ _ e' s', wp (run_turns body ts) e' s' Q) →
  wp (run_turns body (t :: ts)) e s Q.
Proof.
  intros Hc Hw H. cbn [run_turns]. wp_step. eapply wp_get_sched; [exact Hc|]. intros sc _ Ho.
  rewrite (not_done _ _ _ _ Ho Hw). by wp_step.
Qed.
Lemma wp_run_turns_nil ws rd e s Q :
  coros ws rd None s → ws ≠ ∅ ∨ rd ≠ [] → Q tt e s → wp (run_turns body []) e s Q.
Proof.
  intros Hc Hw H. cbn [run_turns]. wp_step. eapply wp_get_sched; [exact Hc|]. intros sc _ Ho.
  rewrite (not_done _ _ _ _ Ho Hw). by wp_step.
Qed.
End rules.

(** ** The first coroutine *)

Ltac boot_cbn :=
  cbn [negb fmap option_fmap option_map sc_birth sc_spawned sc_eventfd sc_poller_fd sc_set_spawned
    sc_set_ready sc_ready]; pr_cbn.
Ltac boot_steps := boot_cbn; repeat (wp_step; boot_cbn).

(** A process without a scheduler creates one. *)
Lemma wp_create_first {P W} (p : P) (w : W) poller evfd now U e Q :
  poller ≠ -1 → evfd ≠ -1 → malloc_fails e = false → malloc_fails (after_malloc e) = false →
  (∀ x s, coros evfd ∅ [(x, p)] None s → pr_world s = w →
    k_open (pr_kernel s) = {[ evfd ]} ∪ ({[ poller ]} ∪ U) → k_sent (pr_kernel s) = [] →
    Q 0 (after_malloc (after_malloc e)) s) →
  wp (nty_coroutine_create poller evfd p) e (Process None ∅ (Kernel U ∅ ∅ []) now w) Q.
Proof.
  intros Hp Hev Hm1 Hm2 HQ.
  assert (Hk : (poller =? -1) = false ∧ (evfd =? -1) = false) by lia. destruct Hk as [Hk1 Hk2].
  unfold nty_coroutine_create, nty_schedule_create, nty_epoller_ev_register_trigger,
    on_kernel, on_sched, get_sched, nty_coroutine_usec_now.
  boot_steps. rewrite Hm1. boot_steps. rewrite Hk1. boot_steps. change (0 =? 0) with true. cbv iota. rewrite Hk2.
  boot_steps. rewrite Hm2. boot_steps.
  apply wp_ck_int; [unfold INT_MIN, INT_MAX; simpl; lia|]. cbv zeta. boot_steps.
  unfold epoll_ctl. rewrite decide_True by (simpl; set_solver). cbn [k_interest k_opened].
  rewrite lookup_empty. apply (HQ (fresh (dom (∅ : gmap loc (coroutine P))))); try done.
  split; cbn.
  - eexists. split; [done|]. by split.
  - done.
  - apply Forall_singleton. eexists. rewrite lookup_insert_eq. done.
  - apply NoDup_singleton.
  - by apply Forall_singleton.
  - done.
  - intros fd. case_decide as Hd; [subst; by rewrite lookup_insert_eq|]. by rewrite lookup_insert_ne.
  - done.
Qed.
