(* ===== verification/Ntyco.v ===== *)
(** The coroutine server, src/network/ntyco.c, as coroutines of NtySched.

    A coroutine of the server is at the start of [server] or of [server_reader],
    or waits in [accept], [recv] or [send]; [ny_body] runs it from there to the
    next wait. *)
From S2P Require Import Prelude CText KvsSpec Rdb Protocol Netio Reactor NtySched.

Local Open Scope Z_scope.

(** The contexts of the coroutines. *)
Inductive frame : Type :=
  | FServer
  | FAccept (fd : Z)
  | FReader
  | FRecv (fd : Z) (ns : string)
  | FSend (fd : Z) (ns response : string) (len sent : Z).

(** [ny_cli_fd] is the variable of [server] whose address every reader gets, with
    the coroutine in whose frames it is. *)
Record nworld (St : Type) := NWorld { ny_app : St; ny_cli_fd : option (loc * Z) }.
Arguments NWorld {St} _ _.
Arguments ny_app {St} _.
Arguments ny_cli_fd {St} _.

Section ntyco.
Context {St : Type} (handler : msg_handler St).
Abbreviation nserver := (process frame (nworld St)).

Definition ny_set_app (x : St) (s : nserver) : nserver := pr_set_world (NWorld x (ny_cli_fd (pr_world s))) s.
Definition ny_get_app (s : nserver) : St := ny_app (pr_world s).

(** [server]: the results of [bind] and [listen] are not looked at. *)
Definition server_start (k : answers) : M nserver (option frame) :=
  fd ← hook_socket k;
  if fd <? 0 then mret None else
  accept_begin fd;;
  mret (Some (FAccept fd)).
(** Its loop: the client [accept] returns (its failure is not checked), and a
    reader that gets the address of [cli_fd]. *)
Definition server_accepted (k : answers) (fd : Z) : M nserver (option frame) :=
  cli_fd ← accept_end k fd;
  match cli_fd with
  | None => mret (Some (FAccept fd))
  | Some cli_fd =>
      x ← curr_thread;
      modify (λ s, pr_set_world (NWorld (ny_app (pr_world s)) (Some (x, cli_fd))) s);;
      nty_coroutine_create (-1) (-1) FReader;;
      accept_begin fd;;
      mret (Some (FAccept fd))
  end.

(** [server_reader] reads its [fd] through the address: the variable is there if
    the frames of [server] are still on the stack. *)
Definition reader_start : M nserver (option frame) :=
  w ← gets pr_world;
  sc ← get_sched;
  match ny_cli_fd w with
  | Some (x, fd) =>
      if bool_decide (sc_stack sc = Some x) then recv_begin fd;; mret (Some (FRecv fd "default")) else ub
  | None => ub
  end.
(** What follows a [send] that has returned. *)
Definition reader_sent (fd : Z) (ns : string) (ret : Z) : M nserver (option frame) :=
  if ret =? -1 then hook_close fd;; mret None
  else recv_begin fd;; mret (Some (FRecv fd ns)).
(** Each turn of its loop has new cleared buffers. *)
Definition reader_received (k : answers) (fd : Z) (ns : string) : M nserver (option frame) :=
  data ← recv_end k fd BUFFER_LENGTH;
  match data with
  | None => recv_begin fd;; mret (Some (FRecv fd ns))
  | Some EmptyString => hook_close fd;; mret None
  | Some d =>
      h ← zoom ny_get_app ny_set_app (handler (overwrite d zero_buffer) (Z.of_nat (String.length d)) (PStr ns));
      let ns := match h_ns h with PStr ns' => ns' | _ => ns end in
      let response := write_reply (h_reply h) zero_buffer in
      let slength := r_length (h_reply h) in
      ret ← send_begin k fd response slength;
      match ret with
      | inl ret => reader_sent fd ns ret
      | inr sent => mret (Some (FSend fd ns response slength sent))
      end
  end.
Definition reader_sends (k : answers) (fd : Z) (ns response : string) (len sent : Z) : M nserver (option frame) :=
  ret ← send_again k fd response len sent;
  match ret with
  | inl ret => reader_sent fd ns ret
  | inr sent => mret (Some (FSend fd ns response len sent))
  end.

Definition ny_body (p : frame) (k : answers) : M nserver (option frame) :=
  match p with
  | FServer => server_start k
  | FAccept fd => server_accepted k fd
  | FReader => reader_start
  | FRecv fd ns => reader_received k fd ns
  | FSend fd ns response len sent => reader_sends k fd ns response len sent
  end.

(** [ntyco_start]: [poller] and [evfd] are the descriptors of the scheduler. *)
Definition ntyco_start (poller evfd : Z) (ts : list turn) : M nserver unit :=
  nty_coroutine_create poller evfd FServer;;
  nty_schedule_run ny_body ts.
End ntyco.

(** The process before [ntyco_start], at the time [now]. *)
Definition boot_nserver {St} (app : St) (used : gset Z) (now : Z) : process frame (nworld St) :=
  Process None ∅ (Kernel used ∅ ∅ []) now (NWorld app None).
(** [main] of the build with coroutines. *)
Definition ntyco_main (poller evfd : Z) (ts : list turn) : M (process frame (nworld store)) unit :=
  zoom ny_get_app ny_set_app init_kvengine;;
  ntyco_start kvs_handler poller evfd ts.
