(* ===== verification/NtycoProof.v ===== *)
(** What the coroutine server does, whatever the handler: an abstract server of
    connections, and the proof that the coroutines implement it under the
    scheduler. *)
From S2P Require Import Prelude CText KvsSpec Rdb RdbProof Protocol Requests Netio Reactor ReactorProof NtySched NtyRules Ntyco.

Local Open Scope Z_scope.

(** * The abstract server *)

(** A connection: its namespace, and what remains to be sent of a reply, with
    whether some of it has been sent. *)
Record nlink := NLink { nl_ns : string; nl_out : option (bool * string) }.
(** [ns_new] is a client that has been accepted and whose reader has not started. *)
Record nspec (St : Type) := NSpec {
  ns_app : St;
  ns_links : gmap Z nlink;
  ns_new : option Z;
  ns_sent : list (Z * string)
}.
Arguments NSpec {St} _ _ _ _.
Arguments ns_app {St} _.
Arguments ns_links {St} _.
Arguments ns_new {St} _.
Arguments ns_sent {St} _.

Section spec.
Context {St : Type} (handler : msg_handler St).
(** The listening socket, and the descriptors of the rest of the process, among
    them those of the scheduler. *)
Context (lfd : Z) (U : gset Z).

Definition ns_set_app x (a : nspec St) : nspec St := NSpec x (ns_links a) (ns_new a) (ns_sent a).
Definition ns_set_links l (a : nspec St) : nspec St := NSpec (ns_app a) l (ns_new a) (ns_sent a).
Definition ns_set_new n (a : nspec St) : nspec St := NSpec (ns_app a) (ns_links a) n (ns_sent a).
Definition ns_add_sent x (a : nspec St) : nspec St := NSpec (ns_app a) (ns_links a) (ns_new a) (ns_sent a ++ [x]).
Definition set_link fd l (a : nspec St) : nspec St := ns_set_links (<[fd := l]> (ns_links a)) a.
(** The connection is closed and its coroutine freed. *)
Definition spec_gone (fd : Z) : M (nspec St) unit :=
  free_block;; modify (λ a, ns_set_links (delete fd (ns_links a)) a).

(** A new client.  Not specified: an error other than EAGAIN, a descriptor that is
    in use, memory that runs out, 2^31 connections. *)
Definition spec_accept (fd : Z) : M (nspec St) unit :=
  if fd <? 0 then (if fd =? - EAGAIN then mret tt else ub) else
  a ← get_st;
  if decide (fd ∈ U ∨ fd = lfd ∨ is_Some (ns_links a !! fd) ∨ INT_MAX < Z.of_nat (size (ns_links a)) + 2) then ub else
  ok ← malloc_ok;
  if ok : bool then put_st (ns_set_new (Some fd) a) else ub.

(** The first [send] of a reply takes [n] bytes, or fails. *)
Definition spec_reply (fd : Z) (ns t : string) (n : Z) : M (nspec St) unit :=
  if n <? 0 then
    if String.eqb t "" then spec_gone fd else modify (set_link fd (NLink ns (Some (false, t))))
  else
    modify (ns_add_sent (fd, str_take (Z.to_nat n) t));;
    if (n =? 0) || (Z.of_nat (String.length t) <=? n) then modify (set_link fd (NLink ns None))
    else modify (set_link fd (NLink ns (Some (true, str_drop (Z.to_nat n) t)))).
(** The bytes that arrived are a request; it is answered at once. *)
Definition spec_recv (fd : Z) (ns : string) (k : answers) : M (nspec St) unit :=
  match str_take (Z.to_nat BUFFER_LENGTH) <$> a_recv k with
  | None => mret tt
  | Some EmptyString => spec_gone fd
  | Some d =>
      r ← zoom ns_app ns_set_app
            (handler (overwrite d zero_buffer) (Z.of_nat (String.length d)) (PStr ns));
      t ← some_or_ub (reply_bytes (h_reply r));
      spec_reply fd (match h_ns r with PStr ns' => ns' | _ => ns end) t (a_send k)
  end.
(** A further [send]; when it fails the rest is dropped, and the connection stays
    unless nothing had been sent. *)
Definition spec_send (fd : Z) (ns : string) (b : bool) (t : string) (n : Z) : M (nspec St) unit :=
  if n <? 0 then
    if b then modify (set_link fd (NLink ns None)) else spec_gone fd
  else
    modify (ns_add_sent (fd, str_take (Z.to_nat n) t));;
    if (n =? 0) || (Z.of_nat (String.length t) <=? n) then modify (set_link fd (NLink ns None))
    else modify (set_link fd (NLink ns (Some (true, str_drop (Z.to_nat n) t)))).

(** One event.  Not specified: an event handled between [accept] and the start of
    the reader; its coroutine overwrites the stack the reader finds [cli_fd] on. *)
Definition spec_event (ev : event) : M (nspec St) unit :=
  let fd := ev_fd ev in
  a ← get_st;
  match ns_new a with
  | Some _ => ub
  | None =>
      if decide (fd = lfd) then spec_accept (a_accept (ev_answers ev)) else
      l ← some_or_ub (ns_links a !! fd);
      match nl_out l with
      | None => spec_recv fd (nl_ns l) (ev_answers ev)
      | Some (b, t) => spec_send fd (nl_ns l) b t (a_send (ev_answers ev))
      end
  end.
Fixpoint spec_events (evs : list event) : M (nspec St) unit :=
  match evs with
  | [] => mret tt
  | ev :: evs' => spec_event ev;; spec_events evs'
  end.
(** The reader of a new client starts before any event is handled. *)
Definition spec_start (a : nspec St) : nspec St :=
  match ns_new a with
  | Some fd => ns_set_new None (set_link fd (NLink "default" None) a)
  | None => a
  end.
(** [epoll_wait] reports what someone waits for, and every descriptor once. *)
Definition waited (a : nspec St) (fd : Z) : Prop := fd = lfd ∨ is_Some (ns_links a !! fd).
Definition reportable (a : nspec St) (evs : list event) : Prop :=
  NoDup (ev_fd <$> evs) ∧ Forall (λ ev, waited a (ev_fd ev)) evs.
Fixpoint spec_turns (ts : list turn) (e : env) (a : nspec St) (Q : env → nspec St → Prop) : Prop :=
  match ts with
  | [] => Q e a
  | t :: ts' =>
      reportable (spec_start a) (tn_events t) ∧
      wp (spec_events (rev (tn_events t))) e (spec_start a) (λ _ e' a', spec_turns ts' e' a' Q)
  end.

(** * The invariant *)

Context (evfd : Z) (Hevfd : evfd ∈ U) (Hlfd : lfd ∉ U).
Abbreviation nserver := (process frame (nworld St)).
Implicit Types (s : nserver) (a : nspec St) (ws : gmap Z (loc * frame * Z)).

(** What remains of the response of a reader that waits in [send]. *)
Definition owes (response : string) (len sent : Z) (b : bool) (t : string) : Prop :=
  0 ≤ sent < len ∧ len ≤ Z.of_nat (String.length response) ∧ b = (0 <? sent) ∧
  t = str_take (Z.to_nat (len - sent)) (str_drop (Z.to_nat sent) response).
Definition frame_of (fd : Z) (l : nlink) (p : frame) : Prop :=
  match nl_out l with
  | None => p = FRecv fd (nl_ns l)
  | Some (b, t) => ∃ response len sent, p = FSend fd (nl_ns l) response len sent ∧ owes response len sent b t
  end.
Definition link_events (l : nlink) : Z := if nl_out l is Some _ then OUT_EVENTS else IN_EVENTS.
(** Who waits for a descriptor: the server, a reader, nobody. *)
Definition slot_ok (x0 : loc) (fd : Z) (l : option nlink) (w : option (loc * frame * Z)) : Prop :=
  if decide (fd = lfd) then w = Some (x0, FAccept lfd, IN_EVENTS) else
  match l, w with
  | Some l, Some (_, p, ev) => frame_of fd l p ∧ ev = link_events l
  | None, None => True
  | _, _ => False
  end.
(** All coroutines wait, except the one of the descriptor [hole]. *)
Record server_ok (hole : option Z) (x0 : loc) ws a s : Prop := {
  sv_slots : ∀ fd, hole ≠ Some fd → slot_ok x0 fd (ns_links a !! fd) (ws !! fd);
  sv_hole : ∀ fd, hole = Some fd → ws !! fd = None;
  sv_open : ∀ fd, (fd ∈ k_open (pr_kernel s)) ↔ fd ∈ U ∨ fd = lfd ∨ is_Some (ns_links a !! fd) ∨ ns_new a = Some fd;
  sv_apart : map_Forall (λ fd _, (fd ∉ U) ∧ fd ≠ lfd) (ns_links a);
  sv_state : ny_app (pr_world s) = ns_app a;
  sv_history : k_sent (pr_kernel s) = ns_sent a
}.
Definition accepted (x0 : loc) (rd : list (loc * frame)) a s : Prop :=
  match ns_new a with
  | None => rd = []
  | Some fd => ∃ x, rd = [(x, FReader)] ∧ ny_cli_fd (pr_world s) = Some (x0, fd) ∧
      (fd ∉ U) ∧ fd ≠ lfd ∧ ns_links a !! fd = None
  end.
(** While a reader has not started, the frames of [server] are on the stack. *)
Definition newcomer (x0 : loc) (rd : list (loc * frame)) a s : Prop :=
  accepted x0 rd a s ∧ (rd = [] ∨ stack_of s = Some x0).
Definition ny_serves a s : Prop :=
  ∃ x0 ws rd, coros evfd ws rd None s ∧ server_ok None x0 ws a s ∧ newcomer x0 rd a s.
Definition ny_implements (Q : env → nspec St → Prop) (e : env) s : Prop := ∃ a, Q e a ∧ ny_serves a s.

Lemma server_ok_data hole x0 ws a s s' : server_ok hole x0 ws a s → same_data s s' → server_ok hole x0 ws a s'.
Proof. intros [] [Hw Ho Hs]. split; rewrite ?Hw, ?Ho, ?Hs; done. Qed.
(** A reader that waits again, or is gone. *)
Lemma server_ok_wait x0 ws a s fd x p l :
  server_ok (Some fd) x0 ws a s → fd ≠ lfd → fd ∉ U → is_Some (ns_links a !! fd) → frame_of fd l p →
  server_ok None x0 (<[fd := (x, p, link_events l)]> ws) (set_link fd l a) s.
Proof.
  intros [Hs Hh Ho Ha Hst Hhi] Hne HU Hl Hp. split; simpl; try done.
  - intros fd' _. unfold slot_ok. destruct (decide (fd' = fd)) as [->|Hne'].
    + rewrite !lookup_insert_eq. by rewrite decide_False.
    + rewrite !lookup_insert_ne by done. apply (Hs fd'). congruence.
  - intros fd'. rewrite Ho. destruct (decide (fd' = fd)) as [->|Hne'].
    + rewrite lookup_insert_eq. naive_solver.
    + by rewrite lookup_insert_ne.
  - by apply map_Forall_insert_2.
Qed.
Lemma server_ok_gone x0 ws a s fd :
  server_ok (Some fd) x0 ws a s → fd ≠ lfd → fd ∉ U → ns_new a = None →
  server_ok None x0 ws (ns_set_links (delete fd (ns_links a)) a) (pr_set_kernel (k_closed fd (pr_kernel s)) s).
Proof.
  intros [Hs Hh Ho Ha Hst Hhi] Hne HU Hn. split; simpl; try done.
  - intros fd' _. unfold slot_ok. destruct (decide (fd' = fd)) as [->|Hne'].
    + rewrite lookup_delete_eq, (Hh fd eq_refl). by rewrite decide_False.
    + rewrite lookup_delete_ne by done. apply (Hs fd'). congruence.
  - intros fd'. rewrite elem_of_difference, elem_of_singleton, Ho, Hn. destruct (decide (fd' = fd)) as [->|Hne'].
    + rewrite lookup_delete_eq. split; [by intros [_ []]|]. intros [?|[?|[[? ?]|?]]]; done.
    + rewrite lookup_delete_ne by done. naive_solver.
  - by apply map_Forall_delete.
Qed.
(** An event's coroutine runs. *)
Lemma server_ok_hole x0 ws a s fd :
  server_ok None x0 ws a s → server_ok (Some fd) x0 (delete fd ws) a s.
Proof.
  intros [Hs Hh Ho Ha Hst Hhi]. split; try done.
  - intros fd' Hne. rewrite lookup_delete_ne by congruence. by apply Hs.
  - intros ? [= <-]. apply lookup_delete_eq.
Qed.

(** ** Readers *)

(** The reader [x] of the connection [fd] runs. *)
Definition reading fd x a s : Prop :=
  ∃ x0 ws, coros evfd ws [] (Some x) s ∧ curr_of s = Some x ∧ server_ok (Some fd) x0 ws a s ∧
    ns_new a = None ∧ fd ≠ lfd ∧ (fd ∉ U) ∧ is_Some (ns_links a !! fd).

Lemma reading_waits fd x a s l p e (Q : env → nspec St → Prop) :
  reading fd x a s → frame_of fd l p → Q e (set_link fd l a) →
  wp (poll_begin fd (link_events l) 1) e s (λ _ e' s', stops evfd x (ny_implements Q) (Some p) e' s').
Proof.
  intros (x0 & ws & Hc & Hcu & Hs & Hn & Hne & HU & Hl) Hp HQ.
  eapply wp_poll_begin; [exact Hc|exact Hcu|by apply Hs|by intros ->| |by unfold link_events; destruct (nl_out l); [right|left]|].
  { apply Hs. auto. }
  intros s' p0 Hc' [Hd _ _]. exists ws, [], fd, p0, (link_events l). split; [done|].
  intros s2 Hc2 Hd2 _. exists (set_link fd l a). split; [done|]. exists x0, (<[fd := (x, p, link_events l)]> ws), [].
  split_and!; [done| |split; [unfold accepted; simpl; by rewrite Hn|by left]].
  eapply (server_ok_data _ _ _ _ s); [by apply server_ok_wait|by etrans].
Qed.
Lemma reading_gone fd x a s e (Q : env → nspec St → Prop) :
  reading fd x a s → wp (spec_gone fd) e a (λ _ e' a', Q e' a') →
  wp (hook_close fd) e s (λ _ e' s', stops evfd x (ny_implements Q) None e' s').
Proof.
  intros (x0 & ws & Hc & Hcu & Hs & Hn & Hne & HU & Hl) HQ. unfold hook_close, on_kernel. wp_step.
  exists ws, []. split.
  - eapply coros_ext; [exact Hc|done|done|]. simpl. apply delete_id. rewrite (cs_interest _ _ _ _ _ Hc).
    rewrite decide_False by (by intros ->). by rewrite (sv_hole _ _ _ _ _ Hs fd eq_refl).
  - intros s2 Hc2 Hd2 _. exists (ns_set_links (delete fd (ns_links a)) a). split; [exact HQ|]. exists x0, ws, [].
    split_and!; [done| |split; [unfold accepted; simpl; by rewrite Hn|by left]].
    eapply server_ok_data; [by apply server_ok_gone|done].
Qed.
Lemma reading_app fd x a s y : reading fd x a s → reading fd x (ns_set_app y a) (ny_set_app y s).
Proof.
  intros (x0 & ws & Hc & Hcu & [] & Hn & Hne & HU & Hl). exists x0, ws.
  split_and!; [by eapply coros_ext|exact Hcu|by split|done..].
Qed.
Lemma reading_send fd x a s o :
  reading fd x a s → reading fd x (ns_add_sent o a) (pr_set_kernel (k_add_sent o (pr_kernel s)) s).
Proof.
  intros (x0 & ws & Hc & Hcu & [? ? ? ? ? Hh] & Hn & Hne & HU & Hl). exists x0, ws.
  split_and!; [by eapply coros_ext|exact Hcu| |done..]. split; try done. simpl. by rewrite Hh.
Qed.

Lemma str_drop_take n m t : str_drop n (str_take m t) = str_take (m - n) (str_drop n t).
Proof.
  revert m t. induction n as [|n IH]; intros m t; [by rewrite Nat.sub_0_r|].
  destruct m as [|m]; [by destruct t|]. destruct t as [|c t]; simpl; [by destruct (m - n)%nat|apply IH].
Qed.

(** What is left when [n] more bytes have been sent. *)
Lemma owes_more response len sent b t n :
  owes response len sent b t → 0 < n → sent + n < len →
  owes response len (sent + n) true (str_drop (Z.to_nat n) t).
Proof.
  intros (Hr & Hlen & _ & ->) Hn Hl. split_and!; [lia|lia|done|by rewrite (proj2 (Z.ltb_lt _ _)) by lia|].
  rewrite str_drop_take, str_drop_drop. f_equal; [lia|]. f_equal. lia.
Qed.
Lemma owes_length response len sent b t : owes response len sent b t → Z.of_nat (String.length t) = len - sent.
Proof.
  intros (Hr & Hlen & _ & ->). rewrite str_take_len; [lia|]. rewrite str_drop_length. lia.
Qed.
(** The bytes the system call takes. *)
Lemma sent_bytes response len sent t n :
  0 ≤ sent ≤ len → 0 ≤ n → t = str_take (Z.to_nat (len - sent)) (str_drop (Z.to_nat sent) response) →
  str_take (Z.to_nat (Z.min n (len - sent))) (str_drop (Z.to_nat sent) response) = str_take (Z.to_nat n) t.
Proof. intros Hr Hn ->. rewrite (str_take_take_min _ _ (Z.to_nat (Z.min n (len - sent)))); [done|]. lia. Qed.

Lemma wp_send_f fd x a s response len sent k e (Q : Z → env → nserver → Prop) :
  reading fd x a s → 0 ≤ sent ≤ len → len ≤ Z.of_nat (String.length response) →
  (a_send k < 0 → Q (-1) e s) →
  (0 ≤ a_send k → ∀ s', reading fd x (ns_add_sent (fd, str_take (Z.to_nat (a_send k))
      (str_take (Z.to_nat (len - sent)) (str_drop (Z.to_nat sent) response))) a) s' →
    Q (Z.min (a_send k) (len - sent)) e s') →
  wp (send_f k fd response sent len) e s Q.
Proof.
  intros Hr Hs Hl H1 H2. unfold send_f. rewrite (proj2 (Z.ltb_ge _ _)), (proj2 (Z.ltb_ge _ _)) by lia. simpl orb. cbv iota.
  destruct (Z.ltb_spec (a_send k) 0) as [Hn|Hn]; [wp_step; by apply H1|].
  unfold on_kernel. wp_step. wp_step. wp_step. apply H2; [done|].
  rewrite <-(sent_bytes response len sent _ (a_send k)) by done. by apply reading_send.
Qed.
Lemma wp_reader_idle fd x a s ns e (Q : env → nspec St → Prop) :
  reading fd x a s → Q e (set_link fd (NLink ns None) a) →
  wp (recv_begin fd;; mret (Some (FRecv fd ns))) e s (stops evfd x (ny_implements Q)).
Proof.
  intros Hr HQ. wp_step. eapply wp_mono; [apply (reading_waits fd x a s (NLink ns None) (FRecv fd ns)); done|].
  intros ? e' s' H. by wp_step.
Qed.
Lemma wp_reader_gone fd x a s e (Q : env → nspec St → Prop) :
  reading fd x a s → wp (spec_gone fd) e a (λ _ e' a', Q e' a') →
  wp (hook_close fd;; mret None) e s (stops evfd x (ny_implements Q)).
Proof.
  intros Hr HQ. wp_step. eapply wp_mono; [by apply (reading_gone fd x a s)|]. intros ? e' s' H. by wp_step.
Qed.
Lemma wp_reader_owes fd x a s ns response len sent b t e (Q : env → nspec St → Prop) :
  reading fd x a s → owes response len sent b t → Q e (set_link fd (NLink ns (Some (b, t))) a) →
  wp (poll_begin fd OUT_EVENTS 1) e s
    (λ _ e' s', stops evfd x (ny_implements Q) (Some (FSend fd ns response len sent)) e' s').
Proof.
  intros Hr Ho HQ. apply (reading_waits fd x a s (NLink ns (Some (b, t)))); [done| |done]. simpl. unfold frame_of. simpl.
  eauto.
Qed.
Lemma wp_reader_sent fd x a s ns ret e (Q : env → nspec St → Prop) :
  reading fd x a s → ret ≠ -1 → Q e (set_link fd (NLink ns None) a) →
  wp (reader_sent fd ns ret) e s (stops evfd x (ny_implements Q)).
Proof. intros Hr Hne HQ. unfold reader_sent. rewrite (proj2 (Z.eqb_neq _ _)) by done. by apply (wp_reader_idle fd x a). Qed.
Lemma wp_reader_failed fd x a s ns e (Q : env → nspec St → Prop) :
  reading fd x a s → wp (spec_gone fd) e a (λ _ e' a', Q e' a') →
  wp (reader_sent fd ns (-1)) e s (stops evfd x (ny_implements Q)).
Proof. intros Hr HQ. by apply (wp_reader_gone fd x a). Qed.

(** The rest of a [send] that has taken bytes: it returns, or waits. *)
Lemma wp_reader_rest fd x a s ns response len sent b t n e (Q : env → nspec St → Prop) :
  let a' := ns_add_sent (fd, str_take (Z.to_nat n) t) a in
  reading fd x a' s → owes response len sent b t → 0 < n →
  wp (spec_send fd ns b t n) e a (λ _ e' a', Q e' a') →
  wp (r ← (let sent := sent + Z.min n (len - sent) in
           if sent <? len then poll_begin fd OUT_EVENTS 1;; mret (inr sent) else mret (inl sent));
      match r with
      | inl ret => reader_sent fd ns ret
      | inr sent => mret (Some (FSend fd ns response len sent))
      end) e s (stops evfd x (ny_implements Q)).
Proof.
  intros a' Hr Ho Hn H. pose proof (owes_length _ _ _ _ _ Ho) as Hlen. pose proof Ho as (Hse & _ & _ & _).
  unfold spec_send in H. rewrite (proj2 (Z.ltb_ge n 0)) in H by lia. apply wp_bind_inv in H. cbv zeta.
  change (wp (if (n =? 0) || (Z.of_nat (String.length t) <=? n) then modify (set_link fd (NLink ns None))
    else modify (set_link fd (NLink ns (Some (true, str_drop (Z.to_nat n) t))))) e a' (λ _ e' a', Q e' a')) in H.
  rewrite (proj2 (Z.eqb_neq n 0)) in H by lia. rewrite orb_false_l, Hlen in H. wp_step.
  destruct (Z.leb_spec (len - sent) n) as [Hge|Hlt].
  - rewrite Z.min_r, (proj2 (Z.ltb_ge _ _)) by lia. wp_step. apply (wp_reader_sent fd x a'); [done|lia|exact H].
  - rewrite Z.min_l, (proj2 (Z.ltb_lt _ _)) by lia. wp_step. eapply wp_mono.
    + apply (wp_reader_owes fd x a' s ns response len (sent + n) true (str_drop (Z.to_nat n) t)); [done| |exact H].
      apply (owes_more response len sent b); [exact Ho|lia|lia].
    + intros ? e' s' Hst. wp_step. by wp_step.
Qed.

Lemma wp_reader_reply fd x a s ns response len t k e (Q : env → nspec St → Prop) :
  reading fd x a s → 0 ≤ len → len ≤ Z.of_nat (String.length response) → t = str_take (Z.to_nat len) response →
  wp (spec_reply fd ns t (a_send k)) e a (λ _ e' a', Q e' a') →
  wp (r ← send_begin k fd response len;
      match r with
      | inl ret => reader_sent fd ns ret
      | inr sent => mret (Some (FSend fd ns response len sent))
      end) e s (stops evfd x (ny_implements Q)).
Proof.
  intros Hr Hl0 Hl Ht H.
  assert (Htl : Z.of_nat (String.length t) = len) by (subst t; rewrite str_take_len; lia).
  assert (Ht0 : t = str_take (Z.to_nat (len - 0)) (str_drop (Z.to_nat 0) response)) by by rewrite Z.sub_0_r.
  unfold send_begin. do 2 wp_step. apply (wp_send_f fd x a); [done|lia|done| |].
  - intros Hn. change (-1 =? 0) with false. change (0 <? -1) with false. cbv iota zeta. unfold spec_reply in H.
    rewrite (proj2 (Z.ltb_lt (a_send k) 0)) in H by done. destruct (Z.ltb_spec 0 len) as [Hpos|Hz].
    + destruct (String.eqb_spec t "") as [->|_]; [simpl in Htl; lia|]. wp_step. eapply wp_mono.
      * apply (wp_reader_owes fd x a s ns response len 0 false t); [done| |exact H]. split_and!; [lia|lia|done|done|exact Ht0].
      * intros ? e' s' Hst. wp_step. by wp_step.
    + destruct t as [|c t]; [|simpl in Htl; lia]. wp_step. by apply (wp_reader_failed fd x a).
  - rewrite <-Ht0, Z.sub_0_r. intros Hn s' Hr'. unfold spec_reply in H.
    rewrite (proj2 (Z.ltb_ge (a_send k) 0)) in H by done.
    destruct (decide (a_send k = 0 ∨ len = 0)) as [Hz|Hz].
    + rewrite (proj2 (Z.eqb_eq (Z.min (a_send k) len) 0)) by lia. wp_step. apply wp_bind_inv in H.
      assert (((a_send k =? 0) || (Z.of_nat (String.length t) <=? a_send k)) = true) as Hb.
      { apply orb_true_iff. rewrite Z.eqb_eq, Z.leb_le. lia. }
      rewrite Hb in H. rewrite Z.min_comm. eapply (wp_reader_sent fd x); [exact Hr'|lia|exact H].
    + rewrite (proj2 (Z.eqb_neq _ _)), (proj2 (Z.ltb_lt 0 (Z.min _ _))) by lia.
      assert (Ho : owes response len 0 false t) by (split_and!; [lia|lia|done|done|exact Ht0]).
      assert (Hm : 0 < a_send k) by lia.
      pose proof (wp_reader_rest fd x a s' ns response len 0 false t (a_send k) e Q Hr' Ho Hm) as Hrest.
      rewrite Z.add_0_l, Z.sub_0_r in Hrest. cbv zeta in Hrest |- *.
      rewrite (proj2 (Z.leb_gt (Z.min _ _) 0)) by lia. rewrite andb_false_l. eapply wp_mono; [eapply wp_bind_inv, Hrest|done].
      unfold spec_send. rewrite (proj2 (Z.ltb_ge (a_send k) 0)) by done. exact H.
Qed.

(** ** The coroutines of an event *)

Lemma wp_reader_wakes ws x0 fd x p ev l a s e Q :
  coros evfd ws [] None s → curr_of s = Some x → server_ok None x0 ws a s → ns_new a = None →
  ns_links a !! fd = Some l → ws !! fd = Some (x, p, ev) →
  (∀ s', reading fd x a s' → Q tt e s') → wp (poll_end fd) e s Q.
Proof.
  intros Hc Hcu Hs Hn Hl Hw HQ. destruct (sv_apart _ _ _ _ _ Hs _ _ Hl) as [HU Hne].
  eapply wp_poll_end; [exact Hc|exact Hw|apply Hs; eauto|]. intros s' Hc' [Hd _ Hcu']. apply HQ.
  exists x0, (delete fd ws). split_and!; [done|congruence| |done|done|done|by eexists].
  apply server_ok_hole. by eapply server_ok_data.
Qed.

Lemma wp_reader_sends fd x a s ns response len sent b t k e (Q : env → nspec St → Prop) :
  (∀ e Q', (∀ s', reading fd x a s' → Q' tt e s') → wp (poll_end fd) e s Q') →
  owes response len sent b t → wp (spec_send fd ns b t (a_send k)) e a (λ _ e' a', Q e' a') →
  wp (reader_sends k fd ns response len sent) e s (stops evfd x (ny_implements Q)).
Proof.
  intros Hp Ho H. pose proof Ho as (Hse & Hlen & Hb & Ht). unfold reader_sends, send_again. do 2 wp_step. apply Hp.
  intros s1 H1. wp_step. apply (wp_send_f fd x a); [done|lia|done| |].
  - intros Hn. change (-1 <=? 0) with true. cbv iota. wp_step. unfold spec_send in H.
    rewrite (proj2 (Z.ltb_lt (a_send k) 0)), Hb in H by done. destruct (Z.ltb_spec 0 sent).
    + rewrite (proj2 (Z.eqb_neq sent 0)) by lia. apply (wp_reader_sent fd x a); [done|lia|exact H].
    + rewrite (proj2 (Z.eqb_eq sent 0)) by lia. by apply (wp_reader_failed fd x a).
  - rewrite <-Ht. intros Hn s' Hr'. destruct (decide (a_send k = 0)) as [Hz|Hz].
    + rewrite (proj2 (Z.leb_le _ 0)) by lia. wp_step. unfold spec_send in H.
      rewrite (proj2 (Z.ltb_ge (a_send k) 0)), (proj2 (Z.eqb_eq (a_send k) 0)) in H by done. apply wp_bind_inv in H.
      rewrite orb_true_l in H. eapply (wp_reader_sent fd x); [exact Hr'| |exact H].
      destruct (Z.eqb_spec sent 0); lia.
    + rewrite (proj2 (Z.leb_gt (Z.min _ _) 0)) by lia. assert (Hm : 0 < a_send k) by lia.
      pose proof (wp_reader_rest fd x a s' ns response len sent b t _ e Q Hr' Ho Hm H) as Hrest.
      apply wp_bind_inv in Hrest. exact Hrest.
Qed.

Lemma wp_reader_received fd x a s ns k e (Q : env → nspec St → Prop) :
  (∀ e Q', (∀ s', reading fd x a s' → Q' tt e s') → wp (poll_end fd) e s Q') →
  ns_links a !! fd = Some (NLink ns None) → wp (spec_recv fd ns k) e a (λ _ e' a', Q e' a') →
  wp (reader_received handler k fd ns) e s (stops evfd x (ny_implements Q)).
Proof.
  intros Hp Hl H. unfold reader_received, recv_end. do 2 wp_step. apply Hp. intros s1 Hr. wp_step.
  unfold spec_recv in H. destruct (str_take _ <$> a_recv k) as [[|c d]|].
  - by apply (wp_reader_gone fd x a).
  - apply wp_bind_inv in H. apply wp_run in H as (h & e1 & a1 & Hrun & H). unfold zoom in Hrun.
    destruct (handler _ _ _ _ _) as [[[h' e'] y]| |] eqn:Hh; [|done..]. injection Hrun as -> -> <-.
    wp_step. apply wp_run. unfold zoom, ny_get_app.
    assert (Happ : ny_app (pr_world s1) = ns_app a) by (destruct Hr as (x0 & ws & _ & _ & Hs & _); apply Hs).
    rewrite Happ, Hh. eexists _, _, _. split; [reflexivity|]. cbv zeta.
    apply wp_bind_inv in H. destruct (reply_bytes (h_reply h)) as [t|] eqn:Ht; [|done].
    change (wp (spec_reply fd (match h_ns h with PStr ns' => ns' | _ => ns end) t (a_send k)) e1 (ns_set_app y a)
      (λ _ e' a', Q e' a')) in H.
    destruct (reply_bytes_ok _ _ zero_buffer Ht zero_buffer_length) as (Hlen & Hmax & Htake & Hwl).
    apply (wp_reader_reply fd x (ns_set_app y a) _ _ _ _ t); [by apply reading_app|lia|lia| |exact H].
    rewrite Hlen, Nat2Z.id. done.
  - eapply (wp_reader_idle fd x a); [done|]. unfold set_link. rewrite insert_id by done. by destruct a.
Qed.

Lemma server_ok_size x0 ws a s : server_ok (Some lfd) x0 ws a s → size ws = size (ns_links a).
Proof.
  intros Hs. rewrite <-!(size_dom (D := gset Z)). f_equal. apply set_eq. intros fd. rewrite !elem_of_dom.
  destruct (decide (fd = lfd)) as [->|Hne].
  - rewrite (sv_hole _ _ _ _ _ Hs lfd eq_refl). split; intros [? Hl]; [done|].
    by destruct (sv_apart _ _ _ _ _ Hs _ _ Hl).
  - assert (Some lfd ≠ Some fd) as Hf by congruence. pose proof (sv_slots _ _ _ _ _ Hs fd Hf) as H.
    unfold slot_ok in H. rewrite decide_False in H by done.
    destruct (ns_links a !! fd), (ws !! fd) as [[[? ?] ?]|]; try done; split; intros [? ?]; done || by eexists.
Qed.
(** The server waits for the next client. *)
Lemma wp_server_waits x0 ws rd a s e (Q : env → nspec St → Prop) :
  coros evfd ws rd (Some x0) s → curr_of s = Some x0 → server_ok (Some lfd) x0 ws a s → accepted x0 rd a s →
  Q e a → wp (accept_begin lfd) e s (λ _ e' s', stops evfd x0 (ny_implements Q) (Some (FAccept lfd)) e' s').
Proof.
  intros Hc Hcu Hs Ha HQ. unfold accept_begin.
  eapply wp_poll_begin; [exact Hc|exact Hcu|by apply Hs|by intros Heq; subst evfd|apply Hs; auto|by left|].
  intros s' p Hc' [Hd _ _]. exists ws, rd, lfd, p, IN_EVENTS. split; [done|]. intros s2 Hc2 Hd2 Hst. exists a. split; [done|].
  exists x0, (<[lfd := (x0, FAccept lfd, IN_EVENTS)]> ws), rd. split_and!; [done| |].
  - apply (server_ok_data _ _ _ _ s); [|by etrans]. destruct Hs as [H1 H2 ? ? ? ?]. split; try done.
    intros fd _. unfold slot_ok. destruct (decide (fd = lfd)) as [->|Hne]; [apply lookup_insert_eq|].
    rewrite lookup_insert_ne by done. assert (Some lfd ≠ Some fd) as Hf by congruence. specialize (H1 fd Hf).
    unfold slot_ok in H1. by rewrite decide_False in H1.
  - split; [|by right]. unfold accepted in *. destruct (ns_new a); [|done].
    assert (pr_world s2 = pr_world s) as -> by (transitivity (pr_world s'); [apply Hd2|apply Hd]). done.
Qed.
Lemma wp_server_accepted ws x0 k a s e (Q : env → nspec St → Prop) :
  coros evfd ws [] None s → curr_of s = Some x0 → server_ok None x0 ws a s → ns_new a = None →
  wp (spec_accept (a_accept k)) e a (λ _ e' a', Q e' a') →
  wp (server_accepted k lfd) e s (stops evfd x0 (ny_implements Q)).
Proof.
  intros Hc Hcu Hs Hn H.
  assert (Hw : ws !! lfd = Some (x0, FAccept lfd, IN_EVENTS)).
  { pose proof (sv_slots _ _ _ _ _ Hs lfd) as Hl. unfold slot_ok in Hl. rewrite decide_True in Hl by done. by apply Hl. }
  unfold server_accepted, accept_end. do 2 wp_step.
  eapply wp_poll_end; [exact Hc|exact Hw|apply Hs; auto|]. intros s1 Hc1 [Hd1 _ Hcu1]. rewrite Hcu in Hcu1.
  apply server_ok_hole with (fd := lfd) in Hs. eapply server_ok_data in Hs; [|exact Hd1]. cbv zeta.
  unfold spec_accept in H. destruct (a_accept k <? 0) eqn:Hneg.
  - destruct (a_accept k =? - EAGAIN); [|done]. wp_step. eapply wp_mono.
    + apply (wp_server_waits x0 (delete lfd ws) [] a); [done..| |exact H]. unfold accepted. by rewrite Hn.
    + intros ? e' s' Hst. wp_step. by wp_step.
  - apply wp_bind_inv in H. change (wp (if decide (a_accept k ∈ U ∨ a_accept k = lfd ∨ is_Some (ns_links a !! a_accept k)
        ∨ INT_MAX < Z.of_nat (size (ns_links a)) + 2) then ub
      else ok ← malloc_ok; if ok : bool then put_st (ns_set_new (Some (a_accept k)) a) else ub) e a (λ _ e' a', Q e' a')) in H.
    case_decide as Hd; [done|]. apply wp_bind_inv in H. unfold malloc_ok, wp at 1 in H.
    destruct (malloc_fails e) eqn:Hm; [done|]. set (cli := a_accept k) in *.
    assert (Hcli : (cli ∉ U) ∧ cli ≠ lfd ∧ ns_links a !! cli = None).
    { split_and!; [tauto|tauto|]. apply eq_None_not_Some. tauto. }
    unfold on_kernel. wp_step. wp_step. wp_step. unfold curr_thread. wp_step. wp_step.
    assert (Hc2 : coros evfd (delete lfd ws) [] (Some x0) (pr_set_kernel (k_opened cli (pr_kernel s1)) s1))
      by by eapply coros_ext.
    eapply wp_get_sched; [exact Hc2|]. intros sc Hsc _. assert (Hsc' : sc_curr sc = Some x0).
    { unfold curr_of in Hcu1. simpl in Hsc. by rewrite Hsc in Hcu1. }
    rewrite Hsc'. wp_step. wp_step. wp_step. wp_step.
    set (s2 := pr_set_world _ _).
    assert (Hc3 : coros evfd (delete lfd ws) [] (Some x0) s2) by by eapply coros_ext.
    assert (Hs2 : server_ok (Some lfd) x0 (delete lfd ws) (ns_set_new (Some cli) a) s2).
    { destruct Hs as [? ? Ho ? ? ?]. split; try done. intros fd. simpl. rewrite elem_of_union, elem_of_singleton, Ho, Hn.
      naive_solver. }
    eapply wp_create; [exact Hc3|done| |].
    { rewrite (server_ok_size _ _ _ _ Hs2). simpl. apply Decidable.not_or in Hd as [_ Hd]. tauto || lia. }
    intros s3 y Hc4 [Hd4 _ Hcu4]. wp_step. eapply wp_mono.
    + apply (wp_server_waits x0 (delete lfd ws) [(y, FReader)] (ns_set_new (Some cli) a)); [done| | | |exact H].
      * rewrite Hcu4. exact Hcu1.
      * by eapply server_ok_data.
      * unfold accepted. simpl. exists y. split_and!; try apply Hcli; [done|]. by rewrite (sd_world _ _ Hd4).
    + intros ? e' s' Hst. by wp_step.
Qed.

(** A new reader: the stack still has the frames of [server]. *)
Lemma wp_reader_start ws x0 x fd a s e (Q : env → nspec St → Prop) :
  coros evfd ws [] (Some x) s → curr_of s = Some x → server_ok None x0 ws a s → ns_new a = Some fd →
  ny_cli_fd (pr_world s) = Some (x0, fd) → stack_of s = Some x0 → (fd ∉ U) ∧ fd ≠ lfd ∧ ns_links a !! fd = None →
  Q e (spec_start a) → wp reader_start e s (stops evfd x (ny_implements Q)).
Proof.
  intros Hc Hcu Hs Hn Hcli Hst (HU & Hne & Hl) HQ. unfold reader_start. wp_step. wp_step. wp_step.
  eapply wp_get_sched; [exact Hc|]. intros sc Hsc _. rewrite Hcli. unfold stack_of in Hst. rewrite Hsc in Hst.
  rewrite bool_decide_true by done. apply (wp_reader_idle fd x (spec_start a)).
  - unfold spec_start. rewrite Hn. exists x0, ws. split_and!; try done.
    + destruct Hs as [Hs ? Ho ? ? ?]. split; simpl; try done.
      * intros fd' Hf. unfold slot_ok. rewrite lookup_insert_ne by congruence. by apply Hs.
      * intros ? [= <-]. pose proof (Hs fd) as H. unfold slot_ok in H. rewrite decide_False, Hl in H by done.
        destruct (ws !! fd); [by destruct H|done].
      * intros fd'. rewrite Ho, Hn. destruct (decide (fd' = fd)) as [->|].
        -- rewrite lookup_insert_eq. naive_solver.
        -- rewrite lookup_insert_ne by done. naive_solver.
      * by apply map_Forall_insert_2.
    + simpl. rewrite lookup_insert_eq. by eexists.
  - unfold spec_start in *. rewrite Hn in *. unfold set_link, ns_set_new, ns_set_links in *. simpl in *.
    by rewrite insert_insert_eq.
Qed.

(** ** Events and turns *)

(** An event changes no connection but its own. *)
Lemma spec_reply_links fd ns t n e a u e' a' fd' :
  spec_reply fd ns t n e a = Ret (u, e', a') → fd' ≠ fd → ns_links a' !! fd' = ns_links a !! fd'.
Proof.
  unfold spec_reply, spec_gone, mbind, M_bind, modify, free_block. intros H Hne.
  destruct (n <? 0); [destruct (String.eqb t "")|destruct (_ || _)]; injection H as _ _ <-; simpl;
    rewrite ?lookup_insert_ne, ?lookup_delete_ne; done.
Qed.
Lemma spec_send_links fd ns b t n e a u e' a' fd' :
  spec_send fd ns b t n e a = Ret (u, e', a') → fd' ≠ fd → ns_links a' !! fd' = ns_links a !! fd'.
Proof.
  unfold spec_send, spec_gone, mbind, M_bind, modify, free_block. intros H Hne.
  destruct (n <? 0); [destruct b|destruct (_ || _)]; injection H as _ _ <-; simpl;
    rewrite ?lookup_insert_ne, ?lookup_delete_ne; done.
Qed.
Lemma spec_event_others ev e a u e' a' fd :
  spec_event ev e a = Ret (u, e', a') → fd ≠ ev_fd ev → ns_links a' !! fd = ns_links a !! fd.
Proof.
  intros H Hne. unfold spec_event, mbind, M_bind, get_st in H. destruct (ns_new a); [done|]. case_decide.
  - unfold spec_accept, mbind, M_bind, get_st, malloc_ok, put_st in H.
    destruct (_ <? 0); [destruct (_ =? _); [by injection H as _ _ <-|done]|]. case_decide; [done|].
    destruct (negb (malloc_fails e)); [|done]. by injection H as _ _ <-.
  - destruct (ns_links a !! ev_fd ev) as [l|]; [|done]. simpl in H. destruct (nl_out l) as [[b t]|].
    + by eapply spec_send_links.
    + unfold spec_recv in H. destruct (str_take _ <$> _) as [[|c d]|].
      * injection H as _ _ <-. simpl. by rewrite lookup_delete_ne.
      * unfold mbind, M_bind, zoom in H. destruct (handler _ _ _ _ _) as [[[h e1] y]| |]; [|done..].
        destruct (reply_bytes (h_reply h)) as [t|]; [|done]. simpl in H. eapply spec_reply_links in H; done.
      * by injection H as _ _ <-.
Qed.

Lemma wp_ny_body ws x0 fd x p ev a s k e (Q : env → nspec St → Prop) :
  coros evfd ws [] None s → curr_of s = Some x → server_ok None x0 ws a s → ws !! fd = Some (x, p, ev) →
  ns_new a = None → ∀ bits, wp (spec_event (Event fd bits k)) e a (λ _ e' a', Q e' a') →
  wp (ny_body handler p k) e s (stops evfd x (ny_implements Q)).
Proof.
  intros Hc Hcu Hs Hw Hn bits H. assert (Hsl : slot_ok x0 fd (ns_links a !! fd) (ws !! fd)) by (by apply Hs).
  unfold slot_ok in Hsl. unfold spec_event in H. simpl ev_fd in H. simpl ev_answers in H.
  apply wp_bind_inv in H. change (wp match ns_new a with Some _ => ub | None =>
      if decide (fd = lfd) then spec_accept (a_accept k) else
      l ← some_or_ub (ns_links a !! fd);
      match nl_out l with
      | None => spec_recv fd (nl_ns l) k | Some (b, t) => spec_send fd (nl_ns l) b t (a_send k)
      end end e a (λ _ e' a', Q e' a')) in H. rewrite Hn in H. case_decide as Hd.
  - subst fd. rewrite Hw in Hsl. injection Hsl as -> -> ->. by eapply wp_server_accepted.
  - rewrite Hw in Hsl. destruct (ns_links a !! fd) as [[ns out]|] eqn:Hl; [|done]. destruct Hsl as [Hp _].
    apply wp_bind_inv in H. unfold frame_of in Hp. simpl in Hp.
    assert (Hwake : ∀ e Q', (∀ s', reading fd x a s' → Q' tt e s') → wp (poll_end fd) e s Q')
      by (intros; by eapply wp_reader_wakes).
    destruct out as [[b t]|].
    + destruct Hp as (response & len & sent & -> & Ho). by eapply wp_reader_sends.
    + subst p. by eapply wp_reader_received.
Qed.

Lemma waited_slot ws x0 a s fd :
  server_ok None x0 ws a s → waited a fd → ∃ x p ev, ws !! fd = Some (x, p, ev).
Proof.
  intros Hs Hw. assert (Hsl : slot_ok x0 fd (ns_links a !! fd) (ws !! fd)) by (by apply Hs).
  unfold slot_ok in Hsl. case_decide as Hd; [eauto|]. destruct Hw as [?|[l Hl]]; [done|]. rewrite Hl in Hsl.
  destruct (ws !! fd) as [[[x p] ev]|]; [eauto|done].
Qed.
Lemma wp_ny_events evs a s e (Q : env → nspec St → Prop) :
  ny_serves a s → reportable a evs → wp (spec_events evs) e a (λ _ e' a', Q e' a') →
  wp (run_events (ny_body handler) evs) e s (λ _ e' s', ny_implements Q e' s').
Proof.
  revert a s e. induction evs as [|ev evs IH]; intros a s e Hs [Hnd Hrep] H; cbn [run_events spec_events] in *.
  { wp_step. by exists a. }
  apply NoDup_cons in Hnd as [Hni Hnd]. apply Forall_cons in Hrep as [Hev Hrep].
  destruct Hs as (x0 & ws & rd & Hc & Hs & [Hacc _]). apply wp_bind_inv in H.
  destruct (ns_new a) eqn:Hn.
  { apply wp_run in H as (? & ? & ? & H & _). unfold spec_event, mbind, M_bind, get_st in H. by rewrite Hn in H. }
  unfold accepted in Hacc. rewrite Hn in Hacc. subst rd. destruct (waited_slot _ _ _ _ _ Hs Hev) as (x & p & bits & Hw).
  wp_step. eapply wp_search_wait; [exact Hc|exact Hw|]. intros s1 Hc1 [Hd1 _ _]. wp_step.
  assert (Hb : ∀ R : unit → env → nserver → Prop, (∀ s', coros evfd ws [] None s' → same_data s1 s' → R tt e s') →
    wp (if has_event EPOLLHUP ev then on_co x (co_or (BIT NTY_COROUTINE_STATUS_FDEOF)) else mret tt) e s1 R).
  { intros R HR. destruct (has_event EPOLLHUP ev); [|by wp_step; apply HR].
    eapply wp_on_waiting_keep; [exact Hc1|exact Hw|done|intros; by apply calm_or|]. intros s' H1 [H2 _ _]. by apply HR. }
  apply Hb. intros s2 Hc2 Hd2. wp_step. eapply (wp_resume_waiting evfd _ ws [] (ev_fd ev)); [exact Hc2|exact Hw|].
  intros s3 Hc3 Hd3 Hcu3. destruct ev as [fd flags k]. simpl in *.
  assert (Hf : wp (spec_event (Event fd flags k)) e a (λ _ e' a', wp (spec_events evs) e' a' (λ _ e' a', Q e' a') ∧ reportable a' evs)).
  { apply wp_run in H as (u & e1 & a1 & Hrun & H). apply wp_run. eexists _, _, _. split; [exact Hrun|].
    split; [exact H|]. split; [done|]. rewrite Forall_forall in *. intros ev' Hin. specialize (Hrep _ Hin).
    destruct Hrep as [?|Hl]; [by left|right]. rewrite (spec_event_others _ _ _ _ _ _ _ Hrun); [done|].
    simpl. intros Heq. apply Hni. rewrite <-Heq. by apply list_elem_of_fmap_2. }
  eapply wp_mono; [eapply (wp_ny_body ws x0 fd x p bits a s3 k e
    (λ e' a', wp (spec_events evs) e' a' (λ _ e' a', Q e' a') ∧ reportable a' evs)); [done..| |done| |exact Hf]|].
  - eapply server_ok_data; [exact Hs|]. do 2 (etrans; [done|]). done.
  - done.
  - intros r e' s' Hr. eapply stops_mono; [exact Hr|]. intros e4 s4 (a4 & [HQ4 Hrep4] & Hs4). by eapply IH.
Qed.

Lemma reportable_rev a evs : reportable a evs → reportable a (rev evs).
Proof.
  intros [Hnd Hr]. split; [|by apply Forall_rev]. unfold fmap. change (@list_fmap) with (@map) in *.
  rewrite map_rev, rev_alt, rev_append_rev, app_nil_r. rewrite <-Permutation_rev. exact Hnd.
Qed.
Lemma wp_ny_turn t a s e (Q : env → nspec St → Prop) :
  ny_serves a s → reportable (spec_start a) (tn_events t) →
  wp (spec_events (rev (tn_events t))) e (spec_start a) (λ _ e' a', Q e' a') →
  wp (run_turn (ny_body handler) t) e s (λ _ e' s', ny_implements Q e' s').
Proof.
  intros (x0 & ws & rd & Hc & Hs & [Hacc Hst]) Hrep%reportable_rev H. unfold accepted in Hacc.
  destruct (ns_new a) as [fd|] eqn:Hn.
  - destruct Hacc as (x & -> & Hcli & Hfd). destruct Hst as [|Hst]; [done|].
    eapply wp_run_turn_new; [exact Hc|]. intros s1 Hc1 Hd1 Hst1 Hcu1.
    eapply wp_mono; [eapply (wp_reader_start ws x0 x fd a s1 e (λ e' a', e' = e ∧ a' = spec_start a)); try done|].
    + by eapply server_ok_data.
    + by rewrite (sd_world _ _ Hd1).
    + by rewrite Hst1.
    + intros r e' s' Hr. eapply stops_mono; [exact Hr|]. intros e2 s2 (a2 & [-> ->] & Hs2).
      pose proof Hs2 as (x2 & ws2 & rd2 & Hc2 & _ & [Hacc2 _]).
      assert (Hn2 : ns_new (spec_start a) = None) by (unfold spec_start; by rewrite Hn).
      unfold accepted in Hacc2. rewrite Hn2 in Hacc2. subst rd2. exists ws2. split; [done|].
      by eapply wp_ny_events.
  - subst rd. eapply wp_run_turn_idle; [exact Hc|]. intros s1 Hc1 [Hd1 _ _].
    assert (Ha : spec_start a = a) by (unfold spec_start; by rewrite Hn). rewrite Ha in *.
    eapply (wp_ny_events _ a); [|exact Hrep|exact H]. exists x0, ws, []. split_and!; [done|by eapply server_ok_data|].
    split; [|by left]. unfold accepted. by rewrite Hn.
Qed.
Lemma serves_waits a s : ny_serves a s → ∃ ws rd, coros evfd ws rd None s ∧ ws ≠ ∅.
Proof.
  intros (x0 & ws & rd & Hc & Hs & _). destruct (waited_slot ws x0 a s lfd) as (x & p & ev & Hw); [done|by left|].
  exists ws, rd. split; [done|]. intros ->. by rewrite lookup_empty in Hw.
Qed.
Lemma wp_ny_turns ts a s e (Q : env → nspec St → Prop) :
  ny_serves a s → spec_turns ts e a Q →
  wp (run_turns (ny_body handler) ts) e s (λ _ e' s', ny_implements Q e' s').
Proof.
  revert a s e. induction ts as [|t ts IH]; intros a s e Hs H; destruct (serves_waits a s Hs) as (ws & rd & Hc & Hw).
  { eapply wp_run_turns_nil; [exact Hc|by left|]. by exists a. }
  destruct H as [Hrep H]. eapply wp_run_turns; [exact Hc|by left|].
  eapply wp_mono; [by eapply (wp_ny_turn t a s e (λ e' a', spec_turns ts e' a' Q))|].
  intros ? e' s' (a' & H' & Hs'). by eapply IH.
Qed.
End spec.

(** * The start *)

(** The turn in which [server] starts: its socket is [lfd]. *)
Definition first_turn (lfd : Z) (t : turn) : turn :=
  Turn (tn_now t) (Answers lfd None 0 0 :: tn_answers t) (tn_events t).
Definition ny_used (poller evfd : Z) (U : gset Z) : gset Z := {[ evfd ]} ∪ ({[ poller ]} ∪ U).
Definition ny_empty {St} (app : St) : nspec St := NSpec app ∅ None [].

Lemma wp_ntyco_start {St} (handler : msg_handler St) U poller evfd lfd now app t ts e Q :
  poller ≠ -1 → evfd ≠ -1 → malloc_fails e = false → malloc_fails (after_malloc e) = false →
  0 ≤ lfd → lfd ∉ ny_used poller evfd U →
  spec_turns handler lfd (ny_used poller evfd U) (t :: ts) (after_malloc (after_malloc e)) (ny_empty app) Q →
  wp (ntyco_start handler poller evfd (first_turn lfd t :: ts)) e (boot_nserver app U now)
    (λ _ e' s', ny_implements lfd (ny_used poller evfd U) evfd Q e' s').
Proof.
  intros Hp Hev Hm1 Hm2 Hl0 Hl [Hrep H]. unfold ntyco_start. wp_step. apply wp_create_first; [done..|].
  assert (HevU : evfd ∈ ny_used poller evfd U) by (unfold ny_used; set_solver).
  intros x s Hc Hw Ho Hse. unfold nty_schedule_run. wp_step. wp_step. destruct (cs_sched _ _ _ _ _ Hc) as (sc & -> & _).
  eapply wp_run_turns; [exact Hc|by right|]. eapply wp_run_turn_new; [exact Hc|]. intros s1 Hc1 Hd1 _ Hcu1.
  unfold ny_body, server_start, hook_socket, on_kernel. simpl tn_answers. change (next_answers (?k :: _)) with k. simpl a_accept.
  rewrite (proj2 (Z.ltb_ge lfd 0)) by done. wp_step. wp_step. wp_step. wp_step.
  rewrite (proj2 (Z.ltb_ge lfd 0)) by done. wp_step.
  set (s2 := pr_set_kernel _ s1).
  assert (Hc2 : coros evfd ∅ [] (Some x) s2) by by eapply coros_ext.
  eapply wp_mono; [eapply (wp_server_waits lfd (ny_used poller evfd U) evfd HevU Hl x ∅ [] (ny_empty app) s2 _
    (λ e' a', e' = after_malloc (after_malloc e) ∧ a' = ny_empty app)); [done|done| |done|done]|].
  - split; simpl; try done.
    + intros fd Hne. unfold slot_ok. rewrite decide_False by congruence. by rewrite !lookup_empty.
    + intros fd. rewrite elem_of_union, elem_of_singleton, (sd_open _ _ Hd1), Ho. unfold ny_used. rewrite lookup_empty.
      split; [tauto|]. intros [?|[?|[[? ?]|?]]]; [by right|by left|done|done].
    + by rewrite (sd_world _ _ Hd1), Hw.
    + by rewrite (sd_sent _ _ Hd1), Hse.
  - intros ? e' s' Hst. wp_step. eapply stops_mono; [exact Hst|]. intros e3 s3 (a3 & [-> ->] & Hs3).
    pose proof Hs3 as (x3 & ws3 & rd3 & Hc3 & _ & [Hacc3 _]). unfold accepted in Hacc3. simpl in Hacc3. subst rd3.
    exists ws3. split; [done|].
    eapply wp_mono; [eapply (wp_ny_events handler lfd (ny_used poller evfd U) evfd HevU Hl _ _ s3 _
      (λ e' a', spec_turns handler lfd (ny_used poller evfd U) ts e' a' Q)); [exact Hs3|by apply reportable_rev|exact H]|].
    intros ? e4 s4 (a4 & H4 & Hs4). by eapply wp_ny_turns.
Qed.

(** C22: the coroutine server under its scheduler implements the abstract server: as
    long as a client is accepted by the event handled last in its batch, and
    [accept] fails with EAGAIN only, whatever [epoll_wait] reports and however
    much [recv] and [send] take, every event resumes the one coroutine that waits
    for its descriptor, no assertion of the scheduler fails, no freed coroutine is
    touched, every new reader finds its own descriptor, and the handler's state,
    the namespaces, the bytes sent and the bytes still owed of a [send] that waits
    are those of the abstract server. *)
Theorem ntyco_refines {St} (handler : msg_handler St) U poller evfd lfd now app t ts e Q :
  poller ≠ -1 → evfd ≠ -1 → malloc_fails e = false → malloc_fails (after_malloc e) = false →
  0 ≤ lfd → lfd ∉ ny_used poller evfd U →
  spec_turns handler lfd (ny_used poller evfd U) (t :: ts) (after_malloc (after_malloc e)) (ny_empty app) Q →
  wp (ntyco_start handler poller evfd (first_turn lfd t :: ts)) e (boot_nserver app U now)
    (λ _ e' s', ny_implements lfd (ny_used poller evfd U) evfd Q e' s').
Proof. apply wp_ntyco_start. Qed.

(** Two clients; the reply of the first goes out in two parts, with a request of
    the second in between. *)
Definition ping_handler : msg_handler nat := λ msg _ ns,
  modify S;; n ← gets (λ n, n); mret (Handled msg (if (n =? 1)%nat then Reply "first reply" 11 else Reply "second" 6) ns).
Definition sample_turns : list turn :=
  [Turn 2 [] [Event 6 POLLIN (Answers 11 None 0 0)];
   Turn 3 [] [Event 11 POLLIN (Answers (-1) (Some "PING") 5 0)];
   Turn 4 [] [Event 12 POLLIN (Answers (-1) (Some "PING") 1024 0); Event 11 POLLOUT (Answers (-1) None 1024 0)];
   Turn 5 [] [Event 11 POLLHUP (Answers (-1) (Some "") 0 0)]].
Definition sample_first : turn := Turn 1 [] [Event 6 POLLIN (Answers 12 None 0 0)].
Definition sample_boot_env : env := Env [] [] [] [] 0.
Definition sample_ny_used : gset Z := {[ 0; 1; 2; 3 ]}.
Lemma spec_turns_step {St} (handler : msg_handler St) lfd U t ts e a e' a' Q :
  reportable lfd (spec_start a) (tn_events t) →
  spec_events handler lfd U (rev (tn_events t)) e (spec_start a) = Ret (tt, e', a') →
  spec_turns handler lfd U ts e' a' Q → spec_turns handler lfd U (t :: ts) e a Q.
Proof. intros Hl Hev H. split; [done|]. unfold wp. by rewrite Hev. Qed.
Ltac reportable_solve :=
  split; [repeat constructor; set_solver|];
  repeat (apply Forall_cons; split; [first [left; reflexivity|right; eexists; vm_compute; reflexivity]|]);
  apply Forall_nil_2.
Definition sample_served (a : nspec nat) : Prop :=
  ns_app a = 2%nat ∧ ns_sent a = [(11, "first"); (11, " reply"); (12, "second")] ∧ ns_links a !! 11 = None.
Lemma ntyco_refines_witness :
  wp (ntyco_start ping_handler 4 5 (first_turn 6 sample_first :: sample_turns)) sample_boot_env
    (boot_nserver 0%nat sample_ny_used 0)
    (λ _ e' s', ny_implements 6 (ny_used 4 5 sample_ny_used) 5 (λ _ a', sample_served a') e' s').
Proof.
  apply (ntyco_refines ping_handler sample_ny_used 4 5 6 0 0%nat sample_first sample_turns sample_boot_env
    (λ _ a', sample_served a')).
  - lia.
  - lia.
  - reflexivity.
  - reflexivity.
  - lia.
  - apply (bool_decide_unpack (_ ∉ _)). vm_compute. exact I.
  - unfold sample_turns. do 5 (eapply spec_turns_step; [reportable_solve|vm_compute; reflexivity|]).
    split_and!; reflexivity.
Defined.
