(* ===== verification/NtyClients.v ===== *)
(** The build with coroutines, from [main] to the engines: any number of clients,
    in any order, with replies that leave in any number of pieces; and what breaks
    the coroutine server. *)
From S2P Require Import Prelude CText KvsSpec KvsArray KvsHash RbTree RbEngine SkipList SkipProof CacheModel CacheSpec CacheLru CacheLfu Vector Rdb RdbProof Protocol Requests Dispatch Engines Session Netio Reactor ReactorProof Clients NtySched NtyRules Ntyco NtycoProof.

Local Open Scope Z_scope.

(** * The clients *)

(** The kernel takes [n] bytes of the reply at once, when a request is answered
    ([NAsk]) or later ([NTake]). *)
Inductive client_step : Type :=
  | NArrive (fd : Z)
  | NAsk (fd : Z) (r : request) (n : Z)
  | NTake (fd n : Z)
  | NLeave (fd : Z).

(** What they should see: one map, a namespace per connection, the bytes that are
    on their way. *)
Record nmodel := NModel {
  nm_map : tagged;
  nm_links : gmap Z nlink;
  nm_new : option Z;
  nm_sent : list (Z * string)
}.
Definition nm_empty : nmodel := NModel ∅ ∅ None [].

Section clients.
Context (lfd : Z) (U : gset Z).

Definition step_event (c : client_step) : event :=
  match c with
  | NArrive fd => Event lfd POLLIN (Answers fd None 0 0)
  | NAsk fd r n => Event fd POLLIN (Answers (-1) (Some (request_line r)) n 0)
  | NTake fd n => Event fd POLLOUT (Answers (-1) None n 0)
  | NLeave fd => Event fd POLLIN (Answers (-1) (Some "") 0 0)
  end.
Definition batch_turn (cs : list client_step) : turn := Turn 0 [] (step_event <$> cs).

(** [n] bytes of [t] go out. *)
Definition nm_take (fd : Z) (ns t : string) (n : Z) (m : tagged) (s : nmodel) : nmodel :=
  NModel m
    (<[fd := NLink ns (if Z.of_nat (String.length t) <=? n then None else Some (true, str_drop (Z.to_nat n) t))]> (nm_links s))
    (nm_new s) (nm_sent s ++ [(fd, str_take (Z.to_nat n) t)]).
Definition nm_step (c : client_step) (s : nmodel) : option nmodel :=
  match nm_new s, c with
  | Some _, _ => None
  | None, NArrive fd =>
      if bool_decide (fd ∉ U) && negb (fd =? lfd) && bool_decide (nm_links s !! fd = None) && (0 <=? fd)
         && (Z.of_nat (size (nm_links s)) + 2 <=? INT_MAX)
      then Some (NModel (nm_map s) (nm_links s) (Some fd) (nm_sent s)) else None
  | None, NAsk fd r n =>
      match nm_links s !! fd with
      | Some (NLink ns None) =>
          let '(t, m, ns') := answer_of ns r (nm_map s) in
          if goes ns r (nm_map s) && (0 <? n) then Some (nm_take fd ns' t n m s) else None
      | _ => None
      end
  | None, NTake fd n =>
      match nm_links s !! fd with
      | Some (NLink ns (Some (_, t))) => if 0 <? n then Some (nm_take fd ns t n (nm_map s) s) else None
      | _ => None
      end
  | None, NLeave fd =>
      match nm_links s !! fd with
      | Some (NLink _ None) => Some (NModel (nm_map s) (delete fd (nm_links s)) None (nm_sent s))
      | _ => None
      end
  end.
Fixpoint nm_steps (cs : list client_step) (s : nmodel) : option nmodel :=
  match cs with
  | [] => Some s
  | c :: cs' => match nm_step c s with Some s' => nm_steps cs' s' | None => None end
  end.
Definition nm_start (s : nmodel) : nmodel :=
  match nm_new s with
  | Some fd => NModel (nm_map s) (<[fd := NLink "default" None]> (nm_links s)) None (nm_sent s)
  | None => s
  end.
(** In a batch every descriptor is reported once; the last event is handled first. *)
Fixpoint nm_batches (bs : list (list client_step)) (s : nmodel) : option nmodel :=
  match bs with
  | [] => Some s
  | cs :: bs' =>
      let s := nm_start s in
      if bool_decide (NoDup (ev_fd ∘ step_event <$> cs))
         && forallb (λ c, (ev_fd (step_event c) =? lfd) || bool_decide (is_Some (nm_links s !! ev_fd (step_event c)))) cs
      then match nm_steps (rev cs) s with Some s' => nm_batches bs' s' | None => None end
      else None
  end.

Definition step_ok (c : client_step) : Prop := match c with NAsk _ r _ => request_ok r | _ => True end.

(** * The abstract server does what they should see *)

Context (fs : gmap string string).

Record nhosts (s : nmodel) (e : env) (a : nspec store) : Prop := {
  nh_links : ns_links a = nm_links s;
  nh_new : ns_new a = nm_new s;
  nh_sent : ns_sent a = nm_sent s;
  nh_store : ∃ ns, serving fs ns (nm_map s) (ns_app a);
  nh_env : no_oom e;
  nh_values : line_values (values (nm_map s));
  nh_ascii : map_Forall (λ fd l, fd ≠ lfd ∧ ascii_text (nl_ns l) = true) (nm_links s);
  nh_newcomer : nm_new s ≠ Some lfd
}.
Lemma wp_step_arrive s s' e a fd :
  nhosts s e a → nm_step (NArrive fd) s = Some s' →
  wp (spec_event kvs_handler lfd U (step_event (NArrive fd))) e a (λ _ e' a', nhosts s' e' a').
Proof.
  intros [Hl Hn Hs Hst He Hv Ha Hnl] H. unfold nm_step in H. destruct (nm_new s) eqn:Hns; [done|].
  case_match eqn:Hg; [|done]. injection H as <-.
  rewrite !andb_true_iff, !bool_decide_eq_true, negb_true_iff, Z.eqb_neq, !Z.leb_le in Hg.
  destruct Hg as [[[[HU Hne] Hnone] H0] Hsz]. unfold spec_event. wp_step. wp_step. rewrite Hn. simpl ev_fd.
  rewrite decide_True by done. unfold spec_accept. simpl a_accept. rewrite (proj2 (Z.ltb_ge _ _)) by done.
  wp_step. wp_step. rewrite decide_False.
  2:{ rewrite Hl, Hnone. intros [?|[?|[[? ?]|?]]]; [done|done|done|lia]. }
  wp_step. wp_step. rewrite (no_oom_fails _ He). simpl negb. cbv iota. wp_step. split; simpl; try done.
  - by apply no_oom_after.
  - congruence.
Qed.

(** A reply, or what is left of it, goes out in part. *)
Lemma take_hosts m s e (a : nspec store) fd ns t k app :
  nhosts (NModel m (nm_links s) None (nm_sent s)) e (NSpec app (ns_links a) (ns_new a) (ns_sent a)) →
  fd ≠ lfd → ascii_text ns = true → nm_new s = None → 0 < k →
  ∀ b, wp (spec_send fd ns b t k) e (NSpec app (ns_links a) (ns_new a) (ns_sent a))
    (λ _ e' a', nhosts (nm_take fd ns t k m s) e' a').
Proof.
  intros [Hl Hn Hs Hst He Hv Ha Hnl] Hne Hasc Hns Hk b. simpl in *. unfold spec_send, nm_take.
  rewrite (proj2 (Z.ltb_ge k 0)), (proj2 (Z.eqb_neq k 0)) by lia. wp_step. wp_step. rewrite orb_false_l.
  destruct (Z.of_nat (String.length t) <=? k); wp_step; (split; simpl; rewrite ?Hl, ?Hs, ?Hns; try done;
    by apply map_Forall_insert_2).
Qed.
Lemma spec_reply_send fd ns t k b : 0 < k → spec_reply (St := store) fd ns t k = spec_send fd ns b t k.
Proof. intros Hk. unfold spec_reply, spec_send. by rewrite (proj2 (Z.ltb_ge k 0)) by lia. Qed.

Lemma wp_step_ask s s' e a fd r k :
  nhosts s e a → request_ok r → nm_step (NAsk fd r k) s = Some s' →
  wp (spec_event kvs_handler lfd U (step_event (NAsk fd r k))) e a (λ _ e' a', nhosts s' e' a').
Proof.
  intros [Hl Hn Hs [ns0 Hst] He Hv Ha Hnl] Hreq H. unfold nm_step in H. destruct (nm_new s) eqn:Hns; [done|].
  destruct (nm_links s !! fd) as [[ns [?|]]|] eqn:Hfd; try done. destruct (Ha _ _ Hfd) as [Hne Hasc]. simpl in Hasc.
  unfold spec_event. wp_step. wp_step. rewrite Hn. simpl ev_fd. rewrite decide_False by done. rewrite Hl, Hfd.
  wp_step. wp_step. simpl nl_out. cbv iota. unfold spec_recv. simpl a_recv.
  change (str_take ?k <$> Some ?d) with (Some (str_take k d)).
  assert (Hlen : Z.of_nat (String.length (request_line r)) < BUFFER_LENGTH) by apply Hreq.
  pose proof (request_line_pos r) as Hpos. rewrite str_take_ge by lia.
  destruct (received_line _ Hlen) as [tail Hover].
  pose proof (wp_request fs ns0 ns r (nm_map s) tail e (ns_app a) Hst He Hv Hreq Hasc) as Hw. rewrite <-Hover in Hw.
  destruct (goes ns r (nm_map s)) eqn:Hgo; [|by destruct (answer_of ns r (nm_map s)) as [[? ?] ?]].
  destruct (request_line r) as [|ch line]; [simpl in Hpos; lia|].
  wp_step. apply wp_zoom. eapply wp_mono; [by apply Hw|].
  intros h e' x Hh. destruct (answer_of ns r (nm_map s)) as [[t m'] ns']. rewrite andb_true_l in H. destruct (0 <? k) eqn:Hk; [|done].
  injection H as <-. apply Z.ltb_lt in Hk. destruct Hh as (Hrb & _ & -> & Hasc' & Hv' & He' & Hst' & _). rewrite Hrb.
  wp_step. wp_step. change (a_send (ev_answers (step_event (NAsk fd r k)))) with k. rewrite (spec_reply_send fd ns' t k true Hk).
  apply (take_hosts m' s e' a fd ns' t k x); [|done..]. split; simpl; try done. by exists ns'.
Qed.
Lemma wp_step_take s s' e a fd k :
  nhosts s e a → nm_step (NTake fd k) s = Some s' →
  wp (spec_event kvs_handler lfd U (step_event (NTake fd k))) e a (λ _ e' a', nhosts s' e' a').
Proof.
  intros Hh H. pose proof Hh as [Hl Hn Hs Hst He Hv Ha Hnl]. unfold nm_step in H. destruct (nm_new s) eqn:Hns; [done|].
  destruct (nm_links s !! fd) as [[ns [[b t]|]]|] eqn:Hfd; try done. destruct (Ha _ _ Hfd) as [Hne Hasc].
  destruct (0 <? k) eqn:Hk; [|done]. injection H as <-. apply Z.ltb_lt in Hk.
  unfold spec_event. wp_step. wp_step. rewrite Hn. simpl ev_fd. rewrite decide_False by done. rewrite Hl, Hfd.
  wp_step. wp_step. simpl nl_out. cbv iota. destruct a as [app l nw st].
  apply (take_hosts (nm_map s) s e (NSpec app l nw st) fd ns t k app); done.
Qed.
Lemma wp_step_leave s s' e a fd :
  nhosts s e a → nm_step (NLeave fd) s = Some s' →
  wp (spec_event kvs_handler lfd U (step_event (NLeave fd))) e a (λ _ e' a', nhosts s' e' a').
Proof.
  intros [Hl Hn Hs Hst He Hv Ha Hnl] H. unfold nm_step in H. destruct (nm_new s) eqn:Hns; [done|].
  destruct (nm_links s !! fd) as [[ns [?|]]|] eqn:Hfd; try done. destruct (Ha _ _ Hfd) as [Hne Hasc]. injection H as <-.
  unfold spec_event. wp_step. wp_step. rewrite Hn. simpl ev_fd. rewrite decide_False by done. rewrite Hl, Hfd.
  wp_step. wp_step. simpl nl_out. cbv iota. unfold spec_recv, spec_gone. simpl a_recv.
  change (str_take ?k <$> Some "") with (Some ""). cbv iota. wp_step. wp_step. wp_step.
  split; simpl; rewrite ?Hl; try done. by apply map_Forall_delete.
Qed.
Lemma wp_client_step s s' e a c :
  nhosts s e a → step_ok c → nm_step c s = Some s' →
  wp (spec_event kvs_handler lfd U (step_event c)) e a (λ _ e' a', nhosts s' e' a').
Proof.
  destruct c; intros Hh Hc H;
    eauto using wp_step_arrive, wp_step_ask, wp_step_take, wp_step_leave.
Qed.
Lemma wp_client_steps s s' e a cs :
  nhosts s e a → Forall step_ok cs → nm_steps cs s = Some s' →
  wp (spec_events kvs_handler lfd U (step_event <$> cs)) e a (λ _ e' a', nhosts s' e' a').
Proof.
  revert s e a. induction cs as [|c cs IH]; intros s e a Hh Hok H; [by injection H as <-|].
  apply Forall_cons in Hok as [Hc Hcs]. cbn [nm_steps] in H. destruct (nm_step c s) as [s1|] eqn:H1; [|done].
  rewrite fmap_cons. cbn [spec_events]. wp_step. eapply wp_mono; [by eapply wp_client_step|].
  intros ? e' a' Hh'. exact (IH s1 e' a' Hh' Hcs H).
Qed.
Lemma start_hosts s e a : nhosts s e a → nhosts (nm_start s) e (spec_start a).
Proof.
  intros Hh. pose proof Hh as [Hl Hn Hs Hst He Hv Ha Hnl]. unfold nm_start, spec_start. rewrite Hn.
  destruct (nm_new s) as [fd|]; [|done]. split; simpl; try done; [by rewrite Hl|].
  apply map_Forall_insert_2; [|done]. split; [congruence|done].
Qed.
Lemma batches_hosts bs s s' e a :
  nhosts s e a → Forall step_ok (concat bs) → nm_batches bs s = Some s' →
  spec_turns kvs_handler lfd U (batch_turn <$> bs) e a (λ e' a', nhosts s' e' a').
Proof.
  revert s e a. induction bs as [|cs bs IH]; intros s e a Hh Hok H; [by injection H as <-|].
  cbn [nm_batches] in H. cbv zeta in H. destruct (bool_decide _ && _) eqn:Hb; [|done].
  apply andb_true_iff in Hb as [Hnd%bool_decide_eq_true Hw]. apply start_hosts in Hh.
  destruct (nm_steps (rev cs) (nm_start s)) as [s1|] eqn:H1; [|done]. cbn [concat] in Hh, Hok.
  apply Forall_app in Hok as [Hok Hoks]. rewrite fmap_cons. cbn [spec_turns tn_events batch_turn]. split.
  - split; [by rewrite <-list_fmap_compose|]. rewrite Forall_fmap, Forall_forall. intros c Hin.
    rewrite forallb_forall in Hw. specialize (Hw c (proj1 (list_elem_of_In _ _) Hin)).
    apply orb_true_iff in Hw as [Hw%Z.eqb_eq|Hw%bool_decide_eq_true]; [by left|right].
    simpl. by rewrite (nh_links _ _ _ Hh).
  - unfold fmap at 1. change (@list_fmap) with (@map). rewrite <-map_rev. change (@map) with (@list_fmap).
    eapply wp_mono; [eapply wp_client_steps; [exact Hh|by apply Forall_rev|exact H1]|]. intros ? e' a' Hh'. exact (IH s1 e' a' Hh' Hoks H).
Qed.
End clients.

(** C21: the whole coroutine server: from [main] on a disk without a dump, whatever
    the interleaving of clients that arrive, choose namespaces, send requests (of
    at most 1023 ASCII bytes) to the four engines, a key being with one engine at a
    time, and leave, however [epoll_wait] groups these events (an arrival being
    handled last in its batch) and in however many pieces the kernel takes the
    replies, the bytes sent to every client are those of one finite map with a
    namespace per connection. *)
Theorem ntyco_clients_served fs U poller evfd lfd now b bs e s' :
  no_oom e → fs !! RDB_FILENAME = None → poller ≠ -1 → evfd ≠ -1 → 0 ≤ lfd → lfd ∉ ny_used poller evfd U →
  Forall step_ok (concat (b :: bs)) →
  nm_batches lfd (ny_used poller evfd U) (b :: bs) nm_empty = Some s' →
  wp (ntyco_main poller evfd (first_turn lfd (batch_turn lfd b) :: (batch_turn lfd <$> bs))) e
    (boot_nserver (boot_store fs) U now) (λ _ _ s, k_sent (pr_kernel s) = nm_sent s').
Proof.
  intros He Hfs Hp Hev H0 Hl Hok Hb. unfold ntyco_main. wp_step. apply wp_zoom. apply wp_init_fresh; [done..|].
  intros e1 s1 He1 Hs1. apply started_new, started_serving in Hs1.
  eapply wp_mono; [eapply (wp_ntyco_start kvs_handler U poller evfd lfd now s1 (batch_turn lfd b)
    (batch_turn lfd <$> bs) e1 (λ e' a', nhosts lfd fs s' e' a')); [done|done|..|done|done|]|].
  - by apply no_oom_fails.
  - by apply no_oom_fails, no_oom_after.
  - rewrite <-fmap_cons. apply (batches_hosts lfd _ fs (b :: bs) nm_empty); [|done|done].
    split; simpl; try done; [by exists "default"|by do 2 apply no_oom_after].
  - intros ? e2 s2 (a2 & Hh & x0 & ws & rd & _ & Hs & _). by rewrite (sv_history _ _ _ _ _ _ _ Hs), (nh_sent _ _ _ _ _ Hh).
Qed.

(** A client takes its reply in two pieces, with another's request in between. *)
Definition slow_clients : list (list client_step) :=
  [[NArrive 11]; [NArrive 12; NAsk 11 (RNs "users") 1024]; [NAsk 12 (ROp ERbtree (OpSet "key" "long value")) 1];
   [NAsk 11 (ROp EArray (OpGet "key")) 1024]; [NTake 12 100; NLeave 11]; [NAsk 12 (ROp ERbtree (OpGet "key")) 5]; [NTake 12 100]].
Lemma ntyco_clients_served_witness :
  wp (ntyco_main 4 5 (first_turn 6 (batch_turn 6 []) :: (batch_turn 6 <$> slow_clients)))
    (Env [] [] [] [] 0) (boot_nserver (boot_store ∅) sample_ny_used 0)
    (λ _ _ s, k_sent (pr_kernel s) =
      [(11, "Namespace set to: users" +:+ crlf); (12, "O"); (11, NO_EXIST_MSG); (12, str_drop 1 OK_MSG);
       (12, "long "); (12, "value" +:+ crlf)]).
Proof.
  eapply (ntyco_clients_served ∅ sample_ny_used 4 5 6 0 [] slow_clients (Env [] [] [] [] 0) (NModel _ _ _
    [(11, "Namespace set to: users" +:+ crlf); (12, "O"); (11, NO_EXIST_MSG); (12, str_drop 1 OK_MSG);
       (12, "long "); (12, "value" +:+ crlf)])).
  - constructor.
  - reflexivity.
  - lia.
  - lia.
  - lia.
  - apply (bool_decide_unpack (_ ∉ _)). vm_compute. exact I.
  - simpl. requests_solve.
  - vm_compute. reflexivity.
Defined.

(** * What breaks it *)

(** A client leaves in the batch in which another is accepted. *)
Definition leaves_with_arrival : list turn :=
  [first_turn 6 (Turn 1 [] [Event 6 POLLIN (Answers 11 None 0 0)]);
   Turn 2 [] [Event 11 POLLIN (Answers (-1) (Some "") 0 0); Event 6 POLLIN (Answers 12 None 0 0)];
   Turn 3 [] []].
(** [accept] runs out of descriptors, twice. *)
Definition accept_fails_twice : list turn :=
  [first_turn 6 (Turn 1 [] [Event 6 POLLIN (Answers (-24) None 0 0)]);
   Turn 2 [] [Event 6 POLLIN (Answers (-24) None 0 0)];
   Turn 3 [] []].
(** Where the coroutine server breaks, whatever its handler.  A reader gets
    [fd] through the address of a variable of [server], on the stack the
    coroutines share: when another coroutine runs between [accept] and the start
    of the reader, here one whose client leaves, the reader reads what that one
    left there.  And [server] does not look at a failure of [accept]: the first
    one creates a reader that waits for the descriptor -1 for ever, the second
    one another, on which an assertion of the scheduler fails. *)
Theorem ntyco_breaks {St} (handler : msg_handler St) app mem n :
  let e := Env [] [] [] mem n in
  ntyco_start handler 4 5 leaves_with_arrival e (boot_nserver app sample_ny_used 0) = UB ∧
  ntyco_start handler 4 5 accept_fails_twice e (boot_nserver app sample_ny_used 0) = UB.
Proof. split; vm_compute; reflexivity. Qed.

(** ** Timeouts *)

(** A program that waits for a descriptor, for a second at most. *)
Definition nap_body (p : bool) (k : answers) : M (process bool unit) (option bool) :=
  if p then poll_begin 11 POLLIN 1000;; mret (Some false) else poll_end 11;; mret None.
Definition nap (ts : list turn) : M (process bool unit) unit :=
  nty_coroutine_create 4 5 true;;
  nty_schedule_run nap_body ts.
(** When the descriptor is ready in time, the status is cleared before
    [nty_schedule_desched_sleepdown] tests it: the coroutine ends, is freed, and
    stays in the tree of sleeping coroutines. *)
Theorem woken_sleeper_stays n :
  let e := Env [] [] [] [] n in
  let s := Process None ∅ (Kernel {[ 11 ]} ∅ ∅ []) 0 tt in
  wp (nap [Turn 10 [] [Event 11 POLLIN no_answers]]) e s
    (λ _ _ s', pr_heap s' = ∅ ∧ sc_sleeping <$> pr_sched s' = Some {[ 1000010 := 1%positive ]}) ∧
  nap [Turn 10 [] [Event 11 POLLIN no_answers]; Turn 20 [] []] e s = UB.
Proof. split; [|vm_compute; reflexivity]. vm_compute. done. Qed.
