(* ===== verification/NtySocket.v ===== *)
(** The calls of nty_socket.c that a coroutine may make: those the server uses are in
    [NtySched]; here are the others, and what all of them do under the scheduler.

    A hook [xxx] takes the place of a system call.  [COROUTINE_HOOK] is defined
    (nty_coroutine.h:325), so a function [nty_xxx], which waits and then calls [xxx],
    calls the hook, which waits once more.  A call is cut at its yields: it is entered
    where it waits, and returns or waits again.  A failing system call has its error
    number in [a_accept], negated; so has one that leaves an old error number. *)
From S2P Require Import Prelude CText KvsSpec Rdb RdbProof Protocol Netio Reactor NtySched NtyRules.

Local Open Scope Z_scope.

Definition ECONNRESET : Z := 104.
Definition EINPROGRESS : Z := 115.
Definition EWOULDBLOCK : Z := EAGAIN.
Definition errno (k : answers) : Z := - a_accept k.

Definition nty_epollevent_2poll (events : Z) : Z :=
  let flag x := if Z.land events x =? 0 then 0 else x in
  Z.lor (Z.lor (Z.lor (Z.lor (Z.lor (flag POLLIN) (flag POLLOUT)) (flag POLLHUP)) (flag POLLERR))
    (flag POLLRDNORM)) (flag POLLWRNORM).

(** A call with its arguments; its result is a number, or the bytes of a receive. *)
Inductive call : Type :=
  | SAccept
  | SConnect
  | SRecv (len : Z)
  | SRecvfrom (len : Z)
  | SSend (buf : string) (len : Z)
  | SSendto (buf : string) (len : Z).
Inductive result : Type := RInt (z : Z) | RBytes (d : string).
Definition bytes_result (d : option string) : result := match d with Some d => RBytes d | None => RInt (-1) end.
Definition ret_of (r : result) : Z := match r with RInt z => z | RBytes d => Z.of_nat (String.length d) end.
(** Where a call waits: at its own [nty_poll_inner] with [sent] bytes gone, or in the
    hook it calls, which has sent [inner] more ([First]: in the first one of [nty_send]). *)
Inductive wait : Type := Start | First (inner : Z) | Own (sent : Z) | Inside (sent inner : Z).

Section calls.
Context {P W : Type}.

(** * The hooks *)

(** [connect]: [a_accept] is 0 or the negated error number. *)
Definition connect_begin (fd : Z) : M (process P W) unit := poll_begin fd OUT_EVENTS 1.
Definition connect_end (k : answers) (fd : Z) : M (process P W) (option Z) :=
  poll_end fd;;
  let ret := a_accept k in
  if ret =? 0 then mret (Some 0) else
  if (errno k =? EAGAIN) || (errno k =? EWOULDBLOCK) || (errno k =? EINPROGRESS) then connect_begin fd;; mret None
  else mret (Some (-1)).
(** [read] and [write] differ from [recv] and [send] in the system call only. *)
Definition read_begin (fd : Z) : M (process P W) unit := recv_begin fd.
Definition read_end (k : answers) (fd count : Z) : M (process P W) (option string) := recv_end k fd count.
Definition write_begin (k : answers) (fd : Z) (buf : string) (count : Z) : M (process P W) (Z + Z) := send_begin k fd buf count.
Definition write_again (k : answers) (fd : Z) (buf : string) (count sent : Z) : M (process P W) (Z + Z) :=
  send_again k fd buf count sent.
(** [recvfrom]: a reset connection looks like its end; [None] is -1, other errors fail an
    assertion. *)
Definition recvfrom_begin (fd : Z) : M (process P W) unit := poll_begin fd IN_EVENTS 1.
Definition recvfrom_end (k : answers) (fd len : Z) : M (process P W) (option string) :=
  poll_end fd;;
  match str_take (Z.to_nat len) <$> a_recv k with
  | Some d => mret (Some d)
  | None =>
      if errno k =? EAGAIN then mret None else
      if errno k =? ECONNRESET then mret (Some "") else ub
  end.
(** [sendto] waits first, and sends once. *)
Definition sendto_begin (fd : Z) : M (process P W) unit := poll_begin fd OUT_EVENTS 1.
Definition sendto_end (k : answers) (fd : Z) (buf : string) (len : Z) : M (process P W) Z :=
  poll_end fd;;
  ret ← send_f k fd buf 0 len;
  if ret <? 0 then
    if errno k =? EAGAIN then mret ret else
    if errno k =? ECONNRESET then mret 0 else ub
  else mret ret.

(** A hook from its start, and from where it waits: it returns ([inl]), or waits with
    some bytes sent ([inr]). *)
Definition int_result (r : Z + Z) : result + Z := match r with inl z => inl (RInt z) | inr sent => inr sent end.
Definition hook_begin (c : call) (fd : Z) (k : answers) : M (process P W) (result + Z) :=
  match c with
  | SAccept => accept_begin fd;; mret (inr 0)
  | SConnect => connect_begin fd;; mret (inr 0)
  | SRecv _ => recv_begin fd;; mret (inr 0)
  | SRecvfrom _ => recvfrom_begin fd;; mret (inr 0)
  | SSend buf len => r ← send_begin k fd buf len; mret (int_result r)
  | SSendto _ _ => sendto_begin fd;; mret (inr 0)
  end.
Definition hook_again (c : call) (fd : Z) (k : answers) (sent : Z) : M (process P W) (result + Z) :=
  match c with
  | SAccept => r ← accept_end k fd; mret (match r with Some z => inl (RInt z) | None => inr 0 end)
  | SConnect => r ← connect_end k fd; mret (match r with Some z => inl (RInt z) | None => inr 0 end)
  | SRecv len => d ← recv_end k fd len; mret (inl (bytes_result d))
  | SRecvfrom len => d ← recvfrom_end k fd len; mret (inl (bytes_result d))
  | SSend buf len => r ← send_again k fd buf len sent; mret (int_result r)
  | SSendto buf len => z ← sendto_end k fd buf len; mret (inl (RInt z))
  end.

(** * The functions that call the hooks *)

Abbreviation rest := (M (process P W) (result + wait)).

(** The hook runs; when it has returned, the function goes on. *)
Definition in_hook (at_ : Z → wait) (after : result → rest) (m : M (process P W) (result + Z)) : rest :=
  r ← m;
  match r with inl r => after r | inr inner => mret (inr (at_ inner)) end.
Definition returning (r : result) : rest := mret (inl r).
Definition polls (fd events sent : Z) : rest := poll_begin fd events 1;; mret (inr (Own sent)).
(** The body of every loop: [nty_poll_inner], the hook, and what follows it. *)
Definition polled (fd events : Z) (c : Z → call) (after : Z → result → rest) (k : answers) (w : wait) : rest :=
  match w with
  | Start => polls fd events 0
  | Own sent => poll_end fd;; in_hook (Inside sent) (after sent) (hook_begin (c sent) fd k)
  | Inside sent inner => in_hook (Inside sent) (after sent) (hook_again (c sent) fd k inner)
  | First _ => ub
  end.
Definition nty_socket (k : answers) : M (process P W) Z := hook_socket k.
Definition nty_accept (fd : Z) : answers → wait → rest := λ k,
  polled fd IN_EVENTS (λ _, SAccept) (λ _ r,
    if (ret_of r <? 0) && (errno k =? EAGAIN) then polls fd IN_EVENTS 0 else returning r) k.
Definition nty_connect (fd : Z) : answers → wait → rest := λ k,
  polled fd OUT_EVENTS (λ _, SConnect) (λ _ r,
    if ret_of r =? 0 then returning r else
    if (ret_of r =? -1) && ((errno k =? EAGAIN) || (errno k =? EWOULDBLOCK) || (errno k =? EINPROGRESS))
    then polls fd OUT_EVENTS 0 else returning r) k.
Definition nty_recv (fd len : Z) : answers → wait → rest :=
  polled fd IN_EVENTS (λ _, SRecv len) (λ _, returning).
Definition nty_recvfrom (fd len : Z) : answers → wait → rest := λ k,
  polled fd IN_EVENTS (λ _, SRecvfrom len) (λ _ r,
    if ret_of r <? 0 then
      if errno k =? EAGAIN then returning r else
      if errno k =? ECONNRESET then returning (RInt 0) else ub
    else returning r) k.
(** The rest of the buffer. *)
Definition from (buf : string) (sent : Z) : string := str_drop (Z.to_nat sent) buf.
(** The head of the loop of [nty_send], with the last [ret]; the end of its body; what
    follows the first call. *)
Definition send_while (fd len ret sent : Z) : rest :=
  if sent <? len then polls fd OUT_EVENTS sent
  else returning (RInt (if (ret <=? 0) && (sent =? 0) then ret else sent)).
Definition send_next (fd len sent : Z) (r : result) : rest :=
  let ret := ret_of r in
  if ret <=? 0 then returning (RInt (if sent =? 0 then ret else sent)) else send_while fd len ret (sent + ret).
Definition send_first (fd len : Z) (r : result) : rest :=
  let ret := ret_of r in
  if ret =? 0 then returning r else send_while fd len ret (if 0 <? ret then ret else 0).
Definition nty_send (fd : Z) (buf : string) (len : Z) (k : answers) (w : wait) : rest :=
  match w with
  | Start => in_hook First (send_first fd len) (hook_begin (SSend buf len) fd k)
  | First inner => in_hook First (send_first fd len) (hook_again (SSend buf len) fd k inner)
  | _ => polled fd OUT_EVENTS (λ sent, SSend (from buf sent) (len - sent)) (send_next fd len) k w
  end.
Definition sendto_while (fd len sent : Z) : rest :=
  if sent <? len then polls fd OUT_EVENTS sent else returning (RInt sent).
Definition sendto_next (fd len : Z) (k : answers) (sent : Z) (r : result) : rest :=
  let ret := ret_of r in
  if ret <=? 0 then
    if errno k =? EAGAIN then sendto_while fd len sent else
    if errno k =? ECONNRESET then returning r else ub
  else sendto_while fd len (sent + ret).
Definition nty_sendto (fd : Z) (buf : string) (len : Z) (k : answers) (w : wait) : rest :=
  match w with
  | Start => sendto_while fd len 0
  | _ => polled fd OUT_EVENTS (λ sent, SSendto (from buf sent) (len - sent)) (sendto_next fd len k) k w
  end.
Definition nty_close (fd : Z) : M (process P W) unit := hook_close fd.
End calls.

(** * A coroutine that makes one call *)

Inductive sys : Type := Hook (c : call) | Nty (c : call).
Definition sys_step {P W} (y : sys) (fd : Z) (k : answers) (w : wait) : M (process P W) (result + wait) :=
  match y with
  | Hook c =>
      in_hook Own returning match w with Own sent => hook_again c fd k sent | _ => hook_begin c fd k end
  | Nty SAccept => nty_accept fd k w
  | Nty SConnect => nty_connect fd k w
  | Nty (SRecv len) => nty_recv fd len k w
  | Nty (SRecvfrom len) => nty_recvfrom fd len k w
  | Nty (SSend buf len) => nty_send fd buf len k w
  | Nty (SSendto buf len) => nty_sendto fd buf len k w
  end.
(** It notes the result. *)
Definition caller : Type := sys * Z * wait.
Definition note {P} (y : sys) (fd : Z) (r : result + wait) : M (process P (option result)) (option caller) :=
  match r with
  | inl res => modify (pr_set_world (Some res));; mret None
  | inr w => mret (Some (y, fd, w))
  end.
Definition caller_body (p : caller) (k : answers) : M (process caller (option result)) (option caller) :=
  let '(y, fd, w) := p in
  r ← sys_step y fd k w;
  note y fd r.

(** * What the calls do *)

(** With [sent] bytes gone, the hook returns the result after the answers of the system:
    it waits as long as the system says so. *)
Definition in_progress (k : answers) : Prop := errno k = EAGAIN ∨ errno k = EINPROGRESS.
Inductive resumes : call → Z → list answers → result → Prop :=
  | Res_accept k : 0 ≤ a_accept k → resumes SAccept 0 [k] (RInt (a_accept k))
  | Res_accept_fails k : a_accept k < 0 → errno k ≠ EAGAIN → resumes SAccept 0 [k] (RInt (-1))
  | Res_accept_again k ks r : errno k = EAGAIN → resumes SAccept 0 ks r → resumes SAccept 0 (k :: ks) r
  | Res_connect k : a_accept k = 0 → resumes SConnect 0 [k] (RInt 0)
  | Res_connect_fails k : a_accept k ≠ 0 → ¬ in_progress k → resumes SConnect 0 [k] (RInt (-1))
  | Res_connect_again k ks r : in_progress k → resumes SConnect 0 ks r → resumes SConnect 0 (k :: ks) r
  | Res_recv len k : resumes (SRecv len) 0 [k] (bytes_result (str_take (Z.to_nat len) <$> a_recv k))
  | Res_recvfrom len k d : a_recv k = Some d → resumes (SRecvfrom len) 0 [k] (RBytes (str_take (Z.to_nat len) d))
  | Res_recvfrom_fails len k : a_recv k = None → errno k = EAGAIN → resumes (SRecvfrom len) 0 [k] (RInt (-1))
  | Res_recvfrom_reset len k : a_recv k = None → errno k = ECONNRESET → resumes (SRecvfrom len) 0 [k] (RBytes "")
  | Res_send buf len sent k : 0 < a_send k → len ≤ sent + a_send k → resumes (SSend buf len) sent [k] (RInt len)
  | Res_send_more buf len sent k ks r :
      0 < a_send k → sent + a_send k < len → resumes (SSend buf len) (sent + a_send k) ks r →
      resumes (SSend buf len) sent (k :: ks) r
  | Res_send_stops buf len sent k : a_send k ≤ 0 → 0 < sent → resumes (SSend buf len) sent [k] (RInt sent)
  | Res_send_fails buf len k : a_send k ≤ 0 → resumes (SSend buf len) 0 [k] (RInt (if a_send k <? 0 then -1 else 0))
  | Res_sendto buf len k : 0 ≤ a_send k → resumes (SSendto buf len) 0 [k] (RInt (Z.min (a_send k) len))
  | Res_sendto_fails buf len k : a_send k < 0 → errno k = EAGAIN → resumes (SSendto buf len) 0 [k] (RInt (-1))
  | Res_sendto_reset buf len k : a_send k < 0 → errno k = ECONNRESET → resumes (SSendto buf len) 0 [k] (RInt 0).
(** The same from the start: [send] tries before it waits. *)
Inductive hook_returns : call → list answers → result → Prop :=
  | Ret_waits c k ks r : match c with SSend _ _ => False | _ => True end →
      resumes c 0 ks r → hook_returns c (k :: ks) r
  | Ret_send buf len k ks r : 0 < len → 0 < a_send k → resumes (SSend buf len) 0 (k :: ks) r →
      hook_returns (SSend buf len) (k :: ks) r
  | Ret_send_waits buf len k ks r : 0 < len → a_send k < 0 → resumes (SSend buf len) 0 ks r →
      hook_returns (SSend buf len) (k :: ks) r
  | Ret_send_zero buf len k : 0 ≤ len → a_send k = 0 → hook_returns (SSend buf len) [k] (RInt 0)
  | Ret_send_empty buf k : hook_returns (SSend buf 0) [k] (RInt (if a_send k <? 0 then -1 else 0)).
(** The loop of [nty_send], with [sent] bytes gone: what it returns. *)
Inductive send_loop (buf : string) (len : Z) : Z → list answers → Z → Prop :=
  | Loop_stops sent ks n :
      hook_returns (SSend (from buf sent) (len - sent)) ks (RInt n) → n ≤ 0 →
      send_loop buf len sent ks (if sent =? 0 then n else sent)
  | Loop_done sent ks n :
      hook_returns (SSend (from buf sent) (len - sent)) ks (RInt n) → 0 < n → len ≤ sent + n →
      send_loop buf len sent ks (sent + n)
  | Loop_more sent ks n ks' m :
      hook_returns (SSend (from buf sent) (len - sent)) ks (RInt n) → 0 < n → sent + n < len →
      send_loop buf len (sent + n) ks' m → send_loop buf len sent (ks ++ ks') m.
(** The loop of [nty_sendto]: what it returns, and how many bytes have gone. *)
Inductive sendto_loop (buf : string) (len : Z) : Z → list answers → Z → Z → Prop :=
  | To_done sent ks n :
      hook_returns (SSendto (from buf sent) (len - sent)) ks (RInt n) → 0 < n → len ≤ sent + n →
      sendto_loop buf len sent ks (sent + n) (sent + n)
  | To_more sent ks n ks' m g :
      hook_returns (SSendto (from buf sent) (len - sent)) ks (RInt n) → 0 < n → sent + n < len →
      sendto_loop buf len (sent + n) ks' m g → sendto_loop buf len sent (ks ++ ks') m g
  | To_again sent ks n k ks' m g :
      hook_returns (SSendto (from buf sent) (len - sent)) ks (RInt n) → n ≤ 0 → last ks = Some k → errno k = EAGAIN →
      sendto_loop buf len sent ks' m g → sendto_loop buf len sent (ks ++ ks') m g
  | To_reset sent ks n k :
      hook_returns (SSendto (from buf sent) (len - sent)) ks (RInt n) → n ≤ 0 → last ks = Some k → errno k = ECONNRESET →
      sendto_loop buf len sent ks n sent.
(** The functions [nty_xxx], with the bytes that have gone. *)
Inductive nty_returns : call → list answers → result → string → Prop :=
  | Nty_polled c k ks r : match c with SSend _ _ | SSendto _ _ => False | _ => True end →
      hook_returns c ks r → nty_returns c (k :: ks) r ""
  | Nty_send buf len ks n :
      hook_returns (SSend buf len) ks (RInt n) → n = 0 ∨ len ≤ Z.max n 0 →
      nty_returns (SSend buf len) ks (RInt n) (str_take (Z.to_nat n) buf)
  | Nty_send_rest buf len ks n ks' m :
      hook_returns (SSend buf len) ks (RInt n) → n ≠ 0 → Z.max n 0 < len → send_loop buf len (Z.max n 0) ks' m →
      nty_returns (SSend buf len) (ks ++ ks') (RInt m) (str_take (Z.to_nat m) buf)
  | Nty_sendto buf len k ks m g : 0 < len → sendto_loop buf len 0 ks m g →
      nty_returns (SSendto buf len) (k :: ks) (RInt m) (str_take (Z.to_nat g) buf)
  | Nty_sendto_empty buf k : nty_returns (SSendto buf 0) [k] (RInt 0) "".

(** What a hook has sent when it returns [r]. *)
Definition gone (c : call) (r : result) : string :=
  match c, r with
  | SSend buf _, RInt n | SSendto buf _, RInt n => str_take (Z.to_nat n) buf
  | _, _ => ""
  end.
Definition sys_returns (y : sys) (ks : list answers) (r : result) (t : string) : Prop :=
  match y with Hook c => hook_returns c ks r ∧ t = gone c r | Nty c => nty_returns c ks r t end.
(** The buffer is as long as the call says. *)
Definition buffer_ok (c : call) : Prop :=
  match c with
  | SSend buf len | SSendto buf len => 0 ≤ len ≤ Z.of_nat (String.length buf)
  | _ => True
  end.
Definition sys_ok (y : sys) : Prop := match y with Hook c | Nty c => buffer_ok c end.

(** The turns of the scheduler: the first starts the coroutine, every other one reports
    its descriptor. *)
Definition reports (fd flags : Z) : list answers → list turn := fmap (λ k, Turn 0 [] [Event fd flags k]).
Definition call_turns (fd flags : Z) (ks : list answers) : list turn :=
  match ks with
  | [] => []
  | k :: ks => Turn 0 [k] [] :: reports fd flags ks
  end.
Lemma concat_snoc ps t : String.concat "" (ps ++ [t]) = String.concat "" ps +:+ t.
Proof.
  induction ps as [|p ps IH]; [done|]. destruct ps as [|q ps]; [done|].
  change (p +:+ ("" +:+ String.concat "" ((q :: ps) ++ [t])) = (p +:+ ("" +:+ String.concat "" (q :: ps))) +:+ t).
  rewrite IH. by rewrite str_app_assoc.
Qed.
Lemma str_take_more_bytes n m s : str_take n s +:+ str_take m (str_drop n s) = str_take (n + m) s.
Proof.
  revert s. induction n as [|n IH]; intros s; [done|]. destruct s as [|c s]; [by destruct m|].
  simpl. rewrite str_cons_app. by rewrite IH.
Qed.

(** The branch that the hypotheses choose. *)
Ltac pick :=
  unfold in_progress, errno, EWOULDBLOCK, EAGAIN, EINPROGRESS, ECONNRESET in *;
  match goal with
  | |- context [if ?b then _ else _] => first [replace b with true by lia | replace b with false by lia]; cbv iota
  end.
Ltac received := match goal with H : a_recv _ = _ |- _ => rewrite H end; simpl.

Section rules.
Context (evfd fd : Z) (Hne : fd ≠ evfd).
Abbreviation state := (process caller (option result)).
Implicit Types (s : state) (x : loc) (c : call) (r : result) (y : sys) (w : wait).

(** What the call has sent so far. *)
Definition sent_is (t : string) s : Prop := ∃ ps, k_sent (pr_kernel s) = pair fd <$> ps ∧ String.concat "" ps = t.
Definition settled (l : Z) (t : string) r : unit → env → state → Prop := λ _ e s,
  live e = l ∧ pr_world s = Some r ∧ pr_sched s = None ∧ sent_is t s.
(** The coroutine runs. *)
Record running x (t : string) s : Prop := {
  rn_coros : coros evfd ∅ [] (Some x) s;
  rn_curr : curr_of s = Some x;
  rn_open : fd ∈ k_open (pr_kernel s);
  rn_sent : sent_is t s
}.
(** It waits, with its program. *)
Record pending x (p : caller) (t : string) s : Prop := {
  pd_coros : ∃ ev, coros evfd {[ fd := (x, p, ev) ]} [] None s;
  pd_open : fd ∈ k_open (pr_kernel s);
  pd_sent : sent_is t s
}.
Lemma sent_same t s s' : same_data s s' → sent_is t s → sent_is t s'.
Proof. intros [_ _ H] (ps & H1 & H2). exists ps. by rewrite H. Qed.

(** The scheduler has nothing left to do. *)
Lemma wp_scheduler_ends t r e s :
  coros evfd ∅ [] None s → pr_world s = Some r → sent_is t s →
  wp (run_turns caller_body []) e s (settled (live e - 1) t r).
Proof.
  intros Hc Hw Hs. cbn [run_turns]. wp_step. eapply wp_get_sched; [exact Hc|]. intros sc Hsc Ho.
  assert (Hd : nty_schedule_isdone sc = true).
  { unfold nty_schedule_isdone. rewrite (so_waiting _ _ _ _ _ Ho), (so_busy _ _ _ _ _ Ho), (so_sleeping _ _ _ _ _ Ho), (so_ready _ _ _ _ _ Ho).
    by rewrite fmap_empty. }
  rewrite Hd. unfold nty_schedule_free, on_kernel. wp_step. eapply wp_get_sched; [exact Hc|]. intros sc' _ _.
  destruct Hs as (ps & Hps & Ht).
  wp_step. destruct (0 <? sc_poller_fd sc'); wp_step; wp_step; destruct (0 <? sc_eventfd sc'); wp_step; wp_step; wp_step; wp_step;
    (split_and!; [done..|by exists ps]).
Qed.
Lemma wp_waits x t ev e s (Q : unit → env → state → Prop) :
  running x t s → waits_for ev → (∀ s' p, pending x p t s' → Q tt e s') → wp (poll_begin fd ev 1) e s Q.
Proof.
  intros [Hc Hcur Ho Hs] Hev HQ. eapply (wp_poll_begin evfd ∅ [] fd x); [done..|].
  intros s1 p Hc1 [Hd1 _ _]. apply (HQ _ p). split.
  - exists ev. by rewrite <-insert_empty.
  - by rewrite (sd_open _ _ Hd1).
  - by eapply sent_same.
Qed.
(** The coroutine yields, and its program is noted. *)
Lemma stops_pending x p p0 t e s (Q : env → state → Prop) :
  pending x p0 t s → (∀ s', pending x p t s' → Q e s') → stops evfd x Q (Some p) e s.
Proof.
  intros [[ev Hc] Ho Hs] HQ. exists ∅, [], fd, p0, ev. split; [by rewrite insert_empty|]. intros s' Hc' Hd _. apply HQ. split.
  - exists ev. by rewrite <-insert_empty.
  - by rewrite (sd_open _ _ Hd).
  - by eapply sent_same.
Qed.
Lemma wp_poll_ends x p t e s Q :
  pending x p t s → curr_of s = Some x → (∀ s', running x t s' → Q tt e s') → wp (poll_end fd) e s Q.
Proof.
  intros [[ev Hc] Ho Hs] Hcur HQ. eapply (wp_poll_end evfd); [exact Hc|by rewrite lookup_singleton_eq|done|].
  intros s' Hc' [Hd _ Hcu]. rewrite delete_singleton_eq in Hc'. apply HQ. split; [done|congruence| |by eapply sent_same].
  by rewrite (sd_open _ _ Hd).
Qed.
(** A turn in which the descriptor is reported. *)
Lemma wp_turn_reports x p t ts flags k e s (Q : unit → env → state → Prop) :
  pending x p t s →
  (∀ s', pending x p t s' → curr_of s' = Some x →
    wp (caller_body p k) e s' (stops evfd x (λ e' s', wp (run_turns caller_body ts) e' s' Q))) →
  wp (run_turns caller_body (Turn 0 [] [Event fd flags k] :: ts)) e s Q.
Proof.
  intros [[ev Hc] Ho Hs] H. eapply wp_run_turns; [exact Hc|left; apply map_non_empty_singleton|].
  eapply wp_run_turn_idle; [exact Hc|]. intros s1 Hc1 [Hd1 _ _]. cbn [tn_events rev app run_events ev_fd].
  assert (Hw : ({[ fd := (x, p, ev) ]} : gmap Z (loc * caller * Z)) !! fd = Some (x, p, ev)) by by rewrite lookup_singleton_eq.
  wp_step. eapply wp_search_wait; [exact Hc1|exact Hw|]. intros s2 Hc2 [Hd2 _ _]. wp_step.
  assert (Hb : ∀ R : unit → env → state → Prop, (∀ s', coros evfd {[ fd := (x, p, ev) ]} [] None s' → same_data s2 s' → R tt e s') →
    wp (if has_event EPOLLHUP (Event fd flags k) then on_co x (co_or (BIT NTY_COROUTINE_STATUS_FDEOF)) else mret tt) e s2 R).
  { intros R HR. destruct (has_event _ _); [|by wp_step; apply HR].
    eapply wp_on_waiting_keep; [exact Hc2|exact Hw|done|intros; by apply calm_or|]. intros s' H1 [H2 _ _]. by apply HR. }
  apply Hb. intros s3 Hc3 Hd3. wp_step. eapply (wp_resume_waiting evfd _ _ [] fd); [exact Hc3|exact Hw|].
  intros s4 Hc4 Hd4 Hcu4. assert (Hd : same_data s s4) by (do 3 (etrans; [eassumption|]); done).
  eapply wp_mono; [apply H; [split|done]|].
  - by exists ev.
  - by rewrite (sd_open _ _ Hd).
  - by eapply sent_same.
  - intros r e' s' Hr. eapply stops_mono; [exact Hr|]. intros e5 s5 H5. by wp_step.
Qed.
(** The system call of the sending functions, after [t0]. *)
Lemma wp_call_send t0 k x buf at_ len e s (Q : Z → env → state → Prop) :
  running x (t0 +:+ str_take (Z.to_nat at_) buf) s → 0 ≤ at_ ≤ len → len ≤ Z.of_nat (String.length buf) →
  (a_send k < 0 → Q (-1) e s) →
  (0 ≤ a_send k → ∀ s', running x (t0 +:+ str_take (Z.to_nat (at_ + Z.min (a_send k) (len - at_))) buf) s' →
    Q (Z.min (a_send k) (len - at_)) e s') →
  wp (send_f k fd buf at_ len) e s Q.
Proof.
  intros [Hc Hcur Ho (ps & Hps & Ht)] Hf Hl Hfail Hok. unfold send_f.
  rewrite (proj2 (Z.ltb_ge _ _)), (proj2 (Z.ltb_ge _ _)) by lia. simpl orb. cbv iota.
  destruct (Z.ltb_spec (a_send k) 0) as [Hk|Hk]; [wp_step; by apply Hfail|]. unfold on_kernel. do 3 wp_step. apply Hok; [done|]. split.
  - by eapply coros_ext.
  - done.
  - done.
  - exists (ps ++ [str_take (Z.to_nat (Z.min (a_send k) (len - at_))) (str_drop (Z.to_nat at_) buf)]). split.
    + cbn. by rewrite Hps, fmap_app.
    + rewrite concat_snoc, Ht, str_app_assoc, str_take_more_bytes. do 2 f_equal. lia.
Qed.

(** ** The hooks *)

Definition so_far (c : call) (sent : Z) : string :=
  match c with SSend buf _ => str_take (Z.to_nat sent) buf | _ => "" end.
Definition sent_ok (c : call) (sent : Z) : Prop := match c with SSend _ len => 0 ≤ sent < len | _ => sent = 0 end.
(** After a step of the hook: it has returned [r], or waits and does the rest. *)
Definition hook_post x c (ks : list answers) r (t0 : string) e : result + Z → env → state → Prop := λ o e' s,
  e' = e ∧
  match o with
  | inl r' => r' = r ∧ ks = [] ∧ running x (t0 +:+ gone c r) s
  | inr sent => resumes c sent ks r ∧ sent_ok c sent ∧ ∃ p, pending x p (t0 +:+ so_far c sent) s
  end.
(** After the wait, the result or another wait. *)
Lemma post_result x c r t0 e s : running x (t0 +:+ gone c r) s → hook_post x c [] r t0 e (inl r) e s.
Proof. done. Qed.
Lemma wp_post_waits x c sent ks r t0 ev e s (Q : unit → env → state → Prop) :
  running x (t0 +:+ so_far c sent) s → waits_for ev → resumes c sent ks r → sent_ok c sent →
  (∀ s', hook_post x c ks r t0 e (inr sent) e s' → Q tt e s') → wp (poll_begin fd ev 1) e s Q.
Proof. intros Hrun Hev Hr Hs HQ. eapply wp_waits; [exact Hrun|done|]. intros s' p Hp. apply HQ. split; [done|]. eauto. Qed.
Lemma running_opened x t z s : running x t s → running x t (pr_set_kernel (k_opened z (pr_kernel s)) s).
Proof.
  intros [Hc Hcur Ho Hs]. split; [by eapply coros_ext|done| |done]. cbn. set_solver.
Qed.

Lemma wp_hook_again x p c sent k ks r t0 e s :
  resumes c sent (k :: ks) r → buffer_ok c → sent_ok c sent → pending x p (t0 +:+ so_far c sent) s → curr_of s = Some x →
  wp (hook_again c fd k sent) e s (hook_post x c ks r t0 e).
Proof.
  intros Hr Hb Hs Hp Hcur.
  assert (Hend : ∀ Q : unit → env → state → Prop,
    (∀ s', running x (t0 +:+ so_far c sent) s' → Q tt e s') → wp (poll_end fd) e s Q) by (intros Q; by eapply wp_poll_ends).
  inversion Hr; subst; simpl hook_again;
    unfold accept_end, connect_end, recv_end, recvfrom_end, send_again, sendto_end; do 2 wp_step; apply Hend; clear Hend; intros s' Hrun; cbn [so_far] in *.
  - pick. unfold on_kernel. repeat wp_step. apply post_result. by apply running_opened.
  - pick. pick. repeat wp_step. by apply post_result.
  - pick. pick. wp_step. unfold accept_begin.
    apply (wp_post_waits x SAccept 0 ks r t0); [done|by left|done..|]. intros s2 H2. by repeat wp_step.
  - pick. repeat wp_step. by apply post_result.
  - pick. pick. repeat wp_step. by apply post_result.
  - pick. pick. wp_step. unfold connect_begin.
    apply (wp_post_waits x SConnect 0 ks r t0); [done|by right|done..|]. intros s2 H2. by repeat wp_step.
  - repeat wp_step. apply post_result. by destruct (a_recv k).
  - received. repeat wp_step. by apply post_result.
  - received. pick. repeat wp_step. by apply post_result.
  - received. pick. pick. repeat wp_step. by apply post_result.
  - simpl in Hb, Hs. wp_step. eapply (wp_call_send t0 k x buf sent len); [exact Hrun|lia..|]. intros Hk s2 H2. pick. pick. repeat wp_step.
    replace (sent + _) with len in * by lia. by apply post_result.
  - simpl in Hb, Hs. wp_step. eapply (wp_call_send t0 k x buf sent len); [exact Hrun|lia..|]. intros Hk s2 Hrun2. pick.
    replace (a_send k `min` (len - sent)) with (a_send k) in * by lia. pick. wp_step.
    apply (wp_post_waits x (SSend buf len) (sent + a_send k) ks r t0); [done|by right|done|simpl; lia|].
    intros s3 H'. by repeat wp_step.
  - simpl in Hb, Hs. wp_step. eapply (wp_call_send t0 k x buf sent len); [exact Hrun|lia..| |].
    + intros _. pick. pick. repeat wp_step. by apply post_result.
    + intros Hk s2 H2. pick. pick. repeat wp_step. replace (sent + _) with sent in * by lia. by apply post_result.
  - simpl in Hb, Hs. wp_step. eapply (wp_call_send t0 k x buf 0 len); [exact Hrun|lia..| |].
    + intros Hk. pick. repeat wp_step. pick. by apply post_result.
    + intros Hk s2 H2. pick. repeat wp_step. pick. replace (a_send k `min` _) with 0 in * by lia. by apply post_result.
  - simpl in Hb, Hs. wp_step. eapply (wp_call_send t0 k x buf 0 len); [exact Hrun|lia..|]. intros Hk s2 H2. pick. repeat wp_step.
    replace (len - 0) with len in * by lia. by apply post_result.
  - simpl in Hb, Hs. wp_step. eapply (wp_call_send t0 k x buf 0 len); [exact Hrun|lia..| |lia]. intros Hk. pick. pick. repeat wp_step. by apply post_result.
  - simpl in Hb, Hs. wp_step. eapply (wp_call_send t0 k x buf 0 len); [exact Hrun|lia..| |lia]. intros Hk. pick. pick. pick. repeat wp_step. by apply post_result.
Qed.
Lemma wp_hook_begin x c k ks r t0 e s :
  hook_returns c (k :: ks) r → buffer_ok c → running x t0 s →
  wp (hook_begin c fd k) e s (hook_post x c ks r t0 e).
Proof.
  intros Hr Hb Hrun. assert (H0 : running x (t0 +:+ "") s) by by rewrite str_app_nil. inversion Hr; subst.
  - assert (Hres : sent_ok c 0 ∧ running x (t0 +:+ so_far c 0) s) by by destruct c. destruct Hres as [Hs Hrun0].
    destruct c; try done; simpl hook_begin; unfold accept_begin, connect_begin, recv_begin, recvfrom_begin, sendto_begin; wp_step;
      (eapply (wp_post_waits x _ 0 ks r t0); [exact Hrun0|solve [by left|by right]|done..|]; intros s2 H2; by repeat wp_step).
  - simpl hook_begin. unfold send_begin. simpl in Hb. do 2 wp_step. eapply (wp_call_send t0 k x buf 0 len); [exact H0|lia..|]. intros Hk s2 Hrun2.
    pick. pick.
    match goal with H : resumes _ _ _ _ |- _ => inversion H; subst end; [..|lia|lia]; pick.
    + pick. repeat wp_step. replace (a_send k `min` (len - 0)) with len in * by lia. by apply post_result.
    + wp_step. replace (a_send k `min` (len - 0)) with (a_send k) in * by lia.
      apply (wp_post_waits x (SSend buf len) (0 + a_send k) ks r t0); [done|by right|done|simpl; lia|].
      intros s3 H'. by repeat wp_step.
  - simpl hook_begin. unfold send_begin. simpl in Hb. do 2 wp_step. eapply (wp_call_send t0 k x buf 0 len); [exact H0|lia..| |lia]. intros Hk.
    do 3 pick. wp_step. apply (wp_post_waits x (SSend buf len) 0 ks r t0); [done|by right|done|simpl; lia|].
    intros s3 H'. by repeat wp_step.
  - simpl hook_begin. unfold send_begin. simpl in Hb. do 2 wp_step. eapply (wp_call_send t0 k x buf 0 len); [exact H0|lia..|]. intros _ s2 H2.
    pick. repeat wp_step. replace (a_send k `min` (len - 0)) with 0 in * by lia. by apply post_result.
  - simpl hook_begin. unfold send_begin. do 2 wp_step. eapply (wp_call_send t0 k x buf 0 0); [exact H0|lia..| |].
    + intros Hk. do 4 pick. repeat wp_step. pick. by apply post_result.
    + intros Hk s2 H2. pick. repeat wp_step. pick. replace (a_send k `min` (0 - 0)) with 0 in * by lia. by apply post_result.
Qed.

(** ** A hook within a program *)

(** The hook [c], called where the program waits at [at_ inner]; when it returns, the
    program goes on with [fin]. *)
Definition within c (at_ : Z → wait) y (fin : answers → result → M state (option caller)) : Prop :=
  ∀ inner k e s (Q : option caller → env → state → Prop),
    wp (hook_again c fd k inner) e s (λ o e' s', match o with
      | inl r => wp (fin k r) e' s' Q
      | inr inner' => Q (Some (y, fd, at_ inner')) e' s'
      end) →
    wp (caller_body (y, fd, at_ inner) k) e s Q.
Context (flags : Z).
(** The rest of the turns, after this one. *)
Record turns_then (ks ks' : list answers) (Q : unit → env → state → Prop) e s : Prop := {
  tt_coros : ∃ ws, coros evfd ws [] None s;
  tt_turns : wp (run_turns caller_body (reports fd flags (ks ++ ks'))) e s Q
}.
Lemma turns_app ks ks' Q e s : turns_then (ks ++ ks') [] Q e s → turns_then ks ks' Q e s.
Proof. intros [H1 H2]. split; [done|]. by rewrite app_nil_r in H2. Qed.
Lemma app_turns ks ks' Q e s : turns_then ks ks' Q e s → turns_then (ks ++ ks') [] Q e s.
Proof. intros [H1 H2]. split; [done|]. by rewrite app_nil_r. Qed.
(** The result is noted, and the scheduler ends. *)
Lemma wp_returning x y r t e s :
  running x t s → wp (o ← returning r; note y fd o) e s (stops evfd x (turns_then [] [] (settled (live e - 2) t r))).
Proof.
  intros [Hc _ _ Hs]. repeat wp_step. exists ∅, []. split; [by eapply coros_ext|].
  intros s' Hc' Hd _. split; [by exists ∅|].
  replace (live e - 2) with (live (add_live (-1) e) - 1) by (simpl; lia). apply wp_scheduler_ends; [done| |]; [by rewrite (sd_world _ _ Hd)|].
  by eapply sent_same.
Qed.
Lemma pending_coros x p t s : pending x p t s → ∃ ws, coros evfd ws [] None s.
Proof. intros [[ev Hc] _ _]. eauto. Qed.
(** When the hook has returned [r]. *)
Definition goes_on x (k : answers) (fin : answers → result → M state (option caller)) r t (ks' : list answers) Q e : Prop :=
  ∀ s, running x t s → wp (fin k r) e s (stops evfd x (turns_then [] ks' Q)).
Lemma resumes_answers c sent ks r : resumes c sent ks r → ∃ k, last ks = Some k.
Proof. induction 1 as [| |k ks r _ _ [k' IH]| | |k ks r _ _ [k' IH]| | | | | |buf len sent k ks r _ _ _ [k' IH]| | | | |]; eauto; exists k'; by rewrite last_cons, IH. Qed.
Lemma wp_hook_goes_on c at_ y fin ks x sent r t0 ks' Q e s :
  within c at_ y fin → buffer_ok c → resumes c sent ks r → sent_ok c sent →
  pending x (y, fd, at_ sent) (t0 +:+ so_far c sent) s →
  (∀ k, last ks = Some k → goes_on x k fin r (t0 +:+ gone c r) ks' Q e) →
  turns_then ks ks' Q e s.
Proof.
  intros Hw Hb. revert sent s. induction ks as [|k ks IH]; intros sent s Hr Hs Hp Hfin; [inversion Hr|].
  split; [by eapply pending_coros|]. unfold reports. cbn [app fmap list_fmap]. eapply wp_turn_reports; [exact Hp|]. intros s1 Hp1 Hcur.
  eapply wp_mono; [|intros o e1 s2 H; eapply stops_mono; [exact H|]; intros e2 s3 H'; exact (tt_turns _ _ _ _ _ H')]. apply Hw.
  eapply wp_mono; [by eapply wp_hook_again|]. intros [r'|i] e' s' (-> & H).
  - destruct H as (-> & -> & Hrun). by apply Hfin.
  - destruct H as (Hres & Hi & p & Hp'). eapply stops_pending; [exact Hp'|]. intros s2 Hp2. apply (IH i); try done.
    intros k' Hk'. apply Hfin. by rewrite last_cons, Hk'.
Qed.
Lemma wp_hook_starts c at_ y fin k ks x r t0 ks' Q e s :
  within c at_ y fin → buffer_ok c → hook_returns c (k :: ks) r → running x t0 s →
  (∀ k', last (k :: ks) = Some k' → goes_on x k' fin r (t0 +:+ gone c r) ks' Q e) →
  wp (hook_begin c fd k) e s (λ o e' s', match o with
    | inl r => wp (fin k r) e' s' (stops evfd x (turns_then ks ks' Q))
    | inr i => stops evfd x (turns_then ks ks' Q) (Some (y, fd, at_ i)) e' s'
    end).
Proof.
  intros Hw Hb Hr Hrun Hfin. eapply wp_mono; [by eapply wp_hook_begin|]. intros [r'|i] e' s' (-> & H).
  - destruct H as (-> & -> & Hrun'). by apply Hfin.
  - destruct H as (Hres & Hi & p & Hp'). eapply stops_pending; [exact Hp'|]. intros s2 Hp2.
    eapply (wp_hook_goes_on c at_ y fin); try done. intros k' Hk'. apply Hfin. by rewrite last_cons, Hk'.
Qed.

(** A program that calls the hook. *)
Lemma wp_in_hook at_ y (after : result → M state (result + wait)) m e s (Q : option caller → env → state → Prop) :
  wp m e s (λ o e' s', match o with
    | inl r => wp (o ← after r; note y fd o) e' s' Q
    | inr i => Q (Some (y, fd, at_ i)) e' s'
    end) →
  wp (o ← in_hook at_ after m; note y fd o) e s Q.
Proof.
  intros H. unfold in_hook. do 2 wp_step. eapply wp_mono; [exact H|]. intros [r|i] e' s' H'; [|by repeat wp_step].
  by apply wp_bind_inv in H'.
Qed.
Lemma within_hook c at_ y (after : answers → result → M state (result + wait)) :
  (∀ k inner, sys_step y fd k (at_ inner) = in_hook at_ (after k) (hook_again c fd k inner)) →
  within c at_ y (λ k r, o ← after k r; note y fd o).
Proof. intros Hy inner k e s Q H. unfold caller_body. rewrite Hy. by apply wp_in_hook. Qed.
Lemma wp_polls x y ev sent t (Q : env → state → Prop) e s :
  running x t s → waits_for ev → (∀ s', pending x (y, fd, Own sent) t s' → Q e s') →
  wp (o ← polls fd ev sent; note y fd o) e s (stops evfd x Q).
Proof.
  intros Hrun Hev HQ. unfold polls. do 2 wp_step. eapply wp_waits; [exact Hrun|done|]. intros s' p Hp. repeat wp_step.
  by eapply stops_pending.
Qed.
Lemma wp_own c y (after : answers → result → M state (result + wait)) sent ks x r t ks' Q e s :
  (∀ k, sys_step y fd k (Own sent) = (poll_end fd;; in_hook (Inside sent) (after k) (hook_begin c fd k))) →
  (∀ k inner, sys_step y fd k (Inside sent inner) = in_hook (Inside sent) (after k) (hook_again c fd k inner)) →
  buffer_ok c → hook_returns c ks r → pending x (y, fd, Own sent) t s →
  (∀ k, last ks = Some k → goes_on x k (λ k r, o ← after k r; note y fd o) r (t +:+ gone c r) ks' Q e) →
  turns_then ks ks' Q e s.
Proof.
  intros Hown Hin Hb Hr Hp Hfin. destruct ks as [|k ks]; [inversion Hr|]. split; [by eapply pending_coros|].
  unfold reports. cbn [app fmap list_fmap]. eapply wp_turn_reports; [exact Hp|]. intros s1 Hp1 Hcur.
  eapply wp_mono; [|intros o e1 s2 H; eapply stops_mono; [exact H|]; intros e2 s3 H'; exact (tt_turns _ _ _ _ _ H')].
  unfold caller_body. rewrite Hown. do 2 wp_step. eapply wp_poll_ends; [exact Hp1|done|]. intros s2 Hrun.
  apply wp_bind_inv. apply wp_in_hook.
  apply (wp_hook_starts c (Inside sent) y (λ k r, o ← after k r; note y fd o) k ks x r t ks' Q); [by apply within_hook|done..].
Qed.

(** ** The functions nty_xxx *)

Lemma buffer_rest buf len sent : 0 ≤ len ≤ Z.of_nat (String.length buf) → 0 ≤ sent ≤ len →
  0 ≤ len - sent ≤ Z.of_nat (String.length (from buf sent)).
Proof. unfold from. rewrite str_drop_length. lia. Qed.
Lemma gone_rest t buf sent n : t = str_take (Z.to_nat sent) buf → 0 ≤ sent →
  t +:+ str_take (Z.to_nat n) (from buf sent) = str_take (Z.to_nat (sent + Z.max n 0)) buf.
Proof. intros -> Hs. unfold from. rewrite str_take_more_bytes. f_equal. lia. Qed.
Lemma wp_send_loop x buf len sent ks m t e s :
  send_loop buf len sent ks m → 0 ≤ len ≤ Z.of_nat (String.length buf) → 0 ≤ sent < len →
  t = str_take (Z.to_nat sent) buf → pending x (Nty (SSend buf len), fd, Own sent) t s →
  turns_then ks [] (settled (live e - 2) (str_take (Z.to_nat m) buf) (RInt m)) e s.
Proof.
  intros H Hb. revert t e s. induction H as [sent ks n Hr Hn|sent ks n Hr Hn Hd|sent ks n ks' m Hr Hn Hm Hl IH]; intros t e s Hs Ht Hp.
  all: try apply app_turns;
    eapply (wp_own (SSend (from buf sent) (len - sent)) (Nty (SSend buf len)) (λ _, send_next fd len sent));
    [done|done|by apply buffer_rest; lia|exact Hr|exact Hp|]; intros k _ s' Hrun; cbn [gone] in Hrun;
    rewrite (gone_rest t buf sent n Ht) in Hrun by lia; unfold send_next, send_while; cbn [ret_of]; pick; [|pick..].
  - apply wp_returning.
    destruct (Z.eqb_spec sent 0) as [->|]; [by replace (Z.to_nat n) with (Z.to_nat (0 + Z.max n 0)) by lia|].
    by replace (sent + Z.max n 0) with sent in Hrun by lia.
  - pick. apply wp_returning. by replace (sent + Z.max n 0) with (sent + n) in Hrun by lia.
  - pick. replace (sent + Z.max n 0) with (sent + n) in Hrun by lia. eapply wp_polls; [exact Hrun|by right|]. intros s2 Hp2.
    apply turns_app. eapply IH; [|reflexivity|exact Hp2]; lia.
Qed.
Lemma wp_sendto_loop x buf len sent ks m g t e s :
  sendto_loop buf len sent ks m g → 0 ≤ len ≤ Z.of_nat (String.length buf) → 0 ≤ sent < len →
  t = str_take (Z.to_nat sent) buf → pending x (Nty (SSendto buf len), fd, Own sent) t s →
  turns_then ks [] (settled (live e - 2) (str_take (Z.to_nat g) buf) (RInt m)) e s.
Proof.
  intros H Hb. revert t e s.
  induction H as [sent ks n Hr Hn Hd|sent ks n ks' m g Hr Hn Hm Hl IH|sent ks n k0 ks' m g Hr Hn Hk Hek Hl IH|sent ks n k0 Hr Hn Hk Hek];
    intros t e s Hs Ht Hp.
  all: try apply app_turns;
    eapply (wp_own (SSendto (from buf sent) (len - sent)) (Nty (SSendto buf len)) (λ k, sendto_next fd len k sent));
    [done|done|by apply buffer_rest; lia|exact Hr|exact Hp|]; intros k Hlast s' Hrun; cbn [gone] in Hrun;
    rewrite (gone_rest t buf sent n Ht) in Hrun by lia; unfold sendto_next, sendto_while; cbn [ret_of]; pick.
  - pick. apply wp_returning. by replace (sent + Z.max n 0) with (sent + n) in Hrun by lia.
  - pick. replace (sent + Z.max n 0) with (sent + n) in Hrun by lia. eapply wp_polls; [exact Hrun|by right|]. intros s2 Hp2.
    apply turns_app. eapply IH; [|reflexivity|exact Hp2]; lia.
  - rewrite Hk in Hlast. injection Hlast as <-. pick. pick. replace (sent + Z.max n 0) with sent in Hrun by lia.
    eapply wp_polls; [exact Hrun|by right|]. intros s2 Hp2. apply turns_app. eapply IH; [|reflexivity|exact Hp2]; lia.
  - rewrite Hk in Hlast. injection Hlast as <-. pick. pick. apply wp_returning. by replace (sent + Z.max n 0) with sent in Hrun by lia.
Qed.
(** The functions that only receive, accept or connect: what the hook leaves. *)
Definition final c (k : answers) r : Prop :=
  match c with
  | SAccept => 0 ≤ ret_of r ∨ errno k ≠ EAGAIN
  | SConnect => ret_of r = 0 ∨ ¬ in_progress k
  | SRecvfrom _ => 0 ≤ ret_of r ∨ errno k = EAGAIN
  | _ => True
  end.
Lemma resumes_final c sent ks k r : resumes c sent ks r → last ks = Some k → final c k r.
Proof.
  induction 1 as [| |k' ks r _ Hr IH| | |k' ks r _ Hr IH| | | | |? ? ? k' ? ?|? ? ? k' ks ? ? ? Hr IH| | | | |]; intros Hl;
    try (destruct (resumes_answers _ _ _ _ Hr) as [k2 Hk2]; rewrite last_cons, Hk2 in Hl; injection Hl as <-; by apply IH);
    injection Hl as <-; simpl; try done; try (by left); try (by right); left; lia.
Qed.
Lemma hook_returns_final c ks k r : hook_returns c ks r → last ks = Some k → match c with SSend _ _ => True | _ => final c k r end.
Proof.
  intros H Hl. destruct H as [c k' ks r _ Hr| | | |]; try done. destruct (resumes_answers _ _ _ _ Hr) as [k2 Hk2].
  rewrite last_cons, Hk2 in Hl. injection Hl as <-. pose proof (resumes_final _ _ _ _ _ Hr Hk2). by destruct c.
Qed.
Lemma wp_nty_polled x c ev (after : answers → result → M state (result + wait)) k ks r e s :
  (∀ k w, sys_step (Nty c) fd k w = polled fd ev (λ _, c) (λ _, after k) k w) → waits_for ev →
  hook_returns c ks r → buffer_ok c → gone c r = "" →
  (∀ k, last ks = Some k → after k r = returning r) → running x "" s →
  wp (caller_body (Nty c, fd, Start) k) e s (stops evfd x (turns_then ks [] (settled (live e - 2) "" r))).
Proof.
  intros Hstep Hev Hr Hb Hg Hafter Hrun. unfold caller_body. rewrite Hstep. eapply wp_polls; [exact Hrun|done|]. intros s' Hp.
  apply (wp_own c (Nty c) after 0 ks x r "" []); try done; [intros; by rewrite Hstep..|].
  intros k' Hk' s2 H2. rewrite (Hafter _ Hk'). rewrite Hg in H2. by apply wp_returning.
Qed.
Lemma send_first_ends len n :
  n = 0 ∨ len ≤ Z.max n 0 → send_first (P := caller) (W := option result) fd len (RInt n) = returning (RInt n).
Proof.
  intros H. unfold send_first, send_while. cbn [ret_of]. destruct (Z.eqb_spec n 0) as [|Hn]; [done|].
  destruct (Z.ltb_spec 0 n); [by replace (n <? len) with false by lia; replace (n <=? 0) with false by lia|].
  by replace (0 <? len) with false by lia; replace (n <=? 0) with true by lia.
Qed.
Lemma send_first_waits len n :
  n ≠ 0 → Z.max n 0 < len → send_first (P := caller) (W := option result) fd len (RInt n) = polls fd OUT_EVENTS (Z.max n 0).
Proof.
  intros Hn Hl. unfold send_first, send_while. cbn [ret_of]. replace (n =? 0) with false by lia.
  destruct (Z.ltb_spec 0 n); [replace (Z.max n 0) with n in * by lia|replace (Z.max n 0) with 0 in * by lia];
    by rewrite (proj2 (Z.ltb_lt _ _) Hl).
Qed.
Lemma stops_app x ks ks' Q o e s : stops evfd x (turns_then ks ks' Q) o e s → stops evfd x (turns_then (ks ++ ks') [] Q) o e s.
Proof. intros H. eapply stops_mono; [exact H|]. intros ? ?. apply app_turns. Qed.
Lemma wp_nty_send x buf len k ks r t e s :
  nty_returns (SSend buf len) (k :: ks) r t → buffer_ok (SSend buf len) → running x "" s →
  wp (caller_body (Nty (SSend buf len), fd, Start) k) e s (stops evfd x (turns_then ks [] (settled (live e - 2) t r))).
Proof.
  intros Hr Hb Hrun. assert (Hw : within (SSend buf len) First (Nty (SSend buf len))
    (λ k r, o ← send_first fd len r; note (Nty (SSend buf len)) fd o)) by by apply within_hook.
  unfold caller_body. cbn [sys_step nty_send]. apply wp_in_hook. inversion Hr as [|? ? ? n Hh Hn|? ? ks1 n ks2 m Hh Hn Hl Hloop Heq| |]; subst; [done|..].
  - apply (wp_hook_starts _ First _ _ k ks x (RInt n) "" [] _ e s Hw Hb Hh Hrun). intros k' _ s' Hs.
    rewrite (send_first_ends len n Hn). by apply wp_returning.
  - destruct ks1 as [|k1 ks1]; [inversion Hh|]. simplify_eq/=. eapply wp_mono;
      [apply (wp_hook_starts _ First _ _ k ks1 x (RInt n) "" ks2 (settled (live e - 2) (str_take (Z.to_nat m) buf) (RInt m)) e s Hw Hb Hh Hrun)
      |intros [r|i] e' s' H; [eapply wp_mono; [exact H|]; intros ? ? ?; by apply stops_app|exact (stops_app _ _ _ _ _ _ _ H)]].
    intros k' _ s' Hs. rewrite (send_first_waits len n Hn Hl). eapply wp_polls; [exact Hs|by right|]. intros s2 H2.
    apply turns_app. eapply wp_send_loop; [exact Hloop|done|lia| |exact H2].
    by replace (Z.to_nat (Z.max n 0)) with (Z.to_nat n) by lia.
Qed.
Lemma wp_nty_sendto x buf len k ks r t e s :
  nty_returns (SSendto buf len) (k :: ks) r t → buffer_ok (SSendto buf len) → running x "" s →
  wp (caller_body (Nty (SSendto buf len), fd, Start) k) e s (stops evfd x (turns_then ks [] (settled (live e - 2) t r))).
Proof.
  intros Hr Hb Hrun. unfold caller_body. cbn [sys_step nty_sendto]. unfold sendto_while. inversion Hr; subst; [done|..].
  - pick. eapply wp_polls; [exact Hrun|by right|]. intros s' Hp. eapply wp_sendto_loop; [done|done|lia| |exact Hp]. done.
  - by apply wp_returning.
Qed.
Lemma wp_sys_starts x y k ks r t e s :
  sys_returns y (k :: ks) r t → sys_ok y → running x "" s →
  wp (caller_body (y, fd, Start) k) e s (stops evfd x (turns_then ks [] (settled (live e - 2) t r))).
Proof.
  intros Hy Hok Hrun. destruct y as [c|c]; simpl in Hok.
  - destruct Hy as [Hr ->]. unfold caller_body. cbn [sys_step]. apply wp_in_hook.
    apply (wp_hook_starts c Own (Hook c) (λ k r, o ← returning r; note (Hook c) fd o) k ks x r "" []);
      [by apply (within_hook c Own (Hook c) (λ _, returning))|done..|]. intros k' _ s' Hs. by apply wp_returning.
  - simpl in Hy. destruct c as [| |len|len|buf len|buf len]; [..|by apply wp_nty_send|by apply wp_nty_sendto];
      inversion Hy as [? ? ? ? _ Hr| | | |]; subst;
      (eapply wp_nty_polled; [done|first [by left|by right]|exact Hr|done|done| |done]);
      intros k' Hk; pose proof (hook_returns_final _ _ _ _ Hr Hk) as Hf; simpl in Hf.
    + cbv beta. destruct Hf; by pick.
    + cbv beta. destruct Hf; [by pick|]. destruct (ret_of r =? 0); [done|]. by pick.
    + done.
    + cbv beta. destruct Hf; [by pick|]. destruct (ret_of r <? 0); [|done]. by pick.
Qed.
Lemma sys_returns_answers y r t : ¬ sys_returns y [] r t.
Proof.
  assert (Hh : ∀ c r, ¬ hook_returns c [] r) by by intros c ? H; inversion H.
  destruct y as [c|c]; [by intros [?%Hh _]|]. intros H. inversion H as [|? ? ? ? Hr|? ? ks1 ? ? ? Hr| |]; subst; [by apply Hh in Hr|].
  destruct ks1; [by apply Hh in Hr|done].
Qed.
(** The errors [recvfrom] and [sendto] do not know fail an assertion, which ends the
    process: so do the functions that call them. *)
Definition receives_unknown c (k : answers) : Prop :=
  match c with
  | SRecvfrom _ => a_recv k = None
  | SSendto _ len => 0 ≤ len ∧ a_send k < 0
  | _ => False
  end ∧ errno k ≠ EAGAIN ∧ errno k ≠ ECONNRESET.
Lemma hook_aborts x p c k t e s :
  receives_unknown c k → buffer_ok c → pending x p t s → curr_of s = Some x → hook_again c fd k 0 e s = UB.
Proof.
  intros (Hc & H1 & H2) Hb Hp Hcur. apply Z.eqb_neq in H1, H2. destruct c as [| |len|len|buf len|buf len]; try done; cbn [hook_again]; apply ub_bind.
  - apply ub_after. eapply wp_poll_ends; [exact Hp|done|]. intros s' _. cbn. by rewrite Hc, H1, H2.
  - apply ub_after. eapply wp_poll_ends; [exact Hp|done|]. intros s' Hrun. destruct Hc as [Hl Hs]. apply ub_after.
    eapply (wp_call_send t k x buf 0 len); [by rewrite str_app_nil|lia|by destruct Hb| |lia]. intros _. simpl. by rewrite H1, H2.
Qed.
Lemma caller_aborts y w c at_ (after : result → M state (result + wait)) k e s :
  sys_step y fd k w = in_hook at_ after (hook_again c fd k 0) → hook_again c fd k 0 e s = UB →
  caller_body (y, fd, w) k e s = UB.
Proof. intros Hy H. unfold caller_body. rewrite Hy. by do 2 apply ub_bind. Qed.
Theorem other_errors_abort x p c k t e s :
  receives_unknown c k → buffer_ok c → pending x p t s → curr_of s = Some x →
  caller_body (Hook c, fd, Own 0) k e s = UB ∧ caller_body (Nty c, fd, Inside 0 0) k e s = UB.
Proof.
  intros Hc Hb Hp Hcur. pose proof (hook_aborts x p c k t e s Hc Hb Hp Hcur) as H. split; [by eapply caller_aborts|].
  destruct Hc as [Hc _]. destruct c as [| |len|len|buf len|buf len]; try done; eapply caller_aborts; try done.
  cbn [sys_step nty_sendto polled]. unfold from. by rewrite Z.sub_0_r.
Qed.
End rules.

(** C23: A coroutine may write its calls as if they blocked.  Created on a process without
    a scheduler, it makes one call of nty_socket.c on an open descriptor, and yields where
    the call does.  At each report of the descriptor the system may answer that it would
    block or is in progress, take part of the bytes, reset the connection, or fail
    ([recvfrom] and [sendto] with the two errors they know, EAGAIN and ECONNRESET: any
    other one ends the process, [other_errors_abort]).  Then [accept], [connect], [recv],
    [recvfrom], [send] and [sendto], and the functions nty_xxx that call them, return what
    [sys_returns] says, having sent just the bytes it names; the coroutine ends, the
    scheduler is freed, and every block is freed. *)
Theorem coroutine_calls_return y fd flags poller evfd now U ks r t e :
  fd ∈ U → fd ≠ evfd → poller ≠ -1 → evfd ≠ -1 →
  malloc_fails e = false → malloc_fails (after_malloc e) = false →
  sys_ok y → sys_returns y ks r t →
  wp (nty_coroutine_create poller evfd (y, fd, Start);; nty_schedule_run caller_body (call_turns fd flags ks))
    e (Process None ∅ (Kernel U ∅ ∅ []) now None)
    (λ _ e' s, live e' = live e ∧ pr_world s = Some r ∧ pr_sched s = None ∧ sent_is fd t s).
Proof.
  intros Hfd Hne Hp Hev Hm1 Hm2 Hok Hy. wp_step. apply wp_create_first; [done..|]. intros x s Hc Hw Hopen Hsent.
  unfold nty_schedule_run. wp_step. wp_step. destruct (cs_sched _ _ _ _ _ Hc) as (sc & Hs & _). rewrite Hs.
  destruct ks as [|k ks]; [by apply sys_returns_answers in Hy|].
  cbn [call_turns]. eapply wp_run_turns; [exact Hc|by right|]. eapply wp_run_turn_new; [exact Hc|].
  intros s' Hc' Hd _ Hcur. eapply wp_mono; [eapply (wp_sys_starts evfd fd Hne flags x y k ks); [exact Hy|done|]|].
  - split; try done; [rewrite (sd_open _ _ Hd), Hopen; set_solver|]. exists []. rewrite (sd_sent _ _ Hd), Hsent. done.
  - intros o e2 s2 H. eapply stops_mono; [exact H|]. intros e3 s3 [[ws Hws] Ht]. exists ws. split; [done|]. cbn [tn_events rev run_events].
    wp_step. rewrite app_nil_r in Ht. eapply wp_mono; [exact Ht|]. intros ? ? ? (Hl & H'). split; [|exact H'].
    rewrite Hl, !live_after_malloc, Hm1, Hm2. lia.
Qed.

(** [nty_send] of 5 bytes: the hook sends 2 and waits, then fails and returns them; the
    function waits, and the hook sends the rest. *)
Lemma coroutine_calls_return_witness :
  let ks := [Answers 0 None 2 0; Answers (-11) None (-1) 0; Answers 0 None 9 0] in
  sys_returns (Nty (SSend "hello" 5)) ks (RInt 5) "hello" ∧
  wp (nty_coroutine_create 4 5 (Nty (SSend "hello" 5), 7, Start);; nty_schedule_run caller_body (call_turns 7 POLLOUT ks))
    (Env [] [] [] [] 0) (Process None ∅ (Kernel {[ 7 ]} ∅ ∅ []) 0 None)
    (λ _ e s, live e = 0 ∧ pr_world s = Some (RInt 5) ∧ pr_sched s = None ∧ sent_is 7 "hello" s).
Proof.
  intros ks. assert (H : sys_returns (Nty (SSend "hello" 5)) ks (RInt 5) "hello").
  { apply (Nty_send_rest "hello" 5 [Answers 0 None 2 0; Answers (-11) None (-1) 0] 2 [Answers 0 None 9 0] 5); [|lia|lia|].
    - apply Ret_send; [lia|simpl; lia|]. apply Res_send_more; [simpl; lia..|]. apply Res_send_stops; simpl; lia.
    - apply (Loop_done "hello" 5 2 [Answers 0 None 9 0] 3); [|lia..]. apply Ret_send; [lia|simpl; lia|]. apply Res_send; simpl; lia. }
  split; [exact H|].
  apply (coroutine_calls_return (Nty (SSend "hello" 5)) 7 POLLOUT 4 5 0 {[ 7 ]} ks (RInt 5) "hello").
  all: try done; try (exact H). all: set_solver.
Defined.

(** A refused connection (ECONNREFUSED, 111) ends a server that waits in [recvfrom], also
    when the scheduler is started from nothing. *)
Example refused_aborts :
  (nty_coroutine_create 4 5 (Nty (SRecvfrom 8), 7, Start);;
   nty_schedule_run caller_body (call_turns 7 POLLIN [no_answers; no_answers; Answers (-111) None 0 0]))
    (Env [] [] [] [] 0) (Process None ∅ (Kernel {[ 7 ]} ∅ ∅ []) 0 None) = UB.
Proof. vm_compute. reflexivity. Qed.
