(* ===== verification/TestProgram.v ===== *)
(** The test program of the repository, src/tests/testcase.c: a client that sends
    requests one by one and ends as soon as a reply is not the one it expects.

    The other end of its connection, the server with the kernel between them, is a
    record of two operations ([remote]); what the client sends stays on its way
    until the client waits for a reply. *)
From stdpp Require Import pretty.
From S2P Require Import Prelude CText KvsSpec Rdb Protocol Netio.

Local Open Scope Z_scope.

(** * Programs that may call [exit] *)

Inductive or_exit (A : Type) : Type := Goes (a : A) | Exits (code : Z).
Arguments Goes {A} _.
Arguments Exits {A} _.
Abbreviation prog W A := (M W (or_exit A)).
Definition p_ret {W A} (a : A) : prog W A := mret (Goes a).
Definition exit {W A} (code : Z) : prog W A := mret (Exits code).
Definition p_bind {W A B} (m : prog W A) (k : A → prog W B) : prog W B :=
  r ← m;
  match r with Goes a => k a | Exits code => exit code end.
Definition call_lib {W A} (m : M W A) : prog W A := a ← m; p_ret a.
Declare Scope prog_scope.
Delimit Scope prog_scope with prog.
Notation "x ⟸ m ; k" := (p_bind m (λ x, k)) (at level 20, m at level 100, k at level 200, only parsing) : prog_scope.
Notation "m ⨟ k" := (p_bind m (λ _, k)) (at level 100, k at level 200, right associativity) : prog_scope.
Local Open Scope prog_scope.
(** [for (i = 0; i < n; i++) body]. *)
Definition repeat {W} (n : Z) (body : Z → prog W unit) : prog W unit :=
  r ← for_up (Z.to_nat n) 0 (λ i, x ← body i; mret (match x with Goes _ => None | Exits code => Some code end));
  match r with None => p_ret tt | Some code => exit code end.

(** * The world of the client *)

(** Connecting to an address and a port; the bytes that come back for the bytes on
    their way. *)
Record remote (Sv : Type) := Remote {
  rm_reach : string → Z → M Sv bool;
  rm_answer : string → M Sv string
}.
Arguments Remote {Sv} _ _.
Arguments rm_reach {Sv} _ _ _.
Arguments rm_answer {Sv} _ _.
(** The server, the connected socket, the bytes on their way in both directions, the
    coming readings of [gettimeofday] (seconds and microseconds), what was printed. *)
Record world (Sv : Type) := World {
  w_server : Sv;
  w_conn : option Z;
  w_up : string;
  w_down : string;
  w_times : list (Z * Z);
  w_out : list string
}.
Arguments World {Sv} _ _ _ _ _ _.
Arguments w_server {Sv} _.
Arguments w_conn {Sv} _.
Arguments w_up {Sv} _.
Arguments w_down {Sv} _.
Arguments w_times {Sv} _.
Arguments w_out {Sv} _.

Section client.
Context {Sv : Type} (peer : remote Sv) (sock : Z).

Definition w_set_server (x : Sv) (w : world Sv) := World x (w_conn w) (w_up w) (w_down w) (w_times w) (w_out w).
Definition w_set_conn c (w : world Sv) := World (w_server w) c (w_up w) (w_down w) (w_times w) (w_out w).
Definition w_set_up s (w : world Sv) := World (w_server w) (w_conn w) s (w_down w) (w_times w) (w_out w).
Definition w_set_down s (w : world Sv) := World (w_server w) (w_conn w) (w_up w) s (w_times w) (w_out w).
Definition w_set_times l (w : world Sv) := World (w_server w) (w_conn w) (w_up w) (w_down w) l (w_out w).
Definition w_print s (w : world Sv) := World (w_server w) (w_conn w) (w_up w) (w_down w) (w_times w) (w_out w ++ [s]).

(** ** The system calls *)

Definition gettimeofday : M (world Sv) (Z * Z) :=
  ts ← gets w_times;
  match ts with
  | [] => mret (0, 0)
  | t :: ts' => modify (w_set_times ts');; mret t
  end.
Definition printf (s : string) : M (world Sv) unit := modify (w_print s).
Definition send (connfd : Z) (data : string) : M (world Sv) Z :=
  c ← gets w_conn;
  if bool_decide (c = Some connfd) then
    modify (λ w, w_set_up (w_up w +:+ data) w);;
    mret (Z.of_nat (String.length data))
  else mret (-1).
(** [recv] blocks until there are bytes, for ever when nothing was asked. *)
Definition recv (connfd : Z) (n : Z) : M (world Sv) (option string) :=
  c ← gets w_conn;
  if bool_decide (c = Some connfd) then
    d ← gets w_down;
    up ← gets w_up;
    d ← (if negb (String.eqb d "") then mret d
         else if String.eqb up "" then out_of_fuel
         else modify (w_set_up "");; zoom w_server w_set_server (rm_answer peer up));
    modify (w_set_down (str_drop (Z.to_nat n) d));;
    mret (Some (str_take (Z.to_nat n) d))
  else mret None.

(** * The program *)

Definition MAX_MSG_LENGTH : Z := 1024.
(** [TIME_SUB_MS(tv1, tv2)], a long. *)
Definition TIME_SUB_MS (tv1 tv2 : Z * Z) : Z := (tv1.1 - tv2.1) * 1000 + Z.quot (tv1.2 - tv2.2) 1000.

Definition send_msg (connfd : Z) (msg : string) (length : Z) : prog (world Sv) Z :=
  res ← send connfd (str_take (Z.to_nat length) msg);
  if (res <? 0) then exit 1 else p_ret res.
(** The bytes go to the front of the array [msg]. *)
Definition recv_msg (connfd : Z) (msg : string) (length : Z) : prog (world Sv) (Z * string) :=
  data ← recv connfd length;
  match data with
  | None => exit 1
  | Some d => p_ret (Z.of_nat (String.length d), overwrite d msg)
  end.

(** [strcmp] of an array with a text: whether they are equal; [None] when the
    comparison leaves the array. *)
Fixpoint same_text (array text : string) : option bool :=
  match array, text with
  | EmptyString, _ => None
  | String c _, EmptyString => Some (Ascii.eqb c NUL)
  | String c array', String d text' =>
      if Ascii.eqb c d then same_text array' text' else Some false
  end.

Definition testcase (connfd : Z) (msg pattern casename : cptr) : prog (world Sv) unit :=
  if is_null msg || is_null pattern || is_null casename then p_ret tt else
  m ⟸ call_lib (deref msg);
  send_msg connfd m (Z.of_nat (String.length m)) ⨟
  got ⟸ recv_msg connfd (nuls (Z.to_nat MAX_MSG_LENGTH)) MAX_MSG_LENGTH;
  p ⟸ call_lib (deref pattern);
  same ⟸ call_lib (some_or_ub (same_text got.2 p));
  if same : bool then p_ret tt else exit 1.

(** [htons] and [inet_addr] are the kernel's reading of the address. *)
Definition connect_tcpserver (ip : string) (port : Z) : M (world Sv) Z :=
  if (sock <? 0) then mret (-1) else
  ok ← zoom w_server w_set_server (rm_reach peer ip port);
  if ok : bool then modify (w_set_conn (Some sock));; mret sock else mret (-1).

(** ** The cases *)

(** The functions exist once per engine.  The copies differ in the letter [c] in
    front of the commands and in what they print.  The [_1w] functions repeat the nine
    cases of the first one in a loop. *)
Definition case (c : string) (connfd : Z) (msg pattern name : string) : prog (world Sv) unit :=
  testcase connfd (PStr (c +:+ msg)) (PStr (pattern +:+ crlf)) (PStr (c +:+ name)).

Definition student_testcase (c : string) (connfd : Z) : prog (world Sv) unit :=
  case c connfd "SET Student GuLu" "OK" "SET-Student-GuLu" ⨟
  case c connfd "GET Student" "GuLu" "GET-Student" ⨟
  case c connfd "MOD Student Lighting" "OK" "MOD-Student-Lighting" ⨟
  case c connfd "GET Student" "Lighting" "GET-Student" ⨟
  case c connfd "EXIST Student" "EXIST" "EXIST-Student" ⨟
  case c connfd "DEL Student" "OK" "DEL-Student" ⨟
  case c connfd "GET Student" "NO EXIST" "GET-Student" ⨟
  case c connfd "MOD Student Lian" "NO EXIST" "MOD-Student-Lian" ⨟
  case c connfd "EXIST Student" "NO EXIST" "EXIST-Student".
Definition array_testcase : Z → prog (world Sv) unit := student_testcase "".
Definition rbtree_testcase : Z → prog (world Sv) unit := student_testcase "R".
Definition hash_testcase : Z → prog (world Sv) unit := student_testcase "H".
Definition skiplist_testcase : Z → prog (world Sv) unit := student_testcase "S".

Definition count : Z := 10000.
(** The time a body takes, and the queries per second: an [int] division. *)
Definition timed (report : Z → Z → string) (body : prog (world Sv) unit) : prog (world Sv) unit :=
  tv_begin ⟸ call_lib gettimeofday;
  body ⨟
  tv_end ⟸ call_lib gettimeofday;
  let time_used := to_int (TIME_SUB_MS tv_end tv_begin) in
  if (time_used =? 0) then ub else
  call_lib (printf (report time_used (Z.quot (90000 * 1000) time_used))).
Definition line_1w (name : string) (time_used qps : Z) : string :=
  name +:+ " testcase_1w --> time_used: " +:+ pretty time_used +:+ ", qps: " +:+ pretty qps +:+ String LF "".
Definition line_1w_0 (name ms : string) (time_used qps : Z) : string :=
  name +:+ " testcase_1w_0 --> time_used: " +:+ pretty time_used +:+ ms +:+ ", qps: " +:+ pretty qps +:+ String LF "".

Definition testcase_1w (c name : string) (connfd : Z) : prog (world Sv) unit :=
  timed (line_1w name) (repeat count (λ _, student_testcase c connfd)).
Definition array_testcase_1w : Z → prog (world Sv) unit := testcase_1w "" "array".
Definition rbtree_testcase_1w : Z → prog (world Sv) unit := testcase_1w "R" "rbtree".
Definition hash_testcase_1w : Z → prog (world Sv) unit := testcase_1w "H" "hash".
Definition skiplist_testcase_1w : Z → prog (world Sv) unit := testcase_1w "S" "skiplist".

(** [snprintf(cmd, 128, ...)] of a command on the key of number [i], with or without a
    value, and of the line of a value. *)
Definition student (i : Z) : string := "Student" +:+ pretty i.
Definition cmd_key (verb : string) (i : Z) : string := truncate 128 (verb +:+ " " +:+ student i).
Definition cmd_value (verb value : string) (i : Z) : string :=
  truncate 128 (verb +:+ " " +:+ student i +:+ " " +:+ value +:+ pretty i).
Definition result_line (value : string) (i : Z) : string := truncate 128 (value +:+ pretty i +:+ crlf).
Definition each (connfd : Z) (cmd result : Z → string) (name : string) : prog (world Sv) unit :=
  repeat count (λ i, testcase connfd (PStr (cmd i)) (PStr (result i)) (PStr name)).

Definition testcase_1w_0 (c name ms last_mod : string) (connfd : Z) : prog (world Sv) unit :=
  timed (line_1w_0 name ms) (
    each connfd (cmd_value (c +:+ "SET") "GuLu") (λ _, "OK" +:+ crlf) (c +:+ "SET-Student-GuLu") ⨟
    each connfd (cmd_key (c +:+ "GET")) (result_line "GuLu") (c +:+ "GET-Student") ⨟
    each connfd (cmd_value (c +:+ "MOD") "Lighting") (λ _, "OK" +:+ crlf) (c +:+ "MOD-Student-Lighting") ⨟
    each connfd (cmd_key (c +:+ "GET")) (result_line "Lighting") (c +:+ "GET-Student") ⨟
    each connfd (cmd_key (c +:+ "EXIST")) (λ _, "EXIST" +:+ crlf) (c +:+ "EXIST-Student") ⨟
    each connfd (cmd_key (c +:+ "DEL")) (λ _, "OK" +:+ crlf) (c +:+ "DEL-Student") ⨟
    each connfd (cmd_key (c +:+ "GET")) (λ _, "NO EXIST" +:+ crlf) (c +:+ "GET-Student") ⨟
    each connfd (cmd_value (c +:+ "MOD") "Lian") (λ _, "NO EXIST" +:+ crlf) (c +:+ last_mod) ⨟
    each connfd (cmd_key (c +:+ "EXIST")) (λ _, "NO EXIST" +:+ crlf) (c +:+ "EXIST-Student")).
Definition array_testcase_1w_0 : Z → prog (world Sv) unit := testcase_1w_0 "" "array" " ms" "MOD-Student".
Definition rbtree_testcase_1w_0 : Z → prog (world Sv) unit := testcase_1w_0 "R" "rbtree" "" "MOD-Student-Lian".
Definition hash_testcase_1w_0 : Z → prog (world Sv) unit := testcase_1w_0 "H" "hash" "" "MOD-Student-Lian".
Definition skiplist_testcase_1w_0 : Z → prog (world Sv) unit := testcase_1w_0 "S" "skiplist" "" "MOD-Student-Lian".

(** [main]; the result is the exit status. *)
Definition main (argv : list string) : prog (world Sv) Z :=
  match argv with
  | [_; ip; arg] =>
      let port := atoi arg in
      connfd ⟸ call_lib (connect_tcpserver ip (port mod 2 ^ 16));
      rbtree_testcase_1w connfd ⨟
      rbtree_testcase_1w_0 connfd ⨟
      array_testcase_1w connfd ⨟
      array_testcase_1w_0 connfd ⨟
      hash_testcase_1w connfd ⨟
      hash_testcase_1w_0 connfd ⨟
      skiplist_testcase_1w connfd ⨟
      hash_testcase connfd ⨟
      skiplist_testcase connfd ⨟
      skiplist_testcase_1w_0 connfd ⨟
      p_ret 0
  | _ => call_lib (printf ("argc error" +:+ String LF "")) ⨟ p_ret (-1)
  end.
End client.
