(* ===== verification/TestProof.v ===== *)
(** The test program passes: against any server that answers its one client as a
    finite map does (class [TestServer]), and against the default build. *)
From stdpp Require Import pretty.
From S2P Require Import Prelude CText KvsSpec KvsArray Rdb RdbProof Protocol Requests Dispatch Engines Session Netio Reactor ReactorProof Clients TestProgram.

Local Open Scope Z_scope.
Local Open Scope prog_scope.

(** * Rules: a program that does not exit *)

Section rules.
Context {W : Type}.
Definition wpp {A} (m : prog W A) (e : env) (w : W) (Q : A → env → W → Prop) : Prop :=
  wp m e w (λ r e' w', match r with Goes a => Q a e' w' | Exits _ => False end).

Lemma wpp_mono {A} (m : prog W A) e w (Q Q' : A → env → W → Prop) :
  wpp m e w Q → (∀ a e' w', Q a e' w' → Q' a e' w') → wpp m e w Q'.
Proof. intros H HQ. eapply wp_mono; [exact H|]. intros [a|c]; [apply HQ|done]. Qed.
Lemma wpp_ret {A} (a : A) e w Q : Q a e w → wpp (p_ret a) e w Q.
Proof. done. Qed.
Lemma wpp_bind {A B} (m : prog W A) (k : A → prog W B) e w Q :
  wpp m e w (λ a e' w', wpp (k a) e' w' Q) → wpp (p_bind m k) e w Q.
Proof. intros H. unfold wpp, p_bind. wp_step. eapply wp_mono; [exact H|]. by intros [a|c]. Qed.
Lemma wpp_call {A} (m : M W A) e w Q : wp m e w Q → wpp (call_lib m) e w Q.
Proof. intros H. unfold wpp, call_lib. wp_step. exact H. Qed.
Lemma wpp_repeat (I : Z → env → W → Prop) n body e w Q :
  0 ≤ n → I 0 e w →
  (∀ i e w, 0 ≤ i < n → I i e w → wpp (body i) e w (λ _, I (i + 1))) →
  (∀ e w, I n e w → Q tt e w) →
  wpp (repeat n body) e w Q.
Proof.
  intros Hn HI Hb HQ. unfold wpp, repeat. wp_step. apply (wp_for_up I); [done| |].
  - intros i e1 w1 Hi HI1. wp_step. eapply wp_mono; [apply Hb; [lia|exact HI1]|]. by intros [[]|c] e2 w2 H; wp_step.
  - intros e1 w1 HI1. apply HQ. by rewrite Z.add_0_l, Z2Nat.id in HI1.
Qed.
End rules.

(** * The words of the requests *)

Fixpoint digits (s : string) : bool :=
  match s with
  | EmptyString => true
  | String c s' => (48 <=? Ascii.nat_of_ascii c)%nat && (Ascii.nat_of_ascii c <=? 57)%nat && digits s'
  end.
Lemma digits_go x s : digits s = true → digits (pretty_N_go x s) = true.
Proof.
  revert s. induction (N.lt_wf_0 x) as [x _ IH]. intros s Hs.
  destruct (decide (x = 0%N)) as [->|Hx]; [by rewrite pretty_N_go_0|].
  rewrite pretty_N_go_step by lia. apply IH; [by apply N.div_lt; lia|].
  assert (Hd : (x `mod` 10 < 10)%N) by (by apply N.mod_lt).
  simpl. rewrite Hs, andb_true_r. destruct (x `mod` 10)%N as [|p]; [done|].
  by do 4 (destruct p as [p|p|]; try done).
Qed.
Lemma digits_pretty z : 0 ≤ z → digits (pretty z) = true.
Proof.
  intros Hz. destruct z as [|p|p]; [done| |lia]. unfold pretty, pretty_Z, pretty, pretty_positive, pretty, pretty_N.
  rewrite decide_False by done. by apply digits_go.
Qed.
Lemma digits_has c s : digits s = true → (Ascii.nat_of_ascii c < 48)%nat → has c s = false.
Proof.
  intros Hs Hc. induction s as [|d s IH]; [done|]. cbn [digits has] in *. rewrite !andb_true_iff, !Nat.leb_le in Hs.
  destruct Hs as [[H1 H2] Hs]. rewrite IH by done. destruct (Ascii.eqb_spec d c) as [->|]; [lia|done].
Qed.
Lemma digits_ascii s : digits s = true → ascii_text s = true.
Proof.
  induction s as [|d s IH]; [done|]. cbn [digits ascii_text]. rewrite !andb_true_iff, !Nat.leb_le, !Nat.ltb_lt.
  intros [[H1 H2] Hs]. split_and!; [lia|lia|by apply IH].
Qed.

(** Tokens that are sent as they are, and not long. *)
Definition word (n : nat) (t : string) : bool :=
  plain t && negb (has CR t) && negb (has LF t) && ascii_text t && (String.length t <=? n)%nat.
Record is_word (n : nat) (t : string) : Prop := {
  wd_plain : plain t = true;
  wd_line : one_line t;
  wd_ascii : ascii_text t = true;
  wd_length : (String.length t ≤ n)%nat
}.
Lemma word_spec n t : word n t = true ↔ is_word n t.
Proof.
  unfold word. rewrite !andb_true_iff, !negb_true_iff, Nat.leb_le.
  split; [by intros [[[[? ?] ?] ?] ?]; split|by intros [? [? ?] ? ?]].
Qed.
Lemma word_number n t i : word n t = true → 0 ≤ i < 10000 → is_word (n + 4) (t +:+ pretty i).
Proof.
  intros [Hp [Hc Hl] Ha Hn]%word_spec Hi. pose proof (digits_pretty i ltac:(lia)) as Hd.
  pose proof (pretty_length 3 i ltac:(simpl; lia)) as Hlen. split.
  - destruct t as [|c t]; [done|]. rewrite str_cons_app. unfold plain in *. apply andb_true_iff in Hp as [Hq Hs%negb_true_iff].
    by rewrite Hq, <-str_cons_app, has_app, Hs, (digits_has space (pretty i)) by first [done|by apply Nat.ltb_lt].
  - split; rewrite has_app, ?Hc, ?Hl; apply digits_has; first [done|by apply Nat.ltb_lt].
  - rewrite ascii_app, Ha. by apply digits_ascii.
  - rewrite str_len_app. lia.
Qed.
Lemma word_request en o :
  Forall (is_word 30) (op_tokens en o) →
  request_ok (ROp en o) ∧ op_line en o = String.concat " " (op_tokens en o) ∧ (String.length (op_line en o) < 127)%nat.
Proof.
  intros H. assert (Hr : Forall (λ t, render_token t = t) (op_tokens en o)).
  { eapply Forall_impl; [exact H|]. intros t Ht. unfold render_token. by rewrite (wd_plain _ _ Ht). }
  assert (Hline : op_line en o = String.concat " " (op_tokens en o)).
  { unfold op_line. destruct o; simpl op_tokens in *; repeat (apply Forall_cons in Hr as [? Hr]); cbn [render_line];
      repeat match goal with E : render_token ?t = ?t |- _ => rewrite E; clear E end; reflexivity. }
  assert (Hlen : (String.length (op_line en o) < 127)%nat).
  { assert (String.length (prefix_of en) ≤ 1)%nat by (destruct en; simpl; lia).
    rewrite Hline. destruct o; simpl op_tokens in *; repeat (apply Forall_cons in H as [[_ _ _ ?] H]); simpl String.concat; rewrite !str_len_app; simpl String.length; lia. }
  split_and!; [|done..]. split_and!; try done; unfold request_line, request_tokens.
  - eapply Forall_impl; [exact H|]. intros t Ht. split; [left|]; apply Ht.
  - change (ascii_text (op_line en o) = true). rewrite Hline.
    destruct o; simpl op_tokens in *; repeat (apply Forall_cons in H as [[_ _ ? _] H]); simpl String.concat; rewrite !ascii_app in *;
      repeat match goal with E : _ = true |- _ => rewrite E; clear E end; by destruct en.
  - change (Z.of_nat (String.length (op_line en o)) < BUFFER_LENGTH). unfold BUFFER_LENGTH. lia.
Qed.

(** * What the program needs of the server *)

(** A listening server; one that holds a map and is connected to the client. *)
Class TestServer {Sv} (peer : remote Sv) := {
  ts_up : env → Sv → Prop;
  ts_holds : tagged → env → Sv → Prop;
  ts_reach ip port e s : ts_up e s → wp (rm_reach peer ip port) e s (λ ok e' s', ok = true ∧ ts_holds ∅ e' s');
  ts_answer m en o e s :
    ts_holds m e s → request_ok (ROp en o) → allowed en o m = true →
    wp (rm_answer peer (op_line en o)) e s (λ t e' s',
      t = r_text (reply_of o (tag_step en o m).1) ∧ ts_holds (tag_step en o m).2 e' s')
}.

Section passes.
Context {Sv : Type} (peer : remote Sv) `{!TestServer peer} (sock : Z) (Hsock : 0 ≤ sock).
Implicit Types (e : env) (w : world Sv) (m : tagged).

(** The client between two cases. *)
Record talking (ts : list (Z * Z)) m e w : Prop := {
  tk_server : ts_holds m e (w_server w);
  tk_conn : w_conn w = Some sock;
  tk_up : w_up w = "";
  tk_down : w_down w = "";
  tk_times : w_times w = ts
}.

Lemma str_drop_ge n s : (String.length s ≤ n)%nat → str_drop n s = "".
Proof. revert s. induction n as [|n IH]; intros [|c s]; simpl; try done; [lia|]. intros H. apply IH. lia. Qed.
Lemma same_text_refl (p tail : string) : same_text (p +:+ String NUL tail) p = Some true.
Proof. induction p as [|c p IH]; [done|]. rewrite str_cons_app. simpl. by rewrite Ascii.eqb_refl. Qed.

(** One case: the request is sent, the reply is the expected one. *)
Lemma wpp_testcase ts m en o msg pattern name e w Q :
  talking ts m e w → op_line en o = msg → request_ok (ROp en o) → allowed en o m = true →
  r_text (reply_of o (tag_step en o m).1) = pattern → (0 < String.length pattern < 1024)%nat →
  (∀ e' w', talking ts (tag_step en o m).2 e' w' → Q tt e' w') →
  wpp (testcase peer sock (PStr msg) (PStr pattern) (PStr name)) e w Q.
Proof.
  intros [Hs Hc Hup Hdown Hts] <- Hr Hal Hreply Hlen HQ. unfold testcase. simpl orb. cbv iota.
  pose proof (request_line_pos (ROp en o)) as Hpos. change (request_line (ROp en o)) with (op_line en o) in Hpos.
  apply wpp_bind, wpp_call. wp_step. apply wpp_bind. unfold send_msg, send.
  rewrite Nat2Z.id, str_take_all. unfold wpp at 1. do 3 wp_step. rewrite bool_decide_eq_true_2 by done. do 3 wp_step.
  rewrite (proj2 (Z.ltb_ge _ _)) by lia. unfold p_ret at 1. wp_step. apply wpp_bind. unfold recv_msg, recv, wpp at 1. do 3 wp_step.
  simpl w_conn. rewrite bool_decide_eq_true_2 by done. do 4 wp_step. simpl w_down. simpl w_up. rewrite Hdown, Hup.
  change ("" +:+ op_line en o) with (op_line en o). simpl negb. cbv iota.
  destruct (String.eqb_spec (op_line en o) "") as [Hnil|_]; [rewrite Hnil in Hpos; simpl in Hpos; lia|].
  do 2 wp_step. apply wp_zoom. eapply wp_mono; [by apply (ts_answer m)|]. intros t e' s' [-> Hs']. rewrite Hreply.
  do 3 wp_step. rewrite str_take_ge by (unfold MAX_MSG_LENGTH; lia). unfold p_ret at 1. wp_step. apply wpp_bind, wpp_call. wp_step. apply wpp_bind, wpp_call. cbn [fst snd].
  destruct (received_line pattern) as [tail Hov]; [unfold BUFFER_LENGTH; lia|].
  change (nuls (Z.to_nat MAX_MSG_LENGTH)) with zero_buffer. rewrite Hov, same_text_refl. wp_step.
  apply HQ. split; try done. cbn [w_down w_set_down]. apply str_drop_ge. unfold MAX_MSG_LENGTH. lia.
Qed.
(** ** One student *)

Definition one_student (en : engine_name) (v : string) : tagged := {[ "Student" := (en, v) ]}.
Definition a_student (en : engine_name) (x : option string) : tagged := from_option (one_student en) ∅ x.
Lemma student_allowed en o x : op_key o = "Student" → allowed en o (a_student en x) = true.
Proof. intros Hk. unfold allowed. rewrite Hk. destruct en, (is_set o), x; vm_compute; reflexivity. Qed.
(** What an operation does to its row. *)
Definition row_step (o : kv_op) (before : option string) (a : kv_answer) (after : option string) : Prop :=
  ∀ w : gmap string string, w !! op_key o = before →
    (spec_step o w).1 = a ∧ (spec_step o w).2 !! op_key o = after.
Ltac row_solve :=
  let w := fresh in let Hw := fresh in
  intros w Hw; cbn [op_key spec_step] in *; rewrite Hw; cbn [fst snd];
  rewrite ?lookup_insert_eq, ?lookup_delete_eq, ?Hw; by split.
Lemma student_step en o x y a :
  op_key o = "Student" →
  row_step o x a y →
  tag_step en o (a_student en x) = (a, a_student en y).
Proof.
  intros Hk Hstep. destruct (Hstep (values (a_student en x))) as [Ha Hy].
  { rewrite Hk, values_lookup. destruct x; [|done]. unfold a_student, from_option, one_student. by rewrite lookup_singleton_eq. }
  rewrite (surjective_pairing (tag_step _ _ _)), tag_step_answer, Ha. f_equal. apply map_eq. intros k.
  rewrite tag_step_lookup, Hy, Hk. unfold a_student, from_option, one_student. case_decide as Hki.
  - subst k. destruct y; [by rewrite lookup_singleton_eq|done].
  - by destruct x, y; rewrite ?lookup_singleton_ne, ?lookup_empty by congruence.
Qed.
Lemma wpp_student_case ts en o x y a msg pattern name e w Q :
  talking ts (a_student en x) e w → op_key o = "Student" →
  row_step o x a y →
  request_ok (ROp en o) → op_line en o = prefix_of en +:+ msg → r_text (reply_of o a) = pattern +:+ crlf →
  (0 < String.length (pattern +:+ crlf) < 1024)%nat →
  (∀ e' w', talking ts (a_student en y) e' w' → Q tt e' w') →
  wpp (case peer (prefix_of en) sock msg pattern name) e w Q.
Proof.
  intros Ht Hk Hstep Hr Hmsg Hpat Hlen HQ. pose proof (student_step en o x y a Hk Hstep) as Hs.
  apply (wpp_testcase ts (a_student en x) en o); [done..| | |done|].
  - by apply student_allowed.
  - by rewrite Hs.
  - by rewrite Hs.
Qed.

Ltac student_case en o y Ht :=
  eapply (wpp_student_case _ en o _ y);
  [exact Ht|reflexivity|row_solve|destruct en; request_solve
  |by destruct en|reflexivity|simpl; lia|clear Ht; intros ? ? Ht].
Lemma wpp_student ts en e w Q :
  talking ts ∅ e w → (∀ e' w', talking ts ∅ e' w' → Q tt e' w') →
  wpp (student_testcase peer (prefix_of en) sock) e w Q.
Proof.
  change (∅ : tagged) with (a_student en None). intros Ht HQ. unfold student_testcase.
  apply wpp_bind. student_case en (OpSet "Student" "GuLu") (Some "GuLu") Ht.
  apply wpp_bind. student_case en (OpGet "Student") (Some "GuLu") Ht.
  apply wpp_bind. student_case en (OpMod "Student" "Lighting") (Some "Lighting") Ht.
  apply wpp_bind. student_case en (OpGet "Student") (Some "Lighting") Ht.
  apply wpp_bind. student_case en (OpExist "Student") (Some "Lighting") Ht.
  apply wpp_bind. student_case en (OpDel "Student") (None : option string) Ht.
  apply wpp_bind. student_case en (OpGet "Student") (None : option string) Ht.
  apply wpp_bind. student_case en (OpMod "Student" "Lian") (None : option string) Ht.
  student_case en (OpExist "Student") (None : option string) Ht. by apply HQ.
Qed.

(** ** Many students *)

(** A map of values by number. *)
Definition table (en : engine_name) (f : gmap Z string) : tagged := pair en <$> kmap student f.
Global Instance student_inj : Inj (=) (=) student.
Proof. intros i j H. unfold student in H. injection H as H. by apply (inj pretty). Qed.
Lemma table_empty en : table en ∅ = ∅.
Proof. unfold table. by rewrite kmap_empty, fmap_empty. Qed.
Lemma table_values en f : values (table en f) = kmap student f.
Proof. unfold table, values. rewrite <-map_fmap_compose. apply map_fmap_id. Qed.
Lemma table_lookup en f i : values (table en f) !! student i = f !! i.
Proof. rewrite table_values. apply (lookup_kmap student). Qed.
Lemma table_part en f : (size (part en (table en f)) ≤ size f)%nat.
Proof.
  etrans; [apply part_size|]. unfold table. rewrite map_size_fmap.
  induction f as [|i v f Hi IH] using map_ind; [done|]. rewrite (kmap_insert student).
  rewrite !map_size_insert_None; [lia|done|]. by rewrite (lookup_kmap student).
Qed.

(** The table while a loop turns [before] into [after]: the numbers below [i] are
    done. *)
Definition rows (i : Z) (before after : Z → option string) (f : gmap Z string) : Prop :=
  ∀ j, f !! j = if decide (0 ≤ j < count) then (if decide (j < i) then after j else before j) else None.
Lemma rows_size i before after f : rows i before after f → Z.of_nat (size f) ≤ count.
Proof.
  intros Hf. assert (Hd : dom f ⊆ list_to_set (seqZ 0 count)).
  { intros j [v Hj]%elem_of_dom. apply elem_of_list_to_set, elem_of_seqZ. rewrite Hf in Hj. by case_decide; [lia|]. }
  apply subseteq_size in Hd. rewrite size_dom, size_list_to_set, length_seqZ in Hd by apply NoDup_seqZ. unfold count in *. lia.
Qed.
Lemma rows_next before after after' f : rows count before after f → rows 0 after after' f.
Proof. intros Hf j. rewrite (Hf j). case_decide; [|done]. by rewrite decide_True, decide_False by lia. Qed.
Lemma rows_none before f : rows count before (λ _, None) f → f = ∅.
Proof. intros Hf. apply map_empty. intros j. rewrite (Hf j). by repeat case_decide; try lia. Qed.

Lemma rows_step en o a i before after f :
  rows i before after f → 0 ≤ i < count → op_key o = student i → row_step o (before i) a (after i) →
  allowed en o (table en f) = true ∧
  ∃ f', tag_step en o (table en f) = (a, table en f') ∧ rows (i + 1) before after f'.
Proof.
  intros Hf Hi Hk Hstep.
  assert (Hrow : values (table en f) !! op_key o = before i).
  { rewrite Hk, table_lookup, (Hf i). by rewrite decide_True, decide_False by lia. }
  destruct (Hstep _ Hrow) as [Ha Hafter]. split.
  - unfold allowed. rewrite andb_true_iff. split.
    + unfold table. rewrite lookup_fmap. destruct (kmap student f !! op_key o); simpl; [by apply bool_decide_eq_true|done].
    + apply orb_true_iff. right. apply bool_decide_eq_true. pose proof (rows_size _ _ _ _ Hf). pose proof (table_part en f).
      eapply (fits_less en); [apply le_n_S; eassumption|]. unfold count, fits_in, limit, KVS_ARRAY_SIZE, INT_MAX in *. destruct en; lia.
  - exists (partial_alter (λ _, after i) i f). split.
    + rewrite (surjective_pairing (tag_step _ _ _)), tag_step_answer, Ha. f_equal. apply map_eq. intros k. rewrite tag_step_lookup, Hafter.
      unfold table. rewrite (kmap_partial_alter student), !lookup_fmap. case_decide as Hki.
      * by rewrite Hki, Hk, lookup_partial_alter_eq.
      * by rewrite lookup_partial_alter_ne by congruence.
    + intros j. destruct (decide (i = j)) as [<-|Hne].
      * by rewrite lookup_partial_alter_eq, !decide_True by lia.
      * rewrite lookup_partial_alter_ne by done. rewrite (Hf j). case_decide; [|done]. by repeat case_decide; try lia.
Qed.

(** One loop of the test. *)
Lemma wpp_each ts en before after cmd result name (o : Z → kv_op) (a : Z → kv_answer) f e w Q :
  talking ts (table en f) e w → rows 0 before after f →
  (∀ i, 0 ≤ i < count → op_key (o i) = student i ∧ row_step (o i) (before i) (a i) (after i) ∧
    (cmd i = op_line en (o i) ∧ request_ok (ROp en (o i))) ∧
    (r_text (reply_of (o i) (a i)) = result i ∧ (0 < String.length (result i) < 1024)%nat)) →
  (∀ f' e' w', talking ts (table en f') e' w' → rows count before after f' → Q tt e' w') →
  wpp (each peer sock cmd result name) e w Q.
Proof.
  intros Ht Hf Ho HQ. unfold each.
  apply (wpp_repeat (λ i e w, ∃ f, talking ts (table en f) e w ∧ rows i before after f)); [done|by exists f| |].
  - intros i e1 w1 Hi (f1 & Ht1 & Hf1). destruct (Ho i Hi) as (Hk & Hrow & [-> Hr] & Hres & Hlen).
    destruct (rows_step en (o i) (a i) i before after f1 Hf1 Hi Hk Hrow) as (Hal & f2 & Hstep & Hf2).
    eapply (wpp_testcase ts (table en f1) en (o i)); [done..| |done|].
    + by rewrite Hstep.
    + intros e2 w2 Ht2. rewrite Hstep in Ht2. by exists f2.
  - intros e1 w1 (f1 & Ht1 & Hf1). by eapply HQ.
Qed.
(** ** The requests of the loops *)

Definition numbered (value : string) (i : Z) : string := value +:+ pretty i.
Lemma short_truncate s : (String.length s < 128)%nat → truncate 128 s = s.
Proof. intros H. unfold truncate. apply substring_all. simpl. lia. Qed.
Lemma asks_key en o verb i :
  op_tokens en o = [prefix_of en +:+ verb; student i] → word 30 (prefix_of en +:+ verb) = true → 0 ≤ i < count →
  cmd_key (prefix_of en +:+ verb) i = op_line en o ∧ request_ok (ROp en o).
Proof.
  intros Ho Hv%word_spec Hi.
  assert (Hs : is_word 30 (student i)) by (apply (word_number 26 "Student"); [done|unfold count in Hi; lia]).
  assert (Hw : Forall (is_word 30) (op_tokens en o)) by (rewrite Ho; by repeat (apply Forall_cons_2; [done|])).
  destruct (word_request en o Hw) as (Hr & Hl & Hlen). split; [|done]. unfold cmd_key.
  rewrite Hl, Ho in Hlen. rewrite Hl, Ho. simpl String.concat in *. apply short_truncate. lia.
Qed.
Lemma asks_value en o verb value i :
  op_tokens en o = [prefix_of en +:+ verb; student i; numbered value i] → word 30 (prefix_of en +:+ verb) = true →
  word 26 value = true → 0 ≤ i < count →
  cmd_value (prefix_of en +:+ verb) value i = op_line en o ∧ request_ok (ROp en o).
Proof.
  intros Ho Hv%word_spec Hval Hi.
  assert (Hs : is_word 30 (student i)) by (apply (word_number 26 "Student"); [done|unfold count in Hi; lia]).
  assert (Hn : is_word 30 (numbered value i)) by (apply (word_number 26); [done|unfold count in Hi; lia]).
  assert (Hw : Forall (is_word 30) (op_tokens en o)) by (rewrite Ho; by repeat (apply Forall_cons_2; [done|])).
  destruct (word_request en o Hw) as (Hr & Hl & Hlen). split; [|done]. unfold cmd_value.
  rewrite Hl, Ho in Hlen. rewrite Hl, Ho. simpl String.concat in *. apply short_truncate. lia.
Qed.
(** The reply to a GET of the value of a number. *)
Lemma got_value value i :
  word 26 value = true → 0 ≤ i < count →
  r_text (value_reply (numbered value i)) = result_line value i ∧ (0 < String.length (result_line value i) < 1024)%nat.
Proof.
  intros Hv Hi. pose proof (wd_length _ _ (word_number 26 value i Hv ltac:(unfold count in Hi; lia))) as Hlen.
  assert (Hl : (String.length (numbered value i +:+ crlf) < 128)%nat) by (rewrite str_len_app; unfold numbered; simpl; lia).
  assert (Hr : result_line value i = numbered value i +:+ crlf).
  { unfold result_line, numbered in *. rewrite <-(str_app_assoc value). by apply short_truncate. }
  rewrite Hr. split; [|rewrite str_len_app in *; simpl in *; lia].
  simpl r_text. unfold truncate. apply substring_all. simpl. lia.
Qed.
(** ** The suites *)

(** A body that leaves the map as it found it: empty. *)
Definition keeps (body : prog (world Sv) unit) : Prop := ∀ ts e w Q,
  talking ts ∅ e w → (∀ e' w', talking ts ∅ e' w' → Q tt e' w') → wpp body e w Q.

Lemma keeps_student en : keeps (student_testcase peer (prefix_of en) sock).
Proof. intros ts e w Q. apply wpp_student. Qed.
Lemma keeps_repeat n body : 0 ≤ n → (∀ i, keeps (body i)) → keeps (repeat n body).
Proof.
  intros Hn Hb ts e w Q Ht HQ. apply (wpp_repeat (λ _, talking ts ∅)); [done..| |done].
  intros i e1 w1 _ Ht1. by apply (Hb i ts).
Qed.
(** A suite takes two readings of the clock, and time passes between them. *)
Lemma wpp_timed report body b t ts e w Q :
  keeps body → talking (b :: t :: ts) ∅ e w → to_int (TIME_SUB_MS t b) ≠ 0 →
  (∀ e' w', talking ts ∅ e' w' → Q tt e' w') → wpp (timed report body) e w Q.
Proof.
  intros Hb [Hs Hc Hu Hd Ht] Hpass HQ. unfold timed. apply wpp_bind, wpp_call. unfold gettimeofday. do 2 wp_step. rewrite Ht.
  do 3 wp_step. apply wpp_bind. apply (Hb (t :: ts)); [by split|]. clear Hs Hc Hu Hd Ht. intros e1 w1 [Hs Hc Hu Hd Ht].
  apply wpp_bind, wpp_call. unfold gettimeofday. do 2 wp_step. rewrite Ht. do 3 wp_step. cbv zeta.
  rewrite (proj2 (Z.eqb_neq _ _)) by done. apply wpp_call. unfold printf. wp_step. apply HQ. by split.
Qed.

(** The rows before and after the loops. *)
Definition none (i : Z) : option string := None.
Definition gulu (i : Z) : option string := Some (numbered "GuLu" i).
Definition lighting (i : Z) : option string := Some (numbered "Lighting" i).

Ltac phase_solve :=
  let i := fresh "i" in let Hi := fresh "Hi" in
  intros i Hi; split; [reflexivity|split; [unfold none, gulu, lighting; row_solve|split]];
  [first [eapply asks_value|eapply asks_key]; first [exact Hi|reflexivity|match goal with en : engine_name |- _ => by destruct en end]
  |first [by apply got_value|split; [reflexivity|simpl; lia]]].
(** The next loop: it starts from the rows of [Hf], and its operation and answers are
    given. *)
Ltac phase en after o a Ht Hf :=
  eapply (wpp_each _ en _ after _ _ _ o a);
  [exact Ht|first [exact Hf|exact (rows_next _ _ after _ Hf)]|phase_solve|clear Ht Hf; intros ? ? ? Ht Hf].
Lemma keeps_loops en last :
  keeps (
    each peer sock (cmd_value (prefix_of en +:+ "SET") "GuLu") (λ _, "OK" +:+ crlf) (prefix_of en +:+ "SET-Student-GuLu") ⨟
    each peer sock (cmd_key (prefix_of en +:+ "GET")) (result_line "GuLu") (prefix_of en +:+ "GET-Student") ⨟
    each peer sock (cmd_value (prefix_of en +:+ "MOD") "Lighting") (λ _, "OK" +:+ crlf) (prefix_of en +:+ "MOD-Student-Lighting") ⨟
    each peer sock (cmd_key (prefix_of en +:+ "GET")) (result_line "Lighting") (prefix_of en +:+ "GET-Student") ⨟
    each peer sock (cmd_key (prefix_of en +:+ "EXIST")) (λ _, "EXIST" +:+ crlf) (prefix_of en +:+ "EXIST-Student") ⨟
    each peer sock (cmd_key (prefix_of en +:+ "DEL")) (λ _, "OK" +:+ crlf) (prefix_of en +:+ "DEL-Student") ⨟
    each peer sock (cmd_key (prefix_of en +:+ "GET")) (λ _, "NO EXIST" +:+ crlf) (prefix_of en +:+ "GET-Student") ⨟
    each peer sock (cmd_value (prefix_of en +:+ "MOD") "Lian") (λ _, "NO EXIST" +:+ crlf) (prefix_of en +:+ last) ⨟
    each peer sock (cmd_key (prefix_of en +:+ "EXIST")) (λ _, "NO EXIST" +:+ crlf) (prefix_of en +:+ "EXIST-Student")).
Proof.
  intros ts e w Q Ht HQ. rewrite <-(table_empty en) in Ht.
  assert (Hf : rows 0 none gulu ∅) by (intros j; rewrite lookup_empty; by repeat case_decide; try lia).
  apply wpp_bind. phase en gulu (λ i, OpSet (student i) (numbered "GuLu" i)) (λ _ : Z, ACode 0) Ht Hf.
  apply wpp_bind. phase en gulu (λ i, OpGet (student i)) (λ i, AValue (PStr (numbered "GuLu" i))) Ht Hf.
  apply wpp_bind. phase en lighting (λ i, OpMod (student i) (numbered "Lighting" i)) (λ _ : Z, ACode 0) Ht Hf.
  apply wpp_bind. phase en lighting (λ i, OpGet (student i)) (λ i, AValue (PStr (numbered "Lighting" i))) Ht Hf.
  apply wpp_bind. phase en lighting (λ i, OpExist (student i)) (λ _ : Z, ACode 0) Ht Hf.
  apply wpp_bind. phase en none (λ i, OpDel (student i)) (λ _ : Z, ACode 0) Ht Hf.
  apply wpp_bind. phase en none (λ i, OpGet (student i)) (λ _ : Z, AValue PNull) Ht Hf.
  apply wpp_bind. phase en none (λ i, OpMod (student i) (numbered "Lian" i)) (λ _ : Z, ACode 1) Ht Hf.
  phase en none (λ i, OpExist (student i)) (λ _ : Z, ACode 1) Ht Hf.
  rewrite (rows_none _ _ Hf), table_empty in Ht. by apply HQ.
Qed.

(** Every suite of [main] takes some time: at least a millisecond by the clock. *)
Fixpoint time_passes (suites : nat) (ts : list (Z * Z)) : Prop :=
  match suites, ts with
  | O, _ => True
  | S n, b :: t :: ts' => to_int (TIME_SUB_MS t b) ≠ 0 ∧ time_passes n ts'
  | S _, _ => False
  end.
Lemma wpp_suite n report body ts e w Q :
  keeps body → talking ts ∅ e w → time_passes (S n) ts →
  (∀ ts' e' w', talking ts' ∅ e' w' → time_passes n ts' → Q tt e' w') → wpp (timed report body) e w Q.
Proof.
  intros Hb Ht Hts HQ. destruct ts as [|b [|t ts]]; [done..|]. destruct Hts as [Hne Hts].
  eapply wpp_timed; [done..|]. intros e' w' Ht'. by eapply HQ.
Qed.
Lemma keeps_1w en : keeps (repeat count (λ _, student_testcase peer (prefix_of en) sock)).
Proof. apply keeps_repeat; [done|]. intros _. apply keeps_student. Qed.

Ltac suite lem Ht Hts := eapply wpp_suite; [apply lem|exact Ht|exact Hts|clear Ht Hts; intros ? ? ? Ht Hts].
(** [main] returns 0: no case has a reply other than the expected one. *)
Lemma wpp_main arg0 ip arg2 x ts e (Q : Z → env → world Sv → Prop) :
  ts_up e x → time_passes 8 ts → (∀ e' w', ts_holds ∅ e' (w_server w') → Q 0 e' w') →
  wpp (TestProgram.main peer sock [arg0; ip; arg2]) e (World x None "" "" ts []) Q.
Proof.
  intros Hup Hts HQ. unfold TestProgram.main. apply wpp_bind, wpp_call. unfold connect_tcpserver.
  rewrite (proj2 (Z.ltb_ge _ _)) by done. wp_step. apply wp_zoom. eapply wp_mono; [by apply ts_reach|]. intros ok e1 s1 [-> Hs].
  do 2 wp_step. wp_step. assert (Ht : talking ts ∅ e1 (w_set_conn (Some sock) (w_set_server s1 (World x None "" "" ts [])))) by done.
  revert Ht. generalize (w_set_conn (Some sock) (w_set_server s1 (World x None "" "" ts []))). intros w Ht. clear Hs Hup.
  apply wpp_bind. suite (keeps_1w ERbtree) Ht Hts.
  apply wpp_bind. suite (keeps_loops ERbtree) Ht Hts.
  apply wpp_bind. suite (keeps_1w EArray) Ht Hts.
  apply wpp_bind. suite (keeps_loops EArray) Ht Hts.
  apply wpp_bind. suite (keeps_1w EHash) Ht Hts.
  apply wpp_bind. suite (keeps_loops EHash) Ht Hts.
  apply wpp_bind. suite (keeps_1w ESkip) Ht Hts.
  apply wpp_bind. eapply (keeps_student EHash); [exact Ht|]. clear Ht. intros ? ? Ht.
  apply wpp_bind. eapply (keeps_student ESkip); [exact Ht|]. clear Ht. intros ? ? Ht.
  apply wpp_bind. suite (keeps_loops ESkip) Ht Hts.
  apply wpp_ret. apply HQ. apply Ht.
Qed.
End passes.
