(* ===== verification/TestRuns.v ===== *)
(** The test program against the three builds: it passes with the reactor and with the
    coroutine server; with io_uring it does not. *)
From S2P Require Import Prelude CText KvsSpec Rdb RdbProof Protocol Requests Dispatch Engines Session Netio Reactor ReactorProof Clients Proactor ProactorProof NtySched NtyRules Ntyco NtycoProof NtyClients TestProgram TestProof.

Local Open Scope Z_scope.

(** * The servers as the other end of a connection *)

(** The bytes sent to [fd]. *)
Definition bytes_to (fd : Z) (sent : list (Z * string)) : string :=
  String.concat "" (filter (λ x, x.1 = fd) sent).*2.
(** A connection arrives; the bytes of the client do, and what the server sends to [fd]
    until it waits again comes back. *)
Definition peer_of {Sv} (fd : Z) (sent : Sv → list (Z * string)) (arrive : M Sv unit) (run : string → M Sv unit) : remote Sv :=
  Remote
    (λ _ _, arrive;; mret true)
    (λ data,
      before ← gets (λ s, length (sent s));
      run data;;
      after ← gets sent;
      mret (bytes_to fd (drop before after))).

(** At the reactor the connection comes to the listening socket [l]; its bytes are
    reported, then that the reply can be sent. *)
Definition reactor_peer (l fd : Z) : remote (server store) :=
  peer_of fd (λ σ, k_sent (sv_kernel σ))
    (mainloop kvs_handler [[Event l EPOLLIN (Answers fd None 0 0)]])
    (λ data, mainloop kvs_handler
      [[Event fd EPOLLIN (Answers (-1) (Some data) 0 0)]; [Event fd EPOLLOUT (Answers (-1) None BUFFER_LENGTH 0)]]).
(** In the coroutine server, on the socket [lfd], the reader starts in the turn after the
    arrival, and sends the reply in the turn of the request. *)
Definition ntyco_peer (lfd fd : Z) : remote (process frame (nworld store)) :=
  peer_of fd (λ s, k_sent (pr_kernel s))
    (run_turns (ny_body kvs_handler) [Turn 0 [] [Event lfd POLLIN (Answers fd None 0 0)]; Turn 0 [] []])
    (λ data, run_turns (ny_body kvs_handler) [Turn 0 [] [Event fd POLLIN (Answers (-1) (Some data) BUFFER_LENGTH 0)]]).
(** In the ring of the io_uring server, listening on [lfd], the accept is the first
    operation in flight, and the one of the connection the second. *)
Definition proactor_peer (lfd fd : Z) : remote (pserver store) :=
  peer_of fd ps_sent
    (proactor_loop kvs_handler lfd [[(0%nat, Answers fd None 0 0)]])
    (λ data, proactor_loop kvs_handler lfd
      [[(1%nat, Answers 0 (Some data) 0 0)]; [(1%nat, Answers 0 None BUFFER_LENGTH 0)]]).

(** What came back is what was added to the history. *)
Lemma wp_peer_answer {Sv} fd sent arrive (run : string → M Sv unit) data t e s Q :
  wp (run data) e s (λ _ e' s', sent s' = sent s ++ [(fd, t)] ∧ Q t e' s') →
  wp (rm_answer (peer_of fd sent arrive run) data) e s Q.
Proof.
  intros H. simpl. do 2 wp_step. wp_step. eapply wp_mono; [exact H|]. intros ? e' s' [Hs HQ]. do 2 wp_step. wp_step.
  rewrite Hs, drop_app_length. unfold bytes_to. by rewrite filter_cons_True.
Qed.
Lemma in_default o : in_ns "default" o = o.
Proof. by destruct o. Qed.

(** ** The reactor *)

Section reactor.
Context (fs : gmap string string) (L U : gset Z) (l fd : Z).
Context (Hl : l ∈ L) (Hfd : fd ∉ U ∪ L) (Hrange : 0 ≤ fd < Z.of_nat CONNECTION_SIZE).

(** The reactor is in a state of the clients' view. *)
Definition views_of (s : mserver) (e : env) (σ : server store) : Prop :=
  ∃ a, hosts fs L s e a ∧ serves L U a σ.
Lemma wp_batches bs s s' e σ :
  views_of s e σ → Forall client_ok (concat bs) → ms_loop L U bs s = Some s' →
  wp (mainloop kvs_handler (events_of <$> bs)) e σ (λ _ e' σ', views_of s' e' σ').
Proof.
  intros (a & Hh & Hs) Hok Hev. eapply wp_mono; [eapply wp_mainloop; [exact Hs|by eapply loop_served]|].
  intros ? e' σ' (a' & Hh' & Hs'). by exists a'.
Qed.
Lemma views_sent s e σ : views_of s e σ → k_sent (sv_kernel σ) = ms_sent s.
Proof. intros (a & Hh & Hs). by rewrite (se_sent _ _ _ _ Hs), (ho_sent _ _ _ _ _ Hh). Qed.

Program Definition reactor_test_server : TestServer (reactor_peer l fd) := {|
  ts_up e σ := views_of ms_empty e σ;
  ts_holds m e σ := ∃ s, views_of s e σ ∧ ms_map s = m ∧ ms_links s !! fd = Some (Link "default" None)
|}.
Next Obligation.
  intros ip port e σ Hv. simpl. wp_step. eapply wp_mono; [apply (wp_batches [[CConnect l fd]] ms_empty (MServer ∅ {[ fd := Link "default" None ]} [])); [done|by repeat constructor|]|].
  - simpl. rewrite !bool_decide_eq_true_2 by (done || by apply NoDup_singleton).
    by rewrite (proj2 (Z.leb_le _ _)), (proj2 (Z.ltb_lt _ _)) by lia.
  - intros ? e' σ' Hv'. wp_step. split; [done|]. eexists. split; [exact Hv'|]. split; [done|]. simpl. by rewrite lookup_singleton_eq.
Qed.
Next Obligation.
  intros m en o e σ (s & Hv & <- & Hlink) Hr Hal.
  set (t := r_text (reply_of o (tag_step en o (ms_map s)).1)).
  set (s' := MServer (tag_step en o (ms_map s)).2 (<[fd := Link "default" None]> (ms_links s)) (ms_sent s ++ [(fd, t)])).
  eapply (wp_peer_answer fd _ _ _ _ t).
  eapply wp_mono; [apply (wp_batches [[CRequest fd (ROp en o)]; [CReply fd]] s s'); [done|simpl; by repeat (apply Forall_cons_2; [done|])|]|].
  - cbn [ms_loop ms_events ms_event ms_ready forallb goes answer_of]. rewrite Hlink, in_default, Hal.
    rewrite !bool_decide_eq_true_2 by apply NoDup_singleton. unfold s', t. simpl.
    destruct (tag_step en o (ms_map s)) as [a m']. simpl. rewrite lookup_insert_eq. simpl.
    by rewrite insert_insert_eq.
  - intros ? e' σ' Hv'. split; [by rewrite (views_sent _ _ _ Hv'), (views_sent _ _ _ Hv)|]. split; [done|].
    exists s'. split; [done|]. split; [done|]. simpl. by rewrite lookup_insert_eq.
Qed.
End reactor.

(** ** The coroutine server *)

Section ntyco.
Context (fs : gmap string string) (U : gset Z) (lfd evfd fd : Z).
Context (Hev : evfd ∈ U) (Hlfd : lfd ∉ U) (Hfd : fd ∉ U) (Hne : fd ≠ lfd) (Hrange : 0 ≤ fd).

Definition nviews_of (s : nmodel) (e : env) (p : process frame (nworld store)) : Prop :=
  ny_implements lfd U evfd (λ e a, nhosts lfd fs s e a) e p.
Lemma wp_nbatches bs s s' e p :
  nviews_of s e p → Forall step_ok (concat bs) → nm_batches lfd U bs s = Some s' →
  wp (run_turns (ny_body kvs_handler) (batch_turn lfd <$> bs)) e p (λ _ e' p', nviews_of s' e' p').
Proof.
  intros (a & Hh & Hs) Hok Hb. eapply (wp_ny_turns kvs_handler lfd U evfd Hev Hlfd); [exact Hs|].
  by eapply batches_hosts.
Qed.
Lemma nviews_sent s e p : nviews_of s e p → k_sent (pr_kernel p) = nm_sent s.
Proof. intros (a & Hh & x0 & ws & rd & _ & Hs & _). by rewrite (sv_history _ _ _ _ _ _ _ Hs), (nh_sent _ _ _ _ _ Hh). Qed.

Program Definition ntyco_test_server : TestServer (ntyco_peer lfd fd) := {|
  ts_up e p := nviews_of nm_empty e p;
  ts_holds m e p := ∃ s, nviews_of s e p ∧ nm_map s = m ∧ nm_new s = None ∧ nm_links s !! fd = Some (NLink "default" None)
|}.
Next Obligation.
  intros ip port e p Hv. simpl. wp_step.
  eapply wp_mono; [apply (wp_nbatches [[NArrive fd]; []] nm_empty (NModel ∅ {[ fd := NLink "default" None ]} None [])); [done|by repeat constructor|]|].
  - cbn [nm_batches rev app nm_steps nm_step forallb]. change (ev_fd (step_event lfd (NArrive fd))) with lfd.
    rewrite Z.eqb_refl. cbn [fmap list_fmap]. rewrite (bool_decide_eq_true_2 (NoDup [_])) by apply NoDup_singleton. simpl. unfold nm_step. simpl.
    by rewrite (bool_decide_eq_true_2 (fd ∉ U)), (proj2 (Z.eqb_neq _ _)), (proj2 (Z.leb_le 0 fd)) by done.
  - intros ? e' p' Hv'. wp_step. split; [done|]. eexists. split; [exact Hv'|]. split_and!; [done..|]. simpl. by rewrite lookup_singleton_eq.
Qed.
Next Obligation.
  intros m en o e p (s & Hv & <- & Hnew & Hlink) Hr Hal.
  set (t := r_text (reply_of o (tag_step en o (nm_map s)).1)).
  set (s' := NModel (tag_step en o (nm_map s)).2 (<[fd := NLink "default" None]> (nm_links s)) None (nm_sent s ++ [(fd, t)])).
  eapply (wp_peer_answer fd _ _ _ _ t).
  eapply wp_mono; [apply (wp_nbatches [[NAsk fd (ROp en o) BUFFER_LENGTH]] s s'); [done|simpl; by repeat (apply Forall_cons_2; [done|])|]|].
  - destruct Hv as (a & Hh & _). pose proof (reply_of_text en "default" o _ (nh_values _ _ _ _ _ Hh) Hr) as [Hrb%reply_bytes_le _].
    rewrite in_default, <-(tag_step_answer en) in Hrb. fold t in Hrb.
    cbn [nm_batches rev app nm_steps nm_step forallb]. unfold nm_start. rewrite Hnew.
    cbn [fmap list_fmap]. rewrite (bool_decide_eq_true_2 (NoDup [_])) by apply NoDup_singleton. change (ev_fd (step_event lfd (NAsk fd ?r ?n))) with fd.
    rewrite (bool_decide_eq_true_2 (is_Some _)) by by eexists. rewrite orb_true_r. cbn [andb]. unfold nm_step.
    rewrite Hnew, Hlink. cbn [answer_of goes]. rewrite in_default, Hal. unfold s', nm_take.
    assert (Ht : r_text (reply_of o (tag_step en o (nm_map s)).1) = t) by done.
    destruct (tag_step en o (nm_map s)) as [ans m']. simpl in Ht. rewrite Ht. change (true && (0 <? BUFFER_LENGTH)) with true. cbv iota.
    rewrite (proj2 (Z.leb_le _ _)), str_take_ge by (done || lia). by rewrite Hnew.
  - intros ? e' p' Hv'. split; [by rewrite (nviews_sent _ _ _ Hv'), (nviews_sent _ _ _ Hv)|]. split; [done|].
    exists s'. split; [done|]. split_and!; [done..|]. simpl. by rewrite lookup_insert_eq.
Qed.
End ntyco.

(** * The program runs *)

(** The state of the client before [main], with the readings of its clock. *)
Definition new_world {Sv} (s : Sv) (ts : list (Z * Z)) : world Sv := World s None "" "" ts [].


(** C24: the test program passes against the default build: from [main] of the server on
    a disk without a dump, the test program connects, sends its 720,018 requests to the
    four engines (10,000 rounds of nine requests on one key, and nine loops over 10,000
    keys, for every engine) and returns 0, as long as every suite takes time by its
    clock: no reply is other than the expected one, and neither side reaches
    undefined behaviour. *)
Theorem test_program_passes fs U arg0 arg1 socks now l fd sock arg ip port ts e :
  no_oom e → fs !! RDB_FILENAME = None → length socks = MAX_PORTS → sockets_ok U socks →
  l ∈ socks.*1 → fd ∉ U ∪ list_to_set socks.*1 → 0 ≤ fd < Z.of_nat CONNECTION_SIZE → 0 ≤ sock → time_passes 8 ts →
  wp (Clients.main [arg0; arg1] socks now []) e (boot_server (boot_store fs) U) (λ _ e' σ,
    wp (TestProgram.main (reactor_peer l fd) sock [arg; ip; port]) e' (new_world σ ts) (λ r _ _, r = Goes 0)).
Proof.
  intros He Hfs Hlen Hok Hl Hfd Hrange Hsock Hts.
  assert (HL : l ∈ (list_to_set socks.*1 : gset Z)) by by apply elem_of_list_to_set.
  pose (I := reactor_test_server fs (list_to_set socks.*1) U l fd HL Hfd Hrange).
  unfold Clients.main. wp_step. apply wp_zoom. apply wp_init_fresh; [done..|].
  intros e1 s1 He1 Hs1. apply started_new, started_serving in Hs1. wp_step.
  eapply wp_mono; [eapply (wp_reactor_start kvs_handler U _ socks now [] s1 e1
    (λ e' a, hosts fs (list_to_set socks.*1) ms_empty e' a)); [done..|]|].
  - split; try done. by exists "default".
  - intros ? e2 σ (a & Hh & Hs). wp_step. eapply wp_mono.
    + apply (wpp_main (TestServer0 := I) (reactor_peer l fd) sock Hsock arg ip port σ ts e2 (λ r _ _, r = 0)); [by exists a|done|done].
    + by intros [r|c] e3 w H; [rewrite H|].
Qed.
(** Readings of the clock: every suite takes a second. *)
Definition sample_clock : list (Z * Z) := (λ i, (Z.of_nat i, 0)) <$> seq 0 16.
Lemma test_program_passes_witness :
  wp (Clients.main ["kvstore"; "8000"] sample_sockets 0 []) (Env [] [] [] [] 0) (boot_server (boot_store ∅) sample_used) (λ _ e σ,
    wp (TestProgram.main (reactor_peer 4 24) 3 ["testcase"; "127.0.0.1"; "8000"]) e (new_world σ sample_clock) (λ r _ _, r = Goes 0)).
Proof.
  apply (test_program_passes ∅ sample_used "kvstore" "8000" sample_sockets 0 4 24 3 "testcase" "127.0.0.1" "8000" sample_clock (Env [] [] [] [] 0)).
  - constructor.
  - reflexivity.
  - reflexivity.
  - apply sample_sockets_ok.
  - left.
  - apply (bool_decide_unpack (_ ∉ _)). vm_compute. exact I.
  - unfold CONNECTION_SIZE. lia.
  - lia.
  - repeat split; vm_compute; discriminate.
Defined.

(** C25: the test program passes against the build with coroutines as well. *)
Theorem ntyco_passes_tests fs U poller evfd lfd now b fd sock arg ip port ts e :
  no_oom e → fs !! RDB_FILENAME = None → poller ≠ -1 → evfd ≠ -1 → 0 ≤ lfd → lfd ∉ ny_used poller evfd U →
  fd ∉ ny_used poller evfd U → fd ≠ lfd → 0 ≤ fd → 0 ≤ sock → time_passes 8 ts →
  wp (ntyco_main poller evfd [first_turn lfd (Turn b [] [])]) e (boot_nserver (boot_store fs) U now) (λ _ e' p,
    wp (TestProgram.main (ntyco_peer lfd fd) sock [arg; ip; port]) e' (new_world p ts) (λ r _ _, r = Goes 0)).
Proof.
  intros He Hfs Hp Hev H0 Hl Hfd Hne Hrange Hsock Hts.
  assert (HevU : evfd ∈ ny_used poller evfd U) by (unfold ny_used; set_solver).
  pose (I := ntyco_test_server fs (ny_used poller evfd U) lfd evfd fd HevU Hl Hfd Hne Hrange).
  unfold ntyco_main. wp_step. apply wp_zoom. apply wp_init_fresh; [done..|].
  intros e1 s1 He1 Hs1. apply started_new, started_serving in Hs1.
  eapply wp_mono; [apply (wp_ntyco_start kvs_handler U poller evfd lfd now s1 (Turn b [] []) [] e1
    (λ e' a, nhosts lfd fs nm_empty e' a)); [done|done|..|done|done|]|].
  - by apply no_oom_fails.
  - by apply no_oom_fails, no_oom_after.
  - split; [by split; constructor|]. simpl. wp_step. split; try done; [by exists "default"|]. by do 2 apply no_oom_after.
  - intros ? e2 p Hv. eapply wp_mono.
    + apply (wpp_main (TestServer0 := I) (ntyco_peer lfd fd) sock Hsock arg ip port p ts e2 (λ r _ _, r = 0)); [exact Hv|done|done].
    + by intros [r|c] e3 w H; [rewrite H|].
Qed.
Lemma ntyco_passes_tests_witness :
  wp (ntyco_main 4 5 [first_turn 6 (Turn 1 [] [])]) (Env [] [] [] [] 0) (boot_nserver (boot_store ∅) sample_ny_used 0) (λ _ e p,
    wp (TestProgram.main (ntyco_peer 6 11) 3 ["testcase"; "127.0.0.1"; "8000"]) e (new_world p sample_clock) (λ r _ _, r = Goes 0)).
Proof.
  apply (ntyco_passes_tests ∅ sample_ny_used 4 5 6 0 1 11 3 "testcase" "127.0.0.1" "8000" sample_clock (Env [] [] [] [] 0)).
  - constructor.
  - reflexivity.
  - lia.
  - lia.
  - lia.
  - apply (bool_decide_unpack (_ ∉ _)). vm_compute. exact I.
  - apply (bool_decide_unpack (_ ∉ _)). vm_compute. exact I.
  - lia.
  - lia.
  - lia.
  - repeat split; vm_compute; discriminate.
Defined.

(** ** The io_uring build *)

Definition test_seen (o : outcome (or_exit Z * env * world (pserver store))) : option (or_exit Z * list (Z * string)) :=
  match o with Ret (r, _, w) => Some (r, ps_sent (w_server w)) | _ => None end.
(** C33: the test program fails against the io_uring build, whatever its clock reads: the
    request REXIST Student is shorter than RMOD Student Lighting before it, and is
    read on into the old bytes as REXIST Studentighting.  The fifth reply is NO EXIST
    instead of EXIST, and the program exits with 1. *)
Theorem io_uring_fails_tests arg ip port ts n :
  let e := Env [] [] [] [] n in
  wp (proactor_main (4, 0) []) e (boot_pserver (boot_store ∅) sample_used) (λ _ e' s,
    test_seen (TestProgram.main (proactor_peer 4 24) 3 [arg; ip; port] e' (new_world s ts)) =
      Some (Exits 1, [(24, OK_MSG); (24, "GuLu" +:+ crlf); (24, OK_MSG); (24, "Lighting" +:+ crlf); (24, NO_EXIST_MSG)])).
Proof. destruct ts; vm_compute; reflexivity. Qed.
